(** * QualCoder REFI-QDA interchange engine (qualcoder/refi.py)

    A shallow embedding of the parts of [refi.py] that carry the
    algorithmic content of the import and export pipelines, and their
    properties.

    - [Py]         the fragment of Python the code relies on: exceptions,
                   [int()], slicing, [str.split], [str.replace], a stable
                   [sorted];
    - [Re]         the regular expressions of [get_transcript_timepoints]
                   and [re.finditer] over them;
    - [Timepoints] [RefiExport.get_transcript_timepoints];
    - [Guid]       [RefiExport.create_guid];
    - [Xml], [Db]  lxml elements, and the SQLite tables the importer fills,
                   with the UNIQUE constraints that its inserts meet;
    - [RefiImport] [sub_codes], the SyncPoint and TranscriptSelection part of
                   [parse_transcript_with_codings_and_syncpoints],
                   [_load_codings_for_picture], [insert_annotation],
                   [parse_case_for_file_variables],
                   [fill_file_attribute_values] and [parse_cases];
    - [Codebook]   [RefiExport.codebook_xml] and [add_sub_categories];
    - [PyStr]      [str.find], [str.split] on a string, and [str] of an
                   integer;
    - [RefiImport] also [import_codebook], [parse_users],
                   [parse_variables], [parse_variable_value], [parse_sets]
                   and the source-path helper;
    - [Selections] [_load_codings_for_text],
                   [load_codings_for_audio_video] and
                   [clean_up_case_codes_and_case_text];
    - [RefiExport] [convert_timestamp], [user_guid], [code_guid],
                   [get_transcript_syncpoints],
                   [get_transcript_selections] and
                   [codebook_exchange_xml].

    Strings are ASCII: one [ascii] per character. *)

From Stdlib Require Import ZArith List String Ascii Bool Arith Lia.
From Stdlib Require DecimalString DecimalPos.
Import ListNotations.

Set Warnings "-register-all".

Local Open Scope string_scope.
Local Open Scope Z_scope.

(* ================================================================== *)
(** * The Python fragment *)

Module Py.

(** The exceptions that the modelled code can raise. *)
Inductive exn : Type :=
| TypeError | ValueError | KeyError | IndexError | AttributeError
| IntegrityError.

(** A computation either returns a value or raises. *)
Inductive result (A : Type) : Type :=
| Ok (a : A)
| Raise (e : exn).
Arguments Ok {A} a.
Arguments Raise {A} e.

Definition bind {A B} (m : result A) (k : A -> result B) : result B :=
  match m with
  | Ok a => k a
  | Raise e => Raise e
  end.

Definition is_ok {A} (m : result A) : bool :=
  match m with Ok _ => true | Raise _ => false end.

(** A statement that the database refuses raises [e]. *)
Definition or_raise {A} (x : option A) (e : exn) : result A :=
  match x with Some a => Ok a | None => Raise e end.

(** [for x in l: acc = body acc x], stopping at the first exception. *)
Fixpoint for_each {A S} (l : list A) (body : S -> A -> result S) (acc : S)
  : result S :=
  match l with
  | [] => Ok acc
  | x :: l' => bind (body acc x) (for_each l' body)
  end.

(** [try: ... except KeyError: pass] around a statement that updates [acc]. *)
Definition except_KeyError_pass {S} (acc : S) (m : result S) : result S :=
  match m with
  | Raise KeyError => Ok acc
  | _ => m
  end.

(** ** Characters and strings *)

Definition chars (s : string) : list ascii := list_ascii_of_string s.
Definition str (l : list ascii) : string := string_of_list_ascii l.

Definition len (s : string) : Z := Z.of_nat (String.length s).

Definition is_digit (c : ascii) : bool :=
  let n := nat_of_ascii c in (48 <=? n)%nat && (n <=? 57)%nat.

(** ASCII characters for which [str.isspace] holds (also what [\s] matches
    in a [str] pattern): TAB, LF, VT, FF, CR, FS, GS, RS, US and space. *)
Definition is_space (c : ascii) : bool :=
  let n := nat_of_ascii c in
  ((9 <=? n)%nat && (n <=? 13)%nat) || ((28 <=? n)%nat && (n <=? 32)%nat).

Definition is_hex (c : ascii) : bool :=
  let n := nat_of_ascii c in
  ((48 <=? n)%nat && (n <=? 57)%nat) ||
  ((97 <=? n)%nat && (n <=? 102)%nat) ||
  ((65 <=? n)%nat && (n <=? 70)%nat).

(** Slice bounds: a negative index counts from the end, and both ends are
    clamped to [0, len]. *)
Definition clamp (n i : Z) : nat :=
  let j := if i <? 0 then i + n else i in
  Z.to_nat (Z.max 0 (Z.min n j)).

(** [l[a:b]], where [None] is an omitted bound. *)
Definition slice_list {A} (l : list A) (a b : option Z) : list A :=
  let n := Z.of_nat (List.length l) in
  let lo := match a with Some i => clamp n i | None => 0%nat end in
  let hi := match b with Some i => clamp n i | None => List.length l end in
  firstn (hi - lo) (skipn lo l).

Definition slice (s : string) (a b : option Z) : string :=
  str (slice_list (chars s) a b).

(** [l[i]] for a non-negative literal [i]. *)
Definition index {A} (l : list A) (i : nat) : result A :=
  match nth_error l i with
  | Some x => Ok x
  | None => Raise IndexError
  end.

(** [s.split(sep)] for a one-character separator. *)
Fixpoint split_chars (sep : ascii) (cur : list ascii) (l : list ascii)
  : list string :=
  match l with
  | [] => [str (rev cur)]
  | c :: l' =>
      if Ascii.eqb c sep then str (rev cur) :: split_chars sep [] l'
      else split_chars sep (c :: cur) l'
  end.

Definition split (s : string) (sep : ascii) : list string :=
  split_chars sep [] (chars s).

(** [s.replace(a, b)] for one-character [a]. *)
Fixpoint replace_chars (a : ascii) (b : list ascii) (l : list ascii)
  : list ascii :=
  match l with
  | [] => []
  | c :: l' =>
      if Ascii.eqb c a then b ++ replace_chars a b l'
      else c :: replace_chars a b l'
  end.

Definition replace (s : string) (a : ascii) (b : string) : string :=
  str (replace_chars a (chars b) (chars s)).

(** ** [int(s)] on ASCII text

    Surrounding whitespace is stripped, one sign is allowed, and the digits
    may be grouped by single underscores.  Anything else is a [ValueError]. *)

Fixpoint lstrip (l : list ascii) : list ascii :=
  match l with
  | c :: l' => if is_space c then lstrip l' else l
  | [] => []
  end.

Definition strip (l : list ascii) : list ascii :=
  rev (lstrip (rev (lstrip l))).

Definition digit_val (c : ascii) : Z := Z.of_nat (nat_of_ascii c) - 48.

(** [after_digit] tells whether the previous character was a digit, which
    is where an underscore or the end of the text may follow. *)
Fixpoint digits_value (after_digit : bool) (acc : Z) (l : list ascii)
  : option Z :=
  match l with
  | [] => if after_digit then Some acc else None
  | c :: l' =>
      if is_digit c then digits_value true (10 * acc + digit_val c) l'
      else if Ascii.eqb c "_" then
        if after_digit then digits_value false acc l' else None
      else None
  end.

Definition int_of_chars (l : list ascii) : option Z :=
  match strip l with
  | "-"%char :: l' => option_map Z.opp (digits_value false 0 l')
  | "+"%char :: l' => digits_value false 0 l'
  | l' => digits_value false 0 l'
  end.

Definition int_str (s : string) : result Z :=
  match int_of_chars (chars s) with
  | Some z => Ok z
  | None => Raise ValueError
  end.

(** [int(x)] where [x] may be [None] (an absent XML attribute). *)
Definition int (x : option string) : result Z :=
  match x with
  | Some s => int_str s
  | None => Raise TypeError
  end.

(** [len(x)] where [x] may be [None]. *)
Definition len_opt (x : option string) : result Z :=
  match x with
  | Some s => Ok (len s)
  | None => Raise TypeError
  end.

(** ** [sorted(l, key=itemgetter(0))]: a stable sort on the first component *)

(** [x] goes in front of the first element whose key is not smaller, so an
    element stays ahead of the later ones that share its key. *)
Fixpoint insert_by_key {B} (x : Z * B) (l : list (Z * B)) : list (Z * B) :=
  match l with
  | [] => [x]
  | y :: l' =>
      if fst y <? fst x then y :: insert_by_key x l'
      else x :: l
  end.

Definition sorted_by_key {B} (l : list (Z * B)) : list (Z * B) :=
  fold_right insert_by_key [] l.

(** The list is in non-decreasing order of its keys. *)
Fixpoint keys_ascending {B} (l : list (Z * B)) : Prop :=
  match l with
  | [] => True
  | x :: l' =>
      match l' with
      | [] => True
      | y :: _ => fst x <= fst y
      end /\ keys_ascending l'
  end.

End Py.

Module Notations.
Notation "x <- m ;; k" := (Py.bind m (fun x => k))
  (at level 61, m at next level, right associativity).
End Notations.
Import Notations.

(* ================================================================== *)
(** * More of the Python fragment: substrings and [str(int)] *)

Module PyStr.

(** [l] begins with [p]. *)
Fixpoint starts_with (p l : list ascii) : bool :=
  match p, l with
  | [], _ => true
  | a :: p', b :: l' => Ascii.eqb a b && starts_with p' l'
  | _ :: _, [] => false
  end.

(** [s.find(sub)]: the lowest index at which [sub] stands in [s], or -1. *)
Fixpoint find_from (sub : list ascii) (pos : Z) (l : list ascii) : Z :=
  if starts_with sub l then pos
  else match l with
       | [] => -1
       | _ :: l' => find_from sub (pos + 1) l'
       end.

Definition find (s sub : string) : Z :=
  find_from (Py.chars sub) 0 (Py.chars s).

(** [s.split(sep)] for a separator of one character or more: [s] is cut at
    the occurrences of [sep], taken from left to right without overlap.
    [skip] counts the characters of the separator still to be passed, and
    [cur] holds the current piece, reversed. *)
Fixpoint split_from (sep : list ascii) (skip : nat) (cur : list ascii)
    (l : list ascii) : list string :=
  match l with
  | [] => [Py.str (rev cur)]
  | c :: l' =>
      match skip with
      | S k => split_from sep k cur l'
      | O =>
          if starts_with sep l
          then Py.str (rev cur) :: split_from sep (List.length sep - 1) [] l'
          else split_from sep 0 (c :: cur) l'
      end
  end.

Definition split (s sep : string) : list string :=
  split_from (Py.chars sep) 0 [] (Py.chars s).

(** [str(n)] of an integer: its decimal digits, after a minus sign when it
    is negative. *)
Definition of_int (n : Z) : string :=
  DecimalString.NilZero.string_of_int (Z.to_int n).

(** [sub] does not occur in [s]. *)
Definition absent (sub s : string) : Prop := find s sub = -1.

(** No character of [s] is [c]. *)
Definition without (c : ascii) (s : string) : Prop :=
  Forall (fun x => x <> c) (Py.chars s).

End PyStr.

(* ================================================================== *)
(** * Regular expressions of the time-stamp markers *)

Module Re.

(** A character class of the patterns: [[0-9]], [\s], or one literal. *)
Inductive cclass : Type :=
| Digit
| Space
| Lit (c : ascii).

Definition in_class (k : cclass) (c : ascii) : bool :=
  match k with
  | Digit => Py.is_digit c
  | Space => Py.is_space c
  | Lit d => Ascii.eqb c d
  end.

(** A class under a greedy quantifier [{lo,hi}]; [x] is [{1,1}] and [x?] is
    [{0,1}]. *)
Record atom : Type := { cls : cclass; lo : nat; hi : nat }.

Definition one (k : cclass) : atom := {| cls := k; lo := 1; hi := 1 |}.
Definition opt (k : cclass) : atom := {| cls := k; lo := 0; hi := 1 |}.
Definition rep (k : cclass) (a b : nat) : atom := {| cls := k; lo := a; hi := b |}.

(** A pattern is a sequence of quantified classes. *)
Definition regex : Type := list atom.

Definition d : atom := one Digit.
Definition lit (c : ascii) : atom := one (Lit c).

(** Number of leading characters of [s] in the class, at most [limit]. *)
Fixpoint run_length (p : ascii -> bool) (limit : nat) (s : list ascii) : nat :=
  match limit, s with
  | S l, c :: s' => if p c then S (run_length p l s') else 0%nat
  | _, _ => 0%nat
  end.

(** Length of the match of [r] at the head of [s]: a backtracking matcher
    that tries the longest repetition of each atom first. *)
Fixpoint match_here (r : regex) (s : list ascii) : option nat :=
  match r with
  | [] => Some 0%nat
  | a :: r' =>
      (fix back (n : nat) : option nat :=
         let attempt :=
           if (lo a <=? n)%nat
           then option_map (Nat.add n) (match_here r' (skipn n s))
           else None in
         match attempt with
         | Some m => Some m
         | None => match n with
                   | O => None
                   | S n' => back n'
                   end
         end) (run_length (in_class (cls a)) (hi a) s)
  end.

(** [re.finditer]: the non-overlapping matches from left to right, each as
    [(match.span()[0], match.group())].  [skip] counts the characters of the
    last match still to be passed.  None of the patterns below matches the
    empty string, so empty matches are not produced. *)
Fixpoint finditer_from (r : regex) (skip pos : nat) (s : list ascii)
  : list (Z * string) :=
  match s with
  | [] => []
  | _ :: s' =>
      match skip with
      | S k => finditer_from r k (S pos) s'
      | O =>
          match match_here r s with
          | Some (S l) =>
              (Z.of_nat pos, Py.str (firstn (S l) s))
                :: finditer_from r l (S pos) s'
          | _ => finditer_from r 0 (S pos) s'
          end
      end
  end.

Definition finditer (r : regex) (text : string) : list (Z * string) :=
  finditer_from r 0 0 (Py.chars text).

(** The six patterns of [get_transcript_timepoints]. *)

(** [\[[0-9]?[0-9]:[0-9][0-9]\]] *)
Definition mmss1 : regex :=
  [lit "["; opt Digit; d; lit ":"; d; d; lit "]"].

(** [\[[0-9][0-9]:[0-9][0-9]:[0-9][0-9]\]] *)
Definition hhmmss1 : regex :=
  [lit "["; d; d; lit ":"; d; d; lit ":"; d; d; lit "]"].

(** [\[[0-9]?[0-9]\.[0-9][0-9]\]] *)
Definition mmss2 : regex :=
  [lit "["; opt Digit; d; lit "."; d; d; lit "]"].

(** [\[[0-9][0-9]\.[0-9][0-9]\.[0-9][0-9]\]] *)
Definition hhmmss2 : regex :=
  [lit "["; d; d; lit "."; d; d; lit "."; d; d; lit "]"].

(** [#[0-9][0-9]:[0-9][0-9]:[0-9][0-9]\.[0-9]{1,3}#] *)
Definition hhmmss_sss : regex :=
  [lit "#"; d; d; lit ":"; d; d; lit ":"; d; d; lit "."; rep Digit 1 3; lit "#"].

Definition hms_comma_ms : regex :=
  [d; d; lit ":"; d; d; lit ":"; d; d; lit ","; d; d; d].

(** [hh:mm:ss,sss\s-->\shh:mm:ss,sss] *)
Definition srt : regex :=
  (hms_comma_ms ++ [one Space; lit "-"; lit "-"; lit ">"; one Space]
                ++ hms_comma_ms)%list.

(** [l] is made of one run of characters for each atom of [r], in order:
    the run of an atom is in its class and has a length within its
    bounds. *)
Fixpoint shaped (r : regex) (l : list ascii) : Prop :=
  match r with
  | [] => l = []
  | a :: r' =>
      exists run rest,
        l = (run ++ rest)%list
        /\ Forall (fun c => in_class (cls a) c = true) run
        /\ (lo a <= List.length run <= hi a)%nat
        /\ shaped r' rest
  end.

End Re.

(* ================================================================== *)
(** * Export: time points of a transcript *)

Module Timepoints.

(** The fields of the media dictionary that the function reads.  [fulltext]
    is a nullable column of the [source] table. *)
Record media : Type := {
  name : string;
  fulltext : option string
}.

(** A time point [[character position, milliseconds]]. *)
Definition time_point : Type := (Z * Z)%type.

(** [stamp.split(sep)] read as [mm, ss]. *)
Definition msecs_ms (stamp : string) (sep : ascii) : Py.result Z :=
  let s := Py.split stamp sep in
  s0 <- Py.index s 0 ;; m <- Py.int_str s0 ;;
  s1 <- Py.index s 1 ;; sec <- Py.int_str s1 ;;
  Py.Ok ((m * 60 + sec) * 1000).

(** [stamp.split(sep)] read as [hh, mm, ss]. *)
Definition msecs_hms (stamp : string) (sep : ascii) : Py.result Z :=
  let s := Py.split stamp sep in
  s0 <- Py.index s 0 ;; h <- Py.int_str s0 ;;
  s1 <- Py.index s 1 ;; m <- Py.int_str s1 ;;
  s2 <- Py.index s 2 ;; sec <- Py.int_str s2 ;;
  Py.Ok ((h * 3600 + m * 60 + sec) * 1000).

(** One loop of the form
    [for match in re.finditer(p, text): try: ... time_pos.append(...)
     except KeyError: pass]. *)
Definition scan (p : Re.regex) (text : string)
    (msecs_of : string -> Py.result Z) (time_pos : list time_point)
  : Py.result (list time_point) :=
  Py.for_each (Re.finditer p text)
    (fun acc m =>
       Py.except_KeyError_pass acc
         (msecs <- msecs_of (snd m) ;; Py.Ok (acc ++ [(fst m, msecs)])%list))
    time_pos.

(** The [#hh:mm:ss.sss#] loop.  The splits and the padding of the
    milliseconds stand before the [try], so an exception there is not
    caught. *)
Definition scan_hhmmss_sss (text : string) (time_pos : list time_point)
  : Py.result (list time_point) :=
  Py.for_each (Re.finditer Re.hhmmss_sss text)
    (fun acc m =>
       let stamp := Py.slice (snd m) (Some 1) (Some (-1)) in
       let text_hms := Py.split stamp ":" in
       hms2 <- Py.index text_hms 2 ;;
       text_secs <- Py.index (Py.split hms2 ".") 0 ;;
       text_msecs <- Py.index (Py.split hms2 ".") 1 ;;
       let text_msecs :=
         if Py.len text_msecs =? 1 then text_msecs ++ "00" else text_msecs in
       let text_msecs :=
         if Py.len text_msecs =? 2 then text_msecs ++ "0" else text_msecs in
       Py.except_KeyError_pass acc
         (h0 <- Py.index text_hms 0 ;; h <- Py.int_str h0 ;;
          m1 <- Py.index text_hms 1 ;; mi <- Py.int_str m1 ;;
          sec <- Py.int_str text_secs ;;
          ms <- Py.int_str text_msecs ;;
          Py.Ok (acc ++ [(fst m, (h * 3600 + mi * 60 + sec) * 1000 + ms)])%list))
    time_pos.

(** The SRT loop: only the first twelve characters, [hh:mm:ss,sss], are
    read. *)
Definition scan_srt (text : string) (time_pos : list time_point)
  : Py.result (list time_point) :=
  Py.for_each (Re.finditer Re.srt text)
    (fun acc m =>
       let stamp := Py.slice (snd m) (Some 0) (Some 12) in
       let s := Py.split stamp ":" in
       s2_ <- Py.index s 2 ;;
       let s2 := Py.split s2_ "," in
       Py.except_KeyError_pass acc
         (h0 <- Py.index s 0 ;; h <- Py.int_str h0 ;;
          m1 <- Py.index s 1 ;; mi <- Py.int_str m1 ;;
          s20 <- Py.index s2 0 ;; sec <- Py.int_str s20 ;;
          s21 <- Py.index s2 1 ;; ms <- Py.int_str s21 ;;
          Py.Ok (acc ++ [(fst m, (h * 3600 + mi * 60 + sec) * 1000 + ms)])%list))
    time_pos.

(** The media length in milliseconds.  [duration] is what the media probe
    ([vlc_media.get_duration()]) answers for the media file, or [None] when
    anything in the [try] block raises (no such source row, no file, no
    player): then the length stays 0. *)
Definition media_length (duration : option Z) : Z :=
  match duration with
  | Some dur => if dur - 1 =? -1 then 0 else dur - 1
  | None => 0
  end.

Definition inner (stamp : string) : string :=
  Py.slice stamp (Some 1) (Some (-1)).

Definition get_transcript_timepoints (duration : option Z) (m : media)
  : Py.result (list time_point) :=
  let text := fulltext m in
  n <- Py.len_opt text ;;
  (* [len(text) == 0 or text is None]: the length is taken first *)
  match text with
  | None => Py.Ok []
  | Some text =>
      if n =? 0 then Py.Ok [] else
      let time_pos := [(0, 0)] in
      time_pos <- scan Re.mmss1 text (fun g => msecs_ms (inner g) ":") time_pos ;;
      time_pos <- scan Re.hhmmss1 text (fun g => msecs_hms (inner g) ":") time_pos ;;
      time_pos <- scan Re.mmss2 text (fun g => msecs_ms (inner g) ".") time_pos ;;
      time_pos <- scan Re.hhmmss2 text (fun g => msecs_hms (inner g) ".") time_pos ;;
      time_pos <- scan_hhmmss_sss text time_pos ;;
      time_pos <- scan_srt text time_pos ;;
      let time_pos := (time_pos ++ [(Py.len text - 1, media_length duration)])%list in
      Py.Ok (Py.sorted_by_key time_pos)
  end.

End Timepoints.

(* ================================================================== *)
(** * Export: GUID generation *)

Module Guid.

(** The export session as far as [create_guid] sees it: the list
    [self.guids] of the GUIDs issued so far, and the values that the
    coming calls of [uuid.uuid4().hex] return, in order.  [entropy] is a
    finite prefix of that stream; a call that would need a value beyond it
    has no result in the model. *)
Record session : Type := {
  guids : list string;
  entropy : list string
}.

(** ["-".join([v[0:8], v[8:12], v[12:16], v[16:20], v[20:33]])] *)
Definition format (v : string) : string :=
  String.concat "-"
    [Py.slice v (Some 0) (Some 8); Py.slice v (Some 8) (Some 12);
     Py.slice v (Some 12) (Some 16); Py.slice v (Some 16) (Some 20);
     Py.slice v (Some 20) (Some 33)].

(** [guid in self.guids] *)
Definition issued (guid : string) (l : list string) : bool :=
  existsb (String.eqb guid) l.

(** The [while duplicated] loop: as long as [guid] was issued before, draw
    the next value. *)
Fixpoint while_duplicated (issued_so_far : list string) (guid : string)
    (draws : list string) : option (string * list string) :=
  if issued guid issued_so_far then
    match draws with
    | [] => None
    | v :: rest => while_duplicated issued_so_far (format v) rest
    end
  else Some (guid, draws).

Definition create_guid (s : session) : option (string * session) :=
  match entropy s with
  | [] => None
  | v :: rest =>
      match while_duplicated (guids s) (format v) rest with
      | Some (guid, rest') =>
          Some (guid, {| guids := guids s ++ [guid]; entropy := rest' |})
      | None => None
      end
  end.

(** [n] calls in a row; the GUIDs are returned in the order of the calls. *)
Fixpoint create_guids (n : nat) (s : session)
  : option (list string * session) :=
  match n with
  | O => Some ([], s)
  | S n' =>
      match create_guid s with
      | Some (g, s') =>
          match create_guids n' s' with
          | Some (gs, s'') => Some (g :: gs, s'')
          | None => None
          end
      | None => None
      end
  end.

(** What [uuid4().hex] returns: 32 hexadecimal digits. *)
Definition hex32 (v : string) : Prop :=
  String.length v = 32%nat /\ Forall (fun c => Py.is_hex c = true) (Py.chars v).

Definition hex_group (n : nat) (s : string) : Prop :=
  String.length s = n /\ Forall (fun c => Py.is_hex c = true) (Py.chars s).

(** The canonical pattern: groups of 8, 4, 4, 4 and 12 hexadecimal digits
    separated by hyphens. *)
Definition canonical (g : string) : Prop :=
  exists a b c d e,
    g = a ++ "-" ++ b ++ "-" ++ c ++ "-" ++ d ++ "-" ++ e /\
    hex_group 8 a /\ hex_group 4 b /\ hex_group 4 c /\ hex_group 4 d /\
    hex_group 12 e.

(** Number of draws that give a GUID not issued before. *)
Definition fresh_draws (issued_so_far draws : list string) : nat :=
  List.length (filter (fun v => negb (issued (format v) issued_so_far)) draws).

End Guid.

(* ================================================================== *)
(** * Import: XML elements and the project database *)

Module Xml.

(** An lxml element: tag (with its namespace in braces), attributes, text
    and child elements. *)
Inductive element : Type :=
| Element (tag : string) (attrib : list (string * string))
          (text : option string) (children : list element).

Definition tag (e : element) : string :=
  match e with Element t _ _ _ => t end.
Definition attrib (e : element) : list (string * string) :=
  match e with Element _ a _ _ => a end.
Definition text (e : element) : option string :=
  match e with Element _ _ x _ => x end.
Definition getchildren (e : element) : list element :=
  match e with Element _ _ _ c => c end.

Fixpoint assoc (k : string) (l : list (string * string)) : option string :=
  match l with
  | [] => None
  | (k', v) :: l' => if String.eqb k k' then Some v else assoc k l'
  end.

(** [e.get(k)]: the attribute, or [None]. *)
Definition get (e : element) (k : string) : option string :=
  assoc k (attrib e).

(** [a == b] on values that are a string or [None]. *)
Definition eq_opt (a b : option string) : bool :=
  match a, b with
  | Some x, Some y => String.eqb x y
  | None, None => true
  | _, _ => false
  end.

Definition project (local : string) : string :=
  "{urn:QDA-XML:project:1.0}" ++ local.

(** [e.tag in ("{urn:QDA-XML:codebook:1:0}X", "{urn:QDA-XML:project:1.0}X")] *)
Definition codebook_or_project (local t : string) : bool :=
  String.eqb t ("{urn:QDA-XML:codebook:1:0}" ++ local)
  || String.eqb t ("{urn:QDA-XML:project:1.0}" ++ local).

Definition is_description : element -> bool :=
  fun e => codebook_or_project "Description" (tag e).
Definition is_code : element -> bool :=
  fun e => codebook_or_project "Code" (tag e).

End Xml.

Module Db.

(** Rows of the tables that the modelled code writes.  Columns that can
    hold NULL are options.  The integer primary key is kept for the tables
    whose [last_insert_rowid()] the code reads. *)

Record code_cat_row : Type := {
  cat_catid : Z;
  cat_name : option string;
  cat_memo : option string;
  cat_owner : string;
  cat_date : string;
  cat_supercatid : option Z
}.

Record code_name_row : Type := {
  cn_cid : Z;
  cn_name : option string;
  cn_memo : option string;
  cn_owner : string;
  cn_date : string;
  cn_catid : option Z;
  cn_color : string
}.

Record code_image_row : Type := {
  ci_id : Z;
  ci_x1 : Z;
  ci_y1 : Z;
  ci_width : Z;
  ci_height : Z;
  ci_cid : option Z;
  ci_memo : option string;
  ci_date : string;
  ci_owner : option string
}.

Record code_text_row : Type := {
  ct_cid : Z;
  ct_fid : Z;
  ct_seltext : string;
  ct_pos0 : Z;
  ct_pos1 : Z;
  ct_owner : option string;
  ct_date : string;
  ct_memo : string;
  ct_avid : Z
}.

Record annotation_row : Type := {
  an_fid : Z;
  an_pos0 : Z;
  an_pos1 : Z;
  an_memo : string;
  an_owner : option string;
  an_date : string
}.

Record attribute_row : Type := {
  at_name : option string;
  at_attr_type : string;
  at_value : option string;
  at_id : option Z;
  at_date : string;
  at_owner : string
}.

Record attribute_type_row : Type := {
  aty_name : option string;
  aty_caseOrFile : string;
  aty_valuetype : option string;
  aty_memo : option string
}.

Record cases_row : Type := {
  ca_caseid : Z;
  ca_name : option string;
  ca_memo : option string;
  ca_owner : string;
  ca_date : string
}.

(** The open project: its tables, rows in insertion order. *)
Record conn : Type := {
  code_cat : list code_cat_row;
  code_name : list code_name_row;
  code_image : list code_image_row;
  code_text : list code_text_row;
  annotation : list annotation_row;
  attribute : list attribute_row;
  attribute_type : list attribute_type_row;
  cases : list cases_row
}.

Definition empty : conn :=
  {| code_cat := []; code_name := []; code_image := []; code_text := [];
     annotation := []; attribute := []; attribute_type := []; cases := [] |}.

(** The rowid SQLite gives a new row of a table with an integer primary
    key: one more than the largest in the table. *)
Definition next_rowid (ids : list Z) : Z :=
  1 + fold_right Z.max 0 ids.

(** [name] is among the non-NULL names of a table. *)
Definition name_taken (name : option string) (names : list (option string))
  : bool :=
  match name with
  | Some n => existsb (Xml.eq_opt (Some n)) names
  | None => false
  end.

(** Modelled from the spec: the schema of the project database is not part
    of this source; the data model gives "Code: ... Invariant: name unique
    within the store" and the importer speaks of "a uniqueness violation"
    for "the code/category".  So an insert into [code_cat] or [code_name]
    whose name is already in the table fails with [sqlite3.IntegrityError],
    here [None], and leaves the table as it is.  On success the result
    carries what [select last_insert_rowid()] then returns. *)
Definition insert_code_cat (c : conn) (name memo : option string)
    (owner date : string) (supercatid : option Z) : option (conn * Z) :=
  if name_taken name (map cat_name (code_cat c)) then None
  else
    let id := next_rowid (map cat_catid (code_cat c)) in
    let row := {| cat_catid := id; cat_name := name; cat_memo := memo;
                  cat_owner := owner; cat_date := date;
                  cat_supercatid := supercatid |} in
    Some ({| code_cat := code_cat c ++ [row]; code_name := code_name c;
             code_image := code_image c; code_text := code_text c;
             annotation := annotation c; attribute := attribute c;
             attribute_type := attribute_type c; cases := cases c |}, id).

Definition insert_code_name (c : conn) (name memo : option string)
    (owner date : string) (catid : option Z) (color : string)
  : option (conn * Z) :=
  if name_taken name (map cn_name (code_name c)) then None
  else
    let id := next_rowid (map cn_cid (code_name c)) in
    let row := {| cn_cid := id; cn_name := name; cn_memo := memo;
                  cn_owner := owner; cn_date := date; cn_catid := catid;
                  cn_color := color |} in
    Some ({| code_cat := code_cat c; code_name := code_name c ++ [row];
             code_image := code_image c; code_text := code_text c;
             annotation := annotation c; attribute := attribute c;
             attribute_type := attribute_type c; cases := cases c |}, id).

(** Two values of a column are the same for a UNIQUE constraint: NULL is
    the same as nothing, also not as NULL. *)
Definition same_text (a b : option string) : bool :=
  match a, b with
  | Some x, Some y => String.eqb x y
  | _, _ => false
  end.

Definition same_int (a b : option Z) : bool :=
  match a, b with
  | Some x, Some y => x =? y
  | _, _ => false
  end.

(** [code_image] and [annotation] are taken without constraints: neither
    the spec nor this source gives them one, and an insert appends. *)
Definition insert_code_image (c : conn) (row : code_image_row) : conn :=
  {| code_cat := code_cat c; code_name := code_name c;
     code_image := code_image c ++ [row]; code_text := code_text c;
     annotation := annotation c; attribute := attribute c;
     attribute_type := attribute_type c; cases := cases c |}.

Definition insert_annotation (c : conn) (row : annotation_row) : conn :=
  {| code_cat := code_cat c; code_name := code_name c;
     code_image := code_image c; code_text := code_text c;
     annotation := annotation c ++ [row]; attribute := attribute c;
     attribute_type := attribute_type c; cases := cases c |}.

(** The tables with one more row. *)
Definition append_code_text (c : conn) (row : code_text_row) : conn :=
  {| code_cat := code_cat c; code_name := code_name c;
     code_image := code_image c; code_text := code_text c ++ [row];
     annotation := annotation c; attribute := attribute c;
     attribute_type := attribute_type c; cases := cases c |}.

Definition append_attribute (c : conn) (row : attribute_row) : conn :=
  {| code_cat := code_cat c; code_name := code_name c;
     code_image := code_image c; code_text := code_text c;
     annotation := annotation c; attribute := attribute c ++ [row];
     attribute_type := attribute_type c; cases := cases c |}.

Definition append_cases (c : conn) (row : cases_row) : conn :=
  {| code_cat := code_cat c; code_name := code_name c;
     code_image := code_image c; code_text := code_text c;
     annotation := annotation c; attribute := attribute c;
     attribute_type := attribute_type c; cases := cases c ++ [row] |}.

(** Two rows of [code_text] are the same coded span: the same code, source,
    start, end and owner. *)
Definition code_text_clash (r r' : code_text_row) : bool :=
  (ct_cid r =? ct_cid r') && (ct_fid r =? ct_fid r')
  && (ct_pos0 r =? ct_pos0 r') && (ct_pos1 r =? ct_pos1 r')
  && same_text (ct_owner r) (ct_owner r').

(** Modelled from the spec: the schema is not part of this source.  The
    spec counts the "duplicate coded span insert" among the integrity
    errors and names the key, "the same (code, source, start, end, owner)
    coded span"; code_text.py looks for a row with the same [cid], [fid],
    [pos0], [pos1] and [owner] before it inserts (2857-2864), and notes
    "Possible IntegrityError: UNIQUE constraint failed" on the insert
    (3227).  So an insert into [code_text] of a span that is in the table
    fails with [sqlite3.IntegrityError], here [None], and leaves the table
    as it is. *)
Definition insert_code_text (c : conn) (row : code_text_row) : option conn :=
  if existsb (code_text_clash row) (code_text c) then None
  else Some (append_code_text c row).

(** Two rows of [attribute] are the value of the same variable for the
    same case or file: the same name, scope and id. *)
Definition attribute_clash (r r' : attribute_row) : bool :=
  same_text (at_name r) (at_name r')
  && String.eqb (at_attr_type r) (at_attr_type r')
  && same_int (at_id r) (at_id r').

(** Modelled from the spec: the schema is not part of this source.  The
    data model gives an attribute value as "(variable name, owning entity
    id, scope, text value)": one value for a variable, an entity and a
    scope.  rqda.py guards the insert of the same columns into [attribute]
    with [except sqlite3.IntegrityError] (250-266).  So an insert into
    [attribute] of a row whose name, [attr_type] and id are those of a row
    of the table fails with [sqlite3.IntegrityError], here [None], and
    leaves the table as it is. *)
Definition insert_attribute (c : conn) (row : attribute_row) : option conn :=
  if existsb (attribute_clash row) (attribute c) then None
  else Some (append_attribute c row).

(** Modelled from the spec: the schema is not part of this source, and the
    spec gives a Case no constraint in words.  [parse_cases] wraps this
    insert in [try ... except Exception] (refi.py 604-614) and rqda.py
    guards the same insert with [except sqlite3.IntegrityError] (157-161);
    the spec expects a re-run "to skip already-present duplicates".  The
    failure is taken to be that of codes, categories and variables: an
    insert into [cases] under a name that is in the table fails, here
    [None], and leaves the table as it is.  On success the result carries
    what [select last_insert_rowid()] then returns. *)
Definition insert_cases (c : conn) (name memo : option string)
    (owner date : string) : option (conn * Z) :=
  if name_taken name (map ca_name (cases c)) then None
  else
    let id := next_rowid (map ca_caseid (cases c)) in
    let row := {| ca_caseid := id; ca_name := name; ca_memo := memo;
                  ca_owner := owner; ca_date := date |} in
    Some (append_cases c row, id).

(** The rows [rows], inserted in order into a table that holds [stored],
    meet no row of the table and no earlier row of theirs that is the same
    for [clash]. *)
Fixpoint clash_free {R} (clash : R -> R -> bool) (stored rows : list R)
  : bool :=
  match rows with
  | [] => true
  | r :: rows' =>
      negb (existsb (clash r) stored)
      && clash_free clash (stored ++ [r]) rows'
  end.

(** [update attribute_type set caseOrFile='case' where name=?] *)
Definition set_case_variable (c : conn) (name : option string) : conn :=
  let upd r :=
    if match name with Some _ => Xml.eq_opt name (aty_name r) | None => false end
    then {| aty_name := aty_name r; aty_caseOrFile := "case";
            aty_valuetype := aty_valuetype r; aty_memo := aty_memo r |}
    else r in
  {| code_cat := code_cat c; code_name := code_name c;
     code_image := code_image c; code_text := code_text c;
     annotation := annotation c; attribute := attribute c;
     attribute_type := map upd (attribute_type c); cases := cases c |}.

(** The tables that codebook import does not write are the same. *)
Definition others_kept (c c' : conn) : Prop :=
  code_image c' = code_image c /\ code_text c' = code_text c
  /\ annotation c' = annotation c /\ attribute c' = attribute c
  /\ attribute_type c' = attribute_type c /\ cases c' = cases c.

(** The rows of a table that bear the name [n]. *)
Definition categories_named (n : string) (c : conn) : list code_cat_row :=
  filter (fun r => Xml.eq_opt (cat_name r) (Some n)) (code_cat c).

Definition codes_named (n : string) (c : conn) : list code_name_row :=
  filter (fun r => Xml.eq_opt (cn_name r) (Some n)) (code_name c).

Definition category_name_taken (n : string) (c : conn) : bool :=
  name_taken (Some n) (map cat_name (code_cat c)).

Definition code_name_taken (n : string) (c : conn) : bool :=
  name_taken (Some n) (map cn_name (code_name c)).

(** Modelled from the spec: the schema is not part of this source; the
    data model gives "Variable (attribute type): name (unique)", and the
    importer answers [sqlite3.IntegrityError] on this insert with "Variable
    name already exists".  So an insert into [attribute_type] under a name
    that is in the table fails, here [None], and leaves the table as it
    is. *)
Definition insert_attribute_type (c : conn) (row : attribute_type_row)
  : option conn :=
  if name_taken (aty_name row) (map aty_name (attribute_type c)) then None
  else
    Some {| code_cat := code_cat c; code_name := code_name c;
            code_image := code_image c; code_text := code_text c;
            annotation := annotation c; attribute := attribute c;
            attribute_type := attribute_type c ++ [row]; cases := cases c |}.


End Db.

(* ================================================================== *)
(** * Import: [RefiImport] *)

Module RefiImport.

(** [{'guid': ..., 'cid': ...}] of [self.codes]. *)
Record code_ref : Type := { code_guid : option string; code_cid : Z }.

(** [{'name': ..., 'guid': ...}] of [self.users]. *)
Record user : Type := { user_name : option string; user_guid : option string }.

(** The entries of [self.sources] as far as the modelled code reads them. *)
Record source : Type := { source_guid : option string; source_id : Z }.

(** The entries of [self.variables] as far as the modelled code reads them. *)
Record variable : Type := { var_guid : option string; var_name : option string }.

(** An entry of [self.file_vars].  The dictionary gets its ['name'] key only
    when a variable with the GUID is known: [fv_name] is [None] for a
    dictionary without the key. *)
Record file_var : Type := {
  fv_file_guid : option string;
  fv_var_guid : option string;
  fv_value : option string;
  fv_name : option (option string)
}.

(** An entry of [self.cases]. *)
Record case_item : Type := {
  case_name : option string;
  case_guid : option string;
  case_caseid : option Z
}.

(** The importer object: the database connection and the lists that carry
    GUIDs from one pass to the next.  [codername] is
    [self.app.settings['codername']]. *)
Record importer : Type := {
  conn : Db.conn;
  codes : list code_ref;
  users : list user;
  sources : list source;
  variables : list variable;
  file_vars : list file_var;
  cases : list case_item;
  codername : string
}.

Definition with_conn (st : importer) (c : Db.conn) : importer :=
  {| conn := c; codes := codes st; users := users st; sources := sources st;
     variables := variables st; file_vars := file_vars st;
     cases := cases st; codername := codername st |}.

(** [self.codes.append({'guid': guid, 'cid': cid})] *)
Definition append_code (st : importer) (guid : option string) (cid : Z)
  : importer :=
  {| conn := conn st;
     codes := codes st ++ [{| code_guid := guid; code_cid := cid |}];
     users := users st; sources := sources st; variables := variables st;
     file_vars := file_vars st; cases := cases st;
     codername := codername st |}.

Definition with_file_vars (st : importer) (l : list file_var) : importer :=
  {| conn := conn st; codes := codes st; users := users st;
     sources := sources st; variables := variables st; file_vars := l;
     cases := cases st; codername := codername st |}.

Definition append_case (st : importer) (item : case_item) : importer :=
  {| conn := conn st; codes := codes st; users := users st;
     sources := sources st; variables := variables st;
     file_vars := file_vars st; cases := cases st ++ [item];
     codername := codername st |}.

Definition or_default (x : option string) (d : string) : string :=
  match x with Some v => v | None => d end.

(** ** Codebook: [sub_codes] *)

(** The three places that insert a code: insert into [code_name], and on
    success append the GUID to [self.codes] and count one.  An
    [IntegrityError] is passed over. *)
Definition insert_code (now_date : string) (parent : Xml.element)
    (description : option string) (catid : option Z) (st : importer)
  : importer * Z :=
  let name := Xml.get parent "name" in
  let color := or_default (Xml.get parent "color") "#999999" in
  match Db.insert_code_name (conn st) name description "" now_date catid color with
  | Some (c, last_insert_id) =>
      (append_code (with_conn st c) (Xml.get parent "guid") last_insert_id, 1)
  | None => (st, 0)
  end.

(** The branch [if is_category] up to the recursion: with a name, insert
    into [code_cat], and for [isCodable="true"] insert the code of the same
    name under the category.  The result carries [last_insert_id], which
    stays [None] without a name or when the category insert fails, and the
    counter so far. *)
Definition insert_category (now_date : string) (parent : Xml.element)
    (description : option string) (cat_id : option Z) (st : importer)
  : importer * option Z * Z :=
  let name := Xml.get parent "name" in
  match name with
  | None => (st, None, 0)
  | Some _ =>
      let '(st, last_insert_id, counter) :=
        match Db.insert_code_cat (conn st) name description "" now_date cat_id with
        | Some (c, id) => (with_conn st c, Some id, 1)
        | None => (st, None, 0)
        end in
      if Xml.eq_opt (Xml.get parent "isCodable") (Some "true") then
        let '(st, n) :=
          insert_code now_date parent description last_insert_id st in
        (st, last_insert_id, counter + n)
      else (st, last_insert_id, counter)
  end.

(** [sub_codes(parent, cat_id)] returns the new state of the importer and
    the counter.  Every call reads the clock at its start: [clock parent]
    is the reading of the call for [parent]. *)
Fixpoint sub_codes (clock : Xml.element -> string) (parent : Xml.element)
    (cat_id : option Z) (st : importer) {struct parent} : importer * Z :=
  match parent with
  | Xml.Element _ _ _ elements =>
    let now_date := clock parent in
    let description :=
      fold_left (fun d e => if Xml.is_description e then Xml.text e else d)
                elements (Some "") in
    let is_category := existsb Xml.is_code elements in
    if is_category then
      let '(st, last_insert_id, counter) :=
        insert_category now_date parent description cat_id st in
      fold_left
        (fun acc e =>
           if Xml.is_description e then acc
           else
             let '(st', n) := sub_codes clock e last_insert_id (fst acc) in
             (st', snd acc + n))
        elements (st, counter)
    else
      match elements with
      | [] => insert_code now_date parent description cat_id st
      | [e] =>
          if Xml.is_description e
          then insert_code now_date parent description cat_id st
          else (st, 0)
      | _ => (st, 0)
      end
  end.

(** [st'] comes from [st] by appending the rows [new_cats] to [code_cat]
    and [new_codes] to [code_name], none of them under a name that was in
    its table before, and by appending to [self.codes]; all else is as it
    was. *)
Definition codebook_extended (st st' : importer)
    (new_cats : list Db.code_cat_row) (new_codes : list Db.code_name_row)
  : Prop :=
  Db.code_cat (conn st') = (Db.code_cat (conn st) ++ new_cats)%list
  /\ Db.code_name (conn st') = (Db.code_name (conn st) ++ new_codes)%list
  /\ Db.others_kept (conn st) (conn st')
  /\ (forall n, Db.category_name_taken n (conn st) = true ->
                Db.categories_named n (conn st') = Db.categories_named n (conn st))
  /\ (forall n, Db.code_name_taken n (conn st) = true ->
                Db.codes_named n (conn st') = Db.codes_named n (conn st))
  /\ (exists new_refs, codes st' = (codes st ++ new_refs)%list)
  /\ users st' = users st /\ sources st' = sources st
  /\ variables st' = variables st /\ file_vars st' = file_vars st
  /\ cases st' = cases st /\ codername st' = codername st.

(** What [sub_codes] returns from [st]: rows are appended, and the counter
    is their number. *)
Definition sub_codes_result (st : importer) (r : importer * Z) : Prop :=
  exists new_cats new_codes,
    codebook_extended st (fst r) new_cats new_codes
    /\ snd r = Z.of_nat (List.length new_cats + List.length new_codes).

(** ** Helpers shared by the selection loaders *)

(** [creating_user = "default"; for u in self.users: if u['guid'] ==
    creating_user_guid: creating_user = u['name']] *)
Definition user_name_of (us : list user) (guid : option string)
    (default : option string) : option string :=
  fold_left
    (fun acc u => if Xml.eq_opt (user_guid u) guid then user_name u else acc)
    us default.

(** [x.replace('T', ' ').replace('Z', '')] on a value that may be [None]. *)
Definition date_of_stamp (x : option string) : Py.result string :=
  match x with
  | Some d => Py.Ok (Py.replace (Py.replace d "T" " ") "Z" "")
  | None => Py.Raise Py.AttributeError
  end.

(** [cid = None; for c in self.codes: if c['guid'] == guid: cid = c['cid']] *)
Definition code_id_of (cs : list code_ref) (guid : option string) : option Z :=
  fold_left
    (fun acc c => if Xml.eq_opt (code_guid c) guid then Some (code_cid c) else acc)
    cs None.

(** ** Transcripts: the SyncPoint and TranscriptSelection part of
    [parse_transcript_with_codings_and_syncpoints] *)

(** [{"guid": ..., "pos": ..., "timestamp": ...}] *)
Record syncpoint : Type := {
  sp_guid : option string;
  sp_pos : option string;
  sp_timestamp : option string
}.

Definition syncpoints_of (element : Xml.element) : list syncpoint :=
  map (fun e => {| sp_guid := Xml.get e "guid";
                   sp_pos := Xml.get e "position";
                   sp_timestamp := Xml.get e "timeStamp" |})
      (filter (fun e => String.eqb (Xml.tag e) (Xml.project "SyncPoint"))
              (Xml.getchildren element)).

(** The body of the loop [for s in syncpoints], on [(pos0, pos1)]. *)
Definition resolve_step (guid_pos0 guid_pos1 : option string) (acc : Z * Z)
    (s : syncpoint) : Py.result (Z * Z) :=
  pos0 <- (if Xml.eq_opt guid_pos0 (sp_guid s)
           then p <- Py.int (sp_pos s) ;; Py.Ok (p + 1)
           else Py.Ok (fst acc)) ;;
  pos1 <- (if Xml.eq_opt guid_pos1 (sp_guid s)
           then p <- Py.int (sp_pos s) ;; Py.Ok (p + 1)
           else Py.Ok (snd acc)) ;;
  Py.Ok (pos0, pos1).

(** The loop, with [pos0] and [pos1] both 0 at the start. *)
Definition resolve_syncpoints (syncpoints : list syncpoint)
    (guid_pos0 guid_pos1 : option string) : Py.result (Z * Z) :=
  Py.for_each syncpoints (resolve_step guid_pos0 guid_pos1) (0, 0).

(** A SyncPoint that one of the two GUIDs matches has a position that
    [int()] accepts. *)
Definition readable (guid_pos0 guid_pos1 : option string) (s : syncpoint)
  : Prop :=
  Xml.eq_opt guid_pos0 (sp_guid s) = true
  \/ Xml.eq_opt guid_pos1 (sp_guid s) = true ->
  exists p, Py.int (sp_pos s) = Py.Ok p.

(** [s] is the last entry of [syncpoints] with the GUID. *)
Definition last_match (guid : option string) (syncpoints : list syncpoint)
    (s : syncpoint) : Prop :=
  exists l1 l2,
    syncpoints = (l1 ++ s :: l2)%list
    /\ Xml.eq_opt guid (sp_guid s) = true
    /\ Forall (fun s' => Xml.eq_opt guid (sp_guid s') = false) l2.

(** [s] is the first entry of [syncpoints] with the GUID. *)
Definition first_match (guid : option string) (syncpoints : list syncpoint)
    (s : syncpoint) : Prop :=
  exists l1 l2,
    syncpoints = (l1 ++ s :: l2)%list
    /\ Xml.eq_opt guid (sp_guid s) = true
    /\ Forall (fun s' => Xml.eq_opt guid (sp_guid s') = false) l1.

(** [str(x)] of a text that may be [None]. *)
Definition str_of (x : option string) : string :=
  match x with Some v => v | None => "None" end.

(** What is known of the transcript when its selections are read. *)
Record transcript : Type := {
  tr_text : string;
  tr_fid : Z;
  tr_av_id : Z;
  tr_creating_user : option string;
  tr_create_date : string
}.

(** The row [[cid, fid, text[pos0:pos1], pos0, pos1, creating_user,
    create_date, memo, av_id]] for the code [c]. *)
Definition row_for (t : transcript) (pos0 pos1 : Z) (memo : string)
    (c : code_ref) : Db.code_text_row :=
  {| Db.ct_cid := code_cid c; Db.ct_fid := tr_fid t;
     Db.ct_seltext := Py.slice (tr_text t) (Some pos0) (Some pos1);
     Db.ct_pos0 := pos0; Db.ct_pos1 := pos1;
     Db.ct_owner := tr_creating_user t; Db.ct_date := tr_create_date t;
     Db.ct_memo := memo; Db.ct_avid := tr_av_id t |}.

(** The body of the second loop over the children of a selection: a Coding
    child appends a row for every known code with the GUID of its
    CodeRef. *)
Definition coding_step (t : transcript) (cs : list code_ref) (pos0 pos1 : Z)
    (memo : string) (rows : list Db.code_text_row) (ee : Xml.element)
  : Py.result (list Db.code_text_row) :=
  if String.eqb (Xml.tag ee) (Xml.project "Coding") then
    cref <- Py.index (Xml.getchildren ee) 0 ;;
    let target := Xml.get cref "targetGUID" in
    Py.Ok (rows ++ map (row_for t pos0 pos1 memo)
                       (filter (fun c => Xml.eq_opt (code_guid c) target) cs))%list
  else Py.Ok rows.

(** [memo = ""; for ee in e.getchildren(): if ee.tag == ...Description:
    memo = str(ee.text)] *)
Definition selection_description (e : Xml.element) : string :=
  fold_left
    (fun m ee => if String.eqb (Xml.tag ee) (Xml.project "Description")
                 then str_of (Xml.text ee) else m)
    (Xml.getchildren e) "".

(** The rows that one TranscriptSelection element adds to [value_list]. *)
Definition selection_rows (t : transcript) (cs : list code_ref)
    (syncpoints : list syncpoint) (e : Xml.element)
  : Py.result (list Db.code_text_row) :=
  let guid_pos0 := Xml.get e "fromSyncPoint" in
  let guid_pos1 := Xml.get e "toSyncPoint" in
  pos <- resolve_syncpoints syncpoints guid_pos0 guid_pos1 ;;
  let pos0 := fst pos in
  let pos1 := snd pos in
  let memo := selection_description e in
  Py.for_each (Xml.getchildren e) (coding_step t cs pos0 pos1 memo) [].

(** One row for each pair of a Coding child and a known code that has the
    GUID of the first child of the Coding, in the order of the children
    and of [self.codes]. *)
Definition coding_rows (t : transcript) (cs : list code_ref) (pos0 pos1 : Z)
    (memo : string) (children : list Xml.element) : list Db.code_text_row :=
  flat_map
    (fun ee =>
       if String.eqb (Xml.tag ee) (Xml.project "Coding") then
         match Xml.getchildren ee with
         | cref :: _ =>
             map (row_for t pos0 pos1 memo)
                 (filter (fun c => Xml.eq_opt (code_guid c)
                                     (Xml.get cref "targetGUID")) cs)
         | [] => []
         end
       else [])
    children.

(** [value_list] after the loop over the children of the Transcript
    element. *)
Definition transcript_value_list (t : transcript) (cs : list code_ref)
    (element : Xml.element) : Py.result (list Db.code_text_row) :=
  let syncpoints := syncpoints_of element in
  Py.for_each (Xml.getchildren element)
    (fun value_list e =>
       if String.eqb (Xml.tag e) (Xml.project "TranscriptSelection") then
         rows <- selection_rows t cs syncpoints e ;;
         Py.Ok (value_list ++ rows)%list
       else Py.Ok value_list)
    [].

(** [for v in value_list: cur.execute(sql, v)]: the loop has no [try], so
    the first row that the table refuses raises. *)
Definition insert_value_list (value_list : list Db.code_text_row)
    (c : Db.conn) : Py.result Db.conn :=
  Py.for_each value_list
    (fun c v => Py.or_raise (Db.insert_code_text c v) Py.IntegrityError) c.

(** [parse_transcript_with_codings_and_syncpoints] from [syncpoints = []]
    on: build [value_list], then insert each row into [code_text].  What
    the first part of the function has set up (the text read from the
    transcript file, the id of the new source row, the user and the date)
    is given in [t]. *)
Definition parse_transcript_with_codings_and_syncpoints (t : transcript)
    (element : Xml.element)
    (st : importer) : Py.result importer :=
  value_list <- transcript_value_list t (codes st) element ;;
  c <- insert_value_list value_list (conn st) ;;
  Py.Ok (with_conn st c).

(** ** Pictures: [_load_codings_for_picture] *)

(** The body of the loop [for e in element]: a Coding child inserts the
    rectangle [rect] with the code id found for its CodeRef, [None] when no
    code has the GUID. *)
Definition picture_coding_step (rect : Db.code_image_row) (st : importer)
    (e : Xml.element) : Py.result importer :=
  if String.eqb (Xml.tag e) (Xml.project "Coding") then
    cref <- Py.index (Xml.getchildren e) 0 ;;
    let cid := code_id_of (codes st) (Xml.get cref "targetGUID") in
    Py.Ok (with_conn st
             (Db.insert_code_image (conn st)
                {| Db.ci_id := Db.ci_id rect; Db.ci_x1 := Db.ci_x1 rect;
                   Db.ci_y1 := Db.ci_y1 rect; Db.ci_width := Db.ci_width rect;
                   Db.ci_height := Db.ci_height rect; Db.ci_cid := cid;
                   Db.ci_memo := Db.ci_memo rect; Db.ci_date := Db.ci_date rect;
                   Db.ci_owner := Db.ci_owner rect |}))
  else Py.Ok st.

Definition _load_codings_for_picture (id_ : Z) (element : Xml.element)
    (st : importer) : Py.result importer :=
  first_x <- Py.int (Xml.get element "firstX") ;;
  first_y <- Py.int (Xml.get element "firstY") ;;
  second_x <- Py.int (Xml.get element "secondX") ;;
  second_y <- Py.int (Xml.get element "secondY") ;;
  let width := second_x - first_x in
  let height := second_y - first_y in
  let memo := Xml.get element "name" in
  let create_date :=
    match Xml.get element "creationDateTime" with
    | None => Xml.get element "modifiedDateTime"
    | d => d
    end in
  create_date <- date_of_stamp create_date ;;
  let creating_user_guid :=
    match Xml.get element "creatingUser" with
    | None => Xml.get element "modifyingUser"
    | g => g
    end in
  let creating_user :=
    user_name_of (users st) creating_user_guid (Some "default") in
  Py.for_each (Xml.getchildren element)
    (picture_coding_step
       {| Db.ci_id := id_; Db.ci_x1 := first_x; Db.ci_y1 := first_y;
          Db.ci_width := width; Db.ci_height := height; Db.ci_cid := None;
          Db.ci_memo := memo; Db.ci_date := create_date;
          Db.ci_owner := creating_user |})
    st.

(** ** Notes: [insert_annotation] *)

(** [fid = None; for s in self.sources: if source_guid == s['guid']:
    fid = s['id']] *)
Definition source_id_of (ss : list source) (guid : option string) : option Z :=
  fold_left
    (fun acc s => if Xml.eq_opt guid (source_guid s) then Some (source_id s) else acc)
    ss None.

Definition insert_annotation (now_date : string) (source_guid_ : option string)
    (element : Xml.element) (st : importer) : Py.result importer :=
  let owner := user_name_of (users st) (Xml.get element "modifyingUser") None in
  let owner :=
    match owner with
    | None => user_name_of (users st) (Xml.get element "creatingUser") None
    | o => o
    end in
  let owner :=
    match owner with
    | None => Some (codername st)
    | o => o
    end in
  let date :=
    match Xml.get element "modifiedDateTime" with
    | Some d => Py.replace (Py.replace d "T" " ") "Z" ""
    | None => now_date
    end in
  let '(memo, pos0, pos1) :=
    fold_left
      (fun acc el =>
         let '(memo, pos0, pos1) := acc in
         let memo :=
           if String.eqb (Xml.tag el) (Xml.project "PlainTextContent")
           then Xml.text el else memo in
         if String.eqb (Xml.tag el) (Xml.project "PlainTextSelection")
         then (memo, Xml.get el "startPosition", Xml.get el "endPosition")
         else (memo, pos0, pos1))
      (Xml.getchildren element) (Some "", None, None) in
  match pos0, pos1, memo with
  | Some p0, Some p1, Some memo =>
      match source_id_of (sources st) source_guid_ with
      | None => Py.Ok st
      | Some fid =>
          p0 <- Py.int_str p0 ;;
          p1 <- Py.int_str p1 ;;
          Py.Ok (with_conn st
                   (Db.insert_annotation (conn st)
                      {| Db.an_fid := fid; Db.an_pos0 := p0; Db.an_pos1 := p1;
                         Db.an_memo := memo; Db.an_owner := owner;
                         Db.an_date := date |}))
      end
  | _, _, _ => Py.Ok st
  end.

(** ** Cases that carry file variables *)

Definition is_value (e : Xml.element) : bool :=
  existsb (fun l => String.eqb (Xml.tag e) (Xml.project l))
    ["TextValue"; "BooleanValue"; "IntegerValue"; "FloatValue"; "DateValue";
     "DateTimeValue"].

(** The loop over the children of a VariableValue element: the GUID of the
    last VariableRef and the text of the last value element, [None] at the
    start. *)
Definition variable_ref_and_value (el : Xml.element)
  : option string * option string :=
  fold_left
    (fun acc v_element =>
       let var_guid_ :=
         if String.eqb (Xml.tag v_element) (Xml.project "VariableRef")
         then Xml.get v_element "targetGUID" else fst acc in
       let value :=
         if is_value v_element then Xml.text v_element else snd acc in
       (var_guid_, value))
    (Xml.getchildren el) (None, None).

(** [for attr in self.variables: if attr['guid'] == var_guid:
    attr_val['name'] = attr['name']; break] *)
Definition first_variable_name (vs : list variable) (guid : option string)
  : option (option string) :=
  option_map var_name (find (fun attr => Xml.eq_opt (var_guid attr) guid) vs).

Definition parse_case_for_file_variables (e_case : Xml.element)
    (st : importer) : importer :=
  match Xml.get e_case "name" with
  | Some _ => st
  | None =>
      let ec := Xml.getchildren e_case in
      let '(count, file_guid) :=
        fold_left
          (fun acc el =>
             if String.eqb (Xml.tag el) (Xml.project "SourceRef")
             then (fst acc + 1, Xml.get el "targetGUID") else acc)
          ec (0, None) in
      match file_guid with
      | None => st
      | Some _ =>
          if negb (count =? 1) then st
          else
            fold_left
              (fun st el =>
                 if String.eqb (Xml.tag el) (Xml.project "VariableValue") then
                   let '(var_guid_, value) := variable_ref_and_value el in
                   with_file_vars st
                     (file_vars st ++
                      [{| fv_file_guid := file_guid; fv_var_guid := var_guid_;
                          fv_value := value;
                          fv_name := first_variable_name (variables st) var_guid_ |}])
                 else st)
              ec st
      end
  end.

(** [parse_cases_for_file_variables(root)]: [self.file_vars] is emptied,
    then every child of every Cases element is parsed. *)
Definition parse_cases_for_file_variables (root : Xml.element)
    (st : importer) : importer :=
  fold_left
    (fun st el =>
       if String.eqb (Xml.tag el) (Xml.project "Cases")
       then fold_left (fun st c => parse_case_for_file_variables c st)
                      (Xml.getchildren el) st
       else st)
    (Xml.getchildren root) (with_file_vars st []).

(** [v['name']] *)
Definition name_key (v : file_var) : Py.result (option string) :=
  match fv_name v with
  | Some n => Py.Ok n
  | None => Py.Raise Py.KeyError
  end.

Definition fill_file_attribute_values (now_date : string) (st : importer)
  : Py.result importer :=
  Py.for_each (sources st)
    (fun st s =>
       Py.for_each (file_vars st)
         (fun st v =>
            if Xml.eq_opt (fv_file_guid v) (source_guid s) then
              name <- name_key v ;;
              c <- Py.or_raise
                     (Db.insert_attribute (conn st)
                        {| Db.at_name := name; Db.at_attr_type := "file";
                           Db.at_value := fv_value v;
                           Db.at_id := Some (source_id s);
                           Db.at_date := now_date;
                           Db.at_owner := codername st |})
                     Py.IntegrityError ;;
              Py.Ok (with_conn st c)
            else Py.Ok st)
         st)
    st.

(** ** Named cases: [parse_cases] *)

(** The loop over the children of a VariableValue element in [parse_cases]:
    as above, and every VariableRef GUID is appended to [case_vars]. *)
Definition case_variable_value (vv : Xml.element) (case_vars : list (option string))
  : option string * option string * list (option string) :=
  fold_left
    (fun acc v_element =>
       let '(guid, value, case_vars) := acc in
       let '(guid, case_vars) :=
         if String.eqb (Xml.tag v_element) (Xml.project "VariableRef")
         then (Xml.get v_element "targetGUID",
               (case_vars ++ [Xml.get v_element "targetGUID"])%list)
         else (guid, case_vars) in
       let value := if is_value v_element then Xml.text v_element else value in
       (guid, value, case_vars))
    (Xml.getchildren vv) (None, None, case_vars).

(** [list(set(case_vars))], up to the order, which the update that follows
    does not depend on. *)
Fixpoint distinct (l : list (option string)) : list (option string) :=
  match l with
  | [] => []
  | x :: l' => if existsb (Xml.eq_opt x) l' then distinct l' else x :: distinct l'
  end.

(** [attr_name = ""; for attr in self.variables: if attr['guid'] == guid:
    attr_name = attr['name']] *)
Definition last_variable_name (vs : list variable) (guid : option string)
  : option string :=
  fold_left
    (fun n attr => if Xml.eq_opt (var_guid attr) guid then var_name attr else n)
    vs (Some "").

(** The body of the loop [for vv in d_elements]: a VariableValue child
    inserts its value for the case id [caseid], which is [None] when the
    insert of the Case failed.  The insert has no [try]: a row that
    [attribute] refuses raises. *)
Definition case_value_step (now_date : string) (caseid : option Z)
    (acc : importer * list (option string)) (vv : Xml.element)
  : Py.result (importer * list (option string)) :=
  let '(st, case_vars) := acc in
  if String.eqb (Xml.tag vv) (Xml.project "VariableValue") then
    let '(guid, value, case_vars) := case_variable_value vv case_vars in
    let attr_name := last_variable_name (variables st) guid in
    c <- Py.or_raise
           (Db.insert_attribute (conn st)
              {| Db.at_name := attr_name; Db.at_attr_type := "case";
                 Db.at_value := value; Db.at_id := caseid;
                 Db.at_date := now_date; Db.at_owner := codername st |})
           Py.IntegrityError ;;
    Py.Ok (with_conn st c, case_vars)
  else Py.Ok (st, case_vars).

(** The two loops that set the scope [case] for the variables of
    [case_vars]. *)
Definition set_case_variables (case_vars : list (option string))
    (st : importer) : importer :=
  fold_left
    (fun st case_var_guid =>
       fold_left
         (fun st attr =>
            if Xml.eq_opt (var_guid attr) case_var_guid
            then with_conn st (Db.set_case_variable (conn st) (var_name attr))
            else st)
         (variables st) st)
    (distinct case_vars) st.

(** The body of the loop [for e in element.getchildren()] of [parse_cases].
    When the insert of the Case fails, the [except] branch leaves
    [item['caseid']] at [None], [self.cases] and [count] as they are, and
    the values of the Case are inserted all the same, with the id NULL. *)
Definition parse_case (now_date : string) (acc : importer * Z)
    (e : Xml.element) : Py.result (importer * Z) :=
  let '(st, count) := acc in
  match Xml.get e "name" with
  | None => Py.Ok (st, count)
  | Some _ =>
      let d_elements := Xml.getchildren e in
      let memo :=
        fold_left
          (fun m d => if String.eqb (Xml.tag d) "{urn:QDA-XML:project:1:0}Description"
                      then Xml.text d else m)
          d_elements (Some "") in
      let '(st, caseid, count) :=
        match Db.insert_cases (conn st) (Xml.get e "name") memo (codername st)
                now_date with
        | Some (c, caseid) =>
            (append_case (with_conn st c)
               {| case_name := Xml.get e "name"; case_guid := Xml.get e "guid";
                  case_caseid := Some caseid |},
             Some caseid, count + 1)
        | None => (st, None, count)
        end in
      r <- Py.for_each d_elements (case_value_step now_date caseid) (st, []) ;;
      Py.Ok (set_case_variables (snd r) (fst r), count)
  end.

Definition parse_cases (now_date : string) (element : Xml.element)
    (st : importer) : Py.result (importer * Z) :=
  Py.for_each (Xml.getchildren element) (parse_case now_date) (st, 0).

(** *** Words for the properties of the file variables *)

Definition is_source_ref (el : Xml.element) : bool :=
  String.eqb (Xml.tag el) (Xml.project "SourceRef").

Definition is_variable_value (el : Xml.element) : bool :=
  String.eqb (Xml.tag el) (Xml.project "VariableValue").

(** The dictionary that the pre-pass stages for a VariableValue child. *)
Definition staged (st : importer) (file_guid : option string)
    (el : Xml.element) : file_var :=
  {| fv_file_guid := file_guid;
     fv_var_guid := fst (variable_ref_and_value el);
     fv_value := snd (variable_ref_and_value el);
     fv_name := first_variable_name (variables st)
                  (fst (variable_ref_and_value el)) |}.

(** The row that the flush inserts for a staged value on the source [s]. *)
Definition file_attribute (now_date : string) (st : importer) (s : source)
    (name : option string) (v : file_var) : Db.attribute_row :=
  {| Db.at_name := name; Db.at_attr_type := "file"; Db.at_value := fv_value v;
     Db.at_id := Some (source_id s); Db.at_date := now_date;
     Db.at_owner := codername st |}.

(** The passes of [import_project] over the Cases elements, in their
    order: the pre-pass for file variables, the flush of [self.file_vars]
    (after the sources, which are taken as loaded), and [parse_cases] on
    every Cases child of the root. *)
Definition import_project_cases (now_date : string) (root : Xml.element)
    (st : importer) : Py.result importer :=
  let st := parse_cases_for_file_variables root st in
  st <- fill_file_attribute_values now_date st ;;
  Py.for_each (Xml.getchildren root)
    (fun st c =>
       if String.eqb (Xml.tag c) (Xml.project "Cases")
       then r <- parse_cases now_date c st ;; Py.Ok (fst r)
       else Py.Ok st)
    st.

(** ** Users: [parse_users] *)

Definition with_users (st : importer) (l : list user) : importer :=
  {| conn := conn st; codes := codes st; users := l; sources := sources st;
     variables := variables st; file_vars := file_vars st;
     cases := cases st; codername := codername st |}.

Definition with_variables (st : importer) (l : list variable) : importer :=
  {| conn := conn st; codes := codes st; users := users st;
     sources := sources st; variables := l; file_vars := file_vars st;
     cases := cases st; codername := codername st |}.

Definition parse_users (element : Xml.element) (st : importer) : importer * Z :=
  fold_left
    (fun acc e =>
       (with_users (fst acc)
          (users (fst acc) ++
           [{| user_name := Xml.get e "name"; user_guid := Xml.get e "guid" |}]),
        snd acc + 1))
    (Xml.getchildren element) (st, 0).

(** ** Codebook files: [import_codebook] *)

Definition is_codes (e : Xml.element) : bool :=
  Xml.codebook_or_project "Codes" (Xml.tag e).

(** The loop [for el_ in code_elements: counter += self.sub_codes(cb, None)]:
    one call on the Codes element [cb] for each of its children.  [clocks i]
    is the clock as the call of round [i] reads it. *)
Definition codes_rounds (clocks : nat -> Xml.element -> string)
    (cb : Xml.element) (rounds : list nat) (acc : importer * Z)
  : importer * Z :=
  fold_left
    (fun acc i =>
       let '(st', n) := sub_codes (clocks i) cb None (fst acc) in
       (st', snd acc + n))
    rounds acc.

(** [import_codebook] on the root of the parsed file.  The counter is the
    number that the message reports; it is [None] when the root has no
    Codes child and the file is reported as not imported. *)
Definition import_codebook (clocks : nat -> Xml.element -> string)
    (root : Xml.element) (st : importer) : importer * option Z :=
  match find is_codes (Xml.getchildren root) with
  | Some cb =>
      let '(st, counter) :=
        codes_rounds clocks cb
          (seq 0 (List.length (Xml.getchildren cb))) (st, 0) in
      (st, Some counter)
  | None => (st, None)
  end.

(** Every element of the tree for which [sub_codes] inserts a code without
    a category of its own (no Code child, and no child or only a
    Description) has a name. *)
Fixpoint codes_named_in (e : Xml.element) : bool :=
  match e with
  | Xml.Element _ _ _ elements =>
      if existsb Xml.is_code elements then
        forallb (fun c => Xml.is_description c || codes_named_in c) elements
      else
        match elements with
        | [] => match Xml.get e "name" with Some _ => true | None => false end
        | [c] =>
            if Xml.is_description c
            then match Xml.get e "name" with Some _ => true | None => false end
            else true
        | _ => true
        end
  end.

(** Every name under which [sub_codes] would insert a row for the tree [e]
    is in its table. *)
Fixpoint saturated (st : importer) (e : Xml.element) : Prop :=
  match e with
  | Xml.Element _ _ _ elements =>
      if existsb Xml.is_code elements then
        match Xml.get e "name" with
        | Some n =>
            Db.category_name_taken n (conn st) = true
            /\ (Xml.eq_opt (Xml.get e "isCodable") (Some "true") = true ->
                Db.code_name_taken n (conn st) = true)
        | None => True
        end
        /\ (fix all (l : list Xml.element) : Prop :=
              match l with
              | [] => True
              | c :: l' =>
                  (Xml.is_description c = false -> saturated st c) /\ all l'
              end) elements
      else
        match elements with
        | [] => exists n, Xml.get e "name" = Some n
                          /\ Db.code_name_taken n (conn st) = true
        | [c] =>
            Xml.is_description c = true ->
            exists n, Xml.get e "name" = Some n
                      /\ Db.code_name_taken n (conn st) = true
        | _ => True
        end
  end.

(** ** Variables: [parse_variables] *)

(** [if valuetype in ("Text", "Boolean", "Date", "DateTime"): "character";
    if valuetype in ("Integer", "Float"): "numeric"] *)
Definition valuetype_of (t : option string) : option string :=
  let among (l : list string) (t : option string) :=
    existsb (fun x => Xml.eq_opt t (Some x)) l in
  let t := if among ["Text"; "Boolean"; "Date"; "DateTime"] t
           then Some "character" else t in
  if among ["Integer"; "Float"] t then Some "numeric" else t.

(** The loop [for d in d_elements] that sets [variable["memo"]].  Its test
    reads the tag of the Variable element [e], not of the child [d]. *)
Definition variable_memo (e : Xml.element) : option string :=
  fold_left
    (fun _ d =>
       if negb (String.eqb (Xml.tag e) "{urn:QDA-XML:project:1:0}Description")
       then Xml.text d else Some "")
    (Xml.getchildren e) (Some "").

(** The body of the loop [for e in element.getchildren()].  The [date] and
    [owner] columns of [attribute_type] are not kept in the rows. *)
Definition parse_variable (acc : importer * Z) (e : Xml.element)
  : importer * Z :=
  let '(st, var_count) := acc in
  let name := Xml.get e "name" in
  let valuetype := valuetype_of (Xml.get e "typeOfVariable") in
  let memo := variable_memo e in
  let '(st, var_count) :=
    match Db.insert_attribute_type (conn st)
            {| Db.aty_name := name; Db.aty_caseOrFile := "file";
               Db.aty_valuetype := valuetype; Db.aty_memo := memo |} with
    | Some c => (with_conn st c, var_count + 1)
    | None => (st, var_count)
    end in
  (with_variables st
     (variables st ++ [{| var_guid := Xml.get e "guid"; var_name := name |}]),
   var_count).

(** [parse_variables] returns the list [[var_count]]. *)
Definition parse_variables (element : Xml.element) (st : importer)
  : importer * list Z :=
  let '(st, var_count) :=
    fold_left parse_variable (Xml.getchildren element) (st, 0) in
  (st, [var_count]).

(** ** Variable values inside a source: [parse_variable_value] *)

(** The placeholders of the insert: the name of the last VariableRef
    child that names a known variable, [""] when there is none; the
    stripped text of the last value child that has a text, [""] when there
    is none.  [creating_user] is a string, as the docstring has it. *)
Definition variable_value_row (now_date : string) (element : Xml.element)
    (id_ : Z) (creating_user : string) (st : importer) : Db.attribute_row :=
  let var_name_ :=
    fold_left
      (fun n var_el =>
         if String.eqb (Xml.tag var_el) (Xml.project "VariableRef") then
           match first_variable_name (variables st)
                   (Xml.get var_el "targetGUID") with
           | Some found => found
           | None => n
           end
         else n)
      (Xml.getchildren element) (Some "") in
  let value :=
    fold_left
      (fun v var_el =>
         if is_value var_el then
           match Xml.text var_el with
           | Some t => Py.str (Py.strip (Py.chars t))
           | None => v
           end
         else v)
      (Xml.getchildren element) "" in
  {| Db.at_name := var_name_; Db.at_attr_type := "file";
     Db.at_value := Some value; Db.at_id := Some id_;
     Db.at_date := now_date; Db.at_owner := creating_user |}.

(** The insert has no [try]: a row that [attribute] refuses raises. *)
Definition parse_variable_value (now_date : string) (element : Xml.element)
    (id_ : Z) (creating_user : string) (st : importer) : Py.result importer :=
  c <- Py.or_raise
         (Db.insert_attribute (conn st)
            (variable_value_row now_date element id_ creating_user st))
         Py.IntegrityError ;;
  Py.Ok (with_conn st c).

(** ** Sets: [parse_sets], [parse_set], [insert_set_source_variables] *)

(** The insert of the variable is guarded, the inserts of its values are
    not: a value that [attribute] refuses raises. *)
Definition insert_set_source_variables (now_date : string)
    (name : option string) (memo : string) (set_sources : list Z)
    (st : importer) : Py.result importer :=
  match Db.insert_attribute_type (conn st)
          {| Db.aty_name := name; Db.aty_caseOrFile := "file";
             Db.aty_valuetype := Some "character"; Db.aty_memo := Some memo |} with
  | None => Py.Ok st
  | Some c =>
      Py.for_each set_sources
        (fun st id_ =>
           c <- Py.or_raise
                  (Db.insert_attribute (conn st)
                     {| Db.at_name := name; Db.at_attr_type := "file";
                        Db.at_value := name; Db.at_id := Some id_;
                        Db.at_date := now_date; Db.at_owner := codername st |})
                  Py.IntegrityError ;;
           Py.Ok (with_conn st c))
        (with_conn st c)
  end.

(** The memo of a Set: the text of its first Description child, and the
    empty string when that text is [None] or there is no such child. *)
Definition set_memo (element : Xml.element) : string :=
  match find (fun el => String.eqb (Xml.tag el) (Xml.project "Description"))
             (Xml.getchildren element) with
  | Some el => or_default (Xml.text el) ""
  | None => ""
  end.

(** The ids appended to [set_sources]: for each MemberSource child, the id
    of every source that has its target GUID. *)
Definition set_sources_of (element : Xml.element) (ss : list source) : list Z :=
  flat_map
    (fun el =>
       if String.eqb (Xml.tag el) (Xml.project "MemberSource") then
         map source_id
           (filter (fun s => Xml.eq_opt (Xml.get el "targetGUID") (source_guid s)) ss)
       else [])
    (Xml.getchildren element).

Definition parse_set (now_date : string) (element : Xml.element)
    (st : importer) : Py.result importer :=
  let name := Xml.get element "name" in
  let memo := set_memo element in
  match set_sources_of element (sources st) with
  | [] => Py.Ok st
  | set_sources => insert_set_source_variables now_date name memo set_sources st
  end.

(** [clock e] is the clock as [insert_set_source_variables] reads it for
    the Set [e]. *)
Definition parse_sets (clock : Xml.element -> string) (element : Xml.element)
    (st : importer) : Py.result importer :=
  Py.for_each (Xml.getchildren element)
    (fun st e =>
       if String.eqb (Xml.tag e) (Xml.project "Set")
       then parse_set (clock e) e st else Py.Ok st)
    st.

(** ** Source paths: [name_creating_user_create_date_source_path_helper] *)

(** [x.split(sep)[1]] on a value that may be [None]. *)
Definition after_first (x : option string) (sep : string) : Py.result string :=
  match x with
  | Some s => Py.index (PyStr.split s sep) 1
  | None => Py.Raise Py.AttributeError
  end.

(** [a + b] where [a] may be [None]. *)
Definition concat_opt (a : option string) (b : string) : Py.result string :=
  match a with
  | Some x => Py.Ok (x ++ b)
  | None => Py.Raise Py.TypeError
  end.

(** [self.sources_name]: ["/sources"] when the extracted folder lists an
    entry [sources], else ["/Sources"]. *)
Definition sources_name_of (contents : list string) : string :=
  if existsb (String.eqb "sources") contents then "/sources" else "/Sources".

(** The helper returns [name, creating_user, create_date, source_path,
    path_type].  [now_stamp] is the clock in the format
    [%Y-%m-%dT%H:%M:%SZ], [contents] is [os.listdir(self.folder_name)] and
    [base_path] is [self.base_path], the [basePath] attribute of the
    Project element. *)
Definition name_creating_user_create_date_source_path_helper
    (now_stamp : string) (contents : list string) (folder_name : string)
    (base_path : option string) (element : Xml.element) (st : importer)
  : Py.result (option string * option string * string * string * string) :=
  let name := Xml.get element "name" in
  let creating_user_guid :=
    match Xml.get element "creatingUser" with
    | None => Xml.get element "modifyingUser"
    | g => g
    end in
  let creating_user :=
    user_name_of (users st) creating_user_guid (Some "default") in
  let create_date :=
    match Xml.get element "creationDateTime" with
    | None => Xml.get element "modifiedDateTime"
    | d => d
    end in
  let create_date := or_default create_date now_stamp in
  let create_date := Py.replace (Py.replace create_date "T" " ") "Z" "" in
  let path_ := Xml.get element "path" in
  let sources_name := sources_name_of contents in
  located <-
    match path_ with
    | None =>
        source_path <- after_first (Xml.get element "plainTextPath") "internal:/" ;;
        Py.Ok (folder_name ++ sources_name ++ source_path, "internal")
    | Some _ => Py.Ok ("", "")
    end ;;
  step <-
    match path_ with
    | Some p =>
        if PyStr.find p "internal://" =? 0 then
          p' <- after_first (Xml.get element "path") "internal:/" ;;
          Py.Ok (Some p', (folder_name ++ sources_name ++ p', "internal"))
        else Py.Ok (path_, located)
    | None => Py.Ok (path_, located)
    end ;;
  let '(path_, located) := step in
  located <-
    match path_ with
    | Some p =>
        if PyStr.find p "relative://" =? 0 then
          rest <- Py.index (PyStr.split p "relative://") 1 ;;
          source_path <- concat_opt base_path rest ;;
          Py.Ok (source_path, "relative")
        else Py.Ok located
    | None => Py.Ok located
    end ;;
  located <-
    match path_ with
    | Some p =>
        if PyStr.find p "absolute://" =? 0 then
          source_path <- Py.index (PyStr.split p "absolute://") 1 ;;
          Py.Ok (source_path, "absolute")
        else Py.Ok located
    | None => Py.Ok located
    end ;;
  Py.Ok (name, creating_user, create_date, fst located, snd located).


(** ** Words for the properties of [parse_cases] *)

Definition is_named (e : Xml.element) : bool :=
  match Xml.get e "name" with Some _ => true | None => false end.

Definition is_variable_ref (e : Xml.element) : bool :=
  String.eqb (Xml.tag e) (Xml.project "VariableRef").

(** The children of a Cases element for which the insert into [cases]
    succeeds, when the table holds the names [taken]: those with a name
    that is not in the table and is not the name of an earlier child. *)
Fixpoint stored_cases (taken : list (option string)) (l : list Xml.element)
  : list Xml.element :=
  match l with
  | [] => []
  | e :: l' =>
      match Xml.get e "name" with
      | Some _ =>
          if Db.name_taken (Xml.get e "name") taken then stored_cases taken l'
          else e :: stored_cases (taken ++ [Xml.get e "name"]) l'
      | None => stored_cases taken l'
      end
  end.

(** The memo that [parse_cases] stores for the Case [e]. *)
Definition case_memo (e : Xml.element) : option string :=
  fold_left
    (fun m d => if String.eqb (Xml.tag d) "{urn:QDA-XML:project:1:0}Description"
                then Xml.text d else m)
    (Xml.getchildren e) (Some "").

(** The rows of [attribute_type] are those of [rows0], each with the scope
    it had or with the scope [case]. *)
Definition scopes_kept_or_case (rows0 rows : list Db.attribute_type_row) : Prop :=
  Forall2
    (fun r0 r =>
       Db.aty_name r = Db.aty_name r0
       /\ Db.aty_valuetype r = Db.aty_valuetype r0
       /\ Db.aty_memo r = Db.aty_memo r0
       /\ (Db.aty_caseOrFile r = Db.aty_caseOrFile r0
           \/ Db.aty_caseOrFile r = "case"))
    rows0 rows.

(** Every variable of the name [n] has the scope [case]. *)
Definition scoped_case (n : string) (rows : list Db.attribute_type_row) : Prop :=
  Forall (fun r => Db.aty_name r = Some n -> Db.aty_caseOrFile r = "case") rows.

End RefiImport.

(* ================================================================== *)
(** * Export: the codebook *)

Module Codebook.

(** A category dictionary of [get_categories], without its ['examine']
    entry. *)
Record category : Type := {
  name : option string;
  catid : Z;
  memo : option string;
  supercatid : option Z;
  guid : string
}.

(** A code dictionary of [get_codes] as far as [codebook_xml] reads it:
    the category it belongs to and its prepared XML. *)
Record code : Type := {
  code_catid : option Z;
  code_xml : string
}.

(** The ['examine'] entries of the category dictionaries, by position in
    the list.  They are the only part of a category that export assigns
    to. *)
Definition flags : Type := list bool.

Definition examine (fl : flags) (i : nat) : bool := nth i fl false.

(** [cats[i]['examine'] = False] *)
Fixpoint examined (i : nat) (fl : flags) : flags :=
  match fl, i with
  | [], _ => []
  | _ :: fl', O => false :: fl'
  | b :: fl', S i' => b :: examined i' fl'
  end.

(** The XML is built by appending; it is kept as the sequence of appended
    parts, so that the element of a category or of a code can be told
    apart in it.  [render] gives the text. *)
Inductive piece : Type :=
| Literal (s : string)
| CategoryOpen (i : nat)   (* start tag and Description of category [i] *)
| CodeElement (j : nat).   (* [code_['xml']] of code [j] *)

Definition dq : string := String (ascii_of_nat 34) "".
Definition nl : string := String (ascii_of_nat 10) "".

Definition convert_xml_predefined_entities (text : option string) : string :=
  match text with
  | None => ""
  | Some text =>
      let text := Py.replace text "&" "&#038;" in
      let text := Py.replace text (ascii_of_nat 34) "&#034;" in
      let text := Py.replace text "'" "&#039;" in
      let text := Py.replace text "<" "&#060;" in
      Py.replace text ">" "&#062;"
  end.

Definition category_open (c : category) : string :=
  let xml := "<Code guid=" ++ dq ++ guid c in
  let xml := xml ++ dq ++ " name=" ++ dq ++ convert_xml_predefined_entities (name c) in
  let xml := xml ++ dq ++ " isCodable=" ++ dq ++ "false" in
  let xml := xml ++ dq ++ ">" ++ nl in
  let memo := convert_xml_predefined_entities (memo c) in
  if String.eqb memo "" then xml
  else xml ++ "<Description>" ++ memo ++ "</Description>" ++ nl.

Definition render_piece (cats : list category) (codes : list code)
    (p : piece) : string :=
  match p with
  | Literal s => s
  | CategoryOpen i =>
      match nth_error cats i with Some c => category_open c | None => "" end
  | CodeElement j =>
      match nth_error codes j with Some co => code_xml co | None => "" end
  end.

Definition render (cats : list category) (codes : list code)
    (xml : list piece) : string :=
  String.concat "" (map (render_piece cats codes) xml).

Definition eq_id (a b : option Z) : bool :=
  match a, b with
  | Some x, Some y => x =? y
  | None, None => true
  | _, _ => false
  end.

(** The positions of the codes picked by
    [for code_ in self.codes: if code_['catid'] == id]. *)
Definition code_positions (codes : list code) (id : option Z) : list nat :=
  filter
    (fun j => match nth_error codes j with
              | Some co => eq_id (code_catid co) id
              | None => false
              end)
    (seq 0 (List.length codes)).

(** [for code_ in self.codes: if code_['catid'] == id: xml += code_['xml']] *)
Definition codes_of (codes : list code) (id : option Z) : list piece :=
  map CodeElement (code_positions codes id).

(** A [for] loop over positions whose body may fail to return. *)
Fixpoint for_positions {S} (l : list nat) (body : S -> nat -> option S)
    (s : S) : option S :=
  match l with
  | [] => Some s
  | i :: l' =>
      match body s i with
      | Some s' => for_positions l' body s'
      | None => None
      end
  end.

(** [while unfinished and counter < ceiling], with [remaining = ceiling -
    counter]; [unfinished] is [True] at the start and recomputed at the
    end of each round. *)
Fixpoint while_unfinished {S} (remaining : nat) (round : S -> option S)
    (unfinished : S -> bool) (s : S) : option S :=
  match remaining with
  | O => Some s
  | Datatypes.S r =>
      match round s with
      | Some s' =>
          if unfinished s' then while_unfinished r round unfinished s'
          else Some s'
      | None => None
      end
  end.

Definition ceiling : nat := Z.to_nat 5000.

(** [for c in cats: if c['examine']: unfinished = True] *)
Definition unfinished (acc : list piece * flags) : bool :=
  existsb (fun b => b) (snd acc).

(** The body of [for c in cats] in [add_sub_categories], at position [i],
    on the XML and the flags so far.  [recurse] is the recursive call. *)
Definition sub_category_step
    (recurse : Z -> flags -> option (list piece * flags))
    (codes : list code) (cats : list category) (cid : Z)
    (acc : list piece * flags) (i : nat) : option (list piece * flags) :=
  let '(xml, fl) := acc in
  match nth_error cats i with
  | Some c =>
      if examine fl i && eq_id (Some cid) (supercatid c) then
        let fl := examined i fl in
        let xml := (xml ++ [CategoryOpen i])%list in
        match recurse (catid c) fl with
        | Some (sub, fl) =>
            Some ((xml ++ sub ++ codes_of codes (Some (catid c))
                       ++ [Literal ("</Code>" ++ nl)])%list, fl)
        | None => None
        end
      else Some (xml, fl)
  | None => Some (xml, fl)
  end.

(** [add_sub_categories(cid, cats)].  The result is the XML and the flags
    as the call leaves them.  [depth] bounds the nesting of the recursive
    calls; [None] means that the bound was reached. *)
Fixpoint add_sub_categories (depth : nat) (codes : list code)
    (cats : list category) (cid : Z) (fl : flags)
  : option (list piece * flags) :=
  match depth with
  | O => None
  | Datatypes.S depth' =>
      while_unfinished ceiling
        (for_positions (seq 0 (List.length cats))
           (sub_category_step (add_sub_categories depth' codes cats)
                              codes cats cid))
        unfinished ([], fl)
  end.

(** The body of [for ca in cats] in [codebook_xml]. *)
Definition top_category_step (depth : nat) (codes : list code)
    (cats : list category) (acc : list piece * flags) (i : nat)
  : option (list piece * flags) :=
  let '(xml, fl) := acc in
  match nth_error cats i with
  | Some ca =>
      if eq_id (supercatid ca) None && examine fl i then
        let fl := examined i fl in
        let xml := (xml ++ [CategoryOpen i])%list in
        let xml := (xml ++ codes_of codes (Some (catid ca)))%list in
        match add_sub_categories depth codes cats (catid ca) fl with
        | Some (sub, fl) =>
            Some ((xml ++ sub ++ [Literal ("</Code>" ++ nl)])%list, fl)
        | None => None
        end
      else Some (xml, fl)
  | None => Some (xml, fl)
  end.

(** [codebook_xml()] from the flags [fl]. *)
Definition codebook_xml_from (depth : nat) (codes : list code)
    (cats : list category) (fl : flags) : option (list piece * flags) :=
  match codes with
  | [] => Some ([], fl)
  | _ :: _ =>
      let xml := [Literal ("<CodeBook>" ++ nl); Literal ("<Codes>" ++ nl)] in
      let xml := (xml ++ codes_of codes None)%list in
      match
        for_positions (seq 0 (List.length cats))
          (top_category_step depth codes cats) (xml, fl)
      with
      | Some (xml, fl) =>
          Some ((xml ++ [Literal ("</Codes>" ++ nl);
                         Literal ("</CodeBook>" ++ nl)])%list, fl)
      | None => None
      end
  end.

(** [get_categories()] sets every ['examine'] to [True]; then
    [codebook_xml()] runs.  A nesting bound of one more than the number of
    categories is never reached (see [add_sub_categories_returns]). *)
Definition codebook_xml (codes : list code) (cats : list category)
  : option (list piece) :=
  option_map fst
    (codebook_xml_from (Datatypes.S (List.length cats)) codes cats
       (repeat true (List.length cats))).

(** The categories whose element the XML holds, in order. *)
Definition opened (xml : list piece) : list nat :=
  flat_map (fun p => match p with CategoryOpen i => [i] | _ => [] end) xml.

(** The codes whose element the XML holds, in order. *)
Definition emitted_codes (xml : list piece) : list nat :=
  flat_map (fun p => match p with CodeElement j => [j] | _ => [] end) xml.

(** Number of categories still to examine. *)
Definition to_examine (fl : flags) : nat :=
  List.length (filter (fun b => b) fl).

(** ** What a run of the export keeps *)

Section Run.

Variables (codes : list code) (cats : list category).

(** While [xml] is written the flags go from [fl] to [fl']: flags are only
    cleared, a category is opened at most once, and the opened ones are
    those whose flag was cleared. *)
Definition well_opened (fl : flags) (xml : list piece) (fl' : flags) : Prop :=
  List.length fl' = List.length fl
  /\ (forall i, examine fl' i = true -> examine fl i = true)
  /\ NoDup (opened xml)
  /\ (forall i, In i (opened xml) <->
                examine fl i = true /\ examine fl' i = false).

(** Every code in [xml] belongs to a category opened in [xml], all codes
    of a category opened in [xml] are in [xml], and with distinct category
    ids no code is there twice. *)
Definition codes_follow (xml : list piece) : Prop :=
  (NoDup (map catid cats) -> NoDup (emitted_codes xml))
  /\ (forall j, In j (emitted_codes xml) ->
        exists i c co,
          In i (opened xml) /\ nth_error cats i = Some c
          /\ nth_error codes j = Some co
          /\ code_catid co = Some (catid c))
  /\ (forall i c j,
         In i (opened xml) -> nth_error cats i = Some c ->
         In j (code_positions codes (Some (catid c))) ->
         In j (emitted_codes xml)).

(** The category at [i] has the parent id [parent], or the id of one of
    the categories [seen]. *)
Definition child_of (parent : option Z) (seen : list nat) (i : nat) : Prop :=
  exists c,
    nth_error cats i = Some c
    /\ (supercatid c = parent
        \/ exists k ck,
             In k seen /\ nth_error cats k = Some ck
             /\ supercatid c = Some (catid ck)).

(** In the list [o] of opened categories each one is a child of [parent]
    or of a category that stands before it (or is among [seen]). *)
Fixpoint parents_first (parent : option Z) (seen : list nat) (o : list nat)
  : Prop :=
  match o with
  | [] => True
  | i :: o' => child_of parent seen i /\ parents_first parent (i :: seen) o'
  end.

(** No category with the parent id [cid] is left to examine. *)
Definition cleared_under (cid : Z) (fl : flags) : Prop :=
  forall i c,
    nth_error cats i = Some c -> supercatid c = Some cid ->
    examine fl i = false.

(** No child of a category opened in [xml] is left to examine. *)
Definition children_cleared (xml : list piece) (fl' : flags) : Prop :=
  forall k ck,
    In k (opened xml) -> nth_error cats k = Some ck ->
    cleared_under (catid ck) fl'.

Definition run (parent : option Z) (fl : flags) (xml : list piece)
    (fl' : flags) : Prop :=
  well_opened fl xml fl' /\ codes_follow xml
  /\ parents_first parent [] (opened xml) /\ children_cleared xml fl'.

(** What a call of [add_sub_categories] that returns has done: a run under
    [cid] that leaves no child of [cid] to examine. *)
Definition sub_categories_done
    (recurse : Z -> flags -> option (list piece * flags)) : Prop :=
  forall cid fl sub fl',
    recurse cid fl = Some (sub, fl') ->
    run (Some cid) fl sub fl' /\ cleared_under cid fl'.

(** The categories whose chain of parent ids ends at a category without a
    parent. *)
Inductive reachable : nat -> Prop :=
| reachable_top (i : nat) (c : category) :
    nth_error cats i = Some c -> supercatid c = None -> reachable i
| reachable_child (i k : nat) (c ck : category) :
    nth_error cats i = Some c -> nth_error cats k = Some ck ->
    supercatid c = Some (catid ck) -> reachable k -> reachable i.

(** The codes without a category or in a reachable category. *)
Definition exported_code (j : nat) : Prop :=
  exists co,
    nth_error codes j = Some co
    /\ (code_catid co = None
        \/ exists i c,
             reachable i /\ nth_error cats i = Some c
             /\ code_catid co = Some (catid c)).

End Run.

End Codebook.

(* ================================================================== *)
(** * Import: the selections of text, audio and video sources *)

Module Selections.

Import RefiImport.

(** A row of [code_text] as [_load_codings_for_text] writes it: [cid] is
    NULL when no code has the GUID of the CodeRef, and [avid] is not
    given. *)
Record text_coding_row : Type := {
  tc_cid : option Z;
  tc_fid : Z;
  tc_seltext : string;
  tc_pos0 : Z;
  tc_pos1 : Z;
  tc_owner : option string;
  tc_memo : string;
  tc_date : string
}.

Record code_av_row : Type := {
  av_id : Z;
  av_pos0 : Z;
  av_pos1 : Z;
  av_cid : option Z;
  av_memo : string;
  av_date : string;
  av_owner : option string
}.

Record case_text_row : Type := {
  cx_caseid : option Z;
  cx_fid : Z;
  cx_pos0 : Z;
  cx_pos1 : Z;
  cx_owner : option string;
  cx_date : string;
  cx_memo : string
}.

(** The tables that the code of this part reads and writes. *)
Record tables : Type := {
  code_name : list Db.code_name_row;
  code_text : list text_coding_row;
  annotation : list Db.annotation_row;
  code_av : list code_av_row;
  case_text : list case_text_row
}.

Definition append_code_text (db : tables) (row : text_coding_row) : tables :=
  {| code_name := code_name db; code_text := code_text db ++ [row];
     annotation := annotation db; code_av := code_av db;
     case_text := case_text db |}.

(** Two rows of [code_text] are the same coded span: the same code, source,
    start, end and owner, none of them NULL. *)
Definition text_coding_clash (r r' : text_coding_row) : bool :=
  Db.same_int (tc_cid r) (tc_cid r') && (tc_fid r =? tc_fid r')
  && (tc_pos0 r =? tc_pos0 r') && (tc_pos1 r =? tc_pos1 r')
  && Db.same_text (tc_owner r) (tc_owner r').

(** Modelled from the spec: as [Db.insert_code_text], an insert of a coded
    span that is in the table fails with [sqlite3.IntegrityError], here
    [None]. *)
Definition insert_code_text (db : tables) (row : text_coding_row)
  : option tables :=
  if existsb (text_coding_clash row) (code_text db) then None
  else Some (append_code_text db row).

Definition insert_annotation (db : tables) (row : Db.annotation_row) : tables :=
  {| code_name := code_name db; code_text := code_text db;
     annotation := annotation db ++ [row]; code_av := code_av db;
     case_text := case_text db |}.

Definition insert_code_av (db : tables) (row : code_av_row) : tables :=
  {| code_name := code_name db; code_text := code_text db;
     annotation := annotation db; code_av := code_av db ++ [row];
     case_text := case_text db |}.





Definition is_coding (e : Xml.element) : bool :=
  String.eqb (Xml.tag e) (Xml.project "Coding").

(** [e.get(a)], and [e.get(b)] when that is [None]. *)
Definition get_or (e : Xml.element) (a b : string) : option string :=
  match Xml.get e a with
  | None => Xml.get e b
  | x => x
  end.

(** ** Text: [_load_codings_for_text] *)

(** The memo of a PlainTextSelection: the text of the last Description
    child that has a text. *)
Definition selection_memo (element : Xml.element) : string :=
  fold_left
    (fun memo e =>
       if String.eqb (Xml.tag e) (Xml.project "Description") then
         match Xml.text e with Some t => t | None => memo end
       else memo)
    (Xml.getchildren element) "".

(** The body of the loop over the children that inserts the codings.  The
    insert has no [try]: a span that [code_text] refuses raises. *)
Definition text_coding_step (codes : list code_ref) (row : text_coding_row)
    (db : tables) (e : Xml.element) : Py.result tables :=
  if is_coding e then
    cref <- Py.index (Xml.getchildren e) 0 ;;
    let cid := code_id_of codes (Xml.get cref "targetGUID") in
    Py.or_raise
      (insert_code_text db
         {| tc_cid := cid; tc_fid := tc_fid row;
            tc_seltext := tc_seltext row; tc_pos0 := tc_pos0 row;
            tc_pos1 := tc_pos1 row; tc_owner := tc_owner row;
            tc_memo := tc_memo row; tc_date := tc_date row |})
      Py.IntegrityError
  else Py.Ok db.

(** [source] is given by its ['fulltext'] and its ['id']. *)
Definition _load_codings_for_text (us : list user) (cs : list code_ref)
    (fulltext : string) (fid : Z) (element : Xml.element) (db : tables)
  : Py.result tables :=
  pos0 <- Py.int (Xml.get element "startPosition") ;;
  pos1 <- Py.int (Xml.get element "endPosition") ;;
  create_date <-
    date_of_stamp (get_or element "creationDateTime" "modifiedDateTime") ;;
  let creating_user :=
    user_name_of us (get_or element "creatingUser" "modifyingUser")
      (Some "default") in
  let seltext := Py.slice fulltext (Some pos0) (Some pos1) in
  let memo := selection_memo element in
  db <- Py.for_each (Xml.getchildren element)
          (text_coding_step cs
             {| tc_cid := None; tc_fid := fid; tc_seltext := seltext;
                tc_pos0 := pos0; tc_pos1 := pos1; tc_owner := creating_user;
                tc_memo := memo; tc_date := create_date |})
          db ;;
  let annotation := negb (existsb is_coding (Xml.getchildren element)) in
  if annotation then
    Py.Ok (insert_annotation db
             {| Db.an_fid := fid; Db.an_pos0 := pos0; Db.an_pos1 := pos1;
                Db.an_memo := memo; Db.an_owner := creating_user;
                Db.an_date := create_date |})
  else Py.Ok db.

(** ** Audio and video: [load_codings_for_audio_video] *)

(** The memo of an audio or video selection: the text of the last
    Description child, the empty string when that text is [None]. *)
Definition av_memo_of (element : Xml.element) : string :=
  fold_left
    (fun memo e =>
       if String.eqb (Xml.tag e) (Xml.project "Description")
       then or_default (Xml.text e) "" else memo)
    (Xml.getchildren element) "".

Definition av_coding_step (cs : list code_ref) (row : code_av_row)
    (db : tables) (e : Xml.element) : Py.result tables :=
  if is_coding e then
    cref <- Py.index (Xml.getchildren e) 0 ;;
    let cid := code_id_of cs (Xml.get cref "targetGUID") in
    Py.Ok (insert_code_av db
             {| av_id := av_id row; av_pos0 := av_pos0 row;
                av_pos1 := av_pos1 row; av_cid := cid; av_memo := av_memo row;
                av_date := av_date row; av_owner := av_owner row |})
  else Py.Ok db.

(** [now_date] is the clock in the format [%Y-%m-%d_%H:%M:%S], read when
    the element has neither date. *)
Definition load_codings_for_audio_video (now_date : string) (us : list user)
    (cs : list code_ref) (id_ : Z) (element : Xml.element) (db : tables)
  : Py.result tables :=
  seg_start <- Py.int (Xml.get element "begin") ;;
  seg_end <- Py.int (Xml.get element "end") ;;
  let create_date :=
    match date_of_stamp (get_or element "creationDateTime" "modifiedDateTime") with
    | Py.Raise Py.AttributeError => Py.Ok now_date
    | r => r
    end in
  create_date <- create_date ;;
  let creating_user :=
    user_name_of us (get_or element "creatingUser" "modifyingUser")
      (Some "default") in
  let memo := av_memo_of element in
  Py.for_each (Xml.getchildren element)
    (av_coding_step cs
       {| av_id := id_; av_pos0 := seg_start; av_pos1 := seg_end;
          av_cid := None; av_memo := memo; av_date := create_date;
          av_owner := creating_user |})
    db.

(** ** Codes that stand for cases: [clean_up_case_codes_and_case_text] *)





End Selections.

(* ================================================================== *)
(** * Export: time stamps, transcripts and the codebook file *)

Module RefiExport.

(** The characters that XML reserves in text and attribute values, the
    ampersand apart. *)
Definition markup (c : ascii) : Prop :=
  c = ascii_of_nat 34 \/ c = "'"%char \/ c = "<"%char \/ c = ">"%char.

(** [convert_timestamp]: [yyyy-mm-dd hh:mm:ss] to [yyyy-mm-ddThh:mm:ssZ]. *)
Definition convert_timestamp (time_in : string) : string :=
  Py.slice time_in (Some 0) (Some 10) ++ "T"
  ++ Py.slice time_in (Some 11) None ++ "Z".

(** [{'name': ..., 'guid': ...}] of [self.users]; the name is the [owner]
    column of a table. *)
Record user_entry : Type := { ue_name : option string; ue_guid : string }.

(** [{'cid': ..., 'guid': ...}] of [self.codes], as far as [code_guid] reads
    it. *)
Record code_entry : Type := { ce_cid : Z; ce_guid : string }.

Definition user_guid (users : list user_entry) (username : option string)
  : string :=
  match find (fun u => Xml.eq_opt (ue_name u) username) users with
  | Some u => ue_guid u
  | None => ""
  end.

(** [code_id] is the [cid] column of a coding, which can hold NULL. *)
Definition code_guid (codes : list code_entry) (code_id : option Z) : string :=
  match find (fun c => Codebook.eq_id (Some (ce_cid c)) code_id) codes with
  | Some c => ce_guid c
  | None => ""
  end.

(** ** Transcripts: [get_transcript_syncpoints], [get_transcript_selections] *)

(** A row of [select pos0,pos1,cid,owner,date,memo from code_text where
    fid=? order by pos0], as far as it is read. *)
Record coded : Type := { pos0 : Z; pos1 : Z; cid : option Z }.

(** An entry [[guid, xml, position]] of [sync_list]. *)
Record sync_entry : Type := {
  sync_guid : string;
  sync_xml : string;
  sync_position : Z
}.

(** [msecs = 0; for t in tps: if t[0] <= p: msecs = t[1]] *)
Definition msecs_at (tps : list Timepoints.time_point) (p : Z) : Z :=
  fold_left (fun msecs t => if fst t <=? p then snd t else msecs) tps 0.

(** [tps[-1][1]] *)
Definition media_end (tps : list Timepoints.time_point) : Py.result Z :=
  match rev tps with
  | t :: _ => Py.Ok (snd t)
  | [] => Py.Raise Py.IndexError
  end.

Definition sync_point_xml (guid : string) (position msecs : Z) : string :=
  "<SyncPoint guid=" ++ Codebook.dq ++ guid ++ Codebook.dq
  ++ " position=" ++ Codebook.dq ++ PyStr.of_int position ++ Codebook.dq ++ " "
  ++ "timeStamp=" ++ Codebook.dq ++ PyStr.of_int msecs ++ Codebook.dq
  ++ " />" ++ Codebook.nl.

Definition sync_point (guid : string) (position msecs : Z) : sync_entry :=
  {| sync_guid := guid; sync_xml := sync_point_xml guid position msecs;
     sync_position := position |}.

(** A step of the export either has no result in the model (the draws of
    the session are used up), or raises, or returns with the new
    session. *)
Definition step (A : Type) : Type := option (Py.result (A * Guid.session)).

(** The loop [for r in results] of [get_transcript_syncpoints]. *)
Fixpoint sync_rows (tps : list Timepoints.time_point) (results : list coded)
    (sync_list : list sync_entry) (s : Guid.session)
  : step (list sync_entry) :=
  match results with
  | [] => Some (Py.Ok (sync_list, s))
  | r :: rest =>
      match Guid.create_guid s with
      | None => None
      | Some (guid, s) =>
          let msecs := msecs_at tps (pos0 r) in
          let sync_list := (sync_list ++ [sync_point guid (pos0 r) msecs])%list in
          let msecs := msecs_at tps (pos1 r) in
          match (if msecs =? 0 then media_end tps else Py.Ok msecs) with
          | Py.Raise e => Some (Py.Raise e)
          | Py.Ok msecs =>
              match Guid.create_guid s with
              | None => None
              | Some (guid, s) =>
                  sync_rows tps rest
                    (sync_list ++ [sync_point guid (pos1 r) msecs])%list s
              end
          end
      end
  end.

(** [results] are the rows that the query on [code_text] returns for the
    transcript. *)
Definition get_transcript_syncpoints (duration : option Z)
    (media : Timepoints.media) (results : list coded) (s : Guid.session)
  : step (list sync_entry) :=
  match Timepoints.get_transcript_timepoints duration media with
  | Py.Raise e => Some (Py.Raise e)
  | Py.Ok tps =>
      match Guid.create_guid s with
      | None => None
      | Some (guid, s) => sync_rows tps results [sync_point guid 0 0] s
      end
  end.

(** The GUID that the loops over [sync_list] append for the position [p]:
    that of the first entry at [p], nothing when there is none. *)
Definition sync_guid_at (sync_list : list sync_entry) (p : Z) : string :=
  match find (fun sp => sync_position sp =? p) sync_list with
  | Some sp => sync_guid sp
  | None => ""
  end.

Definition transcript_selection_xml (guid name from_ to_ coding code : string)
  : string :=
  "<TranscriptSelection guid=" ++ Codebook.dq ++ guid ++ Codebook.dq ++ " "
  ++ "name=" ++ Codebook.dq ++ name ++ Codebook.dq ++ " "
  ++ "fromSyncPoint=" ++ Codebook.dq ++ from_
  ++ Codebook.dq ++ " toSyncPoint=" ++ Codebook.dq ++ to_
  ++ Codebook.dq ++ ">" ++ Codebook.nl
  ++ "<Coding guid=" ++ Codebook.dq ++ coding ++ Codebook.dq ++ " >" ++ Codebook.nl
  ++ "<CodeRef targetGUID=" ++ Codebook.dq ++ code ++ Codebook.dq ++ " />" ++ Codebook.nl
  ++ "</Coding>" ++ Codebook.nl
  ++ "</TranscriptSelection>" ++ Codebook.nl.

(** What [get_transcript_selections] writes for one row: the attributes of
    the TranscriptSelection element and of its Coding. *)
Record selection : Type := {
  sel_guid : string;
  sel_from : string;
  sel_to : string;
  sel_coding : string;
  sel_code : string
}.

Definition selection_xml (name : string) (x : selection) : string :=
  transcript_selection_xml (sel_guid x) name (sel_from x) (sel_to x)
    (sel_coding x) (sel_code x).

(** The loop [for coded in results] of [get_transcript_selections], on the
    selections written so far. *)
Fixpoint selection_rows (codes : list code_entry)
    (sync_list : list sync_entry) (results : list coded)
    (written : list selection) (s : Guid.session)
  : option (list selection * Guid.session) :=
  match results with
  | [] => Some (written, s)
  | r :: rest =>
      match Guid.create_guid s with
      | None => None
      | Some (guid, s) =>
          match Guid.create_guid s with
          | None => None
          | Some (coding, s) =>
              selection_rows codes sync_list rest
                (written ++
                 [{| sel_guid := guid;
                     sel_from := sync_guid_at sync_list (pos0 r);
                     sel_to := sync_guid_at sync_list (pos1 r);
                     sel_coding := coding;
                     sel_code := code_guid codes (cid r) |}])%list s
          end
      end
  end.

(** [get_transcript_selections(media, sync_list)] returns the XML; the
    model keeps the selections it is made of as well. *)
Definition get_transcript_selections (codes : list code_entry)
    (media : Timepoints.media) (sync_list : list sync_entry)
    (results : list coded) (s : Guid.session)
  : option (string * list selection * Guid.session) :=
  match selection_rows codes sync_list results [] s with
  | Some (written, s) =>
      let name :=
        Codebook.convert_xml_predefined_entities (Some (Timepoints.name media)) in
      Some (String.concat "" (map (selection_xml name) written), written, s)
  | None => None
  end.

(** ** The codebook file: [codebook_exchange_xml] *)

Definition exchange_header : string :=
  "<?xml version=" ++ Codebook.dq ++ "1.0" ++ Codebook.dq
  ++ " encoding=" ++ Codebook.dq ++ "utf-8" ++ Codebook.dq ++ "?>" ++ Codebook.nl
  ++ "<CodeBook xmlns=" ++ Codebook.dq ++ "urn:QDA-XML:codebook:1:0" ++ Codebook.dq ++ " "
  ++ "xsi:schemaLocation=" ++ Codebook.dq
  ++ "urn:QDA-XML:codebook:1:0 Codebook.xsd" ++ Codebook.dq ++ " "
  ++ "origin=" ++ Codebook.dq ++ "QualCoder" ++ Codebook.dq ++ " "
  ++ "xmlns:xsi=" ++ Codebook.dq
  ++ "http://www.w3.org/2001/XMLSchema-instance" ++ Codebook.dq ++ ">".

(** [self.xml] after [codebook_exchange_xml()]. *)
Definition codebook_exchange_xml (codes : list Codebook.code)
    (cats : list Codebook.category) : option string :=
  match Codebook.codebook_xml codes cats with
  | Some xml =>
      Some (exchange_header
            ++ Py.slice (Codebook.render cats codes xml) (Some 10) None)
  | None => None
  end.

End RefiExport.

(* ================================================================== *)
(** * Concrete inputs used below *)

Module Examples.

(** A session in which one GUID was issued and the next draw repeats it. *)
Definition session_example : Guid.session :=
  {| Guid.guids := ["01234567-89ab-cdef-0123-456789abcdef"];
     Guid.entropy := ["0123456789abcdef0123456789abcdef";
                      "aaaaaaaabbbbccccddddeeeeeeeeeeee";
                      "0123456789ABCDEF0123456789abcdef"] |}.

(** Codes known to the importer when the transcripts are read. *)
Definition known_codes : list RefiImport.code_ref :=
  [{| RefiImport.code_guid := Some "c1"; RefiImport.code_cid := 7 |}].

Definition transcript_example : RefiImport.transcript :=
  {| RefiImport.tr_text := "0123456789abcdefghij"; RefiImport.tr_fid := 2;
     RefiImport.tr_av_id := 1; RefiImport.tr_creating_user := Some "default";
     RefiImport.tr_create_date := "2020-11-10 18:01:23" |}.

Definition sync_point (guid position : string) : Xml.element :=
  Xml.Element (Xml.project "SyncPoint")
    [("guid", guid); ("position", position); ("timeStamp", "0")] None [].

Definition selection_a_b : Xml.element :=
  Xml.Element (Xml.project "TranscriptSelection")
    [("guid", "s1"); ("fromSyncPoint", "a"); ("toSyncPoint", "b")] None
    [Xml.Element (Xml.project "Coding") [("guid", "k1")] None
       [Xml.Element (Xml.project "CodeRef") [("targetGUID", "c1")] None []]].

(** A Transcript element in which every SyncPoint GUID occurs once. *)
Definition transcript_unique : Xml.element :=
  Xml.Element (Xml.project "Transcript") []  None
    [sync_point "a" "3"; sync_point "b" "8"; selection_a_b].

(** A Transcript element in which the GUID [b] is on two SyncPoints. *)
Definition transcript_twice : Xml.element :=
  Xml.Element (Xml.project "Transcript") []  None
    [sync_point "a" "3"; sync_point "b" "8"; sync_point "b" "12";
     selection_a_b].

(** An importer on an empty project. *)
Definition new_importer : RefiImport.importer :=
  {| RefiImport.conn := Db.empty; RefiImport.codes := [];
     RefiImport.users := []; RefiImport.sources := [];
     RefiImport.variables := []; RefiImport.file_vars := [];
     RefiImport.cases := []; RefiImport.codername := "default" |}.

(** A code without children. *)
Definition code_element (name guid : string) : Xml.element :=
  Xml.Element (Xml.project "Code")
    [("guid", guid); ("name", name); ("isCodable", "true")] None [].

(** A codable category [Colour] with a Description and three codes, one of
    which has the name of the category. *)
Definition codable_category : Xml.element :=
  Xml.Element (Xml.project "Code")
    [("guid", "g0"); ("name", "Colour"); ("isCodable", "true")] None
    [Xml.Element (Xml.project "Description") [] (Some "hues") [];
     code_element "Red" "g1"; code_element "Colour" "g2";
     code_element "Blue" "g3"].

(** An importer that knows one code, one source and one variable. *)
Definition importer_example : RefiImport.importer :=
  {| RefiImport.conn := Db.empty;
     RefiImport.codes := known_codes;
     RefiImport.users :=
       [{| RefiImport.user_name := Some "ann"; RefiImport.user_guid := Some "u1" |}];
     RefiImport.sources :=
       [{| RefiImport.source_guid := Some "src1"; RefiImport.source_id := 5 |}];
     RefiImport.variables :=
       [{| RefiImport.var_guid := Some "v1"; RefiImport.var_name := Some "Age" |};
        {| RefiImport.var_guid := Some "v2"; RefiImport.var_name := Some "Town" |}];
     RefiImport.file_vars := []; RefiImport.cases := [];
     RefiImport.codername := "default" |}.

(** A PictureSelection whose Coding refers to a GUID that no code has. *)
Definition picture_selection_dangling : Xml.element :=
  Xml.Element (Xml.project "PictureSelection")
    [("guid", "p1"); ("firstX", "10"); ("firstY", "20"); ("secondX", "110");
     ("secondY", "70"); ("name", "a corner"); ("creatingUser", "u1");
     ("creationDateTime", "2019-03-09T23:19:07Z")] None
    [Xml.Element (Xml.project "Coding") [("guid", "k2")] None
       [Xml.Element (Xml.project "CodeRef") [("targetGUID", "nowhere")] None []]].

(** An annotation Note. *)
Definition annotation_note : Xml.element :=
  Xml.Element (Xml.project "Note")
    [("guid", "n1"); ("modifyingUser", "u1");
     ("modifiedDateTime", "2021-01-15T23:37:54Z")] None
    [Xml.Element (Xml.project "PlainTextContent") [] (Some "a remark") [];
     Xml.Element (Xml.project "PlainTextSelection")
       [("guid", "n2"); ("startPosition", "455"); ("endPosition", "596")] None []].

Definition variable_value (var_guid value : string) : Xml.element :=
  Xml.Element (Xml.project "VariableValue") [] None
    [Xml.Element (Xml.project "VariableRef") [("targetGUID", var_guid)] None [];
     Xml.Element (Xml.project "TextValue") [] (Some value) []].

(** A project whose Cases element holds one Case without a name, with two
    VariableValue children and one SourceRef. *)
Definition project_with_case (var_a var_b : string) : Xml.element :=
  Xml.Element (Xml.project "Project") [] None
    [Xml.Element (Xml.project "Cases") [] None
       [Xml.Element (Xml.project "Case") [("guid", "case1")] None
          [variable_value var_a "0"; variable_value var_b "1";
           Xml.Element (Xml.project "SourceRef") [("targetGUID", "src1")] None []]]].

Definition category_row (name : string) (catid : Z) (supercatid : option Z)
  : Codebook.category :=
  {| Codebook.name := Some name; Codebook.catid := catid;
     Codebook.memo := None; Codebook.supercatid := supercatid;
     Codebook.guid := "guid-" ++ name |}.

Definition code_row (catid : option Z) (xml : string) : Codebook.code :=
  {| Codebook.code_catid := catid; Codebook.code_xml := xml |}.

(** Categories A, B under A, D under B, and C under the id 7 that no
    category has. *)
Definition categories_dangling : list Codebook.category :=
  [category_row "A" 1 None; category_row "B" 2 (Some 1);
   category_row "C" 3 (Some 7); category_row "D" 4 (Some 2)].

(** One code without a category, one in B, one in C. *)
Definition codes_dangling : list Codebook.code :=
  [code_row None "<Code c0 />"; code_row (Some 2) "<Code c1 />";
   code_row (Some 3) "<Code c2 />"].

(** Categories A, and X and Y that are each other's parent. *)
Definition categories_cycle : list Codebook.category :=
  [category_row "A" 1 None; category_row "X" 2 (Some 3);
   category_row "Y" 3 (Some 2)].

(** A Set with a Description and one member source. *)
Definition member_set (name source_guid : string) : Xml.element :=
  Xml.Element (Xml.project "Set") [("name", name); ("guid", "set-" ++ name)] None
    [Xml.Element (Xml.project "Description") [] (Some "a group") [];
     Xml.Element (Xml.project "MemberSource") [("targetGUID", source_guid)] None []].

(** A codebook with two codes. *)
Definition two_codes : Xml.element :=
  Xml.Element (Xml.project "Codes") [] None
    [code_element "Red" "g1"; code_element "Blue" "g3"].

Definition codebook_file : Xml.element :=
  Xml.Element (Xml.project "CodeBook") [] None [two_codes].

Definition coding_of (guid code_guid : string) : Xml.element :=
  Xml.Element (Xml.project "Coding") [("guid", guid)] None
    [Xml.Element (Xml.project "CodeRef") [("targetGUID", code_guid)] None []].

Definition no_rows : Selections.tables :=
  {| Selections.code_name := []; Selections.code_text := [];
     Selections.annotation := []; Selections.code_av := [];
     Selections.case_text := [] |}.

(** A coded PlainTextSelection with a date. *)
Definition text_selection : Xml.element :=
  Xml.Element (Xml.project "PlainTextSelection")
    [("guid", "t1"); ("startPosition", "3"); ("endPosition", "8");
     ("creatingUser", "u1"); ("creationDateTime", "2019-03-09T23:19:07Z")]
    None [coding_of "k3" "c1"].

(** A coded AudioSelection without a date. *)
Definition av_selection : Xml.element :=
  Xml.Element (Xml.project "AudioSelection")
    [("guid", "a1"); ("begin", "1000"); ("end", "2500");
     ("creatingUser", "u1")]
    None [coding_of "k4" "c1"].

(** A coded PictureSelection without a date. *)
Definition picture_selection_undated : Xml.element :=
  Xml.Element (Xml.project "PictureSelection")
    [("guid", "p2"); ("firstX", "10"); ("firstY", "20"); ("secondX", "110");
     ("secondY", "70"); ("creatingUser", "u1")]
    None [coding_of "k5" "c1"].

(** A transcript with two time stamps, and one without text. *)
Definition transcript_text : string := "[00:01] hello [00:05] bye".

Definition media_example : Timepoints.media :=
  {| Timepoints.name := "talk.mp3";
     Timepoints.fulltext := Some transcript_text |}.

Definition media_empty : Timepoints.media :=
  {| Timepoints.name := "talk.mp3"; Timepoints.fulltext := Some "" |}.

(** A coding of [hello] in [media_example]. *)
Definition coded_example : RefiExport.coded :=
  {| RefiExport.pos0 := 8; RefiExport.pos1 := 13; RefiExport.cid := Some 7 |}.

Definition export_codes : list RefiExport.code_entry :=
  [{| RefiExport.ce_cid := 7; RefiExport.ce_guid := "c1" |}].

(** A session without GUIDs and with five different draws to come. *)
Definition fresh_session : Guid.session :=
  {| Guid.guids := [];
     Guid.entropy := ["00000000000000000000000000000001";
                      "00000000000000000000000000000002";
                      "00000000000000000000000000000003";
                      "00000000000000000000000000000004";
                      "00000000000000000000000000000005"] |}.

(** [importer_example] after the pre-pass staged the value [value] for the
    source [src1] under the ['name'] key [name], or without the key. *)
Definition staged_importer (name : option (option string)) (value : string)
  : RefiImport.importer :=
  {| RefiImport.conn := RefiImport.conn importer_example;
     RefiImport.codes := RefiImport.codes importer_example;
     RefiImport.users := RefiImport.users importer_example;
     RefiImport.sources := RefiImport.sources importer_example;
     RefiImport.variables := RefiImport.variables importer_example;
     RefiImport.file_vars :=
       [{| RefiImport.fv_file_guid := Some "src1";
           RefiImport.fv_var_guid := Some "v1";
           RefiImport.fv_value := Some value;
           RefiImport.fv_name := name |}];
     RefiImport.cases := RefiImport.cases importer_example;
     RefiImport.codername := RefiImport.codername importer_example |}.

(** A TextSource with the given [path] attribute. *)
Definition source_element (path : string) : Xml.element :=
  Xml.Element (Xml.project "TextSource")
    [("guid", "s9"); ("name", "memo.txt"); ("path", path);
     ("creatingUser", "u1"); ("creationDateTime", "2019-03-09T23:19:07Z")]
    None [].

(** A named Case with a Description, a value of the variable [v1] and one
    SourceRef, and a Cases element that holds it. *)
Definition named_case : Xml.element :=
  Xml.Element (Xml.project "Case") [("guid", "case2"); ("name", "Ann")] None
    [Xml.Element (Xml.project "Description") [] (Some "first") [];
     variable_value "v1" "34";
     Xml.Element (Xml.project "SourceRef") [("targetGUID", "src1")] None []].

Definition named_cases : Xml.element :=
  Xml.Element (Xml.project "Cases") [] None [named_case].

(** [importer_example] on a project in which the variable [Age] is a file
    variable. *)
Definition importer_with_types : RefiImport.importer :=
  RefiImport.with_conn importer_example
    {| Db.code_cat := []; Db.code_name := []; Db.code_image := [];
       Db.code_text := []; Db.annotation := []; Db.attribute := [];
       Db.attribute_type :=
         [{| Db.aty_name := Some "Age"; Db.aty_caseOrFile := "file";
             Db.aty_valuetype := Some "numeric"; Db.aty_memo := Some "" |}];
       Db.cases := [] |}.

End Examples.
Import Examples.

(* ================================================================== *)
(** * Properties *)

Import Py.

(** ** Python fragment *)

Lemma chars_str (l : list ascii) : chars (str l) = l.
Proof. apply list_ascii_of_string_of_list_ascii. Qed.

Lemma str_chars (s : string) : str (chars s) = s.
Proof. apply string_of_list_ascii_of_string. Qed.

Lemma length_chars (s : string) : List.length (chars s) = String.length s.
Proof. induction s; simpl; congruence. Qed.

Lemma length_str (l : list ascii) : String.length (str l) = List.length l.
Proof. rewrite <- length_chars, chars_str. reflexivity. Qed.

Lemma In_firstn_skipn {A} (x : A) (n m : nat) (l : list A) :
  In x (firstn n (skipn m l)) -> In x l.
Proof.
  intros H.
  rewrite <- (firstn_skipn m l). apply in_or_app. right.
  rewrite <- (firstn_skipn n (skipn m l)). apply in_or_app. left. exact H.
Qed.

Lemma insert_by_key_ascending {B} (x : Z * B) (l : list (Z * B)) :
  keys_ascending l -> keys_ascending (insert_by_key x l).
Proof.
  induction l as [|y l IH]; simpl.
  - auto.
  - intros [Hy Hl]. destruct (fst y <? fst x) eqn:E.
    + apply Z.ltb_lt in E. simpl. split.
      * destruct l as [|z l']; simpl.
        -- lia.
        -- destruct (fst z <? fst x) eqn:E'; simpl; [exact Hy | lia].
      * apply IH. exact Hl.
    + apply Z.ltb_ge in E. simpl. repeat split; auto.
Qed.

Lemma sorted_by_key_ascending {B} (l : list (Z * B)) :
  keys_ascending (sorted_by_key l).
Proof.
  induction l as [|x l IH]; simpl.
  - exact I.
  - apply insert_by_key_ascending. exact IH.
Qed.

(** ** Time points *)

(** Whatever the text, a returned list of time points is in ascending order
    of character position. *)
Lemma get_transcript_timepoints_ascending duration m out :
  Timepoints.get_transcript_timepoints duration m = Ok out ->
  keys_ascending out.
Proof.
  unfold Timepoints.get_transcript_timepoints.
  destruct (Timepoints.fulltext m) as [text|]; simpl; [|discriminate].
  destruct (len text =? 0).
  - intros H. injection H as <-. exact I.
  - repeat match goal with
           | |- context [bind ?m _] => destruct m; simpl; [|discriminate]
           end.
    intros H. injection H as <-. apply sorted_by_key_ascending.
Qed.

(** C5: on ["[01:02] hello [02:03] world"] the extractor returns the start
    anchor [(0, 0)], an anchor at the offset of each opening bracket (0 and
    14) with 62000 and 123000 milliseconds, and the end anchor at the last
    character position (26) with the media length, in ascending order of
    character position. *)
Theorem C5_timestamp_marker_detection :
  forall (duration : option Z) (name : string),
    let text := "[01:02] hello [02:03] world" in
    let out := [(0, 0); (0, 62000); (14, 123000);
                (len text - 1, Timepoints.media_length duration)] in
    Timepoints.get_transcript_timepoints duration
      {| Timepoints.name := name; Timepoints.fulltext := Some text |} = Ok out
    /\ nth_error (chars text) 0 = Some "["%char
    /\ nth_error (chars text) 14 = Some "["%char
    /\ len text - 1 = 26
    /\ keys_ascending out.
Proof.
  intros duration name text out. subst text out.
  repeat split; try reflexivity; simpl; lia.
Qed.

(** C10: an empty text gives the empty list, but a text that is [None]
    raises [TypeError], since [len(text)] is evaluated before
    [text is None]. *)
Theorem C10_empty_text_versus_none :
  forall (duration : option Z) (name : string),
    Timepoints.get_transcript_timepoints duration
      {| Timepoints.name := name; Timepoints.fulltext := Some "" |} = Ok []
    /\ Timepoints.get_transcript_timepoints duration
      {| Timepoints.name := name; Timepoints.fulltext := None |}
       = Raise TypeError.
Proof. intros. split; reflexivity. Qed.

(** ** GUIDs *)

Section GuidFacts.

Import Guid.

#[local] Arguments format : simpl never.

Lemma issued_In (g : string) (l : list string) :
  issued g l = true <-> In g l.
Proof.
  unfold issued. rewrite existsb_exists. split.
  - intros [x [Hin Heq]]. apply String.eqb_eq in Heq. subst. exact Hin.
  - intros Hin. exists g. split; [exact Hin | apply String.eqb_refl].
Qed.

Lemma issued_app_other (g h : string) (l : list string) :
  g <> h -> issued g (l ++ [h])%list = issued g l.
Proof.
  intros Hne. unfold issued. rewrite existsb_app. simpl.
  destruct (String.eqb_spec g h); [contradiction|].
  rewrite !orb_false_r. reflexivity.
Qed.

(** The loop returns the first candidate that was not issued. *)
Lemma while_duplicated_cons (l : list string) (v : string) (rest : list string) :
  while_duplicated l (format v) rest =
  if issued (format v) l then
    match rest with
    | [] => None
    | v' :: rest' => while_duplicated l (format v') rest'
    end
  else Some (format v, rest).
Proof. destruct rest; reflexivity. Qed.

Lemma while_duplicated_fresh (l : list string) :
  forall (draws : list string) (v g : string) (rest : list string),
    while_duplicated l (format v) draws = Some (g, rest) ->
    ~ In g l /\ exists w, In w (v :: draws) /\ g = format w.
Proof.
  induction draws as [|v' draws IH]; intros v g rest; simpl.
  - destruct (issued (format v) l) eqn:E; [discriminate|].
    intros H. injection H as <- <-. split.
    + intros Hin. apply issued_In in Hin. congruence.
    + exists v. simpl. auto.
  - destruct (issued (format v) l) eqn:E.
    + intros H. apply IH in H. destruct H as [Hn [w [Hw Hg]]].
      split; [exact Hn|]. exists w. split; [right; exact Hw | exact Hg].
    + intros H. injection H as <- <-. split.
      * intros Hin. apply issued_In in Hin. congruence.
      * exists v. simpl. auto.
Qed.

Lemma while_duplicated_entropy (l : list string) :
  forall (draws : list string) (v g : string) (rest : list string),
    while_duplicated l (format v) draws = Some (g, rest) ->
    exists used, (v :: draws) = (used ++ rest)%list.
Proof.
  induction draws as [|v' draws IH]; intros v g rest; simpl.
  - destruct (issued (format v) l); [discriminate|].
    intros H. injection H as <- <-. exists [v]. reflexivity.
  - destruct (issued (format v) l).
    + intros H. apply IH in H. destruct H as [used Hu].
      exists (v :: used). simpl. rewrite Hu. reflexivity.
    + intros H. injection H as <- <-. exists [v]. reflexivity.
Qed.

Lemma create_guid_fresh (s s' : session) (g : string) :
  create_guid s = Some (g, s') ->
  ~ In g (guids s) /\ guids s' = (guids s ++ [g])%list
  /\ (exists w, In w (entropy s) /\ g = format w)
  /\ (exists used, entropy s = (used ++ entropy s')%list).
Proof.
  unfold create_guid. destruct (entropy s) as [|v rest] eqn:E; [discriminate|].
  destruct (while_duplicated (guids s) (format v) rest) as [[g' rest']|] eqn:W;
    [|discriminate].
  intros H. injection H as <- <-. simpl.
  pose proof (while_duplicated_fresh _ _ _ _ _ W) as [Hn Hw].
  pose proof (while_duplicated_entropy _ _ _ _ _ W) as Hu.
  repeat split; auto.
Qed.

(** Partial correctness of [n] calls: the results are as many as the calls,
    pairwise distinct, not issued before, and each the formatting of a value
    that was drawn. *)
Lemma create_guids_fresh :
  forall (n : nat) (s s' : session) (gs : list string),
    create_guids n s = Some (gs, s') ->
    List.length gs = n /\ NoDup gs
    /\ (forall g, In g gs -> ~ In g (guids s))
    /\ (forall g, In g gs -> exists w, In w (entropy s) /\ g = format w).
Proof.
  induction n as [|n IH]; intros s s' gs; simpl.
  - intros H. injection H as <- <-. repeat split; simpl; try tauto.
    constructor.
  - destruct (create_guid s) as [[g s1]|] eqn:E1; [|discriminate].
    destruct (create_guids n s1) as [[gs1 s2]|] eqn:E2; [|discriminate].
    intros H. injection H as <- <-.
    apply create_guid_fresh in E1. destruct E1 as [Hn [Hg [Hw [used Hu]]]].
    apply IH in E2. destruct E2 as [Hlen [Hnd [Hnew Hfmt]]].
    repeat split.
    + simpl. congruence.
    + constructor; [|exact Hnd].
      intros Hin. apply Hnew in Hin. apply Hin. rewrite Hg.
      apply in_or_app. right. simpl. auto.
    + intros g' [<-|Hin]; [exact Hn|].
      intros Hold. apply (Hnew g' Hin). rewrite Hg.
      apply in_or_app. left. exact Hold.
    + intros g' [<-|Hin]; [exact Hw|].
      destruct (Hfmt g' Hin) as [w [Hin' Heq]]. exists w. split; [|exact Heq].
      rewrite Hu. apply in_or_app. right. exact Hin'.
Qed.

(** The slices of 32 hexadecimal digits are groups of hexadecimal digits. *)
Lemma slice_hex_group (v : string) (a b : Z) (n : nat) :
  hex32 v ->
  (clamp 32 b - clamp 32 a)%nat = n ->
  (clamp 32 a + n <= 32)%nat ->
  hex_group n (slice v (Some a) (Some b)).
Proof.
  intros [Hlen Hhex] Hn Hle. unfold hex_group, slice, slice_list.
  rewrite chars_str, length_str, length_chars, Hlen.
  change (Z.of_nat 32) with 32. rewrite Hn. split.
  - rewrite length_firstn, length_skipn, length_chars, Hlen. lia.
  - apply Forall_forall. intros c Hc.
    apply (proj1 (Forall_forall _ _) Hhex).
    apply In_firstn_skipn in Hc. exact Hc.
Qed.

Lemma format_canonical (v : string) : hex32 v -> canonical (format v).
Proof.
  intros Hv. unfold canonical, format.
  exists (slice v (Some 0) (Some 8)), (slice v (Some 8) (Some 12)),
         (slice v (Some 12) (Some 16)), (slice v (Some 16) (Some 20)),
         (slice v (Some 20) (Some 33)).
  split; [reflexivity|].
  refine (conj _ (conj _ (conj _ (conj _ _))));
    match goal with
    | |- hex_group ?n (slice _ (Some ?a) (Some ?b)) =>
        apply (slice_hex_group v a b n Hv); vm_compute; [reflexivity | lia]
    end.
Qed.

(** One call returns when a draw is left that gives a GUID not yet issued,
    and it uses up exactly one such draw. *)
Lemma create_guid_returns :
  forall (draws l : list string) (n : nat),
    NoDup (map format draws) ->
    (S n <= fresh_draws l draws)%nat ->
    exists g rest,
      create_guid {| guids := l; entropy := draws |}
        = Some (g, {| guids := (l ++ [g])%list; entropy := rest |})
      /\ NoDup (map format rest)
      /\ (n <= fresh_draws (l ++ [g])%list rest)%nat.
Proof.
  induction draws as [|v draws IH]; intros l n Hnd Hfresh.
  - unfold fresh_draws in Hfresh. simpl in Hfresh. lia.
  - unfold create_guid. cbn [entropy guids].
    rewrite while_duplicated_cons.
    unfold fresh_draws in Hfresh. simpl in Hfresh.
    simpl in Hnd. inversion Hnd as [|x xs Hnotin Hnd']. subst.
    destruct (issued (format v) l) eqn:E; simpl in Hfresh.
    + destruct (IH l n Hnd' Hfresh) as [g [rest [Hc [Hr Hn]]]].
      exists g, rest. split; [|split; assumption].
      unfold create_guid in Hc. simpl in Hc.
      destruct draws as [|v' draws']; [discriminate|]. exact Hc.
    + exists (format v), draws. split; [reflexivity|]. split; [exact Hnd'|].
      assert (Hsame : fresh_draws (l ++ [format v])%list draws = fresh_draws l draws).
      { unfold fresh_draws. f_equal. apply filter_ext_in.
        intros w Hw. rewrite issued_app_other; [reflexivity|].
        intros Heq. apply Hnotin. rewrite <- Heq. apply in_map. exact Hw. }
      rewrite Hsame. unfold fresh_draws. lia.
Qed.

Lemma create_guids_returns :
  forall (n : nat) (draws l : list string),
    NoDup (map format draws) ->
    (n <= fresh_draws l draws)%nat ->
    exists gs s', create_guids n {| guids := l; entropy := draws |} = Some (gs, s').
Proof.
  induction n as [|n IH]; intros draws l Hnd Hfresh; simpl.
  - eauto.
  - destruct (create_guid_returns draws l n Hnd Hfresh) as [g [rest [Hc [Hr Hn]]]].
    rewrite Hc.
    destruct (IH rest (l ++ [g])%list Hr Hn) as [gs [s' Hgs]].
    rewrite Hgs. eauto.
Qed.

End GuidFacts.

(** C4: [n] calls of [create_guid] in one session return [n] pairwise
    distinct strings, none of them issued before, each of the form 8-4-4-4-12
    in hexadecimal digits, given that [uuid4().hex] yields 32 hexadecimal
    digits.  The calls do return when the coming draws give pairwise
    different GUIDs of which at least [n] were not issued before. *)
Theorem C4_create_guid_distinct_canonical :
  forall (n : nat) (s : Guid.session),
    Forall Guid.hex32 (Guid.entropy s) ->
    (forall gs s',
        Guid.create_guids n s = Some (gs, s') ->
        List.length gs = n /\ NoDup gs /\ Forall Guid.canonical gs
        /\ (forall g, In g gs -> ~ In g (Guid.guids s)))
    /\ (NoDup (map Guid.format (Guid.entropy s)) ->
        (n <= Guid.fresh_draws (Guid.guids s) (Guid.entropy s))%nat ->
        exists gs s', Guid.create_guids n s = Some (gs, s')).
Proof.
  intros n s Hhex. split.
  - intros gs s' H. apply create_guids_fresh in H.
    destruct H as [Hlen [Hnd [Hnew Hfmt]]].
    repeat split; auto.
    apply Forall_forall. intros g Hg.
    destruct (Hfmt g Hg) as [w [Hw ->]].
    apply format_canonical. apply (proj1 (Forall_forall _ _) Hhex). exact Hw.
  - intros Hnd Hfresh. destruct s as [l draws]. simpl in *.
    apply create_guids_returns; assumption.
Qed.

Lemma C4_create_guid_witness :
  exists gs s',
    Guid.create_guids 2 session_example = Some (gs, s')
    /\ List.length gs = 2%nat /\ NoDup gs /\ Forall Guid.canonical gs.
Proof.
  assert (Hhex : Forall Guid.hex32 (Guid.entropy session_example)).
  { repeat constructor. }
  destruct (C4_create_guid_distinct_canonical 2 session_example Hhex)
    as [Hpart Htot].
  assert (Hnd : NoDup (map Guid.format (Guid.entropy session_example))).
  { vm_compute.
    repeat (constructor; [simpl; intuition discriminate|]). constructor. }
  assert (Hfresh : (2 <= Guid.fresh_draws (Guid.guids session_example)
                                         (Guid.entropy session_example))%nat).
  { vm_compute. lia. }
  destruct (Htot Hnd Hfresh) as [gs [s' H]].
  exists gs, s'. split; [exact H|].
  destruct (Hpart gs s' H) as [Hlen [Hd [Hc _]]]. auto.
Defined.

(** ** Transcript import *)

Section TranscriptFacts.

Import RefiImport.

Lemma for_each_app {A S} (l1 l2 : list A) (body : S -> A -> result S) (acc : S) :
  for_each (l1 ++ l2)%list body acc = bind (for_each l1 body acc) (for_each l2 body).
Proof.
  revert acc. induction l1 as [|x l1 IH]; intros acc; simpl.
  - reflexivity.
  - destruct (body acc x); simpl; [apply IH | reflexivity].
Qed.

Variables guid_pos0 guid_pos1 : option string.

#[local] Abbreviation resolve_step := (RefiImport.resolve_step guid_pos0 guid_pos1).
#[local] Abbreviation readable := (RefiImport.readable guid_pos0 guid_pos1).

Lemma resolve_syncpoints_steps (l : list syncpoint) :
  resolve_syncpoints l guid_pos0 guid_pos1 = for_each l resolve_step (0, 0).
Proof. reflexivity. Qed.

Lemma resolve_returns (l : list syncpoint) :
  Forall readable l ->
  forall acc, exists r, for_each l resolve_step acc = Ok r.
Proof.
  induction 1 as [|s l Hs Hl IH]; intros acc; simpl.
  - eauto.
  - unfold RefiImport.resolve_step at 1. unfold RefiImport.readable in Hs.
    destruct (Xml.eq_opt guid_pos0 (sp_guid s)) eqn:E0;
      destruct (Xml.eq_opt guid_pos1 (sp_guid s)) eqn:E1;
      try (destruct Hs as [p Hp]; [auto|]; rewrite Hp); simpl; apply IH.
Qed.

(** The positions are those of the last matching entries: entries that do
    not match leave them as they are. *)
Lemma resolve_fst_kept (l : list syncpoint) :
  Forall (fun s => Xml.eq_opt guid_pos0 (sp_guid s) = false) l ->
  forall acc r, for_each l resolve_step acc = Ok r -> fst r = fst acc.
Proof.
  induction 1 as [|s l Hs Hl IH]; intros acc r; simpl.
  - intros H. injection H as <-. reflexivity.
  - unfold RefiImport.resolve_step at 1. rewrite Hs. simpl.
    destruct (Xml.eq_opt guid_pos1 (sp_guid s)).
    + destruct (Py.int (sp_pos s)); simpl; [|discriminate].
      intros H. apply IH in H. exact H.
    + simpl. intros H. apply IH in H. exact H.
Qed.

Lemma resolve_snd_kept (l : list syncpoint) :
  Forall (fun s => Xml.eq_opt guid_pos1 (sp_guid s) = false) l ->
  forall acc r, for_each l resolve_step acc = Ok r -> snd r = snd acc.
Proof.
  induction 1 as [|s l Hs Hl IH]; intros acc r; simpl.
  - intros H. injection H as <-. reflexivity.
  - unfold RefiImport.resolve_step at 1. rewrite Hs. simpl.
    destruct (Xml.eq_opt guid_pos0 (sp_guid s)).
    + destruct (Py.int (sp_pos s)); simpl; [|discriminate].
      intros H. apply IH in H. exact H.
    + simpl. intros H. apply IH in H. exact H.
Qed.

Lemma resolve_last_from (l1 l2 : list syncpoint) (s : syncpoint) (p : Z) :
  Xml.eq_opt guid_pos0 (sp_guid s) = true ->
  Forall (fun s' => Xml.eq_opt guid_pos0 (sp_guid s') = false) l2 ->
  Py.int (sp_pos s) = Ok p ->
  forall r, resolve_syncpoints (l1 ++ s :: l2) guid_pos0 guid_pos1 = Ok r ->
            fst r = p + 1.
Proof.
  intros Hs Hl2 Hp r. rewrite resolve_syncpoints_steps, for_each_app.
  destruct (for_each l1 resolve_step (0, 0)) as [acc|]; simpl; [|discriminate].
  unfold RefiImport.resolve_step at 1. rewrite Hs, Hp. simpl.
  destruct (Xml.eq_opt guid_pos1 (sp_guid s)); simpl;
    intros H; apply (resolve_fst_kept _ Hl2) in H; exact H.
Qed.

Lemma resolve_last_to (l1 l2 : list syncpoint) (s : syncpoint) (p : Z) :
  Xml.eq_opt guid_pos1 (sp_guid s) = true ->
  Forall (fun s' => Xml.eq_opt guid_pos1 (sp_guid s') = false) l2 ->
  Py.int (sp_pos s) = Ok p ->
  forall r, resolve_syncpoints (l1 ++ s :: l2) guid_pos0 guid_pos1 = Ok r ->
            snd r = p + 1.
Proof.
  intros Hs Hl2 Hp r. rewrite resolve_syncpoints_steps, for_each_app.
  destruct (for_each l1 resolve_step (0, 0)) as [acc|]; simpl; [|discriminate].
  unfold RefiImport.resolve_step at 1. rewrite Hs, Hp. simpl.
  destruct (Xml.eq_opt guid_pos0 (sp_guid s)); simpl;
    intros H; apply (resolve_snd_kept _ Hl2) in H; exact H.
Qed.

End TranscriptFacts.

(** ** Loops that insert rows into a table with a UNIQUE constraint *)

Lemma clash_free_app {R} (clash : R -> R -> bool) (l1 l2 : list R) :
  forall stored,
    Db.clash_free clash stored (l1 ++ l2)
    = Db.clash_free clash stored l1 && Db.clash_free clash (stored ++ l1) l2.
Proof.
  induction l1 as [|r l1 IH]; intros stored; simpl.
  - now rewrite app_nil_r.
  - rewrite IH, <- app_assoc, andb_assoc. reflexivity.
Qed.

Lemma flat_map_single {A} (l : list A) : flat_map (fun x => [x]) l = l.
Proof. induction l as [|x l IH]; simpl; [reflexivity | now rewrite IH]. Qed.

Section InsertLoops.

Context {S A R : Type}.

Variables (table : S -> list R) (clash : R -> R -> bool) (add : S -> R -> S)
          (rows_of : A -> list R) (body : S -> A -> result S)
          (I : S -> Prop).

Hypothesis table_add : forall s r, table (add s r) = (table s ++ [r])%list.

Lemma fold_add_table (rows : list R) :
  forall s, table (fold_left add rows s) = (table s ++ rows)%list.
Proof.
  induction rows as [|r rows IH]; intros s; simpl.
  - now rewrite app_nil_r.
  - rewrite IH, table_add, <- app_assoc. reflexivity.
Qed.

Hypothesis I_add : forall s r, I s -> I (add s r).

Lemma fold_add_invariant (rows : list R) :
  forall s, I s -> I (fold_left add rows s).
Proof.
  induction rows as [|r rows IH]; intros s Hs; simpl; [exact Hs|].
  apply IH, I_add, Hs.
Qed.

(** When each step inserts its rows, raising [IntegrityError] at a row
    that the table holds, the loop inserts the rows of all steps when none
    of them meets the same in the table or among the earlier ones, and
    raises [IntegrityError] otherwise. *)
Lemma insert_loop (l : list A) :
  (forall s x, In x l -> I s ->
     body s x
     = if Db.clash_free clash (table s) (rows_of x)
       then Ok (fold_left add (rows_of x) s)
       else Raise IntegrityError) ->
  forall s, I s ->
    for_each l body s
    = if Db.clash_free clash (table s) (flat_map rows_of l)
      then Ok (fold_left add (flat_map rows_of l) s)
      else Raise IntegrityError.
Proof.
  induction l as [|x l IH]; intros Hbody s Hs; [reflexivity|].
  cbn [for_each flat_map]. rewrite (Hbody s x (or_introl eq_refl) Hs).
  rewrite clash_free_app, fold_left_app.
  destruct (Db.clash_free clash (table s) (rows_of x)); cbn [andb bind];
    [|reflexivity].
  rewrite IH.
  - rewrite fold_add_table. reflexivity.
  - intros s' y Hy. apply Hbody. right. exact Hy.
  - apply fold_add_invariant, Hs.
Qed.

End InsertLoops.

(** A loop raises when one of its steps raises whatever the state, the
    exception being one of those that a step can raise. *)
Lemma for_each_raises {A S} (E : exn -> Prop) (I : S -> Prop) (l : list A)
    (body : S -> A -> result S) :
  (forall s x s', In x l -> I s -> body s x = Ok s' -> I s') ->
  (forall s x e, In x l -> I s -> body s x = Raise e -> E e) ->
  (exists x, In x l /\ forall s, I s -> exists e, body s x = Raise e) ->
  forall s, I s -> exists e, for_each l body s = Raise e /\ E e.
Proof.
  induction l as [|x l IH]; intros Hinv Hexn [bad [Hin Hbad]] s Hs.
  - destruct Hin.
  - cbn [for_each]. destruct (body s x) as [s'|e] eqn:Eb; cbn [bind].
    + apply IH.
      * intros s0 y s1 Hy. apply Hinv. right. exact Hy.
      * intros s0 y e Hy. apply Hexn. right. exact Hy.
      * destruct Hin as [<-|Hin].
        -- destruct (Hbad s Hs) as [e He]. congruence.
        -- exists bad. split; assumption.
      * apply (Hinv s x s'); [left; reflexivity | exact Hs | exact Eb].
    + exists e. split; [reflexivity|].
      apply (Hexn s x e); [left; reflexivity | exact Hs | exact Eb].
Qed.


Section SelectionFacts.

Import RefiImport.

Lemma for_each_invariant {A S} (I : S -> Prop) (l : list A)
    (body : S -> A -> result S) :
  (forall acc x acc', In x l -> I acc -> body acc x = Ok acc' -> I acc') ->
  forall acc r, I acc -> for_each l body acc = Ok r -> I r.
Proof.
  induction l as [|x l IH]; intros Hstep acc r Hacc; simpl.
  - intros H. injection H as <-. exact Hacc.
  - destruct (body acc x) as [acc'|] eqn:E; simpl; [|discriminate].
    apply IH.
    + intros a y a' Hy. apply Hstep. right. exact Hy.
    + apply (Hstep acc x acc'); simpl; auto.
Qed.

Lemma for_each_returns {A S} (l : list A) (body : S -> A -> result S) :
  (forall acc x, In x l -> exists acc', body acc x = Ok acc') ->
  forall acc, exists r, for_each l body acc = Ok r.
Proof.
  induction l as [|x l IH]; intros Hstep acc; simpl.
  - eauto.
  - destruct (Hstep acc x) as [acc' E]; [simpl; auto|]. rewrite E. simpl.
    apply IH. intros a y Hy. apply Hstep. right. exact Hy.
Qed.

Lemma resolve_last (syncpoints : list syncpoint) (g0 g1 : option string)
    (s0 s1 : syncpoint) (p0 p1 : Z) :
  Forall (readable g0 g1) syncpoints ->
  last_match g0 syncpoints s0 -> Py.int (sp_pos s0) = Ok p0 ->
  last_match g1 syncpoints s1 -> Py.int (sp_pos s1) = Ok p1 ->
  resolve_syncpoints syncpoints g0 g1 = Ok (p0 + 1, p1 + 1).
Proof.
  intros Hr [a0 [b0 [E0 [M0 N0]]]] P0 [a1 [b1 [E1 [M1 N1]]]] P1.
  destruct (resolve_returns g0 g1 syncpoints Hr (0, 0)) as [r Hres].
  rewrite <- resolve_syncpoints_steps in Hres. rewrite Hres.
  pose proof Hres as Hres'.
  rewrite E0 in Hres. apply (resolve_last_from g0 g1 _ _ _ _ M0 N0 P0) in Hres.
  rewrite E1 in Hres'. apply (resolve_last_to g0 g1 _ _ _ _ M1 N1 P1) in Hres'.
  destruct r as [x y]. simpl in *. congruence.
Qed.

End SelectionFacts.

(** C1, as the code has it: when the toSyncPoint GUID is on several
    SyncPoints, the last of them decides, and the end of the span is one
    more than its position. *)
Theorem C1_last_syncpoint_decides :
  forall (syncpoints : list RefiImport.syncpoint) (guid_pos0 guid_pos1 : option string)
         (s : RefiImport.syncpoint) (p : Z),
    Forall (RefiImport.readable guid_pos0 guid_pos1) syncpoints ->
    RefiImport.last_match guid_pos1 syncpoints s ->
    Py.int (RefiImport.sp_pos s) = Ok p ->
    exists pos0,
      RefiImport.resolve_syncpoints syncpoints guid_pos0 guid_pos1
        = Ok (pos0, p + 1).
Proof.
  intros syncpoints g0 g1 s p Hr [l1 [l2 [E [M N]]]] P.
  destruct (resolve_returns g0 g1 syncpoints Hr (0, 0)) as [r Hres].
  rewrite <- resolve_syncpoints_steps in Hres. rewrite Hres.
  rewrite E in Hres. apply (resolve_last_to g0 g1 _ _ _ _ M N P) in Hres.
  destruct r as [x y]. simpl in Hres. subst y. eauto.
Qed.

Lemma C1_last_syncpoint_witness :
  exists pos0,
    RefiImport.resolve_syncpoints (RefiImport.syncpoints_of transcript_twice)
      (Some "a") (Some "b") = Ok (pos0, 12 + 1).
Proof.
  apply (C1_last_syncpoint_decides
           (RefiImport.syncpoints_of transcript_twice) (Some "a") (Some "b")
           {| RefiImport.sp_guid := Some "b"; RefiImport.sp_pos := Some "12";
              RefiImport.sp_timestamp := Some "0" |} 12).
  - repeat constructor; intros _; vm_compute; eauto.
  - exists
      [{| RefiImport.sp_guid := Some "a"; RefiImport.sp_pos := Some "3";
          RefiImport.sp_timestamp := Some "0" |};
       {| RefiImport.sp_guid := Some "b"; RefiImport.sp_pos := Some "8";
          RefiImport.sp_timestamp := Some "0" |}], [].
    repeat split. constructor.
  - reflexivity.
Defined.

(** C1 as stated fails: with the GUID [b] on the SyncPoints at 8 and at 12,
    in this order, the first match is the one at 8, but the row that is
    inserted ends at 13. *)
Lemma C1_first_match_counterexample :
  RefiImport.first_match (Some "b") (RefiImport.syncpoints_of transcript_twice)
    {| RefiImport.sp_guid := Some "b"; RefiImport.sp_pos := Some "8";
       RefiImport.sp_timestamp := Some "0" |}
  /\ (exists row,
        RefiImport.transcript_value_list transcript_example known_codes
          transcript_twice = Ok [row]
        /\ Db.ct_pos1 row = 13)
  /\ ~ (exists pos0,
          RefiImport.resolve_syncpoints
            (RefiImport.syncpoints_of transcript_twice) (Some "a") (Some "b")
          = Ok (pos0, 8)).
Proof.
  split; [|split].
  - exists
      [{| RefiImport.sp_guid := Some "a"; RefiImport.sp_pos := Some "3";
          RefiImport.sp_timestamp := Some "0" |}],
      [{| RefiImport.sp_guid := Some "b"; RefiImport.sp_pos := Some "12";
          RefiImport.sp_timestamp := Some "0" |}].
    repeat split. repeat constructor.
  - eexists. split; reflexivity.
  - intros [pos0 H]. vm_compute in H. discriminate.
Qed.

(** The loop over the Coding children gives the rows of [coding_rows]. *)
Lemma coding_step_rows (t : RefiImport.transcript)
    (cs : list RefiImport.code_ref) (pos0 pos1 : Z) (memo : string)
    (l : list Xml.element) :
  Forall (fun ee => Xml.tag ee = Xml.project "Coding" ->
                    Xml.getchildren ee <> []) l ->
  forall acc,
    for_each l (RefiImport.coding_step t cs pos0 pos1 memo) acc
    = Ok (acc ++ RefiImport.coding_rows t cs pos0 pos1 memo l)%list.
Proof.
  unfold RefiImport.coding_rows.
  induction 1 as [|ee l Hee Hl IH]; intros acc; cbn [for_each flat_map].
  - now rewrite app_nil_r.
  - unfold RefiImport.coding_step at 1.
    destruct (String.eqb_spec (Xml.tag ee) (Xml.project "Coding")) as [E|E].
    + destruct (Xml.getchildren ee) as [|cref rest]; [now elim (Hee E)|].
      cbn [Py.index nth_error bind]. rewrite IH, <- app_assoc. reflexivity.
    + cbn [bind]. rewrite IH. reflexivity.
Qed.

Lemma selection_rows_steps (t : RefiImport.transcript) (cs : list RefiImport.code_ref)
    (syncpoints : list RefiImport.syncpoint) (e : Xml.element) (p0 p1 : Z) :
  RefiImport.resolve_syncpoints syncpoints (Xml.get e "fromSyncPoint")
    (Xml.get e "toSyncPoint") = Ok (p0, p1) ->
  RefiImport.selection_rows t cs syncpoints e
  = for_each (Xml.getchildren e)
      (RefiImport.coding_step t cs p0 p1 (RefiImport.selection_description e)) [].
Proof.
  intros H. unfold RefiImport.selection_rows. rewrite H. reflexivity.
Qed.

(** The rows of a selection are a segment of [value_list]. *)
Lemma transcript_value_list_segment (t : RefiImport.transcript)
    (cs : list RefiImport.code_ref) (element e : Xml.element)
    (value_list rows : list Db.code_text_row) :
  In e (Xml.getchildren element) ->
  Xml.tag e = Xml.project "TranscriptSelection" ->
  RefiImport.selection_rows t cs (RefiImport.syncpoints_of element) e = Ok rows ->
  RefiImport.transcript_value_list t cs element = Ok value_list ->
  exists before after, value_list = (before ++ rows ++ after)%list.
Proof.
  intros Hin Htag Hrows. unfold RefiImport.transcript_value_list.
  apply in_split in Hin. destruct Hin as [l1 [l2 ->]].
  rewrite for_each_app.
  destruct (for_each l1 _ []) as [before|]; cbn [bind]; [|discriminate].
  cbn [for_each]. rewrite Htag, String.eqb_refl, Hrows. cbn [bind].
  intros H. exists before.
  assert (G : forall l acc out,
             for_each l
               (fun value_list e0 =>
                  if String.eqb (Xml.tag e0) (Xml.project "TranscriptSelection")
                  then
                    rows0 <- RefiImport.selection_rows t cs
                               (RefiImport.syncpoints_of
                                  (Xml.Element (Xml.tag element)
                                     (Xml.attrib element) (Xml.text element)
                                     (Xml.getchildren element))) e0 ;;
                    Ok (value_list ++ rows0)%list
                  else Ok value_list) acc = Ok out ->
             exists more, out = (acc ++ more)%list).
  { induction l as [|x l IH]; intros acc out; cbn [for_each].
    - intros E. injection E as <-. exists []. now rewrite app_nil_r.
    - destruct (String.eqb _ _).
      + destruct (RefiImport.selection_rows _ _ _ x) as [r|]; cbn [bind];
          [|discriminate].
        intros E. destruct (IH _ _ E) as [more ->]. exists (r ++ more)%list.
        now rewrite app_assoc.
      + cbn [bind]. apply IH. }
  destruct element as [tg at_ tx ch]. cbn [Xml.tag Xml.attrib Xml.text
    Xml.getchildren] in G.
  destruct (G _ _ _ H) as [after ->]. exists after.
  now rewrite <- app_assoc.
Qed.

(** The rows of [value_list] are inserted in order: all of them when none
    repeats a stored span or an earlier row, and none is reported
    otherwise, the insert raising [IntegrityError]. *)
Lemma parse_transcript_inserts_value_list (t : RefiImport.transcript)
    (element : Xml.element) (st : RefiImport.importer)
    (value_list : list Db.code_text_row) :
  RefiImport.transcript_value_list t (RefiImport.codes st) element = Ok value_list ->
  if Db.clash_free Db.code_text_clash (Db.code_text (RefiImport.conn st)) value_list
  then
    exists st',
      RefiImport.parse_transcript_with_codings_and_syncpoints t element st = Ok st'
      /\ Db.code_text (RefiImport.conn st')
         = (Db.code_text (RefiImport.conn st) ++ value_list)%list
  else
    RefiImport.parse_transcript_with_codings_and_syncpoints t element st
    = Raise IntegrityError.
Proof.
  intros H. unfold RefiImport.parse_transcript_with_codings_and_syncpoints.
  rewrite H. cbn [bind]. unfold RefiImport.insert_value_list.
  rewrite (insert_loop Db.code_text Db.code_text_clash Db.append_code_text
             (fun v => [v]) _ (fun _ => True));
    [| reflexivity | auto | | exact I].
  - rewrite flat_map_single.
    destruct (Db.clash_free _ _ value_list); cbn [bind]; [|reflexivity].
    eexists. split; [reflexivity|]. cbn [RefiImport.conn RefiImport.with_conn].
    apply (fold_add_table Db.code_text Db.append_code_text); reflexivity.
  - intros c v _ _. unfold Db.insert_code_text. cbn [Db.clash_free].
    rewrite andb_true_r. destruct (existsb _ _); reflexivity.
Qed.

(** C2, as the code has it.  For a TranscriptSelection whose two GUIDs
    resolve, the rows put on [value_list] are one for each pair of a Coding
    child and a known code with the GUID of its CodeRef, in order; each
    starts at one more than the position of the fromSyncPoint and ends at
    one more than the position of the toSyncPoint, with the text between.
    They are a segment of the [value_list] of the Transcript, whose rows
    are inserted in order: all are stored when none repeats the code,
    source, start, end and owner of a stored span or of an earlier row;
    otherwise the insert raises [IntegrityError]. *)
Theorem C2_span_is_syncpoint_positions_plus_one :
  forall (t : RefiImport.transcript) (cs : list RefiImport.code_ref)
         (syncpoints : list RefiImport.syncpoint) (e : Xml.element)
         (s0 s1 : RefiImport.syncpoint) (p0 p1 : Z),
    Forall (RefiImport.readable (Xml.get e "fromSyncPoint")
                                (Xml.get e "toSyncPoint")) syncpoints ->
    RefiImport.last_match (Xml.get e "fromSyncPoint") syncpoints s0 ->
    RefiImport.last_match (Xml.get e "toSyncPoint") syncpoints s1 ->
    Py.int (RefiImport.sp_pos s0) = Ok p0 ->
    Py.int (RefiImport.sp_pos s1) = Ok p1 ->
    Forall (fun ee => Xml.tag ee = Xml.project "Coding" ->
                      Xml.getchildren ee <> []) (Xml.getchildren e) ->
    let rows :=
      RefiImport.coding_rows t cs (p0 + 1) (p1 + 1)
        (RefiImport.selection_description e) (Xml.getchildren e) in
    RefiImport.selection_rows t cs syncpoints e = Ok rows
    /\ Forall (fun r =>
                 Db.ct_pos0 r = p0 + 1 /\ Db.ct_pos1 r = p1 + 1
                 /\ Db.ct_seltext r =
                    Py.slice (RefiImport.tr_text t) (Some (p0 + 1)) (Some (p1 + 1)))
              rows
    /\ (forall (element : Xml.element) (st : RefiImport.importer)
               (value_list : list Db.code_text_row),
           syncpoints = RefiImport.syncpoints_of element ->
           cs = RefiImport.codes st ->
           In e (Xml.getchildren element) ->
           Xml.tag e = Xml.project "TranscriptSelection" ->
           RefiImport.transcript_value_list t cs element = Ok value_list ->
           (exists before after, value_list = (before ++ rows ++ after)%list)
           /\ if Db.clash_free Db.code_text_clash
                   (Db.code_text (RefiImport.conn st)) value_list
              then
                exists st',
                  RefiImport.parse_transcript_with_codings_and_syncpoints
                    t element st = Ok st'
                  /\ Db.code_text (RefiImport.conn st')
                     = (Db.code_text (RefiImport.conn st) ++ value_list)%list
              else
                RefiImport.parse_transcript_with_codings_and_syncpoints
                  t element st = Raise IntegrityError).
Proof.
  intros t cs syncpoints e s0 s1 p0 p1 Hr L0 L1 P0 P1 Hcod rows.
  pose proof (resolve_last syncpoints _ _ s0 s1 p0 p1 Hr L0 P0 L1 P1) as Hres.
  assert (Hsel : RefiImport.selection_rows t cs syncpoints e = Ok rows).
  { rewrite (selection_rows_steps t cs syncpoints e _ _ Hres).
    rewrite (coding_step_rows t cs (p0 + 1) (p1 + 1) _ _ Hcod []).
    reflexivity. }
  split; [exact Hsel|]. split.
  - subst rows. unfold RefiImport.coding_rows.
    apply Forall_forall. intros r Hin. apply in_flat_map in Hin.
    destruct Hin as [ee [_ Hin]].
    destruct (String.eqb _ _); [|destruct Hin].
    destruct (Xml.getchildren ee) as [|cref rest]; [destruct Hin|].
    apply in_map_iff in Hin. destruct Hin as [c [<- _]]. simpl. auto.
  - intros element st value_list -> -> Hin Htag Hvl. split.
    + exact (transcript_value_list_segment t _ element e value_list rows
               Hin Htag Hsel Hvl).
    + exact (parse_transcript_inserts_value_list t element st value_list Hvl).
Qed.

Lemma C2_span_witness :
  exists rows st',
    RefiImport.selection_rows transcript_example known_codes
      (RefiImport.syncpoints_of transcript_unique) selection_a_b = Ok rows
    /\ Forall (fun r =>
                 Db.ct_pos0 r = 3 + 1 /\ Db.ct_pos1 r = 8 + 1
                 /\ Db.ct_seltext r =
                    Py.slice (RefiImport.tr_text transcript_example)
                             (Some (3 + 1)) (Some (8 + 1)))
              rows
    /\ List.length rows = 1%nat
    /\ RefiImport.parse_transcript_with_codings_and_syncpoints
         transcript_example transcript_unique importer_example = Ok st'
    /\ Db.code_text (RefiImport.conn st') = rows.
Proof.
  destruct (C2_span_is_syncpoint_positions_plus_one
              transcript_example known_codes
              (RefiImport.syncpoints_of transcript_unique) selection_a_b
              {| RefiImport.sp_guid := Some "a"; RefiImport.sp_pos := Some "3";
                 RefiImport.sp_timestamp := Some "0" |}
              {| RefiImport.sp_guid := Some "b"; RefiImport.sp_pos := Some "8";
                 RefiImport.sp_timestamp := Some "0" |} 3 8)
    as [Hrows [Hrange Hins]].
  - repeat constructor; intros _; vm_compute; eauto.
  - exists [],
      [{| RefiImport.sp_guid := Some "b"; RefiImport.sp_pos := Some "8";
          RefiImport.sp_timestamp := Some "0" |}].
    repeat split. repeat constructor.
  - exists
      [{| RefiImport.sp_guid := Some "a"; RefiImport.sp_pos := Some "3";
          RefiImport.sp_timestamp := Some "0" |}], [].
    repeat split. constructor.
  - reflexivity.
  - reflexivity.
  - repeat constructor. intros _. simpl. discriminate.
  - destruct (Hins transcript_unique importer_example _ eq_refl eq_refl
                (or_intror (or_intror (or_introl eq_refl))) eq_refl eq_refl)
      as [_ Hst].
    match type of Hst with
    | if ?c then _ else _ => change c with true in Hst
    end.
    cbv iota in Hst. destruct Hst as [st' [E T]].
    eexists. exists st'.
    split; [exact Hrows|]. split; [exact Hrange|]. split; [reflexivity|].
    split; [exact E | exact T].
Defined.

(** C2 as stated fails: both GUIDs resolve, to the positions 3 and 8, and
    the row that is inserted covers 4 to 9. *)
Lemma C2_stored_positions_counterexample :
  exists row,
    RefiImport.transcript_value_list transcript_example known_codes
      transcript_unique = Ok [row]
    /\ RefiImport.syncpoints_of transcript_unique =
       [{| RefiImport.sp_guid := Some "a"; RefiImport.sp_pos := Some "3";
           RefiImport.sp_timestamp := Some "0" |};
        {| RefiImport.sp_guid := Some "b"; RefiImport.sp_pos := Some "8";
           RefiImport.sp_timestamp := Some "0" |}]
    /\ Db.ct_pos0 row = 4 /\ Db.ct_pos1 row = 9
    /\ Db.ct_seltext row = "45678"
    /\ ~ (Db.ct_pos0 row = 3 /\ Db.ct_pos1 row = 8).
Proof.
  eexists. split; [reflexivity|]. repeat split.
  intros [H _]. vm_compute in H. discriminate.
Qed.

(** ** Codebook import *)

Lemma element_induction (P : Xml.element -> Prop) :
  (forall t a x cs, Forall P cs -> P (Xml.Element t a x cs)) ->
  forall e, P e.
Proof.
  intros H. fix IH 1. intros [t a x cs]. apply H.
  induction cs as [|c cs IHcs]; constructor; [apply IH | exact IHcs].
Qed.

Section SubCodesFacts.

Import RefiImport.

Lemma name_taken_app (n : string) (l1 l2 : list (option string)) :
  Db.name_taken (Some n) (l1 ++ l2)%list
  = Db.name_taken (Some n) l1 || Db.name_taken (Some n) l2.
Proof. unfold Db.name_taken. apply existsb_app. Qed.

Lemma eq_opt_true (a b : option string) : Xml.eq_opt a b = true <-> a = b.
Proof.
  destruct a as [x|], b as [y|]; simpl; split; try congruence; try discriminate.
  - intros H. apply String.eqb_eq in H. congruence.
  - intros H. injection H as ->. apply String.eqb_refl.
Qed.

Lemma eq_opt_sym (a b : option string) : Xml.eq_opt a b = Xml.eq_opt b a.
Proof.
  destruct a as [x|], b as [y|]; simpl; try reflexivity. apply String.eqb_sym.
Qed.

(** A name that is taken differs from a name that is not. *)
Lemma taken_differs (n : string) (name : option string) (l : list (option string)) :
  Db.name_taken (Some n) l = true -> Db.name_taken name l = false ->
  Xml.eq_opt name (Some n) = false.
Proof.
  intros Hn Hname. destruct (Xml.eq_opt name (Some n)) eqn:E; [|reflexivity].
  apply eq_opt_true in E. subst name. congruence.
Qed.

Lemma codebook_extended_refl (st : importer) : codebook_extended st st [] [].
Proof.
  unfold codebook_extended, Db.others_kept. rewrite !app_nil_r.
  repeat split; auto. exists []. rewrite app_nil_r. reflexivity.
Qed.

Lemma category_name_taken_mono (n : string) (st st' : importer) cats codes :
  codebook_extended st st' cats codes ->
  Db.category_name_taken n (conn st) = true ->
  Db.category_name_taken n (conn st') = true.
Proof.
  intros [Hc _] H. unfold Db.category_name_taken in *.
  rewrite Hc, map_app, name_taken_app, H. reflexivity.
Qed.

Lemma code_name_taken_mono (n : string) (st st' : importer) cats codes :
  codebook_extended st st' cats codes ->
  Db.code_name_taken n (conn st) = true ->
  Db.code_name_taken n (conn st') = true.
Proof.
  intros [_ [Hc _]] H. unfold Db.code_name_taken in *.
  rewrite Hc, map_app, name_taken_app, H. reflexivity.
Qed.

Lemma codebook_extended_trans (st st1 st2 : importer) cats1 codes1 cats2 codes2 :
  codebook_extended st st1 cats1 codes1 ->
  codebook_extended st1 st2 cats2 codes2 ->
  codebook_extended st st2 (cats1 ++ cats2)%list (codes1 ++ codes2)%list.
Proof.
  intros H1 H2.
  pose proof (fun n => category_name_taken_mono n _ _ _ _ H1) as Tc.
  pose proof (fun n => code_name_taken_mono n _ _ _ _ H1) as Tn.
  destruct H1 as [A1 [B1 [O1 [C1 [D1 [[r1 R1] [U1 [S1 [V1 [F1 [K1 N1]]]]]]]]]]].
  destruct H2 as [A2 [B2 [O2 [C2 [D2 [[r2 R2] [U2 [S2 [V2 [F2 [K2 N2]]]]]]]]]]].
  unfold codebook_extended.
  split; [rewrite A2, A1, app_assoc; reflexivity|].
  split; [rewrite B2, B1, app_assoc; reflexivity|].
  split.
  { unfold Db.others_kept in *.
    destruct O1 as [a1 [b1 [c1 [d1 [e1 f1]]]]].
    destruct O2 as [a2 [b2 [c2 [d2 [e2 f2]]]]].
    repeat split; congruence. }
  split; [intros n Hn; rewrite C2, C1; auto|].
  split; [intros n Hn; rewrite D2, D1; auto|].
  split; [exists (r1 ++ r2)%list; rewrite R2, R1, app_assoc; reflexivity|].
  repeat split; congruence.
Qed.

(** An insert into [code_cat] either fails on a taken name and changes
    nothing, or appends one row under a name that was free. *)
Lemma insert_code_cat_extended (st : importer) (name memo : option string)
    (owner date : string) (supercatid : option Z) (c : Db.conn) (id : Z) :
  Db.insert_code_cat (conn st) name memo owner date supercatid = Some (c, id) ->
  Db.name_taken name (map Db.cat_name (Db.code_cat (conn st))) = false
  /\ id = Db.next_rowid (map Db.cat_catid (Db.code_cat (conn st)))
  /\ codebook_extended st (with_conn st c)
       [{| Db.cat_catid := id; Db.cat_name := name; Db.cat_memo := memo;
           Db.cat_owner := owner; Db.cat_date := date;
           Db.cat_supercatid := supercatid |}] [].
Proof.
  unfold Db.insert_code_cat.
  destruct (Db.name_taken name _) eqn:E; [discriminate|].
  intros H. injection H as <- <-. split; [reflexivity|]. split; [reflexivity|].
  unfold codebook_extended, Db.others_kept. simpl. rewrite app_nil_r.
  repeat split; auto.
  - intros n Hn. unfold Db.categories_named. simpl.
    rewrite filter_app. simpl.
    rewrite (taken_differs n name _ Hn E). apply app_nil_r.
  - exists []. rewrite app_nil_r. reflexivity.
Qed.

Lemma insert_code_extended (now_date : string) (parent : Xml.element)
    (description : option string) (catid : option Z) (st st' : importer) (k : Z) :
  insert_code now_date parent description catid st = (st', k) ->
  (Db.name_taken (Xml.get parent "name")
     (map Db.cn_name (Db.code_name (conn st))) = true
   /\ st' = st /\ k = 0)
  \/ (Db.name_taken (Xml.get parent "name")
        (map Db.cn_name (Db.code_name (conn st))) = false
      /\ k = 1
      /\ codebook_extended st st' []
           [{| Db.cn_cid := Db.next_rowid (map Db.cn_cid (Db.code_name (conn st)));
               Db.cn_name := Xml.get parent "name"; Db.cn_memo := description;
               Db.cn_owner := ""; Db.cn_date := now_date; Db.cn_catid := catid;
               Db.cn_color := or_default (Xml.get parent "color") "#999999" |}]).
Proof.
  unfold insert_code, Db.insert_code_name.
  destruct (Db.name_taken (Xml.get parent "name") _) eqn:E.
  - intros H. injection H as <- <-. left. auto.
  - intros H. injection H as <- <-. right. split; [reflexivity|].
    split; [reflexivity|].
    unfold codebook_extended, Db.others_kept. simpl. rewrite app_nil_r.
    repeat split; auto.
    + intros n Hn. unfold Db.codes_named. simpl.
      rewrite filter_app. simpl.
      rewrite (taken_differs n _ _ Hn E). apply app_nil_r.
    + eexists. reflexivity.
Qed.

Lemma sub_codes_result_trans (st : importer) (r1 : importer * Z) (r2 : importer * Z) :
  sub_codes_result st r1 -> sub_codes_result (fst r1) r2 ->
  sub_codes_result st (fst r2, snd r1 + snd r2).
Proof.
  intros [a1 [b1 [E1 N1]]] [a2 [b2 [E2 N2]]].
  exists (a1 ++ a2)%list, (b1 ++ b2)%list. split.
  - apply (codebook_extended_trans _ _ _ _ _ _ _ E1 E2).
  - simpl. rewrite N1, N2, !length_app. lia.
Qed.

Lemma insert_code_result (now_date : string) (parent : Xml.element)
    (description : option string) (catid : option Z) (st : importer) :
  sub_codes_result st (insert_code now_date parent description catid st).
Proof.
  destruct (insert_code now_date parent description catid st) as [st' k] eqn:E.
  apply insert_code_extended in E. destruct E as [[_ [-> ->]]|[_ [-> E]]].
  - exists [], []. split; [apply codebook_extended_refl | reflexivity].
  - eexists [], [_]. split; [exact E | reflexivity].
Qed.

End SubCodesFacts.

Section SubCodesRecursion.

Import RefiImport.

Variable clock : Xml.element -> string.

Lemma sub_codes_unfold (t : string) (a : list (string * string))
    (x : option string) (elements : list Xml.element) (cat_id : option Z)
    (st : importer) :
  sub_codes clock (Xml.Element t a x elements) cat_id st =
  let parent := Xml.Element t a x elements in
  let now_date := clock parent in
  let description :=
    fold_left (fun d e => if Xml.is_description e then Xml.text e else d)
              elements (Some "") in
  if existsb Xml.is_code elements then
    let '(st, last_insert_id, counter) :=
      insert_category now_date parent description cat_id st in
    fold_left
      (fun acc e =>
         if Xml.is_description e then acc
         else
           let '(st', n) := sub_codes clock e last_insert_id (fst acc) in
           (st', snd acc + n))
      elements (st, counter)
  else
    match elements with
    | [] => insert_code now_date parent description cat_id st
    | [e] =>
        if Xml.is_description e
        then insert_code now_date parent description cat_id st
        else (st, 0)
    | _ => (st, 0)
    end.
Proof. reflexivity. Qed.

Lemma sub_codes_result_refl (st : importer) : sub_codes_result st (st, 0).
Proof.
  exists [], []. split; [apply codebook_extended_refl | reflexivity].
Qed.

Lemma insert_category_result (now_date : string) (parent : Xml.element)
    (description : option string) (cat_id : option Z) (st : importer) :
  sub_codes_result st
    (fst (fst (insert_category now_date parent description cat_id st)),
     snd (insert_category now_date parent description cat_id st)).
Proof.
  unfold insert_category.
  destruct (Xml.get parent "name") as [n|]; [|apply sub_codes_result_refl].
  destruct (Db.insert_code_cat (conn st) (Some n) description "" now_date cat_id)
    as [[c id]|] eqn:E.
  - apply insert_code_cat_extended in E. destruct E as [_ [_ E]].
    assert (R1 : sub_codes_result st (with_conn st c, 1)).
    { eexists [_], []. split; [exact E | reflexivity]. }
    destruct (Xml.eq_opt (Xml.get parent "isCodable") (Some "true")).
    + pose proof (insert_code_result now_date parent description (Some id)
                    (with_conn st c)) as R2.
      destruct (insert_code now_date parent description (Some id) (with_conn st c))
        as [st2 k].
      apply (sub_codes_result_trans st (with_conn st c, 1) (st2, k) R1 R2).
    + exact R1.
  - destruct (Xml.eq_opt (Xml.get parent "isCodable") (Some "true")).
    + pose proof (insert_code_result now_date parent description None st) as R2.
      destruct (insert_code now_date parent description None st) as [st2 k].
      apply (sub_codes_result_trans st (st, 0) (st2, k)
               (sub_codes_result_refl st) R2).
    + apply sub_codes_result_refl.
Qed.

(** The loop over the children keeps the relation. *)
Lemma children_result (elements : list Xml.element) (last_insert_id : option Z) :
  Forall (fun e => forall cat_id st,
              sub_codes_result st (sub_codes clock e cat_id st)) elements ->
  forall (st0 : importer) (acc : importer * Z),
    sub_codes_result st0 acc ->
    sub_codes_result st0
      (fold_left
         (fun acc e =>
            if Xml.is_description e then acc
            else
              let '(st', n) := sub_codes clock e last_insert_id (fst acc) in
              (st', snd acc + n))
         elements acc).
Proof.
  induction 1 as [|e elements He Hes IH]; intros st0 acc Hacc; simpl.
  - exact Hacc.
  - apply IH. destruct (Xml.is_description e); [exact Hacc|].
    pose proof (He last_insert_id (fst acc)) as R.
    destruct (sub_codes clock e last_insert_id (fst acc)) as [st' n].
    apply (sub_codes_result_trans st0 acc (st', n) Hacc R).
Qed.

(** [sub_codes] returns for every element; it only appends rows to
    [code_cat] and [code_name], never under a name that its table held
    before, and its counter is the number of rows that it appended. *)
Lemma sub_codes_returns_result :
  forall (e : Xml.element) (cat_id : option Z) (st : importer),
    sub_codes_result st (sub_codes clock e cat_id st).
Proof.
  induction e as [t a x elements IH] using element_induction.
  intros cat_id st. rewrite sub_codes_unfold. cbv zeta.
  destruct (existsb Xml.is_code elements).
  - set (description :=
           fold_left (fun d e => if Xml.is_description e then Xml.text e else d)
                     elements (Some "")).
    pose proof (insert_category_result (clock (Xml.Element t a x elements))
                  (Xml.Element t a x elements) description cat_id st) as R.
    destruct (insert_category (clock (Xml.Element t a x elements))
                (Xml.Element t a x elements) description cat_id st)
      as [[st1 last_insert_id] counter].
    simpl in R. apply children_result; assumption.
  - destruct elements as [|e1 [|e2 rest]].
    + apply insert_code_result.
    + destruct (Xml.is_description e1);
        [apply insert_code_result | apply sub_codes_result_refl].
    + apply sub_codes_result_refl.
Qed.

End SubCodesRecursion.

Section CodableCategory.

Import RefiImport.

Lemma not_taken_none_named_cat (n : string) (c : Db.conn) :
  Db.category_name_taken n c = false -> Db.categories_named n c = [].
Proof.
  unfold Db.category_name_taken, Db.categories_named, Db.name_taken.
  induction (Db.code_cat c) as [|r l IH]; [reflexivity|].
  cbn [map existsb filter]. intros H.
  apply orb_false_iff in H. destruct H as [H1 H2].
  rewrite eq_opt_sym, H1. apply IH. exact H2.
Qed.

Lemma not_taken_none_named_code (n : string) (c : Db.conn) :
  Db.code_name_taken n c = false -> Db.codes_named n c = [].
Proof.
  unfold Db.code_name_taken, Db.codes_named, Db.name_taken.
  induction (Db.code_name c) as [|r l IH]; [reflexivity|].
  cbn [map existsb filter]. intros H.
  apply orb_false_iff in H. destruct H as [H1 H2].
  rewrite eq_opt_sym, H1. apply IH. exact H2.
Qed.

(** The loop over the children, whatever the counter it starts from. *)
Lemma children_extended (clock : Xml.element -> string)
    (elements : list Xml.element)
    (last_insert_id : option Z) :
  forall acc : importer * Z,
    exists new_cats new_codes,
      codebook_extended (fst acc)
        (fst (fold_left
                (fun acc e =>
                   if Xml.is_description e then acc
                   else
                     let '(st', n) := sub_codes clock e last_insert_id (fst acc) in
                     (st', snd acc + n))
                elements acc))
        new_cats new_codes.
Proof.
  induction elements as [|e elements IH]; intros acc; simpl.
  - exists [], []. apply codebook_extended_refl.
  - destruct (Xml.is_description e); [apply IH|].
    destruct (sub_codes_returns_result clock e last_insert_id (fst acc))
      as [c1 [n1 [E1 _]]].
    destruct (sub_codes clock e last_insert_id (fst acc)) as [st' k].
    destruct (IH (st', snd acc + k)) as [c2 [n2 E2]].
    exists (c1 ++ c2)%list, (n1 ++ n2)%list.
    apply (codebook_extended_trans _ _ _ _ _ _ _ E1 E2).
Qed.

Lemma eq_opt_refl (a : option string) : Xml.eq_opt a a = true.
Proof. apply eq_opt_true. reflexivity. Qed.

Lemma fold_max_bound (ids : list Z) (i : Z) :
  In i ids -> i <= fold_right Z.max 0 ids.
Proof.
  induction ids as [|j ids IH]; simpl; [tauto|].
  intros [->|H]; [lia|]. apply IH in H. lia.
Qed.

(** The id of a new row is not the id of a row of the table. *)
Lemma next_rowid_fresh (ids : list Z) : ~ In (Db.next_rowid ids) ids.
Proof.
  intros H. apply fold_max_bound in H. unfold Db.next_rowid in H. lia.
Qed.

End CodableCategory.

(** C3: a Code element with Code children, [isCodable="true"] and a name
    that is neither a category name nor a code name yet: after [sub_codes],
    children included, exactly one category row and exactly one code row
    bear the name; both are new, the category hangs under [cat_id], and the
    code's [catid] is the id of that category row. *)
Theorem C3_codable_category_duplication :
  forall (clock : Xml.element -> string) (t : string)
         (a : list (string * string)) (x : option string)
         (elements : list Xml.element) (cat_id : option Z)
         (st : RefiImport.importer) (n : string),
    let parent := Xml.Element t a x elements in
    existsb Xml.is_code elements = true ->
    Xml.get parent "isCodable" = Some "true" ->
    Xml.get parent "name" = Some n ->
    Db.category_name_taken n (RefiImport.conn st) = false ->
    Db.code_name_taken n (RefiImport.conn st) = false ->
    exists cat code,
      let st' := fst (RefiImport.sub_codes clock parent cat_id st) in
      Db.categories_named n (RefiImport.conn st') = [cat]
      /\ Db.codes_named n (RefiImport.conn st') = [code]
      /\ Db.cat_name cat = Some n /\ Db.cn_name code = Some n
      /\ Db.cn_catid code = Some (Db.cat_catid cat)
      /\ Db.cat_supercatid cat = cat_id
      /\ ~ In cat (Db.code_cat (RefiImport.conn st))
      /\ ~ In code (Db.code_name (RefiImport.conn st))
      /\ ~ In (Db.cat_catid cat) (map Db.cat_catid (Db.code_cat (RefiImport.conn st))).
Proof.
  intros clock t a x elements cat_id st n parent Hcat Hcodable Hname Hfc Hfn.
  subst parent. cbv zeta. rewrite sub_codes_unfold. cbv zeta. rewrite Hcat.
  set (parent := Xml.Element t a x elements) in *.
  set (now_date := clock parent).
  set (description :=
         fold_left (fun d e => if Xml.is_description e then Xml.text e else d)
                   elements (Some "")).
  unfold RefiImport.insert_category. rewrite Hname, Hcodable.
  change (Xml.eq_opt (Some "true") (Some "true")) with true. cbv iota.
  destruct (Db.insert_code_cat (RefiImport.conn st) (Some n) description ""
              now_date cat_id) as [[c id]|] eqn:Ec.
  2:{ unfold Db.insert_code_cat in Ec. unfold Db.category_name_taken in Hfc.
      rewrite Hfc in Ec. discriminate. }
  apply insert_code_cat_extended in Ec. destruct Ec as [_ [Hid Ec]].
  set (st1 := RefiImport.with_conn st c) in *.
  assert (Hfn1 : Db.name_taken (Xml.get parent "name")
                   (map Db.cn_name (Db.code_name (RefiImport.conn st1))) = false).
  { destruct Ec as [_ [B _]]. rewrite B, app_nil_r, Hname. exact Hfn. }
  destruct (RefiImport.insert_code now_date parent description (Some id) st1)
    as [st2 k] eqn:Ei.
  apply insert_code_extended in Ei.
  destruct Ei as [[Ht _]|[_ [_ Ei]]]; [congruence|].
  set (cat := {| Db.cat_catid := id; Db.cat_name := Some n;
                 Db.cat_memo := description; Db.cat_owner := "";
                 Db.cat_date := now_date; Db.cat_supercatid := cat_id |}) in *.
  set (code := {| Db.cn_cid := Db.next_rowid
                                 (map Db.cn_cid (Db.code_name (RefiImport.conn st1)));
                  Db.cn_name := Xml.get parent "name";
                  Db.cn_memo := description; Db.cn_owner := "";
                  Db.cn_date := now_date; Db.cn_catid := Some id;
                  Db.cn_color := RefiImport.or_default (Xml.get parent "color") "#999999" |})
    in *.
  exists cat, code.
  (* The two rows are alone under the name after the two inserts. *)
  assert (Hc2 : Db.categories_named n (RefiImport.conn st2) = [cat]).
  { destruct Ei as [A _]. destruct Ec as [A1 _].
    unfold Db.categories_named. rewrite A, app_nil_r, A1, filter_app.
    fold (Db.categories_named n (RefiImport.conn st)).
    rewrite (not_taken_none_named_cat n _ Hfc). simpl.
    rewrite String.eqb_refl. reflexivity. }
  assert (Hn2 : Db.codes_named n (RefiImport.conn st2) = [code]).
  { destruct Ei as [_ [B _]]. destruct Ec as [_ [B1 _]].
    unfold Db.codes_named. rewrite B, B1, app_nil_r, filter_app.
    fold (Db.codes_named n (RefiImport.conn st)).
    rewrite (not_taken_none_named_code n _ Hfn). simpl.
    rewrite Hname. simpl. rewrite String.eqb_refl. reflexivity. }
  assert (Tc2 : Db.category_name_taken n (RefiImport.conn st2) = true).
  { destruct Ei as [A _]. destruct Ec as [A1 _].
    unfold Db.category_name_taken. rewrite A, app_nil_r, A1, map_app, name_taken_app.
    simpl. rewrite String.eqb_refl. apply orb_true_r. }
  assert (Tn2 : Db.code_name_taken n (RefiImport.conn st2) = true).
  { destruct Ei as [_ [B _]].
    unfold Db.code_name_taken. rewrite B, map_app, name_taken_app.
    simpl. rewrite Hname. simpl. rewrite String.eqb_refl. apply orb_true_r. }
  (* The children are imported from there and leave the name alone. *)
  destruct (children_extended clock elements (Some id) (st2, 1 + k))
    as [cats [codes E]].
  cbn [fst] in E. cbv zeta.
  destruct E as [_ [_ [_ [Kc [Kn _]]]]].
  rewrite (Kc n Tc2), (Kn n Tn2).
  repeat split; auto.
  - intros Hin. assert (H : In cat (Db.categories_named n (RefiImport.conn st))).
    { apply filter_In. split; [exact Hin | apply eq_opt_refl]. }
    rewrite (not_taken_none_named_cat n _ Hfc) in H. exact H.
  - intros Hin. assert (H : In code (Db.codes_named n (RefiImport.conn st))).
    { apply filter_In. split; [exact Hin|]. simpl. rewrite Hname. apply eq_opt_refl. }
    rewrite (not_taken_none_named_code n _ Hfn) in H. exact H.
  - simpl. rewrite Hid. apply next_rowid_fresh.
Qed.

Lemma C3_codable_category_witness :
  exists cat code,
    let st' := fst (RefiImport.sub_codes (fun _ => "2024-01-01 00:00:00")
                      codable_category None new_importer) in
    Db.categories_named "Colour" (RefiImport.conn st') = [cat]
    /\ Db.codes_named "Colour" (RefiImport.conn st') = [code]
    /\ Db.cn_catid code = Some (Db.cat_catid cat).
Proof.
  destruct (C3_codable_category_duplication (fun _ => "2024-01-01 00:00:00")
              (Xml.project "Code")
              [("guid", "g0"); ("name", "Colour"); ("isCodable", "true")] None
              [Xml.Element (Xml.project "Description") [] (Some "hues") [];
               code_element "Red" "g1"; code_element "Colour" "g2";
               code_element "Blue" "g3"]
              None new_importer "Colour"
              eq_refl eq_refl eq_refl eq_refl eq_refl)
    as [cat [code [H1 [H2 [_ [_ [H3 _]]]]]]].
  exists cat, code. auto.
Defined.

(** The import of [codable_category] into an empty project: the category,
    its code, and the codes Red and Blue; the child code named like the
    category is dropped, and the counter is 4. *)
Example sub_codes_codable_category :
  let r := RefiImport.sub_codes (fun _ => "2024-01-01 00:00:00")
             codable_category None new_importer in
  map Db.cat_name (Db.code_cat (RefiImport.conn (fst r))) = [Some "Colour"]
  /\ map (fun c => (Db.cn_name c, Db.cn_catid c))
         (Db.code_name (RefiImport.conn (fst r)))
     = [(Some "Colour", Some 1); (Some "Red", Some 1); (Some "Blue", Some 1)]
  /\ snd r = 4.
Proof. repeat split. Qed.

(** C7: [sub_codes] returns for every element and never raises; the rows
    that were in [code_cat] and [code_name] stay as they are, in place; for
    a name that a table held before the call, the rows under that name are
    the same after it; the counter is the number of rows that were added.
    In particular a code element whose name is taken leaves the project as
    it is and counts 0. *)
Theorem C7_duplicate_names_are_skipped :
  forall (clock : Xml.element -> string) (e : Xml.element)
         (cat_id : option Z) (st : RefiImport.importer),
    (exists new_cats new_codes,
        RefiImport.codebook_extended st
          (fst (RefiImport.sub_codes clock e cat_id st)) new_cats new_codes
        /\ snd (RefiImport.sub_codes clock e cat_id st)
           = Z.of_nat (List.length new_cats + List.length new_codes))
    /\ (forall n,
           Xml.getchildren e = [] ->
           Xml.get e "name" = Some n ->
           Db.code_name_taken n (RefiImport.conn st) = true ->
           RefiImport.sub_codes clock e cat_id st = (st, 0))
    /\ (forall n,
           existsb Xml.is_code (Xml.getchildren e) = true ->
           Xml.get e "name" = Some n ->
           Db.category_name_taken n (RefiImport.conn st) = true ->
           Db.categories_named n
             (RefiImport.conn (fst (RefiImport.sub_codes clock e cat_id st)))
           = Db.categories_named n (RefiImport.conn st)).
Proof.
  intros clock e cat_id st. split; [|split].
  - apply sub_codes_returns_result.
  - intros n Hleaf Hname Htaken. destruct e as [t a x elements].
    simpl in Hleaf. subst elements. rewrite sub_codes_unfold. simpl.
    unfold RefiImport.insert_code, Db.insert_code_name.
    rewrite Hname. unfold Db.code_name_taken in Htaken. rewrite Htaken.
    reflexivity.
  - intros n _ _ Htaken.
    destruct (sub_codes_returns_result clock e cat_id st)
      as [cats [codes [[_ [_ [_ [K _]]]] _]]].
    apply K. exact Htaken.
Qed.

Lemma C7_duplicate_names_witness :
  let clock := fun _ : Xml.element => "2024-01-01 00:00:00" in
  let st := fst (RefiImport.sub_codes clock codable_category None new_importer) in
  RefiImport.sub_codes clock (code_element "Red" "g9") None st = (st, 0).
Proof.
  intros clock st.
  apply (proj1 (proj2 (C7_duplicate_names_are_skipped clock
                         (code_element "Red" "g9") None st)) "Red");
    reflexivity.
Defined.

(** ** References that do not resolve *)

Section UnresolvedFacts.

Import RefiImport.

Lemma code_id_of_none (cs : list code_ref) (guid : option string) :
  Forall (fun c => Xml.eq_opt (code_guid c) guid = false) cs ->
  code_id_of cs guid = None.
Proof.
  unfold code_id_of. generalize (@None Z).
  assert (G : forall acc,
             Forall (fun c => Xml.eq_opt (code_guid c) guid = false) cs ->
             fold_left
               (fun acc c => if Xml.eq_opt (code_guid c) guid
                             then Some (code_cid c) else acc) cs acc = acc).
  { induction cs as [|c cs IH]; intros acc H; simpl; [reflexivity|].
    inversion H as [|? ? Hc Hcs]. subst. rewrite Hc. apply IH. exact Hcs. }
  intros acc H. apply G. exact H.
Qed.

Lemma filter_none {A} (f : A -> bool) (l : list A) :
  Forall (fun x => f x = false) l -> filter f l = [].
Proof.
  induction 1 as [|x l Hx Hl IH]; simpl; [reflexivity|].
  rewrite Hx. exact IH.
Qed.

End UnresolvedFacts.

(** C8, as the code has it.  A Note whose source GUID is not the GUID of a
    loaded source is skipped by [insert_annotation]: the importer is
    returned as it is, and nothing is raised.  A Coding of a transcript
    selection whose CodeRef names no known code adds no row.  A Coding of a
    picture selection whose CodeRef names no known code is not skipped: it
    adds its rectangle to [code_image] with the code id NULL. *)
Theorem C8_unresolved_references :
  (forall (now_date : string) (source_guid : option string)
          (element : Xml.element) (st : RefiImport.importer),
      RefiImport.source_id_of (RefiImport.sources st) source_guid = None ->
      RefiImport.insert_annotation now_date source_guid element st = Ok st)
  /\ (forall (t : RefiImport.transcript) (cs : list RefiImport.code_ref)
             (pos0 pos1 : Z) (memo : string) (rows : list Db.code_text_row)
             (ee cref : Xml.element),
         Xml.tag ee = Xml.project "Coding" ->
         hd_error (Xml.getchildren ee) = Some cref ->
         Forall (fun c => Xml.eq_opt (RefiImport.code_guid c)
                            (Xml.get cref "targetGUID") = false) cs ->
         RefiImport.coding_step t cs pos0 pos1 memo rows ee = Ok rows)
  /\ (forall (rect : Db.code_image_row) (st : RefiImport.importer)
             (e cref : Xml.element),
         Xml.tag e = Xml.project "Coding" ->
         hd_error (Xml.getchildren e) = Some cref ->
         Forall (fun c => Xml.eq_opt (RefiImport.code_guid c)
                            (Xml.get cref "targetGUID") = false)
                (RefiImport.codes st) ->
         exists st' row,
           RefiImport.picture_coding_step rect st e = Ok st'
           /\ Db.code_image (RefiImport.conn st')
              = (Db.code_image (RefiImport.conn st) ++ [row])%list
           /\ Db.ci_cid row = None
           /\ Db.ci_id row = Db.ci_id rect).
Proof.
  split; [|split].
  - intros now_date source_guid element st Hnone.
    unfold RefiImport.insert_annotation.
    destruct (fold_left _ (Xml.getchildren element) (Some "", None, None))
      as [[memo pos0] pos1].
    destruct pos0 as [p0|]; [|reflexivity].
    destruct pos1 as [p1|]; [|reflexivity].
    destruct memo as [memo|]; [|reflexivity].
    rewrite Hnone. reflexivity.
  - intros t cs pos0 pos1 memo rows ee cref Htag Hhd Hnone.
    unfold RefiImport.coding_step. rewrite Htag, String.eqb_refl.
    destruct (Xml.getchildren ee) as [|x rest]; [discriminate|].
    simpl in Hhd. injection Hhd as ->. simpl.
    rewrite (filter_none _ _ Hnone). simpl. rewrite app_nil_r. reflexivity.
  - intros rect st e cref Htag Hhd Hnone.
    unfold RefiImport.picture_coding_step. rewrite Htag, String.eqb_refl.
    destruct (Xml.getchildren e) as [|x rest]; [discriminate|].
    simpl in Hhd. injection Hhd as ->. simpl.
    rewrite (code_id_of_none _ _ Hnone).
    eexists. eexists. split; [reflexivity|]. simpl. auto.
Qed.

Lemma C8_unresolved_references_witness :
  RefiImport.insert_annotation "2021-01-16 10:00:00" (Some "elsewhere")
    annotation_note importer_example = Ok importer_example.
Proof.
  apply (proj1 C8_unresolved_references). reflexivity.
Defined.

(** C8 as stated fails: the CodeRef of the picture selection names no known
    code, and the selection is not skipped; a [code_image] row is inserted
    for it, without a code. *)
Lemma C8_dangling_code_ref_counterexample :
  RefiImport.code_id_of (RefiImport.codes importer_example) (Some "nowhere") = None
  /\ exists st',
      RefiImport._load_codings_for_picture 5 picture_selection_dangling
        importer_example = Ok st'
      /\ Db.code_image (RefiImport.conn st')
         = [{| Db.ci_id := 5; Db.ci_x1 := 10; Db.ci_y1 := 20;
               Db.ci_width := 100; Db.ci_height := 50; Db.ci_cid := None;
               Db.ci_memo := Some "a corner";
               Db.ci_date := "2019-03-09 23:19:07";
               Db.ci_owner := Some "ann" |}]
      /\ RefiImport.conn st' <> RefiImport.conn importer_example.
Proof.
  split; [reflexivity|]. eexists. split; [reflexivity|]. split; [reflexivity|].
  simpl. intros H. discriminate.
Qed.

(** ** Cases that carry file variables *)

(** C6 fails on a Case whose VariableRef names no declared variable.  The
    Case has no name and one SourceRef, to the loaded source [src1]; of its
    two VariableValue children the second refers to [v9], which is not
    declared.  The pre-pass stages both values, the second without a
    ['name'] key, and the flush raises [KeyError]: no attribute row comes
    out of the import. *)
Theorem C6_undeclared_variable_raises :
  let root := project_with_case "v1" "v9" in
  let staged := RefiImport.parse_cases_for_file_variables root importer_example in
  RefiImport.source_id_of (RefiImport.sources importer_example) (Some "src1")
    = Some 5
  /\ map RefiImport.fv_name (RefiImport.file_vars staged)
     = [Some (Some "Age"); None]
  /\ RefiImport.fill_file_attribute_values "2024-01-01 00:00:00" staged
     = Raise KeyError
  /\ RefiImport.import_project_cases "2024-01-01 00:00:00" root importer_example
     = Raise KeyError.
Proof. repeat split. Qed.

(** When both variables are declared the import does what C6 says: two
    rows of scope [file] on the source, and no row in [cases]. *)
Example import_project_cases_declared :
  exists st',
    RefiImport.import_project_cases "2024-01-01 00:00:00"
      (project_with_case "v1" "v2") importer_example = Ok st'
    /\ map (fun r => (Db.at_name r, Db.at_attr_type r, Db.at_value r, Db.at_id r))
         (Db.attribute (RefiImport.conn st'))
       = [(Some "Age", "file", Some "0", Some 5);
          (Some "Town", "file", Some "1", Some 5)]
    /\ Db.cases (RefiImport.conn st') = []
    /\ RefiImport.cases st' = [].
Proof. eexists. repeat split. Qed.

(** ** Codebook export *)

Section FlagFacts.

Import Codebook.

Lemma length_examined (i : nat) (fl : flags) :
  List.length (examined i fl) = List.length fl.
Proof.
  revert i. induction fl as [|b fl IH]; intros [|i]; simpl; auto.
Qed.

Lemma examine_examined (i j : nat) (fl : flags) :
  examine (examined i fl) j = if Nat.eqb j i then false else examine fl j.
Proof.
  unfold examine. revert i j.
  induction fl as [|b fl IH]; intros [|i] [|j]; simpl; auto.
  - destruct (Nat.eqb j i); reflexivity.
Qed.

Lemma examine_examined_same (i : nat) (fl : flags) :
  examine (examined i fl) i = false.
Proof. rewrite examine_examined, Nat.eqb_refl. reflexivity. Qed.

Lemma examine_examined_mono (i j : nat) (fl : flags) :
  examine (examined i fl) j = true -> examine fl j = true.
Proof. rewrite examine_examined. destruct (Nat.eqb j i); congruence. Qed.

Lemma to_examine_examined (i : nat) (fl : flags) :
  examine fl i = true -> S (to_examine (examined i fl)) = to_examine fl.
Proof.
  unfold examine, to_examine. revert i.
  induction fl as [|b fl IH]; intros [|i]; simpl; try discriminate.
  - intros ->. reflexivity.
  - intros H. destruct b; simpl; rewrite <- (IH i H); reflexivity.
Qed.

Lemma to_examine_repeat (n : nat) : to_examine (repeat true n) = n.
Proof.
  unfold to_examine. induction n as [|n IH]; simpl; congruence.
Qed.

Lemma opened_app (x y : list piece) :
  opened (x ++ y)%list = (opened x ++ opened y)%list.
Proof. apply flat_map_app. Qed.

Lemma emitted_codes_app (x y : list piece) :
  emitted_codes (x ++ y)%list = (emitted_codes x ++ emitted_codes y)%list.
Proof. apply flat_map_app. Qed.

Lemma opened_codes_of (codes : list code) (id : option Z) :
  opened (codes_of codes id) = [].
Proof.
  unfold codes_of. induction (code_positions codes id); simpl; auto.
Qed.

Lemma emitted_codes_of (codes : list code) (id : option Z) :
  emitted_codes (codes_of codes id) = code_positions codes id.
Proof.
  unfold codes_of. induction (code_positions codes id) as [|j l IH]; simpl;
    congruence.
Qed.

Lemma NoDup_code_positions (codes : list code) (id : option Z) :
  NoDup (code_positions codes id).
Proof. apply NoDup_filter, seq_NoDup. Qed.

Lemma eq_id_true (a b : option Z) : eq_id a b = true <-> a = b.
Proof.
  destruct a as [x|], b as [y|]; simpl; split; try congruence; try discriminate.
  - intros H. apply Z.eqb_eq in H. congruence.
  - intros H. injection H as ->. apply Z.eqb_refl.
Qed.

Lemma In_code_positions (codes : list code) (id : option Z) (j : nat) :
  In j (code_positions codes id) ->
  exists co, nth_error codes j = Some co /\ code_catid co = id.
Proof.
  unfold code_positions. intros H. apply filter_In in H. destruct H as [_ H].
  destruct (nth_error codes j) as [co|]; [|discriminate].
  exists co. split; [reflexivity|]. apply eq_id_true. exact H.
Qed.

(** With distinct ids, a category id tells the position in the list. *)
Lemma catid_position (cats : list category) (i k : nat) (c ck : category) :
  NoDup (map catid cats) ->
  nth_error cats i = Some c -> nth_error cats k = Some ck ->
  catid c = catid ck -> i = k.
Proof.
  intros Hnd Hi Hk Heq.
  apply (proj1 (NoDup_nth_error _) Hnd).
  - rewrite length_map. apply nth_error_Some. congruence.
  - rewrite !nth_error_map, Hi, Hk. simpl. congruence.
Qed.

End FlagFacts.

Section RunFacts.

Import Codebook.

Variables (codes : list code) (cats : list category).

#[local] Abbreviation run := (Codebook.run codes cats).
#[local] Abbreviation child_of := (Codebook.child_of cats).
#[local] Abbreviation parents_first := (Codebook.parents_first cats).
#[local] Abbreviation cleared_under := (Codebook.cleared_under cats).

Lemma child_of_mono (parent : option Z) (seen seen' : list nat) (i : nat) :
  (forall k, In k seen -> In k seen') ->
  child_of parent seen i -> child_of parent seen' i.
Proof.
  intros Hsub [c [Hc [Hp|[k [ck [Hk R]]]]]]; exists c; split; auto.
  right. exists k, ck. split; [apply Hsub; exact Hk | exact R].
Qed.

Lemma parents_first_mono (parent : option Z) (o : list nat) :
  forall seen seen',
    (forall k, In k seen -> In k seen') ->
    parents_first parent seen o -> parents_first parent seen' o.
Proof.
  induction o as [|i o IH]; intros seen seen' Hsub; simpl; [auto|].
  intros [Hi Ho]. split.
  - apply (child_of_mono parent seen seen' i Hsub Hi).
  - apply (IH (i :: seen)); [|exact Ho].
    intros k [<-|Hk]; simpl; auto.
Qed.

Lemma parents_first_app (parent : option Z) (o1 o2 : list nat) :
  forall seen,
    parents_first parent seen o1 ->
    parents_first parent (o1 ++ seen)%list o2 ->
    parents_first parent seen (o1 ++ o2)%list.
Proof.
  induction o1 as [|i o1 IH]; intros seen; simpl; [auto|].
  intros [Hi H1] H2. split; [exact Hi|].
  apply IH; [exact H1|].
  apply (parents_first_mono parent o2 (i :: o1 ++ seen)%list); [|exact H2].
  intros k [<-|Hk].
  - apply in_or_app. right. simpl. auto.
  - apply in_app_or in Hk. apply in_or_app. simpl. tauto.
Qed.

(** The children of the category at [i] count as children of [parent]
    once [i] is among the seen. *)
Lemma parents_first_reparent (parent : option Z) (i : nat) (c : category)
    (o : list nat) :
  nth_error cats i = Some c ->
  forall seen seen',
    In i seen' -> (forall k, In k seen -> In k seen') ->
    parents_first (Some (catid c)) seen o -> parents_first parent seen' o.
Proof.
  intros Hc. induction o as [|x o IH]; intros seen seen' Hi Hsub; simpl; [auto|].
  intros [[cx [Hcx Hx]] Ho]. split.
  - exists cx. split; [exact Hcx|]. right.
    destruct Hx as [Hp|[k [ck [Hk R]]]].
    + exists i, c. auto.
    + exists k, ck. split; [apply Hsub; exact Hk | exact R].
  - apply (IH (x :: seen)); [simpl; auto | | exact Ho].
    intros k [<-|Hk]; simpl; auto.
Qed.

(** Parts that hold no category and no code change nothing. *)
Lemma run_quiet (parent : option Z) (fl : flags) (xml : list piece) :
  opened xml = [] -> emitted_codes xml = [] -> run parent fl xml fl.
Proof.
  intros Ho He.
  unfold Codebook.run, well_opened, codes_follow, children_cleared.
  rewrite Ho, He. simpl. repeat split; auto; try constructor; try tauto.
  intros [Ht Hf]. congruence.
Qed.

Lemma run_nil (parent : option Z) (fl : flags) : run parent fl [] fl.
Proof. apply run_quiet; reflexivity. Qed.

(** One run after another. *)
Lemma run_app (parent : option Z) (fl fl1 fl2 : flags) (x1 x2 : list piece) :
  run parent fl x1 fl1 -> run parent fl1 x2 fl2 ->
  run parent fl (x1 ++ x2)%list fl2.
Proof.
  intros [[L1 [M1 [N1 O1]]] [[D1 [F1 G1]] [P1 K1]]]
         [[L2 [M2 [N2 O2]]] [[D2 [F2 G2]] [P2 K2]]].
  assert (Hdisj : forall i, In i (opened x1) -> ~ In i (opened x2)).
  { intros i H1 H2. apply O1 in H1. apply O2 in H2. destruct H1, H2.
    congruence. }
  split; [|split; [|split]].
  - unfold well_opened. rewrite opened_app. split; [congruence|].
    split; [auto|]. split; [apply NoDup_app; assumption|].
    intros i. rewrite in_app_iff, O1, O2. split.
    + intros [[Ht Hf]|[Ht Hf]].
      * split; [exact Ht|].
        destruct (examine fl2 i) eqn:E; [|reflexivity].
        apply M2 in E. congruence.
      * split; [apply M1; exact Ht | exact Hf].
    + intros [Ht Hf]. destruct (examine fl1 i) eqn:E; auto.
  - unfold codes_follow. rewrite emitted_codes_app, opened_app.
    split; [|split].
    + intros Hnd. apply NoDup_app; auto.
      intros j H1 H2.
      destruct (F1 j H1) as [i1 [c1 [co1 [Hi1 [Hc1 [Hj1 He1]]]]]].
      destruct (F2 j H2) as [i2 [c2 [co2 [Hi2 [Hc2 [Hj2 He2]]]]]].
      assert (catid c1 = catid c2) by congruence.
      assert (i1 = i2) by (apply (catid_position cats i1 i2 c1 c2); assumption).
      subst i2. apply (Hdisj i1); assumption.
    + intros j H. apply in_app_or in H. destruct H as [H|H].
      * destruct (F1 j H) as [i [c [co [Hi R]]]].
        exists i, c, co. split; [apply in_or_app; left; exact Hi | exact R].
      * destruct (F2 j H) as [i [c [co [Hi R]]]].
        exists i, c, co. split; [apply in_or_app; right; exact Hi | exact R].
    + intros i c j Hi Hc Hj. apply in_or_app.
      apply in_app_or in Hi. destruct Hi as [Hi|Hi].
      * left. apply (G1 i c j Hi Hc Hj).
      * right. apply (G2 i c j Hi Hc Hj).
  - rewrite opened_app. apply parents_first_app; [exact P1|].
    apply (parents_first_mono parent (opened x2) []); [|exact P2].
    intros k [].
  - unfold children_cleared. rewrite opened_app.
    intros k ck Hk Hck i c Hc Hs.
    apply in_app_or in Hk. destruct Hk as [Hk|Hk].
    + pose proof (K1 k ck Hk Hck i c Hc Hs) as Hf.
      destruct (examine fl2 i) eqn:E; [|reflexivity].
      apply M2 in E. congruence.
    + apply (K2 k ck Hk Hck i c Hc Hs).
Qed.

(** The element of one category: its start tag, then the run [sub] of its
    subcategories and its own codes, in either order, then the end tag. *)
Lemma run_category (parent : option Z) (fl fl' : flags) (i : nat) (c : category)
    (sub block : list piece) :
  nth_error cats i = Some c ->
  examine fl i = true ->
  supercatid c = parent ->
  run (Some (catid c)) (examined i fl) sub fl' ->
  cleared_under (catid c) fl' ->
  opened block = i :: opened sub ->
  emitted_codes block
    = (emitted_codes sub ++ code_positions codes (Some (catid c)))%list
  \/ emitted_codes block
     = (code_positions codes (Some (catid c)) ++ emitted_codes sub)%list ->
  run parent fl block fl'.
Proof.
  intros Hc Hex Hpar [[L [M [N O]]] [[D [F G]] [P K]]] Hclr Hopen Hcodes.
  assert (Hnotin : ~ In i (opened sub)).
  { intros H. apply O in H. destruct H as [Ht _].
    rewrite examine_examined_same in Ht. discriminate. }
  assert (Hfi : examine fl' i = false).
  { destruct (examine fl' i) eqn:E; [|reflexivity].
    apply M in E. rewrite examine_examined_same in E. discriminate. }
  assert (Hmem : forall j,
             In j (emitted_codes block) <->
             In j (emitted_codes sub)
             \/ In j (code_positions codes (Some (catid c)))).
  { intros j. destruct Hcodes as [E|E]; rewrite E, in_app_iff; tauto. }
  split; [|split; [|split]].
  - unfold well_opened. rewrite Hopen. split; [rewrite L; apply length_examined|].
    split.
    { intros k H. apply M in H. apply (examine_examined_mono i k fl H). }
    split; [constructor; assumption|].
    intros k. simpl. rewrite O, examine_examined. split.
    + intros [<-|[Ht Hf]]; [auto|].
      destruct (Nat.eqb k i); [discriminate | auto].
    + intros [Ht Hf]. destruct (Nat.eqb_spec k i) as [->|Hne]; auto.
  - unfold codes_follow. rewrite Hopen. split; [|split].
    + intros Hnd.
      assert (Hdisj : forall j, In j (emitted_codes sub) ->
                                ~ In j (code_positions codes (Some (catid c)))).
      { intros j H1 H2.
        destruct (F j H1) as [k [ck [co [Hk [Hck [Hj He]]]]]].
        destruct (In_code_positions _ _ _ H2) as [co' [Hj' He']].
        assert (catid ck = catid c) by congruence.
        assert (k = i) by (apply (catid_position cats k i ck c); assumption).
        subst k. contradiction. }
      destruct Hcodes as [E|E]; rewrite E; apply NoDup_app; auto;
        try apply NoDup_code_positions.
      intros j H2 H1. apply (Hdisj j H1 H2).
    + intros j H. apply Hmem in H. destruct H as [H1|H2].
      * destruct (F j H1) as [k [ck [co [Hk R]]]].
        exists k, ck, co. split; [right; exact Hk | exact R].
      * destruct (In_code_positions _ _ _ H2) as [co [Hj He]].
        exists i, c, co. repeat split; simpl; auto.
    + intros k ck j [<-|Hk] Hck Hj; apply Hmem.
      * right. congruence.
      * left. apply (G k ck j Hk Hck Hj).
  - rewrite Hopen. simpl. split.
    + exists c. auto.
    + apply (parents_first_reparent parent i c (opened sub) Hc [] [i]);
        simpl; auto.
  - unfold children_cleared. rewrite Hopen. intros k ck [<-|Hk] Hck.
    + assert (ck = c) by congruence. subst ck. exact Hclr.
    + apply (K k ck Hk Hck).
Qed.

End RunFacts.

Section LoopFacts.

Import Codebook.

Lemma for_positions_invariant {S} (I : S -> Prop) (body : S -> nat -> option S) :
  (forall s i s', I s -> body s i = Some s' -> I s') ->
  forall l s s', I s -> for_positions l body s = Some s' -> I s'.
Proof.
  intros Hbody. induction l as [|i l IH]; intros s s' Hs; simpl.
  - intros H. injection H as <-. exact Hs.
  - destruct (body s i) as [s1|] eqn:E; [|discriminate].
    apply IH. apply (Hbody s i s1 Hs E).
Qed.

(** What the body establishes at its position and no later step undoes
    holds for every position after the loop. *)
Lemma for_positions_covers {S} (Q : nat -> S -> Prop)
    (body : S -> nat -> option S) :
  (forall s i s', body s i = Some s' -> Q i s') ->
  (forall s j s' i, Q i s -> body s j = Some s' -> Q i s') ->
  forall l s s', for_positions l body s = Some s' ->
                 forall i, In i l -> Q i s'.
Proof.
  intros Hat Hkeep. induction l as [|j l IH]; intros s s' H i Hi; simpl in *.
  - contradiction.
  - destruct (body s j) as [s1|] eqn:E; [|discriminate].
    destruct Hi as [<-|Hi].
    + apply (for_positions_invariant (Q j) body) with (l := l) (s := s1).
      * intros a k a' Ha Hb. apply (Hkeep a k a' j Ha Hb).
      * apply (Hat s j s1 E).
      * exact H.
    + apply (IH s1 s' H i Hi).
Qed.

Lemma while_unfinished_invariant {S} (I : S -> Prop) (round : S -> option S)
    (unf : S -> bool) :
  (forall s s', I s -> round s = Some s' -> I s') ->
  forall n s s', I s -> while_unfinished n round unf s = Some s' -> I s'.
Proof.
  intros Hround. induction n as [|n IH]; intros s s' Hs; simpl.
  - intros H. injection H as <-. exact Hs.
  - destruct (round s) as [s1|] eqn:E; [|discriminate].
    pose proof (Hround s s1 Hs E) as H1.
    destruct (unf s1).
    + apply IH. exact H1.
    + intros H. injection H as <-. exact H1.
Qed.

(** With a positive ceiling the loop ends after a round. *)
Lemma while_unfinished_round {S} (Q : S -> Prop) (round : S -> option S)
    (unf : S -> bool) :
  (forall s s', round s = Some s' -> Q s') ->
  forall n s s', while_unfinished (Datatypes.S n) round unf s = Some s' -> Q s'.
Proof.
  intros Hround. induction n as [|n IH]; intros s s'.
  - simpl. destruct (round s) as [s1|] eqn:E; [|discriminate].
    destruct (unf s1); intros H; injection H as <-; apply (Hround s s1 E).
  - change (while_unfinished (Datatypes.S (Datatypes.S n)) round unf s)
      with (match round s with
            | Some s1 => if unf s1
                         then while_unfinished (Datatypes.S n) round unf s1
                         else Some s1
            | None => None
            end).
    destruct (round s) as [s1|] eqn:E; [|discriminate].
    destruct (unf s1).
    + apply IH.
    + intros H. injection H as <-. apply (Hround s s1 E).
Qed.

Lemma ceiling_positive : exists n, ceiling = Datatypes.S n.
Proof. exists (Z.to_nat 4999). vm_compute. reflexivity. Qed.

Lemma for_positions_returns {S} (I : S -> Prop) (body : S -> nat -> option S) :
  (forall s i, I s -> exists s', body s i = Some s' /\ I s') ->
  forall l s, I s -> exists s', for_positions l body s = Some s' /\ I s'.
Proof.
  intros Hbody. induction l as [|i l IH]; intros s Hs; simpl.
  - eauto.
  - destruct (Hbody s i Hs) as [s1 [E H1]]. rewrite E. apply IH. exact H1.
Qed.

Lemma while_unfinished_returns {S} (I : S -> Prop) (round : S -> option S)
    (unf : S -> bool) :
  (forall s, I s -> exists s', round s = Some s' /\ I s') ->
  forall n s, I s -> exists s', while_unfinished n round unf s = Some s' /\ I s'.
Proof.
  intros Hround. induction n as [|n IH]; intros s Hs; simpl.
  - eauto.
  - destruct (Hround s Hs) as [s1 [E H1]]. rewrite E.
    destruct (unf s1); [apply IH; exact H1 | eauto].
Qed.

(** A loop whose body is replaced by one that returns the same whenever
    the first returns, returns the same. *)
Lemma for_positions_ext {S} (b1 b2 : S -> nat -> option S) :
  (forall s i r, b1 s i = Some r -> b2 s i = Some r) ->
  forall l s r, for_positions l b1 s = Some r -> for_positions l b2 s = Some r.
Proof.
  intros Hb. induction l as [|i l IH]; intros s r; simpl; [auto|].
  destruct (b1 s i) as [s1|] eqn:E; [|discriminate].
  rewrite (Hb s i s1 E). apply IH.
Qed.

Lemma while_unfinished_ext {S} (r1 r2 : S -> option S) (unf : S -> bool) :
  (forall s r, r1 s = Some r -> r2 s = Some r) ->
  forall n s r, while_unfinished n r1 unf s = Some r ->
                while_unfinished n r2 unf s = Some r.
Proof.
  intros Hr. induction n as [|n IH]; intros s r; simpl; [auto|].
  destruct (r1 s) as [s1|] eqn:E; [|discriminate].
  rewrite (Hr s s1 E). destruct (unf s1); [apply IH | auto].
Qed.

Variables (codes : list code) (cats : list category).

#[local] Abbreviation run := (Codebook.run codes cats).
#[local] Abbreviation cleared_under := (Codebook.cleared_under cats).

#[local] Abbreviation sub_categories_done :=
  (Codebook.sub_categories_done codes cats).

(** The body of the loop in [add_sub_categories] extends a run, when the
    recursive call makes a run. *)
Lemma sub_category_step_run
    (recurse : Z -> flags -> option (list piece * flags)) (cid : Z) (fl0 : flags) :
  sub_categories_done recurse ->
  forall acc i acc',
    run (Some cid) fl0 (fst acc) (snd acc) ->
    sub_category_step recurse codes cats cid acc i = Some acc' ->
    run (Some cid) fl0 (fst acc') (snd acc').
Proof.
  intros Hrec [xml fl] i acc' Hacc. unfold sub_category_step.
  destruct (nth_error cats i) as [c|] eqn:Hc.
  2:{ intros H. injection H as <-. exact Hacc. }
  destruct (examine fl i && eq_id (Some cid) (supercatid c)) eqn:Hcond.
  2:{ intros H. injection H as <-. exact Hacc. }
  apply andb_true_iff in Hcond. destruct Hcond as [Hex Hsup].
  apply eq_id_true in Hsup.
  destruct (recurse (catid c) (examined i fl)) as [[sub fl']|] eqn:Hr;
    [|discriminate].
  apply Hrec in Hr. destruct Hr as [Hrun Hclr].
  intros H. injection H as <-. simpl in *.
  rewrite <- app_assoc. apply (run_app codes cats _ _ fl _ _ _ Hacc).
  apply (run_category codes cats (Some cid) fl fl' i c sub); auto.
  - simpl. rewrite !opened_app, opened_codes_of. simpl.
    rewrite app_nil_r. reflexivity.
  - left. simpl. rewrite !emitted_codes_app, emitted_codes_of. simpl.
    rewrite app_nil_r. reflexivity.
Qed.

(** The body only clears flags. *)
Lemma sub_category_step_mono
    (recurse : Z -> flags -> option (list piece * flags)) (cid : Z) :
  sub_categories_done recurse ->
  forall acc j acc' i,
    sub_category_step recurse codes cats cid acc j = Some acc' ->
    examine (snd acc') i = true -> examine (snd acc) i = true.
Proof.
  intros Hrec [xml fl] j acc' i. unfold sub_category_step.
  destruct (nth_error cats j) as [c|].
  2:{ intros H. injection H as <-. auto. }
  destruct (examine fl j && eq_id (Some cid) (supercatid c)).
  2:{ intros H. injection H as <-. auto. }
  destruct (recurse (catid c) (examined j fl)) as [[sub fl']|] eqn:Hr;
    [|discriminate].
  apply Hrec in Hr. destruct Hr as [[[_ [M _]] _] _].
  intros H. injection H as <-. simpl. intros Ht.
  apply M in Ht. apply (examine_examined_mono j i fl Ht).
Qed.

(** After the body at position [i], the category there is not left to
    examine if its parent id is [cid]. *)
Lemma sub_category_step_clears
    (recurse : Z -> flags -> option (list piece * flags)) (cid : Z) :
  sub_categories_done recurse ->
  forall acc i acc',
    sub_category_step recurse codes cats cid acc i = Some acc' ->
    forall c, nth_error cats i = Some c -> supercatid c = Some cid ->
              examine (snd acc') i = false.
Proof.
  intros Hrec [xml fl] i acc' H c Hc Hsup. revert H.
  unfold sub_category_step. rewrite Hc, Hsup.
  assert (E : eq_id (Some cid) (Some cid) = true) by (apply eq_id_true; auto).
  rewrite E, andb_true_r.
  destruct (examine fl i) eqn:Hex.
  - destruct (recurse (catid c) (examined i fl)) as [[sub fl']|] eqn:Hr;
      [|discriminate].
    apply Hrec in Hr. destruct Hr as [[[_ [M _]] _] _].
    intros H. injection H as <-. simpl.
    destruct (examine fl' i) eqn:Ht; [|reflexivity].
    apply M in Ht. rewrite examine_examined_same in Ht. discriminate.
  - intros H. injection H as <-. exact Hex.
Qed.

Lemma add_sub_categories_unfold (depth : nat) (cid : Z) (fl : flags) :
  add_sub_categories (S depth) codes cats cid fl =
  while_unfinished ceiling
    (for_positions (seq 0 (List.length cats))
       (sub_category_step (add_sub_categories depth codes cats) codes cats cid))
    unfinished ([], fl).
Proof. reflexivity. Qed.

(** A call of [add_sub_categories] that returns makes a run under [cid]
    and leaves no child of [cid] to examine. *)
Lemma add_sub_categories_done (depth : nat) :
  sub_categories_done (add_sub_categories depth codes cats).
Proof.
  induction depth as [|depth IH]; intros cid fl xml fl'; [discriminate|].
  rewrite add_sub_categories_unfold. intros H. split.
  - apply (while_unfinished_invariant
             (fun acc => run (Some cid) fl (fst acc) (snd acc))) in H.
    + exact H.
    + intros s s' Hs.
      apply (for_positions_invariant
               (fun acc => run (Some cid) fl (fst acc) (snd acc))); [|exact Hs].
      intros acc i acc'. apply sub_category_step_run. exact IH.
    + apply run_nil.
  - destruct ceiling_positive as [n Hn]. rewrite Hn in H.
    apply (while_unfinished_round
             (fun acc : list piece * flags => cleared_under cid (snd acc))) in H.
    + exact H.
    + intros s s' Hround i c Hc Hsup.
      apply (for_positions_covers
               (fun i (acc : list piece * flags) =>
                  forall c, nth_error cats i = Some c ->
                            supercatid c = Some cid ->
                            examine (snd acc) i = false)) with (i := i) (c := c)
        in Hround; auto.
      * intros a k a'. apply (sub_category_step_clears _ cid IH).
      * intros a j a' k Hk Hstep ck Hck Hs.
        destruct (examine (snd a') k) eqn:E; [|reflexivity].
        apply (sub_category_step_mono _ cid IH a j a' k Hstep) in E.
        rewrite (Hk ck Hck Hs) in E. discriminate.
      * apply in_seq. split; [lia|]. simpl. apply nth_error_Some. congruence.
Qed.

(** The body of the loop in [codebook_xml] extends a run at the top. *)
Lemma top_category_step_run (depth : nat) (fl0 : flags) :
  forall acc i acc',
    run None fl0 (fst acc) (snd acc) ->
    top_category_step depth codes cats acc i = Some acc' ->
    run None fl0 (fst acc') (snd acc').
Proof.
  intros [xml fl] i acc' Hacc. unfold top_category_step.
  destruct (nth_error cats i) as [c|] eqn:Hc.
  2:{ intros H. injection H as <-. exact Hacc. }
  destruct (eq_id (supercatid c) None && examine fl i) eqn:Hcond.
  2:{ intros H. injection H as <-. exact Hacc. }
  apply andb_true_iff in Hcond. destruct Hcond as [Hsup Hex].
  apply eq_id_true in Hsup.
  destruct (add_sub_categories depth codes cats (catid c) (examined i fl))
    as [[sub fl']|] eqn:Hr; [|discriminate].
  apply add_sub_categories_done in Hr. destruct Hr as [Hrun Hclr].
  intros H. injection H as <-. simpl in *.
  rewrite <- !app_assoc. apply (run_app codes cats _ _ fl _ _ _ Hacc).
  apply (run_category codes cats None fl fl' i c sub); auto.
  - simpl. rewrite !opened_app, opened_codes_of. simpl.
    rewrite app_nil_r. reflexivity.
  - right. simpl. rewrite !emitted_codes_app, emitted_codes_of. simpl.
    rewrite app_nil_r. reflexivity.
Qed.

Lemma top_category_step_mono (depth : nat) :
  forall acc j acc' i,
    top_category_step depth codes cats acc j = Some acc' ->
    examine (snd acc') i = true -> examine (snd acc) i = true.
Proof.
  intros [xml fl] j acc' i. unfold top_category_step.
  destruct (nth_error cats j) as [c|].
  2:{ intros H. injection H as <-. auto. }
  destruct (eq_id (supercatid c) None && examine fl j).
  2:{ intros H. injection H as <-. auto. }
  destruct (add_sub_categories depth codes cats (catid c) (examined j fl))
    as [[sub fl']|] eqn:Hr; [|discriminate].
  apply add_sub_categories_done in Hr. destruct Hr as [[[_ [M _]] _] _].
  intros H. injection H as <-. simpl. intros Ht.
  apply M in Ht. apply (examine_examined_mono j i fl Ht).
Qed.

(** After the body at position [i], a category there without a parent is
    not left to examine. *)
Lemma top_category_step_clears (depth : nat) :
  forall acc i acc',
    top_category_step depth codes cats acc i = Some acc' ->
    forall c, nth_error cats i = Some c -> supercatid c = None ->
              examine (snd acc') i = false.
Proof.
  intros [xml fl] i acc' H c Hc Hsup. revert H.
  unfold top_category_step. rewrite Hc, Hsup. simpl eq_id. rewrite andb_true_l.
  destruct (examine fl i) eqn:Hex.
  - destruct (add_sub_categories depth codes cats (catid c) (examined i fl))
      as [[sub fl']|] eqn:Hr; [|discriminate].
    apply add_sub_categories_done in Hr. destruct Hr as [[[_ [M _]] _] _].
    intros H. injection H as <-. simpl.
    destruct (examine fl' i) eqn:Ht; [|reflexivity].
    apply M in Ht. rewrite examine_examined_same in Ht. discriminate.
  - intros H. injection H as <-. exact Hex.
Qed.

(** ** Termination *)

Lemma sub_category_step_returns
    (recurse : Z -> flags -> option (list piece * flags)) (cid : Z) (bound : nat) :
  (forall cid' fl, (to_examine fl < bound)%nat ->
                   exists sub fl', recurse cid' fl = Some (sub, fl')
                                   /\ (to_examine fl' <= to_examine fl)%nat) ->
  forall acc i,
    (to_examine (snd acc) <= bound)%nat ->
    exists acc',
      sub_category_step recurse codes cats cid acc i = Some acc'
      /\ (to_examine (snd acc') <= to_examine (snd acc))%nat.
Proof.
  intros Hrec [xml fl] i Hacc. unfold sub_category_step. simpl in Hacc.
  destruct (nth_error cats i) as [c|]; [|eauto].
  destruct (examine fl i && eq_id (Some cid) (supercatid c)) eqn:Hcond; [|eauto].
  apply andb_true_iff in Hcond. destruct Hcond as [Hex _].
  pose proof (to_examine_examined i fl Hex) as Hdec.
  destruct (Hrec (catid c) (examined i fl)) as [sub [fl' [E Hle]]]; [lia|].
  rewrite E. eexists. split; [reflexivity|]. simpl. lia.
Qed.

(** [add_sub_categories] returns once the bound on the nesting is above the
    number of categories still to examine. *)
Lemma add_sub_categories_returns :
  forall (depth : nat) (cid : Z) (fl : flags),
    (to_examine fl < depth)%nat ->
    exists xml fl',
      add_sub_categories depth codes cats cid fl = Some (xml, fl')
      /\ (to_examine fl' <= to_examine fl)%nat.
Proof.
  induction depth as [|depth IH]; intros cid fl Hlt; [lia|].
  rewrite add_sub_categories_unfold.
  destruct (while_unfinished_returns
              (fun acc : list piece * flags =>
                 (to_examine (snd acc) <= to_examine fl)%nat)
              (for_positions (seq 0 (List.length cats))
                 (sub_category_step (add_sub_categories depth codes cats)
                                    codes cats cid))
              unfinished) with (n := ceiling) (s := (@nil piece, fl))
    as [[xml fl'] [E Hle]].
  - intros s Hs.
    apply (for_positions_returns
             (fun acc : list piece * flags =>
                (to_examine (snd acc) <= to_examine fl)%nat)); [|exact Hs].
    intros acc i Hacc.
    destruct (sub_category_step_returns (add_sub_categories depth codes cats)
                cid depth) with (acc := acc) (i := i) as [acc' [E Hle]].
    + intros cid' f Hf. apply IH. exact Hf.
    + lia.
    + exists acc'. split; [exact E | lia].
  - simpl. lia.
  - exists xml, fl'. split; [exact E | exact Hle].
Qed.

(** A larger bound on the nesting gives the same result. *)
Lemma add_sub_categories_deeper :
  forall (depth : nat) (cid : Z) (fl : flags) (r : list piece * flags),
    add_sub_categories depth codes cats cid fl = Some r ->
    add_sub_categories (S depth) codes cats cid fl = Some r.
Proof.
  induction depth as [|depth IH]; intros cid fl r; [discriminate|].
  rewrite !add_sub_categories_unfold.
  apply while_unfinished_ext. intros s r1. apply for_positions_ext.
  intros [xml f] i r2. unfold sub_category_step.
  destruct (nth_error cats i) as [c|]; [|auto].
  destruct (examine f i && eq_id (Some cid) (supercatid c)); [|auto].
  destruct (add_sub_categories depth codes cats (catid c) (examined i f))
    as [[sub f']|] eqn:E; [|discriminate].
  rewrite (IH _ _ _ E). auto.
Qed.

End LoopFacts.

Section CodebookXmlFacts.

Import Codebook.

Variables (codes : list code) (cats : list category).

#[local] Abbreviation run := (Codebook.run codes cats).
#[local] Abbreviation reachable := (Codebook.reachable cats).

(** The loop of [codebook_xml] appends a run to what stands before it. *)
Lemma top_category_step_appends (depth : nat) (fl0 : flags) (pre : list piece) :
  forall acc i acc',
    (exists rest, fst acc = (pre ++ rest)%list /\ run None fl0 rest (snd acc)) ->
    top_category_step depth codes cats acc i = Some acc' ->
    exists rest, fst acc' = (pre ++ rest)%list /\ run None fl0 rest (snd acc').
Proof.
  intros [xml fl] i acc' [rest [Hxml Hrun]] H. simpl in Hxml. subst xml.
  assert (E : exists rest',
             fst acc' = (pre ++ rest')%list
             /\ top_category_step depth codes cats (rest, fl) i
                = Some (rest', snd acc')).
  { revert H. unfold top_category_step.
    destruct (nth_error cats i) as [c|].
    2:{ intros H. injection H as <-. exists rest. auto. }
    destruct (eq_id (supercatid c) None && examine fl i).
    2:{ intros H. injection H as <-. exists rest. auto. }
    destruct (add_sub_categories depth codes cats (catid c) (examined i fl))
      as [[sub fl']|]; [|discriminate].
    intros H. injection H as <-. simpl. eexists. split; [|reflexivity].
    rewrite <- !app_assoc. reflexivity. }
  destruct E as [rest' [Hfst Hstep]].
  exists rest'. split; [exact Hfst|].
  apply (top_category_step_run codes cats depth fl0 (rest, fl) i _ Hrun Hstep).
Qed.

Lemma top_category_step_returns (depth : nat) :
  forall acc i,
    (to_examine (snd acc) < depth)%nat ->
    exists acc',
      top_category_step depth codes cats acc i = Some acc'
      /\ (to_examine (snd acc') < depth)%nat.
Proof.
  intros [xml fl] i Hacc. unfold top_category_step. simpl in Hacc.
  destruct (nth_error cats i) as [c|]; [|eauto].
  destruct (eq_id (supercatid c) None && examine fl i) eqn:Hcond; [|eauto].
  apply andb_true_iff in Hcond. destruct Hcond as [_ Hex].
  pose proof (to_examine_examined i fl Hex) as Hdec.
  destruct (add_sub_categories_returns codes cats depth (catid c) (examined i fl))
    as [sub [fl' [E Hle]]]; [lia|].
  rewrite E. eexists. split; [reflexivity|]. simpl. lia.
Qed.

(** What [codebook_xml] returns from the flags [fl], when there are codes:
    the header, the codes without a category, a run of the top-level
    categories that leaves none of them to examine, and the footer. *)
Lemma codebook_xml_from_run (depth : nat) (fl : flags) (xml : list piece)
    (fl' : flags) :
  codes <> [] ->
  codebook_xml_from depth codes cats fl = Some (xml, fl') ->
  exists rest,
    run None fl rest fl'
    /\ opened xml = opened rest
    /\ emitted_codes xml = (code_positions codes None ++ emitted_codes rest)%list
    /\ (forall i c, nth_error cats i = Some c -> supercatid c = None ->
                    examine fl' i = false).
Proof.
  intros Hne. unfold codebook_xml_from.
  destruct codes as [|co codes'] eqn:Hcodes; [congruence|]. rewrite <- Hcodes.
  set (pre := ([Literal ("<CodeBook>" ++ nl); Literal ("<Codes>" ++ nl)]
                 ++ codes_of codes None)%list).
  destruct (for_positions (seq 0 (List.length cats))
              (top_category_step depth codes cats) (pre, fl))
    as [[xml1 fl1]|] eqn:E; [|discriminate].
  intros H. injection H as <- <-.
  pose proof E as Ecov.
  apply (for_positions_invariant
           (fun acc => exists rest, fst acc = (pre ++ rest)%list
                                    /\ run None fl rest (snd acc))) in E.
  - destruct E as [rest [Hxml Hrun]]. cbn [fst snd] in Hxml, Hrun. subst xml1.
    exists rest. split; [exact Hrun|]. subst pre.
    rewrite !opened_app, !emitted_codes_app, opened_codes_of, emitted_codes_of.
    simpl. rewrite !app_nil_r. split; [reflexivity|]. split; [reflexivity|].
    intros i c Hc Hsup.
    apply (for_positions_covers
             (fun i (acc : list piece * flags) =>
                forall c, nth_error cats i = Some c -> supercatid c = None ->
                          examine (snd acc) i = false)) with (i := i) (c := c)
      in Ecov; auto.
    + intros a k a'. apply top_category_step_clears.
    + intros a j a' k Hk Hstep ck Hck Hs.
      destruct (examine (snd a') k) eqn:Ek; [|reflexivity].
      apply (top_category_step_mono codes cats depth a j a' k Hstep) in Ek.
      rewrite (Hk ck Hck Hs) in Ek. discriminate.
    + apply in_seq. split; [lia|]. simpl. apply nth_error_Some. congruence.
  - intros s i s'. apply top_category_step_appends.
  - exists []. simpl. rewrite app_nil_r. split; [reflexivity | apply run_nil].
Qed.

Lemma codebook_xml_from_returns (depth : nat) (fl : flags) :
  (to_examine fl < depth)%nat ->
  exists r, codebook_xml_from depth codes cats fl = Some r.
Proof.
  intros Hlt. unfold codebook_xml_from.
  destruct codes as [|co codes'] eqn:Hcodes; [eauto|]. rewrite <- Hcodes.
  set (pre := ([Literal ("<CodeBook>" ++ nl); Literal ("<Codes>" ++ nl)]
                 ++ codes_of codes None)%list).
  destruct (for_positions_returns
              (fun acc : list piece * flags => (to_examine (snd acc) < depth)%nat)
              (top_category_step depth codes cats))
    with (l := seq 0 (List.length cats)) (s := (pre, fl))
    as [[xml1 fl1] [E _]].
  - intros s i. apply top_category_step_returns.
  - exact Hlt.
  - rewrite E. eauto.
Qed.

(** A larger bound on the nesting gives the same export. *)
Lemma codebook_xml_from_deeper (d d' : nat) (fl : flags) (r : list piece * flags) :
  (d <= d')%nat ->
  codebook_xml_from d codes cats fl = Some r ->
  codebook_xml_from d' codes cats fl = Some r.
Proof.
  induction 1 as [|d' Hle IH]; [auto|]. intros H. apply IH in H. revert H.
  unfold codebook_xml_from. destruct codes as [|co codes'] eqn:Hcodes; [auto|].
  rewrite <- Hcodes.
  destruct (for_positions (seq 0 (List.length cats))
              (top_category_step d' codes cats) _) as [[x f]|] eqn:E;
    [|discriminate].
  apply (for_positions_ext (top_category_step d' codes cats)
           (top_category_step (S d') codes cats)) in E.
  - rewrite E. auto.
  - intros [xml f0] i r0. unfold top_category_step.
    destruct (nth_error cats i) as [c|]; [|auto].
    destruct (eq_id (supercatid c) None && examine f0 i); [|auto].
    destruct (add_sub_categories d' codes cats (catid c) (examined i f0))
      as [[sub f']|] eqn:Es; [|discriminate].
    rewrite (add_sub_categories_deeper codes cats _ _ _ _ Es). auto.
Qed.

(** Opened categories are reachable. *)
Lemma parents_first_reachable (o : list nat) :
  forall seen,
    (forall k, In k seen -> reachable k) ->
    Codebook.parents_first cats None seen o ->
    forall i, In i o -> reachable i.
Proof.
  induction o as [|x o IH]; intros seen Hseen; simpl; [tauto|].
  intros [[c [Hc Hx]] Ho].
  assert (Rx : reachable x).
  { destruct Hx as [Hp|[k [ck [Hk [Hck Hs]]]]].
    - apply (reachable_top cats x c Hc Hp).
    - apply (reachable_child cats x k c ck Hc Hck Hs). apply Hseen. exact Hk. }
  intros i [<-|Hi]; [exact Rx|].
  apply (IH (x :: seen)); auto.
  intros k [<-|Hk]; auto.
Qed.

Lemma examine_repeat_true (n i : nat) :
  (i < n)%nat -> examine (repeat true n) i = true.
Proof.
  unfold examine. revert i. induction n as [|n IH]; intros [|i] H; simpl;
    try lia; auto. apply IH. lia.
Qed.

(** Reachable categories are opened, when every flag is set at the start. *)
Lemma reachable_opened (fl' : flags) (rest : list piece) :
  run None (repeat true (List.length cats)) rest fl' ->
  (forall i c, nth_error cats i = Some c -> supercatid c = None ->
               examine fl' i = false) ->
  forall i, reachable i -> In i (opened rest).
Proof.
  intros [[_ [_ [_ O]]] [_ [_ K]]] Htop.
  assert (Hin : forall i c, nth_error cats i = Some c ->
                            examine fl' i = false -> In i (opened rest)).
  { intros i c Hc Hf. apply O. split; [|exact Hf].
    apply examine_repeat_true. apply nth_error_Some. congruence. }
  induction 1 as [i c Hc Hs|i k c ck Hc Hck Hs Hk IH].
  - apply (Hin i c Hc). apply (Htop i c Hc Hs).
  - apply (Hin i c Hc). apply (K k ck IH Hck i c Hc Hs).
Qed.

Lemma code_positions_In (id : option Z) (j : nat) (co : code) :
  nth_error codes j = Some co -> code_catid co = id ->
  In j (code_positions codes id).
Proof.
  intros Hj Hid. unfold code_positions. apply filter_In. split.
  - apply in_seq. split; [lia|]. simpl. apply nth_error_Some. congruence.
  - rewrite Hj. apply eq_id_true. exact Hid.
Qed.

End CodebookXmlFacts.

(** C9, as the code has it: [codebook_xml] returns for every list of codes
    and of categories, and the same for every larger bound on the nesting.
    No category is written twice and, the category ids being distinct, no
    code is written twice.  When there are codes, the categories written
    are those whose chain of parent ids ends at a category without a
    parent, and the codes written are those without a category or in a
    category that is written; without codes nothing is written. *)
Theorem C9_codebook_export_reachable_once :
  forall (codes : list Codebook.code) (cats : list Codebook.category),
    exists xml,
      Codebook.codebook_xml codes cats = Some xml
      /\ (forall depth,
             (List.length cats < depth)%nat ->
             option_map fst
               (Codebook.codebook_xml_from depth codes cats
                  (repeat true (List.length cats))) = Some xml)
      /\ NoDup (Codebook.opened xml)
      /\ (NoDup (map Codebook.catid cats) -> NoDup (Codebook.emitted_codes xml))
      /\ (codes <> [] ->
          forall i, In i (Codebook.opened xml) <-> Codebook.reachable cats i)
      /\ (codes <> [] ->
          forall j, In j (Codebook.emitted_codes xml)
                    <-> Codebook.exported_code codes cats j)
      /\ (codes = [] -> xml = []).
Proof.
  intros codes cats. unfold Codebook.codebook_xml.
  destruct (codebook_xml_from_returns codes cats (S (List.length cats))
              (repeat true (List.length cats))) as [[xml fl'] E].
  { rewrite to_examine_repeat. lia. }
  rewrite E. simpl. exists xml. split; [reflexivity|]. split.
  { intros depth Hd.
    rewrite (codebook_xml_from_deeper codes cats (S (List.length cats)) depth
               _ _ Hd E). reflexivity. }
  destruct codes as [|co codes'] eqn:Hcodes.
  { simpl in E. injection E as <- <-. simpl.
    repeat split; try constructor; try tauto; congruence. }
  rewrite <- Hcodes in *.
  assert (Hne : codes <> []) by (rewrite Hcodes; discriminate).
  destruct (codebook_xml_from_run codes cats _ _ _ _ Hne E)
    as [rest [Hrun [Ho [He Htop]]]].
  pose proof (reachable_opened codes cats fl' rest Hrun Htop) as Hreach.
  destruct Hrun as [[_ [_ [Hnd _]]] [[Hcnd [Hfollow Hall]] [Hpf _]]].
  pose proof (parents_first_reachable cats (Codebook.opened rest) []
                (fun k (H : In k []) => match H with end) Hpf) as Hopen.
  rewrite Ho, He. split; [exact Hnd|]. split; [|split; [|split]].
  - intros Hids. apply NoDup_app.
    + apply NoDup_code_positions.
    + apply Hcnd. exact Hids.
    + intros j H1 H2. destruct (In_code_positions _ _ _ H1) as [co1 [Hj1 Hn1]].
      destruct (Hfollow j H2) as [i [c [co2 [_ [_ [Hj2 Hs2]]]]]]. congruence.
  - intros _ i. split; [apply Hopen | apply Hreach].
  - intros _ j. rewrite in_app_iff. split.
    + intros [H|H].
      * destruct (In_code_positions _ _ _ H) as [co1 [Hj1 Hn1]].
        exists co1. auto.
      * destruct (Hfollow j H) as [i [c [co2 [Hi [Hc [Hj2 Hs2]]]]]].
        exists co2. split; [exact Hj2|]. right. exists i, c. auto.
    + intros [co1 [Hj [Hn|[i [c [Hi [Hc Hs]]]]]]].
      * left. apply (code_positions_In codes None j co1 Hj Hn).
      * right. apply (Hall i c j (Hreach i Hi) Hc).
        apply (code_positions_In codes _ j co1 Hj Hs).
  - intros Hnil. congruence.
Qed.

(** C9 as stated fails: the export returns, but the category C, whose
    parent id 7 is the id of no category, is not written at all, nor is
    the code in it; the categories X and Y, each the parent of the other,
    are not written; and without codes no category is written. *)
Lemma C9_exactly_once_counterexample :
  (exists xml,
      Codebook.codebook_xml codes_dangling categories_dangling = Some xml
      /\ Codebook.opened xml = [0; 1; 3]%nat
      /\ Codebook.emitted_codes xml = [0; 1]%nat
      /\ ~ In 2%nat (Codebook.opened xml)
      /\ ~ In 2%nat (Codebook.emitted_codes xml))
  /\ (exists xml,
         Codebook.codebook_xml codes_dangling categories_cycle = Some xml
         /\ Codebook.opened xml = [0%nat])
  /\ Codebook.codebook_xml [] categories_dangling = Some [].
Proof.
  split; [|split].
  - eexists. split; [vm_compute; reflexivity|].
    repeat split; simpl; intuition discriminate.
  - eexists. split; [vm_compute; reflexivity|]. reflexivity.
  - reflexivity.
Qed.

(** The text of the export of [categories_dangling]. *)
Example codebook_xml_dangling_text :
  option_map (Codebook.render categories_dangling codes_dangling)
    (Codebook.codebook_xml codes_dangling categories_dangling)
  = Some (String.concat Codebook.nl
            ["<CodeBook>"; "<Codes>";
             "<Code c0 /><Code guid=" ++ Codebook.dq ++ "guid-A" ++ Codebook.dq
               ++ " name=" ++ Codebook.dq ++ "A" ++ Codebook.dq
               ++ " isCodable=" ++ Codebook.dq ++ "false" ++ Codebook.dq ++ ">";
             "<Code guid=" ++ Codebook.dq ++ "guid-B" ++ Codebook.dq
               ++ " name=" ++ Codebook.dq ++ "B" ++ Codebook.dq
               ++ " isCodable=" ++ Codebook.dq ++ "false" ++ Codebook.dq ++ ">";
             "<Code guid=" ++ Codebook.dq ++ "guid-D" ++ Codebook.dq
               ++ " name=" ++ Codebook.dq ++ "D" ++ Codebook.dq
               ++ " isCodable=" ++ Codebook.dq ++ "false" ++ Codebook.dq ++ ">";
             "</Code>"; "<Code c1 /></Code>"; "</Code>"; "</Codes>";
             "</CodeBook>"; ""]).
Proof. vm_compute. reflexivity. Qed.

(** ** A Case without a name whose variables are declared *)

Section FileVariableCase.

Import RefiImport.

Lemma fold_left_filter {A S} (p : A -> bool) (f : S -> A -> S) (l : list A) :
  forall a,
    fold_left (fun acc x => if p x then f acc x else acc) l a
    = fold_left f (filter p l) a.
Proof.
  induction l as [|x l IH]; intros a; simpl; [reflexivity|].
  destruct (p x); simpl; apply IH.
Qed.

(** The pre-pass on a Case without a name and with one SourceRef stages
    its VariableValue children, in order. *)
Lemma parse_case_for_file_variables_stages (e_case sr : Xml.element)
    (g : string) (st : importer) :
  Xml.get e_case "name" = None ->
  filter is_source_ref (Xml.getchildren e_case) = [sr] ->
  Xml.get sr "targetGUID" = Some g ->
  let st' := parse_case_for_file_variables e_case st in
  file_vars st'
  = (file_vars st
       ++ map (staged st (Some g))
              (filter is_variable_value (Xml.getchildren e_case)))%list
  /\ conn st' = conn st /\ sources st' = sources st
  /\ variables st' = variables st /\ codername st' = codername st
  /\ cases st' = cases st.
Proof.
  intros Hname Hsr Hg. unfold parse_case_for_file_variables. rewrite Hname.
  rewrite (fold_left_filter is_source_ref
             (fun acc el => (fst acc + 1, Xml.get el "targetGUID"))).
  rewrite Hsr. simpl fold_left. rewrite Hg. simpl negb. cbv iota.
  rewrite (fold_left_filter is_variable_value
             (fun st el =>
                let '(var_guid_, value) := variable_ref_and_value el in
                with_file_vars st
                  (file_vars st ++
                   [{| fv_file_guid := Some g; fv_var_guid := var_guid_;
                       fv_value := value;
                       fv_name := first_variable_name (variables st) var_guid_ |}]))).
  generalize (filter is_variable_value (Xml.getchildren e_case)) as vvs.
  intros vvs. cbv zeta.
  assert (G : forall st0,
             variables st0 = variables st ->
             let st' :=
               fold_left
                 (fun st1 el =>
                    let '(var_guid_, value) := variable_ref_and_value el in
                    with_file_vars st1
                      (file_vars st1 ++
                       [{| fv_file_guid := Some g; fv_var_guid := var_guid_;
                           fv_value := value;
                           fv_name := first_variable_name (variables st1) var_guid_ |}]))
                 vvs st0 in
             file_vars st' = (file_vars st0 ++ map (staged st (Some g)) vvs)%list
             /\ conn st' = conn st0 /\ sources st' = sources st0
             /\ variables st' = variables st0 /\ codername st' = codername st0
             /\ cases st' = cases st0).
  { induction vvs as [|el vvs IH]; intros st0 Hv; simpl.
    - rewrite app_nil_r. repeat split.
    - destruct (variable_ref_and_value el) as [vg val] eqn:Evv.
      specialize (IH (with_file_vars st0
                        (file_vars st0 ++
                         [{| fv_file_guid := Some g; fv_var_guid := vg;
                             fv_value := val;
                             fv_name := first_variable_name (variables st0) vg |}]))
                     Hv).
      simpl in IH. destruct IH as [F R]. rewrite F. split; [|exact R].
      rewrite <- app_assoc. simpl. unfold staged. rewrite Evv, Hv. reflexivity. }
  apply (G st eq_refl).
Qed.

(** [parse_cases] passes over a Case without a name. *)
Lemma parse_case_nameless (now_date : string) (acc : importer * Z)
    (e : Xml.element) :
  Xml.get e "name" = None -> parse_case now_date acc e = Ok acc.
Proof.
  intros H. unfold parse_case. destruct acc as [st count]. rewrite H.
  reflexivity.
Qed.

End FileVariableCase.

(* ================================================================== *)
(** * Export: escaping and time stamps *)

Section EntityFacts.

Import Codebook.

Lemma In_replace_chars (a : ascii) (b l : list ascii) (x : ascii) :
  In x (replace_chars a b l) -> In x b \/ (In x l /\ x <> a).
Proof.
  induction l as [|c l IH]; simpl; [tauto|].
  destruct (Ascii.eqb_spec c a) as [->|Hne].
  - rewrite in_app_iff. intros [H|H]; [now left|].
    destruct (IH H) as [H'|[H' Hx]]; [now left | right; split; auto].
  - intros [<-|H]; [right; split; auto|].
    destruct (IH H) as [H'|[H' Hx]]; [now left | right; split; auto].
Qed.

Lemma In_replace (s : string) (a : ascii) (b : string) (x : ascii) :
  In x (chars (replace s a b)) -> In x (chars b) \/ (In x (chars s) /\ x <> a).
Proof.
  unfold replace. rewrite chars_str. apply In_replace_chars.
Qed.

Lemma replace_chars_without (a : ascii) (b l : list ascii) :
  ~ In a l -> replace_chars a b l = l.
Proof.
  induction l as [|c l IH]; simpl; [reflexivity|].
  intros H. destruct (Ascii.eqb_spec c a) as [->|Hne]; [tauto|].
  f_equal. apply IH. tauto.
Qed.

Lemma replace_without (s : string) (a : ascii) (b : string) :
  ~ In a (chars s) -> replace s a b = s.
Proof.
  intros H. unfold replace. rewrite replace_chars_without by exact H.
  apply str_chars.
Qed.

(** X1: whatever the text, [convert_xml_predefined_entities] returns a
    string without a double quote, an apostrophe, [<] or [>]: each is
    replaced by its numeric entity, and no later replacement brings one
    back. *)
Theorem X1_entities_leave_no_markup (text : option string) :
  Forall (fun c => ~ RefiExport.markup c) (chars (convert_xml_predefined_entities text)).
Proof.
  apply Forall_forall. intros x Hx Hm.
  destruct text as [text|]; [|exact Hx].
  unfold convert_xml_predefined_entities in Hx.
  apply In_replace in Hx. destruct Hx as [Hx|[Hx H5]].
  { simpl in Hx. unfold RefiExport.markup in Hm. intuition (subst; discriminate). }
  apply In_replace in Hx. destruct Hx as [Hx|[Hx H4]].
  { simpl in Hx. unfold RefiExport.markup in Hm. intuition (subst; discriminate). }
  apply In_replace in Hx. destruct Hx as [Hx|[Hx H3]].
  { simpl in Hx. unfold RefiExport.markup in Hm. intuition (subst; discriminate). }
  apply In_replace in Hx. destruct Hx as [Hx|[Hx H2]].
  { simpl in Hx. unfold RefiExport.markup in Hm. intuition (subst; discriminate). }
  unfold RefiExport.markup in Hm. intuition.
Qed.

End EntityFacts.

Section TimestampFacts.

Lemma chars_app (a b : string) : chars (a ++ b) = (chars a ++ chars b)%list.
Proof. induction a as [|c a IH]; simpl; [reflexivity | now rewrite IH]. Qed.

Lemma str_app (a b : list ascii) : str (a ++ b)%list = str a ++ str b.
Proof. induction a as [|c a IH]; simpl; [reflexivity | now rewrite IH]. Qed.

Lemma append_empty (s : string) : s ++ "" = s.
Proof. induction s as [|c s IH]; simpl; [reflexivity | now rewrite IH]. Qed.

Lemma append_assoc (a b c : string) : (a ++ b) ++ c = a ++ b ++ c.
Proof. induction a as [|x a IH]; simpl; [reflexivity | now rewrite IH]. Qed.

Lemma replace_chars_app (a : ascii) (b l1 l2 : list ascii) :
  replace_chars a b (l1 ++ l2)%list
  = (replace_chars a b l1 ++ replace_chars a b l2)%list.
Proof.
  induction l1 as [|c l1 IH]; simpl; [reflexivity|].
  destruct (Ascii.eqb c a); rewrite IH; [now rewrite app_assoc | reflexivity].
Qed.

Lemma replace_app (s1 s2 : string) (a : ascii) (b : string) :
  replace (s1 ++ s2) a b = replace s1 a b ++ replace s2 a b.
Proof.
  unfold replace. now rewrite chars_app, replace_chars_app, str_app.
Qed.

Lemma without_In (c : ascii) (s : string) :
  PyStr.without c s -> ~ In c (chars s).
Proof.
  unfold PyStr.without. rewrite Forall_forall. intros H Hin.
  exact (H c Hin eq_refl).
Qed.

Lemma clamp_inside (n i : Z) : 0 <= i <= n -> clamp n i = Z.to_nat i.
Proof. intros H. unfold clamp. destruct (i <? 0) eqn:E; lia. Qed.

(** [(a ++ b)[0:n]] is [a] when [a] has [n] characters. *)
Lemma slice_prefix (a b : string) (n : Z) :
  len a = n -> slice (a ++ b) (Some 0) (Some n) = a.
Proof.
  unfold len. intros <-. unfold slice, slice_list.
  rewrite chars_app, length_app, !length_chars.
  rewrite !clamp_inside by lia.
  rewrite Nat2Z.id. change (Z.to_nat 0) with 0%nat.
  rewrite Nat.sub_0_r. cbn [skipn].
  rewrite <- length_chars.
  rewrite firstn_app, firstn_all, Nat.sub_diag. cbn [firstn].
  rewrite app_nil_r. apply str_chars.
Qed.

(** [(a ++ c ++ b)[n+1:]] is [b] when [a] has [n] characters. *)
Lemma slice_suffix (a b : string) (c : ascii) (n : Z) :
  len a = n -> slice (a ++ String c b) (Some (n + 1)) None = b.
Proof.
  unfold len. intros <-. unfold slice, slice_list.
  rewrite chars_app, length_app. cbn [chars list_ascii_of_string List.length].
  fold (chars b). rewrite !length_chars.
  rewrite clamp_inside by lia.
  replace (Z.to_nat (Z.of_nat (String.length a) + 1)) with (S (String.length a))
    by lia.
  replace (skipn (S (String.length a)) (chars a ++ c :: chars b)%list)
    with (chars b).
  - replace (String.length a + S (String.length b) - S (String.length a))%nat
      with (List.length (chars b)) by (rewrite length_chars; lia).
    rewrite firstn_all. apply str_chars.
  - rewrite skipn_app, length_chars.
    replace (S (String.length a) - String.length a)%nat with 1%nat by lia.
    rewrite skipn_all2 by (rewrite length_chars; lia). reflexivity.
Qed.

(** X2: a date that [convert_timestamp] has written comes back through
    the import's [replace('T', ' ').replace('Z', '')]: for a stored date of
    ten characters, one separator and a time, without the letters T and Z,
    the import reads the date, a space and the time.  With a space as the
    separator that is the stored value; an underscore, which
    [load_codings_for_audio_video] writes, becomes a space. *)
Theorem X2_timestamp_round_trip (date time : string) (c : ascii) :
  String.length date = 10%nat ->
  PyStr.without "T" date -> PyStr.without "Z" date ->
  PyStr.without "T" time -> PyStr.without "Z" time ->
  RefiImport.date_of_stamp
    (Some (RefiExport.convert_timestamp (date ++ String c time)))
  = Ok (date ++ " " ++ time).
Proof.
  intros Hlen HdT HdZ HtT HtZ.
  unfold RefiExport.convert_timestamp.
  assert (Hl : len date = 10) by (unfold len; rewrite Hlen; reflexivity).
  rewrite (slice_prefix date (String c time) 10 Hl).
  rewrite (slice_suffix date time c 10 Hl : slice _ (Some 11) None = _).
  apply without_In in HdT, HdZ, HtT, HtZ.
  unfold RefiImport.date_of_stamp. f_equal.
  rewrite !replace_app.
  rewrite (replace_without date "T") by exact HdT.
  rewrite (replace_without time "T") by exact HtT.
  rewrite (replace_without date "Z") by exact HdZ.
  rewrite (replace_without time "Z") by exact HtZ.
  change (replace (replace "T" "T" " ") "Z" "") with " ".
  change (replace (replace "Z" "T" " ") "Z" "") with "".
  now rewrite append_empty.
Qed.

Lemma X2_timestamp_round_trip_witness :
  RefiImport.date_of_stamp
    (Some (RefiExport.convert_timestamp ("2020-11-10" ++ String "_" "18:01:23")))
  = Ok ("2020-11-10" ++ " " ++ "18:01:23").
Proof.
  apply (X2_timestamp_round_trip "2020-11-10" "18:01:23" "_");
    first [reflexivity | repeat constructor; discriminate].
Defined.

End TimestampFacts.

Section ExchangeFacts.

Import Codebook.

Lemma top_category_step_prefix (codes : list code) (cats : list category)
    (depth : nat) (pre : list piece) :
  forall acc i acc',
    (exists rest, fst acc = (pre ++ rest)%list) ->
    top_category_step depth codes cats acc i = Some acc' ->
    exists rest, fst acc' = (pre ++ rest)%list.
Proof.
  intros [xml fl] i acc' [rest Hxml]. cbn [fst] in Hxml. subst xml.
  unfold top_category_step.
  destruct (nth_error cats i) as [c|].
  2:{ intros H. injection H as <-. exists rest. reflexivity. }
  destruct (eq_id (supercatid c) None && examine fl i).
  2:{ intros H. injection H as <-. exists rest. reflexivity. }
  destruct (add_sub_categories depth codes cats (catid c) (examined i fl))
    as [[sub fl']|]; [|discriminate].
  intros H. injection H as <-. cbn [fst]. eexists.
  rewrite <- !app_assoc. reflexivity.
Qed.

Lemma render_cons (codes : list code) (cats : list category) (p : piece)
    (xml : list piece) :
  render cats codes (p :: xml)
  = render_piece cats codes p ++ render cats codes xml.
Proof.
  unfold render. generalize (render_piece cats codes) as f. intros f.
  cbn [map]. generalize (map f xml) as l. intros l.
  destruct l as [|y l]; cbn [concat]; [now rewrite append_empty | reflexivity].
Qed.

(** [s[n:]] drops the first [n] characters. *)
Lemma slice_drop (a b : string) (n : Z) :
  len a = n -> slice (a ++ b) (Some n) None = b.
Proof.
  unfold len. intros <-. unfold slice, slice_list.
  rewrite chars_app, length_app, !length_chars.
  rewrite clamp_inside by lia. rewrite Nat2Z.id.
  rewrite skipn_app, length_chars, Nat.sub_diag.
  rewrite skipn_all2 by (rewrite length_chars; lia). cbn [skipn app].
  replace (String.length a + String.length b - String.length a)%nat
    with (List.length (chars b)) by (rewrite length_chars; lia).
  rewrite firstn_all. apply str_chars.
Qed.

Lemma codebook_xml_from_prefix (codes : list code) (cats : list category)
    (depth : nat) (fl : flags) (r : list piece * flags) :
  codes <> [] ->
  codebook_xml_from depth codes cats fl = Some r ->
  exists rest, fst r = Literal ("<CodeBook>" ++ nl) :: rest.
Proof.
  intros Hne. unfold codebook_xml_from.
  destruct codes as [|c0 cs0]; [contradiction|].
  set (cs := c0 :: cs0).
  destruct (for_positions (seq 0 (List.length cats))
              (top_category_step depth cs cats) _) as [[xml1 fl1]|] eqn:Hfor;
    [|discriminate].
  intros H. injection H as <-. cbn [fst].
  apply (for_positions_invariant
           (fun acc : list piece * flags =>
              exists rest,
                fst acc = ([Literal ("<CodeBook>" ++ nl)] ++ rest)%list))
    in Hfor.
  - destruct Hfor as [rest Hrest]. cbn [fst] in Hrest. rewrite Hrest.
    eexists. reflexivity.
  - intros acc i acc'. apply top_category_step_prefix.
  - eexists. reflexivity.
Qed.

(** X3: [codebook_exchange_xml] writes the prolog and the [CodeBook] start
    tag with its name spaces, and after them the codebook of
    [codebook_xml] without its first ten characters, which are its own
    [<CodeBook>] tag.  Without codes [codebook_xml] returns the empty
    string: the file is then the start tag alone, with no end tag. *)
Theorem X3_codebook_exchange_xml (codes : list code) (cats : list category) :
  match codes with
  | [] => RefiExport.codebook_exchange_xml codes cats
          = Some RefiExport.exchange_header
  | _ :: _ =>
      exists xml body,
        codebook_xml codes cats = Some xml
        /\ render cats codes xml = "<CodeBook>" ++ body
        /\ RefiExport.codebook_exchange_xml codes cats
           = Some (RefiExport.exchange_header ++ body)
  end.
Proof.
  destruct codes as [|co codes'] eqn:Hcodes.
  - unfold RefiExport.codebook_exchange_xml, codebook_xml, codebook_xml_from.
    cbn. first [reflexivity | now rewrite append_empty].
  - rewrite <- Hcodes.
    assert (Hne : codes <> []) by (rewrite Hcodes; discriminate).
    destruct (codebook_xml_from_returns codes cats (Datatypes.S (List.length cats))
                (repeat true (List.length cats))) as [[xml fl] Hr].
    { rewrite to_examine_repeat. lia. }
    destruct (codebook_xml_from_prefix _ _ _ _ _ Hne Hr) as [rest Hrest].
    cbn [fst] in Hrest. subst xml.
    exists (Literal ("<CodeBook>" ++ nl) :: rest), (nl ++ render cats codes rest).
    assert (Hx : codebook_xml codes cats = Some (Literal ("<CodeBook>" ++ nl) :: rest)).
    { unfold codebook_xml. rewrite Hr. reflexivity. }
    split; [exact Hx|]. split.
    + rewrite render_cons. cbn [render_piece]. now rewrite append_assoc.
    + unfold RefiExport.codebook_exchange_xml. rewrite Hx.
      rewrite render_cons. cbn [render_piece].
      rewrite append_assoc.
      rewrite (slice_drop "<CodeBook>" _ 10) by reflexivity. reflexivity.
Qed.

End ExchangeFacts.

(* ================================================================== *)
(** * Import: codebook files *)

Section ImportCodebookFacts.

Import RefiImport.

(** The names taken in [st] are taken in [st']. *)
#[local] Abbreviation names_kept st st' :=
  ((forall n, Db.category_name_taken n (conn st) = true ->
              Db.category_name_taken n (conn st') = true)
   /\ (forall n, Db.code_name_taken n (conn st) = true ->
                 Db.code_name_taken n (conn st') = true)).

Lemma sub_codes_result_names_kept (st : importer) (r : importer * Z) :
  sub_codes_result st r -> names_kept st (fst r).
Proof.
  intros [cats [codes [Hext _]]]. split; intros n H.
  - eapply category_name_taken_mono; eassumption.
  - eapply code_name_taken_mono; eassumption.
Qed.

Lemma names_kept_trans (st1 st2 st3 : importer) :
  names_kept st1 st2 -> names_kept st2 st3 -> names_kept st1 st3.
Proof. intros [A B] [C D]. split; intros n H; auto. Qed.

Lemma saturated_unfold (st : importer) (t : string)
    (a : list (string * string)) (x : option string)
    (elements : list Xml.element) :
  saturated st (Xml.Element t a x elements) <->
  let e := Xml.Element t a x elements in
  if existsb Xml.is_code elements then
    match Xml.get e "name" with
    | Some n =>
        Db.category_name_taken n (conn st) = true
        /\ (Xml.eq_opt (Xml.get e "isCodable") (Some "true") = true ->
            Db.code_name_taken n (conn st) = true)
    | None => True
    end
    /\ Forall (fun c => Xml.is_description c = false -> saturated st c) elements
  else
    match elements with
    | [] => exists n, Xml.get e "name" = Some n
                      /\ Db.code_name_taken n (conn st) = true
    | [c] =>
        Xml.is_description c = true ->
        exists n, Xml.get e "name" = Some n
                  /\ Db.code_name_taken n (conn st) = true
    | _ => True
    end.
Proof.
  cbv zeta. cbn [saturated].
  destruct (existsb Xml.is_code elements); [|reflexivity].
  assert (E : forall l,
             (fix all (l : list Xml.element) : Prop :=
                match l with
                | [] => True
                | c :: l' =>
                    (Xml.is_description c = false -> saturated st c) /\ all l'
                end) l
             <-> Forall (fun c => Xml.is_description c = false -> saturated st c) l).
  { induction l as [|c l IH]; split; intros H.
    - constructor.
    - exact I.
    - destruct H as [H1 H2]. constructor; [exact H1 | now apply IH].
    - inversion H; subst. split; [assumption | now apply IH]. }
  rewrite E. reflexivity.
Qed.

Lemma saturated_names_kept (st st' : importer) :
  names_kept st st' -> forall e, saturated st e -> saturated st' e.
Proof.
  intros [Hcat Hcode].
  induction e as [t a x elements IH] using element_induction.
  rewrite !saturated_unfold. cbv zeta.
  destruct (existsb Xml.is_code elements).
  - intros [Hname Hall]. split.
    + destruct (Xml.get (Xml.Element t a x elements) "name") as [n|]; [|exact I].
      destruct Hname as [H1 H2]. split; auto.
    + rewrite Forall_forall in *. intros c Hc Hd. apply IH; auto.
  - destruct elements as [|e1 [|e2 rest]]; auto.
    + intros [n [Hn H]]. exists n. auto.
    + intros H Hd. destruct (H Hd) as [n [Hn H']]. exists n. auto.
Qed.

Lemma insert_code_taken (now_date : string) (parent : Xml.element)
    (description : option string) (catid : option Z) (st : importer) (n : string) :
  Xml.get parent "name" = Some n ->
  Db.code_name_taken n
    (conn (fst (insert_code now_date parent description catid st))) = true.
Proof.
  intros Hn. unfold insert_code, Db.insert_code_name. rewrite Hn.
  destruct (Db.name_taken (Some n) (map Db.cn_name (Db.code_name (conn st))))
    eqn:E; cbn [fst].
  - exact E.
  - unfold Db.code_name_taken.
    cbn [conn append_code with_conn Db.code_name].
    rewrite map_app, name_taken_app. cbn [map Db.cn_name Db.name_taken existsb Xml.eq_opt].
    rewrite String.eqb_refl. cbn [orb]. apply orb_true_r.
Qed.

Lemma insert_code_noop (now_date : string) (parent : Xml.element)
    (description : option string) (catid : option Z) (st : importer) (n : string) :
  Xml.get parent "name" = Some n ->
  Db.code_name_taken n (conn st) = true ->
  insert_code now_date parent description catid st = (st, 0).
Proof.
  intros Hn H. unfold insert_code, Db.insert_code_name. rewrite Hn.
  unfold Db.code_name_taken in H. rewrite H. reflexivity.
Qed.

Lemma insert_category_taken (now_date : string) (parent : Xml.element)
    (description : option string) (cat_id : option Z) (st : importer) (n : string) :
  Xml.get parent "name" = Some n ->
  let st' := fst (fst (insert_category now_date parent description cat_id st)) in
  Db.category_name_taken n (conn st') = true
  /\ (Xml.eq_opt (Xml.get parent "isCodable") (Some "true") = true ->
      Db.code_name_taken n (conn st') = true).
Proof.
  intros Hn. cbv zeta.
  pose proof (insert_category_result now_date parent description cat_id st) as R.
  unfold insert_category in *. rewrite Hn in *.
  assert (T : Db.category_name_taken n
                (conn (fst (fst
                   match Db.insert_code_cat (conn st) (Some n) description ""
                           now_date cat_id with
                   | Some (c, id) => (with_conn st c, Some id, 1)
                   | None => (st, None, 0)
                   end))) = true).
  { unfold Db.insert_code_cat.
    destruct (Db.name_taken (Some n) (map Db.cat_name (Db.code_cat (conn st))))
      eqn:E; cbn [fst].
    - exact E.
    - unfold Db.category_name_taken.
      cbn [conn with_conn Db.code_cat].
      rewrite map_app, name_taken_app.
      cbn [map Db.cat_name Db.name_taken existsb Xml.eq_opt].
      rewrite String.eqb_refl. cbn [orb]. apply orb_true_r. }
  destruct (match Db.insert_code_cat (conn st) (Some n) description ""
                    now_date cat_id with
            | Some (c, id) => (with_conn st c, Some id, 1)
            | None => (st, None, 0)
            end) as [[st1 last_insert_id] counter].
  cbn [fst] in T.
  destruct (Xml.eq_opt (Xml.get parent "isCodable") (Some "true")).
  - pose proof (insert_code_taken now_date parent description last_insert_id
                  st1 n Hn) as C.
    pose proof (insert_code_result now_date parent description last_insert_id st1)
      as K.
    apply sub_codes_result_names_kept in K.
    destruct (insert_code now_date parent description last_insert_id st1)
      as [st2 k]. cbn [fst] in *. split; [|intros _; exact C].
    destruct K as [K _]. auto.
  - cbn [fst]. split; [exact T | discriminate].
Qed.

Lemma insert_category_noop (now_date : string) (parent : Xml.element)
    (description : option string) (cat_id : option Z) (st : importer) :
  match Xml.get parent "name" with
  | Some n =>
      Db.category_name_taken n (conn st) = true
      /\ (Xml.eq_opt (Xml.get parent "isCodable") (Some "true") = true ->
          Db.code_name_taken n (conn st) = true)
  | None => True
  end ->
  insert_category now_date parent description cat_id st = (st, None, 0).
Proof.
  unfold insert_category.
  destruct (Xml.get parent "name") as [n|] eqn:Hn; [|reflexivity].
  intros [H1 H2]. unfold Db.insert_code_cat.
  unfold Db.category_name_taken in H1. rewrite H1.
  destruct (Xml.eq_opt (Xml.get parent "isCodable") (Some "true"));
    [|reflexivity].
  rewrite (insert_code_noop now_date parent description None st n Hn (H2 eq_refl)).
  reflexivity.
Qed.

(** After [sub_codes] on a tree whose codes have names, every name of the
    tree is in its table. *)
Lemma sub_codes_saturates (clock : Xml.element -> string) :
  forall e, codes_named_in e = true ->
  forall cat_id st, saturated (fst (sub_codes clock e cat_id st)) e.
Proof.
  induction e as [t a x elements IH] using element_induction.
  intros Hnamed cat_id st.
  rewrite saturated_unfold, sub_codes_unfold. cbv zeta.
  cbn [codes_named_in] in Hnamed.
  destruct (existsb Xml.is_code elements).
  - set (parent := Xml.Element t a x elements) in *.
    set (description :=
           fold_left (fun d e => if Xml.is_description e then Xml.text e else d)
                     elements (Some "")).
    pose proof (insert_category_taken (clock parent) parent description cat_id st)
      as T.
    destruct (insert_category (clock parent) parent description cat_id st)
      as [[st1 last_insert_id] counter]. cbn [fst] in T.
    assert (F : forall l acc,
               Forall (fun e => codes_named_in e = true ->
                                forall cat_id st,
                                  saturated (fst (sub_codes clock e cat_id st)) e) l ->
               forallb (fun c => Xml.is_description c || codes_named_in c) l = true ->
               let r := fold_left
                          (fun acc e =>
                             if Xml.is_description e then acc
                             else
                               let '(st', n) :=
                                 sub_codes clock e last_insert_id (fst acc) in
                               (st', snd acc + n))
                          l acc in
               names_kept (fst acc) (fst r)
               /\ Forall (fun c => Xml.is_description c = false ->
                                   saturated (fst r) c) l).
    { induction l as [|c l IHl]; intros acc Hl Hn; cbn [fold_left].
      - split; [split; auto | constructor].
      - inversion Hl as [|? ? Hc Hl']; subst.
        cbn [forallb] in Hn. apply andb_true_iff in Hn. destruct Hn as [Hn1 Hn2].
        destruct (Xml.is_description c) eqn:Hd.
        + destruct (IHl acc Hl' Hn2) as [K S]. split; [exact K|].
          constructor; [congruence | exact S].
        + cbn [orb] in Hn1.
          pose proof (Hc Hn1 last_insert_id (fst acc)) as Sc.
          pose proof (sub_codes_returns_result clock c last_insert_id (fst acc))
            as Rc. apply sub_codes_result_names_kept in Rc.
          destruct (sub_codes clock c last_insert_id (fst acc)) as [st' n].
          cbn [fst] in Sc, Rc.
          destruct (IHl (st', snd acc + n) Hl' Hn2) as [K S]. cbn [fst] in K.
          split; [eapply names_kept_trans; eassumption|].
          constructor; [|exact S].
          intros _. apply (saturated_names_kept st'); assumption. }
    destruct (F elements (st1, counter) IH Hnamed) as [K S]. cbn [fst] in K.
    split; [|exact S].
    destruct (Xml.get parent "name") as [n|]; [|exact I].
    destruct (T n eq_refl) as [T1 T2]. destruct K as [K1 K2]. split; auto.
  - destruct elements as [|e1 [|e2 rest]]; [| |exact I].
    + destruct (Xml.get (Xml.Element t a x []) "name") as [n|] eqn:Hn;
        [|discriminate].
      exists n. split; [reflexivity|]. now apply insert_code_taken.
    + intros Hd. rewrite Hd in *.
      destruct (Xml.get (Xml.Element t a x [e1]) "name") as [n|] eqn:Hn;
        [|discriminate].
      exists n. split; [reflexivity|]. now apply insert_code_taken.
Qed.

(** On a tree all of whose names are taken, [sub_codes] inserts nothing. *)
Lemma sub_codes_saturated (clock : Xml.element -> string) :
  forall e cat_id st,
    saturated st e -> sub_codes clock e cat_id st = (st, 0).
Proof.
  induction e as [t a x elements IH] using element_induction.
  intros cat_id st. rewrite saturated_unfold, sub_codes_unfold. cbv zeta.
  destruct (existsb Xml.is_code elements).
  - intros [Hname Hall].
    rewrite insert_category_noop by exact Hname.
    clear Hname. induction elements as [|c l IHl]; [reflexivity|].
    inversion IH as [|? ? Hc Hl]; subst.
    inversion Hall as [|? ? Sc Sl]; subst.
    cbn [fold_left fst snd].
    destruct (Xml.is_description c); [now apply IHl|].
    rewrite (Hc None st (Sc eq_refl)). cbn [fst snd].
    now apply IHl.
  - destruct elements as [|e1 [|e2 rest]]; [| |reflexivity].
    + intros [n [Hn H]]. now apply (insert_code_noop _ _ _ _ _ n).
    + destruct (Xml.is_description e1); [|reflexivity].
      intros H. destruct (H eq_refl) as [n [Hn H']].
      now apply (insert_code_noop _ _ _ _ _ n).
Qed.

Lemma codes_rounds_saturated (clocks : nat -> Xml.element -> string)
    (cb : Xml.element) (rounds : list nat) (st : importer) (k : Z) :
  saturated st cb -> codes_rounds clocks cb rounds (st, k) = (st, k).
Proof.
  intros H. unfold codes_rounds.
  induction rounds as [|i rounds IHr]; [reflexivity|].
  cbn [fold_left fst snd]. rewrite (sub_codes_saturated _ _ _ _ H).
  replace (k + 0) with k by lia. exact IHr.
Qed.

(** X4: [import_codebook] calls [sub_codes] on the Codes element once for
    each of its children, not once in all.  When every code of the file has
    a name, the calls after the first find every name taken and insert
    nothing: the project and the counter of the message are those of one
    call. *)
Theorem X4_import_codebook_imports_once (clocks : nat -> Xml.element -> string)
    (root cb : Xml.element) (st : importer) :
  find is_codes (Xml.getchildren root) = Some cb ->
  Xml.getchildren cb <> [] ->
  codes_named_in cb = true ->
  import_codebook clocks root st
  = (fst (sub_codes (clocks 0%nat) cb None st),
     Some (snd (sub_codes (clocks 0%nat) cb None st))).
Proof.
  intros Hcb Hne Hnamed. unfold import_codebook. rewrite Hcb.
  destruct (Xml.getchildren cb) as [|c l] eqn:Hc; [contradiction|].
  cbn [List.length seq]. unfold codes_rounds. cbn [fold_left fst snd].
  pose proof (sub_codes_saturates (clocks 0%nat) cb Hnamed None st) as S.
  destruct (sub_codes (clocks 0%nat) cb None st) as [st1 n]. cbn [fst snd] in *.
  fold (codes_rounds clocks cb (seq 1 (List.length l)) (st1, 0 + n)).
  rewrite codes_rounds_saturated by exact S. reflexivity.
Qed.

Lemma X4_import_codebook_imports_once_witness :
  let clocks := fun (_ : nat) (_ : Xml.element) => "2024-01-01 00:00:00" in
  import_codebook clocks codebook_file new_importer
  = (fst (sub_codes (clocks 0%nat) two_codes None new_importer),
     Some (snd (sub_codes (clocks 0%nat) two_codes None new_importer))).
Proof.
  intros clocks.
  apply (X4_import_codebook_imports_once clocks codebook_file two_codes
           new_importer);
    [reflexivity | discriminate | reflexivity].
Defined.

End ImportCodebookFacts.

Section RegisteredCodes.

Import RefiImport.

(** From [st] to [st'] rows were appended to [code_name] and entries to
    [self.codes], one entry with the id of the row for each row. *)
#[local] Abbreviation registered st st' :=
  (exists new_refs new_codes,
     codes st' = (codes st ++ new_refs)%list
     /\ Db.code_name (conn st') = (Db.code_name (conn st) ++ new_codes)%list
     /\ map code_cid new_refs = map Db.cn_cid new_codes).

Lemma registered_refl (st : importer) : registered st st.
Proof. exists [], []. now rewrite !app_nil_r. Qed.

Lemma registered_trans (st1 st2 st3 : importer) :
  registered st1 st2 -> registered st2 st3 -> registered st1 st3.
Proof.
  intros [r1 [c1 [A1 [B1 C1]]]] [r2 [c2 [A2 [B2 C2]]]].
  exists (r1 ++ r2)%list, (c1 ++ c2)%list.
  rewrite A2, A1, B2, B1, !map_app, C1, C2, <- !app_assoc. auto.
Qed.

Lemma insert_code_registered (now_date : string) (parent : Xml.element)
    (description : option string) (catid : option Z) (st : importer) :
  registered st (fst (insert_code now_date parent description catid st)).
Proof.
  unfold insert_code, Db.insert_code_name.
  destruct (Db.name_taken _ _); cbn [fst]; [apply registered_refl|].
  eexists [_], [_]. cbn. auto.
Qed.

Lemma insert_category_registered (now_date : string) (parent : Xml.element)
    (description : option string) (cat_id : option Z) (st : importer) :
  registered st (fst (fst (insert_category now_date parent description cat_id st))).
Proof.
  unfold insert_category.
  destruct (Xml.get parent "name") as [n|]; [|apply registered_refl].
  assert (R1 : registered st
                 (fst (fst
                    match Db.insert_code_cat (conn st) (Some n) description ""
                            now_date cat_id with
                    | Some (c, id) => (with_conn st c, Some id, 1)
                    | None => (st, None, 0)
                    end))).
  { unfold Db.insert_code_cat. destruct (Db.name_taken _ _); cbn [fst].
    - apply registered_refl.
    - exists [], []. cbn. now rewrite !app_nil_r. }
  destruct (match Db.insert_code_cat (conn st) (Some n) description ""
                    now_date cat_id with
            | Some (c, id) => (with_conn st c, Some id, 1)
            | None => (st, None, 0)
            end) as [[st1 last_insert_id] counter]. cbn [fst] in R1.
  destruct (Xml.eq_opt (Xml.get parent "isCodable") (Some "true")); [|exact R1].
  pose proof (insert_code_registered now_date parent description last_insert_id st1)
    as R2.
  destruct (insert_code now_date parent description last_insert_id st1) as [st2 k].
  cbn [fst] in *. eapply registered_trans; eassumption.
Qed.

(** X5: every row that [sub_codes] appends to [code_name] is entered in
    [self.codes] under its row id, in the same order, and nothing else is
    entered: the later passes, which look codes up by GUID in [self.codes],
    see each imported code and no other. *)
Theorem X5_sub_codes_registers_inserted_codes (clock : Xml.element -> string) :
  forall (e : Xml.element) (cat_id : option Z) (st : importer),
    exists new_refs new_codes,
      codes (fst (sub_codes clock e cat_id st)) = (codes st ++ new_refs)%list
      /\ Db.code_name (conn (fst (sub_codes clock e cat_id st)))
         = (Db.code_name (conn st) ++ new_codes)%list
      /\ map code_cid new_refs = map Db.cn_cid new_codes.
Proof.
  induction e as [t a x elements IH] using element_induction.
  intros cat_id st. rewrite sub_codes_unfold. cbv zeta.
  destruct (existsb Xml.is_code elements).
  - set (parent := Xml.Element t a x elements).
    set (description :=
           fold_left (fun d e => if Xml.is_description e then Xml.text e else d)
                     elements (Some "")).
    pose proof (insert_category_registered (clock parent) parent description
                  cat_id st) as R.
    destruct (insert_category (clock parent) parent description cat_id st)
      as [[st1 last_insert_id] counter]. cbn [fst] in R.
    assert (F : forall acc,
               registered st (fst acc) ->
               registered st
                 (fst (fold_left
                         (fun acc e =>
                            if Xml.is_description e then acc
                            else
                              let '(st', n) :=
                                sub_codes clock e last_insert_id (fst acc) in
                              (st', snd acc + n))
                         elements acc))).
    { clear R. induction IH as [|c l Hc Hl IHl]; intros acc Hacc;
        cbn [fold_left]; [exact Hacc|].
      apply IHl. destruct (Xml.is_description c); [exact Hacc|].
      pose proof (Hc last_insert_id (fst acc)) as Rc.
      destruct (sub_codes clock c last_insert_id (fst acc)) as [st' n].
      cbn [fst] in *. eapply registered_trans; eassumption. }
    apply (F (st1, counter)). exact R.
  - destruct elements as [|e1 [|e2 rest]].
    + apply insert_code_registered.
    + destruct (Xml.is_description e1);
        [apply insert_code_registered | apply registered_refl].
    + apply registered_refl.
Qed.

End RegisteredCodes.

(* ================================================================== *)
(** * Import: variables, variable values and sets *)

Section VariableFacts.

Import RefiImport.

Lemma parse_variable_result (acc : importer * Z) (e : Xml.element) :
  let r := parse_variable acc e in
  variables (fst r)
  = (variables (fst acc)
     ++ [{| var_guid := Xml.get e "guid"; var_name := Xml.get e "name" |}])%list
  /\ Db.attribute (conn (fst r)) = Db.attribute (conn (fst acc))
  /\ exists new_rows,
       Db.attribute_type (conn (fst r))
       = (Db.attribute_type (conn (fst acc)) ++ new_rows)%list
       /\ snd r = snd acc + Z.of_nat (List.length new_rows)
       /\ (List.length new_rows <= 1)%nat
       /\ Forall (fun row =>
                    Db.aty_caseOrFile row = "file"
                    /\ Db.aty_name row = Xml.get e "name"
                    /\ Db.aty_valuetype row
                       = valuetype_of (Xml.get e "typeOfVariable")
                    /\ Db.name_taken (Db.aty_name row)
                         (map Db.aty_name (Db.attribute_type (conn (fst acc))))
                       = false)
                 new_rows.
Proof.
  destruct acc as [st k]. unfold parse_variable, Db.insert_attribute_type.
  cbn [Db.aty_name fst snd].
  destruct (Db.name_taken (Xml.get e "name")
              (map Db.aty_name (Db.attribute_type (conn st)))) eqn:E;
    cbn [fst snd variables with_variables conn with_conn Db.attribute
         Db.attribute_type].
  - split; [reflexivity|]. split; [reflexivity|].
    exists []. rewrite app_nil_r. cbn. repeat split; auto; lia.
  - split; [reflexivity|]. split; [reflexivity|].
    eexists [_]. split; [reflexivity|]. cbn [List.length].
    repeat split; auto.
Qed.

(** X6: [parse_variables] enters every child of the Variables element in
    [self.variables], in order, also one whose name is taken and for which
    no row is stored.  The rows it appends to [attribute_type] are all
    scoped [file], carry the name of a child and its type as mapped to
    [character] or [numeric], and the list it returns holds their
    number. *)
Theorem X6_parse_variables_registers_all (element : Xml.element) (st : importer) :
  let r := parse_variables element st in
  variables (fst r)
  = (variables st
     ++ map (fun e => {| var_guid := Xml.get e "guid";
                         var_name := Xml.get e "name" |})
            (Xml.getchildren element))%list
  /\ Db.attribute (conn (fst r)) = Db.attribute (conn st)
  /\ exists new_rows,
       Db.attribute_type (conn (fst r))
       = (Db.attribute_type (conn st) ++ new_rows)%list
       /\ snd r = [Z.of_nat (List.length new_rows)]
       /\ (List.length new_rows <= List.length (Xml.getchildren element))%nat
       /\ Forall (fun row =>
                    Db.aty_caseOrFile row = "file"
                    /\ exists e,
                         In e (Xml.getchildren element)
                         /\ Db.aty_name row = Xml.get e "name"
                         /\ Db.aty_valuetype row
                            = valuetype_of (Xml.get e "typeOfVariable"))
                 new_rows.
Proof.
  unfold parse_variables.
  assert (F : forall l acc,
             let r := fold_left parse_variable l acc in
             variables (fst r)
             = (variables (fst acc)
                ++ map (fun e => {| var_guid := Xml.get e "guid";
                                    var_name := Xml.get e "name" |}) l)%list
             /\ Db.attribute (conn (fst r)) = Db.attribute (conn (fst acc))
             /\ exists new_rows,
                  Db.attribute_type (conn (fst r))
                  = (Db.attribute_type (conn (fst acc)) ++ new_rows)%list
                  /\ snd r = snd acc + Z.of_nat (List.length new_rows)
                  /\ (List.length new_rows <= List.length l)%nat
                  /\ Forall (fun row =>
                               Db.aty_caseOrFile row = "file"
                               /\ exists e,
                                    In e l
                                    /\ Db.aty_name row = Xml.get e "name"
                                    /\ Db.aty_valuetype row
                                       = valuetype_of (Xml.get e "typeOfVariable"))
                            new_rows).
  { induction l as [|e l IHl]; intros acc; cbn [fold_left map].
    - rewrite app_nil_r. split; [reflexivity|]. split; [reflexivity|].
      exists []. rewrite app_nil_r. cbn. repeat split; auto; lia.
    - destruct (parse_variable_result acc e) as [V1 [A1 [rows1 [T1 [C1 [L1 P1]]]]]].
      destruct (IHl (parse_variable acc e)) as [V2 [A2 [rows2 [T2 [C2 [L2 P2]]]]]].
      cbv zeta in *. split.
      { rewrite V2, V1, <- app_assoc. reflexivity. }
      split; [congruence|].
      exists (rows1 ++ rows2)%list. split.
      { rewrite T2, T1, <- app_assoc. reflexivity. }
      split. { rewrite C2, C1, length_app. lia. }
      split. { rewrite length_app. cbn [List.length]. lia. }
      apply Forall_app. split.
      + eapply Forall_impl; [|exact P1]. cbv beta.
        intros row [Hf [Hn [Hv _]]]. split; [exact Hf|].
        exists e. split; [now left | auto].
      + eapply Forall_impl; [|exact P2]. cbv beta.
        intros row [Hf [e' [Hin H]]]. split; [exact Hf|].
        exists e'. split; [now right | exact H]. }
  destruct (F (Xml.getchildren element) (st, 0)) as [V [A [rows [T [C [L P]]]]]].
  cbv zeta in *.
  destruct (fold_left parse_variable (Xml.getchildren element) (st, 0))
    as [st' k]. cbn [fst snd] in *.
  split; [exact V|]. split; [exact A|].
  exists rows. split; [exact T|]. split; [|split; assumption].
  rewrite C. reflexivity.
Qed.

Lemma same_text_refl (n : string) : Db.same_text (Some n) (Some n) = true.
Proof. apply String.eqb_refl. Qed.

Lemma existsb_last {A} (f : A -> bool) (l : list A) (x : A) :
  f x = true -> existsb f (l ++ [x]) = true.
Proof.
  intros H. rewrite existsb_app. cbn [existsb]. rewrite H.
  now rewrite orb_true_r.
Qed.

(** X7: [parse_variable_value] inserts one row or raises.  Its row is
    scoped [file], on the given source id, with a value that is not NULL,
    and with the empty name when none of the VariableRef children names a
    known variable.  When [attribute] holds a row of the same name, scope
    and id the unguarded insert raises [IntegrityError]; otherwise the row
    is appended and nothing else changes.  So a second value of the same
    variable for the same source stops the import: after a call that
    returned, a call on the same element and id raises. *)
Theorem X7_parse_variable_value_one_row_or_raises (now_date : string)
    (element : Xml.element) (id_ : Z) (creating_user : string) (st : importer) :
  let row := variable_value_row now_date element id_ creating_user st in
  (Db.at_attr_type row = "file" /\ Db.at_id row = Some id_
   /\ Db.at_owner row = creating_user /\ Db.at_date row = now_date
   /\ Db.at_value row <> None)
  /\ (Forall (fun var_el =>
                first_variable_name (variables st)
                  (Xml.get var_el "targetGUID") = None)
             (filter (fun var_el =>
                        String.eqb (Xml.tag var_el) (Xml.project "VariableRef"))
                     (Xml.getchildren element))
      -> Db.at_name row = Some "")
  /\ (if existsb (Db.attribute_clash row) (Db.attribute (conn st))
      then parse_variable_value now_date element id_ creating_user st
           = Raise IntegrityError
      else
        exists st',
          parse_variable_value now_date element id_ creating_user st = Ok st'
          /\ Db.attribute (conn st') = (Db.attribute (conn st) ++ [row])%list
          /\ Db.attribute_type (conn st') = Db.attribute_type (conn st)
          /\ variables st' = variables st /\ sources st' = sources st)
  /\ (forall (st' : importer) (now2 user2 : string),
         parse_variable_value now_date element id_ creating_user st = Ok st' ->
         Db.at_name row <> None ->
         parse_variable_value now2 element id_ user2 st'
         = Raise IntegrityError).
Proof.
  intros row. split; [|split; [|split]].
  - subst row. unfold variable_value_row. cbn. repeat split. discriminate.
  - subst row. unfold variable_value_row. cbn [Db.at_name].
    generalize (Some "") as n0.
    induction (Xml.getchildren element) as [|v l IHl]; intros n0 H;
      cbn [fold_left filter] in *; [reflexivity|].
    destruct (String.eqb (Xml.tag v) (Xml.project "VariableRef")).
    + inversion H as [|? ? Hv Hl]; subst. rewrite Hv. now apply IHl.
    + now apply IHl.
  - unfold parse_variable_value, Db.insert_attribute. fold row.
    destruct (existsb (Db.attribute_clash row) (Db.attribute (conn st)));
      cbn [or_raise bind]; [reflexivity|].
    eexists. split; [reflexivity|]. cbn. auto.
  - intros st' now2 user2 H Hn.
    unfold parse_variable_value, Db.insert_attribute in H. fold row in H.
    destruct (existsb (Db.attribute_clash row) (Db.attribute (conn st)));
      cbn [or_raise bind] in H; [discriminate|].
    injection H as <-.
    unfold parse_variable_value, Db.insert_attribute.
    cbn [conn with_conn Db.attribute Db.append_attribute variables].
    rewrite existsb_last; [reflexivity|].
    unfold Db.attribute_clash.
    change (Db.at_name (variable_value_row now2 element id_ user2
                          (with_conn st (Db.append_attribute (conn st) row))))
      with (Db.at_name row).
    destruct (Db.at_name row) as [n|]; [|congruence].
    rewrite same_text_refl. cbn. now rewrite Z.eqb_refl.
Qed.

End VariableFacts.

Section SetFacts.

Import RefiImport.

(** The rows that [insert_set_source_variables] appends to [attribute]. *)
#[local] Abbreviation set_rows now_date name st ids :=
  (map (fun id_ => {| Db.at_name := name; Db.at_attr_type := "file";
                      Db.at_value := name; Db.at_id := Some id_;
                      Db.at_date := now_date; Db.at_owner := codername st |})
       ids).

Lemma append_attribute_rows (rows : list Db.attribute_row) (st : importer) :
  let st' :=
    fold_left (fun st r => with_conn st (Db.append_attribute (conn st) r))
      rows st in
  Db.attribute (conn st') = (Db.attribute (conn st) ++ rows)%list
  /\ Db.attribute_type (conn st') = Db.attribute_type (conn st)
  /\ Db.cases (conn st') = Db.cases (conn st)
  /\ Db.code_name (conn st') = Db.code_name (conn st)
  /\ Db.code_text (conn st') = Db.code_text (conn st)
  /\ sources st' = sources st /\ variables st' = variables st
  /\ file_vars st' = file_vars st /\ cases st' = cases st
  /\ codes st' = codes st /\ codername st' = codername st.
Proof.
  revert st. induction rows as [|r rows IH]; intros st; cbn [fold_left].
  - rewrite app_nil_r. repeat split.
  - destruct (IH (with_conn st (Db.append_attribute (conn st) r)))
      as [A [T [C [N [X [S [V [F [K [Co O]]]]]]]]]].
    cbv zeta in *. rewrite A, T, C, N, X, S, V, F, K, Co, O. cbn.
    rewrite <- app_assoc. repeat split.
Qed.

(** The loop of [insert_set_source_variables] over the source ids. *)
Lemma set_rows_inserted (now_date : string) (name : option string)
    (ids : list Z) (st : importer) :
  for_each ids
    (fun st id_ =>
       c <- or_raise
              (Db.insert_attribute (conn st)
                 {| Db.at_name := name; Db.at_attr_type := "file";
                    Db.at_value := name; Db.at_id := Some id_;
                    Db.at_date := now_date; Db.at_owner := codername st |})
              IntegrityError ;;
       Ok (with_conn st c))
    st
  = if Db.clash_free Db.attribute_clash (Db.attribute (conn st))
         (set_rows now_date name st ids)
    then Ok (fold_left
               (fun st r => with_conn st (Db.append_attribute (conn st) r))
               (set_rows now_date name st ids) st)
    else Raise IntegrityError.
Proof.
  rewrite (insert_loop (fun s => Db.attribute (conn s)) Db.attribute_clash
             (fun s r => with_conn s (Db.append_attribute (conn s) r))
             (fun id_ => [{| Db.at_name := name; Db.at_attr_type := "file";
                             Db.at_value := name; Db.at_id := Some id_;
                             Db.at_date := now_date;
                             Db.at_owner := codername st |}])
             _ (fun s => codername s = codername st));
    [| reflexivity | auto | | reflexivity].
  - assert (E : forall l : list Z,
               flat_map (fun id_ =>
                           [{| Db.at_name := name; Db.at_attr_type := "file";
                               Db.at_value := name; Db.at_id := Some id_;
                               Db.at_date := now_date;
                               Db.at_owner := codername st |}]) l
               = set_rows now_date name st l).
    { induction l as [|i l IH]; cbn; [reflexivity | now rewrite IH]. }
    rewrite E. reflexivity.
  - intros s i _ Hs. unfold Db.insert_attribute. cbn [Db.clash_free fold_left].
    rewrite andb_true_r, Hs.
    destruct (existsb _ _); reflexivity.
Qed.

Lemma parse_set_result (now_date : string) (element : Xml.element)
    (st : importer) :
  let name := Xml.get element "name" in
  let ids := set_sources_of element (sources st) in
  match ids with
  | [] => parse_set now_date element st = Ok st
  | _ :: _ =>
      if Db.name_taken name (map Db.aty_name (Db.attribute_type (conn st)))
      then parse_set now_date element st = Ok st
      else
        if Db.clash_free Db.attribute_clash (Db.attribute (conn st))
             (set_rows now_date name st ids)
        then
          exists st',
            parse_set now_date element st = Ok st'
            /\ Db.attribute_type (conn st')
               = (Db.attribute_type (conn st)
                  ++ [{| Db.aty_name := name; Db.aty_caseOrFile := "file";
                         Db.aty_valuetype := Some "character";
                         Db.aty_memo := Some (set_memo element) |}])%list
            /\ Db.attribute (conn st')
               = (Db.attribute (conn st) ++ set_rows now_date name st ids)%list
            /\ sources st' = sources st /\ variables st' = variables st
        else parse_set now_date element st = Raise IntegrityError
  end.
Proof.
  cbv zeta. unfold parse_set.
  destruct (set_sources_of element (sources st)) as [|i ids] eqn:E;
    [reflexivity|].
  unfold insert_set_source_variables, Db.insert_attribute_type.
  cbn [Db.aty_name].
  destruct (Db.name_taken (Xml.get element "name")
              (map Db.aty_name (Db.attribute_type (conn st)))); [reflexivity|].
  set (st1 := with_conn st _).
  rewrite (set_rows_inserted now_date (Xml.get element "name") (i :: ids) st1).
  change (Db.attribute (conn st1)) with (Db.attribute (conn st)).
  change (codername st1) with (codername st).
  destruct (Db.clash_free _ _ _); [|reflexivity].
  eexists. split; [reflexivity|].
  match goal with
  | |- context [fold_left ?f ?rows st1] =>
      destruct (append_attribute_rows rows st1)
        as [A [T [_ [_ [_ [S [V _]]]]]]]
  end.
  cbv zeta in *. rewrite A, T, S, V. subst st1. cbn. auto.
Qed.

(** X8: [parse_set] turns a Set into a variable of its name.  When a
    MemberSource of the Set names a loaded source and the name of the Set
    is not the name of a variable, it appends one row to [attribute_type],
    scoped [file] and of type [character], and one row to [attribute] for
    each pair of a MemberSource child and a loaded source with its GUID,
    in the order of the children: name and value are the name of the Set,
    the id is that of the source.  The inserts of the values are not
    guarded: when one of these rows meets a row of the same name, scope
    and id, in the table or among the earlier ones (a Set that names one
    source twice), [parse_set] raises [IntegrityError].  When no
    MemberSource names a loaded source, or the name is taken, it changes
    nothing. *)
Theorem X8_parse_set_membership_rows (now_date : string) (element : Xml.element)
    (st : importer) :
  let name := Xml.get element "name" in
  let ids := set_sources_of element (sources st) in
  match ids with
  | [] => parse_set now_date element st = Ok st
  | _ :: _ =>
      if Db.name_taken name (map Db.aty_name (Db.attribute_type (conn st)))
      then parse_set now_date element st = Ok st
      else
        if Db.clash_free Db.attribute_clash (Db.attribute (conn st))
             (set_rows now_date name st ids)
        then
          exists st',
            parse_set now_date element st = Ok st'
            /\ Db.attribute_type (conn st')
               = (Db.attribute_type (conn st)
                  ++ [{| Db.aty_name := name; Db.aty_caseOrFile := "file";
                         Db.aty_valuetype := Some "character";
                         Db.aty_memo := Some (set_memo element) |}])%list
            /\ Db.attribute (conn st')
               = (Db.attribute (conn st) ++ set_rows now_date name st ids)%list
            /\ sources st' = sources st /\ variables st' = variables st
        else parse_set now_date element st = Raise IntegrityError
  end.
Proof. exact (parse_set_result now_date element st). Qed.

(** X9: of two Sets with the same name the second is dropped.  Once a Set
    with a resolved member was parsed, its name is the name of a variable,
    and [parse_set] on any Set of that name changes nothing: its members
    get no rows.  So the two calls in a row give what the first call
    gives. *)
Theorem X9_set_name_is_used_once (now1 now2 : string) (e1 e2 : Xml.element)
    (st : importer) (n : string) :
  Xml.get e1 "name" = Some n -> Xml.get e2 "name" = Some n ->
  set_sources_of e1 (sources st) <> [] ->
  (st1 <- parse_set now1 e1 st ;; parse_set now2 e2 st1)
  = parse_set now1 e1 st.
Proof.
  intros H1 H2 Hne.
  destruct (parse_set now1 e1 st) as [st1|] eqn:Hst1; cbn [bind];
    [|reflexivity].
  assert (T : Db.name_taken (Some n)
                (map Db.aty_name (Db.attribute_type (conn st1))) = true).
  { pose proof (parse_set_result now1 e1 st) as H. cbv zeta in H.
    destruct (set_sources_of e1 (sources st)) as [|i ids]; [contradiction|].
    rewrite H1 in H.
    destruct (Db.name_taken (Some n)
                (map Db.aty_name (Db.attribute_type (conn st)))) eqn:E.
    - rewrite H in Hst1. injection Hst1 as <-. exact E.
    - destruct (Db.clash_free _ _ _); [|congruence].
      destruct H as [st' [E' [T _]]]. rewrite E' in Hst1.
      injection Hst1 as <-. rewrite T, map_app, name_taken_app.
      cbn [map Db.aty_name Db.name_taken existsb Xml.eq_opt].
      rewrite String.eqb_refl. cbn [orb]. apply orb_true_r. }
  pose proof (parse_set_result now2 e2 st1) as H.
  cbv zeta in H. rewrite H2, T in H.
  destruct (set_sources_of e2 (sources st1)); exact H.
Qed.

Lemma X9_set_name_is_used_once_witness :
  (st1 <- parse_set "2021-03-02 09:00:00" (member_set "Wave 1" "src1")
            importer_example ;;
   parse_set "2021-03-02 10:00:00" (member_set "Wave 1" "src1") st1)
  = parse_set "2021-03-02 09:00:00" (member_set "Wave 1" "src1")
      importer_example
  /\ is_ok (parse_set "2021-03-02 09:00:00" (member_set "Wave 1" "src1")
              importer_example) = true.
Proof.
  split; [|reflexivity].
  apply (X9_set_name_is_used_once _ _ _ _ _ "Wave 1");
    [reflexivity | reflexivity | vm_compute; discriminate].
Defined.

End SetFacts.

(* ================================================================== *)
(** * Import: selections of text, audio and video *)

Section SelectionLoaderFacts.

Import RefiImport.
Import Selections.

(** The target GUID of the CodeRef of a Coding element: of its first
    child. *)
#[local] Abbreviation code_ref_of e :=
  (match Xml.getchildren e with
   | cref :: _ => Xml.get cref "targetGUID"
   | [] => None
   end).

#[local] Abbreviation has_code_ref :=
  (fun e : Xml.element => is_coding e = true -> Xml.getchildren e <> []).

Lemma flat_map_filter {A B} (p : A -> bool) (f : A -> B) (l : list A) :
  flat_map (fun x => if p x then [f x] else []) l = map f (filter p l).
Proof.
  induction l as [|x l IH]; cbn; [reflexivity|].
  destruct (p x); cbn; now rewrite IH.
Qed.

Lemma append_code_text_rows (rows : list text_coding_row) (db : tables) :
  let db' := fold_left append_code_text rows db in
  code_text db' = (code_text db ++ rows)%list
  /\ code_name db' = code_name db /\ annotation db' = annotation db
  /\ code_av db' = code_av db /\ case_text db' = case_text db.
Proof.
  revert db. induction rows as [|r rows IH]; intros db; cbn [fold_left].
  - rewrite app_nil_r. auto.
  - destruct (IH (append_code_text db r)) as [A [B [C [D E]]]]. cbv zeta in *.
    rewrite A, B, C, D, E. cbn. rewrite <- app_assoc. auto.
Qed.

Lemma insert_code_av_rows (rows : list code_av_row) (db : tables) :
  let db' := fold_left insert_code_av rows db in
  code_av db' = (code_av db ++ rows)%list
  /\ code_name db' = code_name db /\ annotation db' = annotation db
  /\ code_text db' = code_text db /\ case_text db' = case_text db.
Proof.
  revert db. induction rows as [|r rows IH]; intros db; cbn [fold_left].
  - rewrite app_nil_r. auto.
  - destruct (IH (insert_code_av db r)) as [A [B [C [D E]]]]. cbv zeta in *.
    rewrite A, B, C, D, E. cbn. rewrite <- app_assoc. auto.
Qed.

(** The rows of the Coding children of a selection. *)
#[local] Abbreviation text_rows cs row l :=
  (map (fun e =>
          {| tc_cid := code_id_of cs (code_ref_of e);
             tc_fid := tc_fid row; tc_seltext := tc_seltext row;
             tc_pos0 := tc_pos0 row; tc_pos1 := tc_pos1 row;
             tc_owner := tc_owner row; tc_memo := tc_memo row;
             tc_date := tc_date row |})
       (filter is_coding l)).

Lemma text_coding_steps (cs : list code_ref) (row : text_coding_row)
    (l : list Xml.element) :
  Forall has_code_ref l ->
  forall db,
    for_each l (text_coding_step cs row) db
    = if Db.clash_free text_coding_clash (code_text db) (text_rows cs row l)
      then Ok (fold_left append_code_text (text_rows cs row l) db)
      else Raise IntegrityError.
Proof.
  intros Hl db.
  rewrite (insert_loop code_text text_coding_clash append_code_text
             (fun e =>
                if is_coding e
                then [{| tc_cid := code_id_of cs (code_ref_of e);
                         tc_fid := tc_fid row; tc_seltext := tc_seltext row;
                         tc_pos0 := tc_pos0 row; tc_pos1 := tc_pos1 row;
                         tc_owner := tc_owner row; tc_memo := tc_memo row;
                         tc_date := tc_date row |}]
                else [])
             _ (fun _ => True));
    [| reflexivity | auto | | exact I].
  - rewrite flat_map_filter. reflexivity.
  - intros s e He _. unfold text_coding_step.
    pose proof (proj1 (Forall_forall _ _) Hl e He) as Hc. cbv beta in Hc.
    destruct (is_coding e); [|reflexivity].
    destruct (Xml.getchildren e) as [|cref rest];
      [exfalso; exact (Hc eq_refl eq_refl)|].
    cbn [index nth_error bind Db.clash_free fold_left].
    unfold insert_code_text. rewrite andb_true_r.
    destruct (existsb _ _); reflexivity.
Qed.

Lemma av_coding_steps (cs : list code_ref) (row : code_av_row)
    (l : list Xml.element) :
  Forall has_code_ref l ->
  forall db,
    for_each l (av_coding_step cs row) db
    = Ok (fold_left insert_code_av
            (map (fun e =>
                    {| av_id := av_id row; av_pos0 := av_pos0 row;
                       av_pos1 := av_pos1 row;
                       av_cid := code_id_of cs (code_ref_of e);
                       av_memo := av_memo row; av_date := av_date row;
                       av_owner := av_owner row |})
                 (filter is_coding l))
            db).
Proof.
  induction 1 as [|e l He Hl IH]; intros db; cbn [for_each filter];
    [reflexivity|].
  unfold av_coding_step at 1. destruct (is_coding e) eqn:Hc.
  - destruct (Xml.getchildren e) as [|cref rest] eqn:Hch;
      [exfalso; now apply He|].
    cbn [index nth_error bind map fold_left]. rewrite Hch. apply IH.
  - cbn [bind]. apply IH.
Qed.

(** X10: a PlainTextSelection is loaded either as codings or as an
    annotation, never as both.  With integer positions, a date, and a
    CodeRef in every Coding child, [_load_codings_for_text] inserts into
    [code_text] one row for each Coding child, in order, on the span
    [pos0, pos1) with the text [fulltext[pos0:pos1]], the code id being
    NULL when no code has the GUID of the CodeRef; and it appends to
    [annotation] one row with the memo exactly when there is no Coding
    child.  The inserts into [code_text] are not guarded: when one of the
    rows repeats the code, source, span and owner of a stored row or of an
    earlier one (two Coding children for one code), the call raises
    [IntegrityError]. *)
Theorem X10_text_selection_is_coding_or_annotation
    (us : list user) (cs : list code_ref) (fulltext : string) (fid : Z)
    (element : Xml.element) (db : tables) (p0 p1 : Z) (d : string) :
  Py.int (Xml.get element "startPosition") = Ok p0 ->
  Py.int (Xml.get element "endPosition") = Ok p1 ->
  get_or element "creationDateTime" "modifiedDateTime" = Some d ->
  Forall has_code_ref (Xml.getchildren element) ->
  let rows :=
    map (fun e =>
           {| tc_cid := code_id_of cs (code_ref_of e); tc_fid := fid;
              tc_seltext := slice fulltext (Some p0) (Some p1);
              tc_pos0 := p0; tc_pos1 := p1;
              tc_owner :=
                user_name_of us
                  (get_or element "creatingUser" "modifyingUser")
                  (Some "default");
              tc_memo := selection_memo element;
              tc_date := replace (replace d "T" " ") "Z" "" |})
        (filter is_coding (Xml.getchildren element)) in
  if Db.clash_free text_coding_clash (code_text db) rows then
    exists db',
      _load_codings_for_text us cs fulltext fid element db = Ok db'
      /\ code_text db' = (code_text db ++ rows)%list
      /\ annotation db'
         = (annotation db
            ++ if existsb is_coding (Xml.getchildren element) then []
               else [{| Db.an_fid := fid; Db.an_pos0 := p0; Db.an_pos1 := p1;
                        Db.an_memo := selection_memo element;
                        Db.an_owner :=
                          user_name_of us
                            (get_or element "creatingUser" "modifyingUser")
                            (Some "default");
                        Db.an_date := replace (replace d "T" " ") "Z" "" |}])%list
      /\ code_name db' = code_name db /\ code_av db' = code_av db
      /\ case_text db' = case_text db
  else
    _load_codings_for_text us cs fulltext fid element db
    = Raise IntegrityError.
Proof.
  intros H0 H1 Hd Hrefs rows. unfold _load_codings_for_text.
  rewrite H0, H1, Hd. cbn [bind date_of_stamp].
  rewrite text_coding_steps by exact Hrefs.
  cbn [tc_fid tc_seltext tc_pos0 tc_pos1 tc_owner tc_memo tc_date].
  fold rows.
  destruct (Db.clash_free text_coding_clash (code_text db) rows);
    cbn [bind]; [|reflexivity].
  destruct (append_code_text_rows rows db) as [A [B [C [D E]]]].
  set (db1 := fold_left append_code_text rows db) in *.
  cbv zeta in *.
  destruct (existsb is_coding (Xml.getchildren element)); cbn [negb].
  - exists db1. rewrite app_nil_r. repeat split; assumption.
  - eexists. split; [reflexivity|]. cbn. rewrite A, B, C, D, E.
    repeat split; reflexivity.
Qed.

(** X11: an audio or video selection does not need a date.  With integer
    [begin] and [end] and a CodeRef in every Coding child,
    [load_codings_for_audio_video] returns and appends to [code_av] one
    row for each Coding child, the code id being NULL when no code has the
    GUID; the date is the element's, and the clock's reading when the
    element has neither [creationDateTime] nor [modifiedDateTime]. *)
Theorem X11_av_selection_rows
    (now_date : string) (us : list user) (cs : list code_ref) (id_ : Z)
    (element : Xml.element) (db : tables) (b e : Z) :
  Py.int (Xml.get element "begin") = Ok b ->
  Py.int (Xml.get element "end") = Ok e ->
  Forall has_code_ref (Xml.getchildren element) ->
  exists db',
    load_codings_for_audio_video now_date us cs id_ element db = Ok db'
    /\ code_av db'
       = (code_av db
          ++ map (fun c =>
                    {| av_id := id_; av_pos0 := b; av_pos1 := e;
                       av_cid := code_id_of cs (code_ref_of c);
                       av_memo := av_memo_of element;
                       av_date :=
                         match get_or element "creationDateTime"
                                 "modifiedDateTime" with
                         | Some d => replace (replace d "T" " ") "Z" ""
                         | None => now_date
                         end;
                       av_owner :=
                         user_name_of us
                           (get_or element "creatingUser" "modifyingUser")
                           (Some "default") |})
                 (filter is_coding (Xml.getchildren element)))%list
    /\ code_text db' = code_text db /\ annotation db' = annotation db
    /\ code_name db' = code_name db /\ case_text db' = case_text db.
Proof.
  intros Hb He Hrefs. unfold load_codings_for_audio_video.
  rewrite Hb, He. cbn [bind].
  destruct (get_or element "creationDateTime" "modifiedDateTime") as [d|];
    cbn [date_of_stamp bind];
    rewrite av_coding_steps by exact Hrefs;
    cbn [av_id av_pos0 av_pos1 av_memo av_date av_owner];
    match goal with
    | |- context [fold_left insert_code_av ?rows db] =>
        destruct (insert_code_av_rows rows db) as [A [B [C [D E]]]];
        exists (fold_left insert_code_av rows db)
    end; cbv zeta in *; repeat split; assumption.
Qed.

(** X12: a PictureSelection needs a date.  When its four coordinates are
    integers and it has neither [creationDateTime] nor [modifiedDateTime],
    [_load_codings_for_picture] raises [AttributeError] before it reads a
    Coding child, and nothing is stored. *)
Theorem X12_picture_selection_without_date_raises
    (id_ : Z) (element : Xml.element) (st : importer) (x1 y1 x2 y2 : Z) :
  Py.int (Xml.get element "firstX") = Ok x1 ->
  Py.int (Xml.get element "firstY") = Ok y1 ->
  Py.int (Xml.get element "secondX") = Ok x2 ->
  Py.int (Xml.get element "secondY") = Ok y2 ->
  Xml.get element "creationDateTime" = None ->
  Xml.get element "modifiedDateTime" = None ->
  _load_codings_for_picture id_ element st = Raise AttributeError.
Proof.
  intros H1 H2 H3 H4 Hc Hm. unfold _load_codings_for_picture.
  rewrite H1, H2, H3, H4, Hc, Hm. reflexivity.
Qed.

Lemma X10_text_selection_is_coding_or_annotation_witness :
  exists db',
    _load_codings_for_text (users importer_example) known_codes
      "0123456789abcdefghij" 2 text_selection no_rows = Ok db'
    /\ map tc_cid (code_text db') = [Some 7]
    /\ map tc_seltext (code_text db') = ["34567"]
    /\ annotation db' = [].
Proof.
  assert (Hrefs : Forall (fun e : Xml.element =>
                            is_coding e = true -> Xml.getchildren e <> [])
                         (Xml.getchildren text_selection))
    by (repeat constructor; discriminate).
  pose proof (X10_text_selection_is_coding_or_annotation
                (users importer_example) known_codes "0123456789abcdefghij" 2
                text_selection no_rows 3 8 "2019-03-09T23:19:07Z"
                eq_refl eq_refl eq_refl Hrefs) as H.
  cbv zeta in H.
  match type of H with
  | if ?c then _ else _ => change c with true in H
  end.
  cbv iota in H. destruct H as [db' [E [T [A _]]]].
  exists db'. rewrite T, A. repeat split; [exact E | reflexivity..].
Defined.

Lemma X11_av_selection_rows_witness :
  exists db',
    load_codings_for_audio_video "2024-01-01 00:00:00"
      (users importer_example) known_codes 1 av_selection no_rows = Ok db'
    /\ map av_cid (code_av db') = [Some 7]
    /\ map av_date (code_av db') = ["2024-01-01 00:00:00"].
Proof.
  destruct (X11_av_selection_rows "2024-01-01 00:00:00"
              (users importer_example) known_codes 1 av_selection no_rows
              1000 2500)
    as [db' [E [T _]]]; try reflexivity.
  - repeat constructor; discriminate.
  - exists db'. rewrite T. repeat split; [exact E | reflexivity..].
Defined.

Lemma X12_picture_selection_without_date_raises_witness :
  _load_codings_for_picture 5 picture_selection_undated importer_example
  = Raise AttributeError.
Proof.
  apply (X12_picture_selection_without_date_raises 5 picture_selection_undated
           importer_example 10 20 110 70); reflexivity.
Defined.

End SelectionLoaderFacts.

Section CleanUpFacts.

Import RefiImport.
Import Selections.

(** The code id [cid] belongs to the code of one of the pairs of a case and
    a code that have the same GUID. *)
#[local] Abbreviation hit pairs cid :=
  (existsb
     (fun p : case_item * code_ref =>
        Xml.eq_opt (case_guid (fst p)) (code_guid (snd p))
        && (code_cid (snd p) =? cid))
     pairs).

#[local] Abbreviation hit_row pairs :=
  (fun r : text_coding_row =>
     match tc_cid r with Some c => hit pairs c | None => false end).












End CleanUpFacts.

(* ================================================================== *)
(** * [int(str(n))] *)

Section IntOfInt.

Lemma lstrip_head (c : ascii) (l : list ascii) :
  is_space c = false -> lstrip (c :: l) = c :: l.
Proof. intros H. cbn [lstrip]. now rewrite H. Qed.

Lemma digit_not_space (c : ascii) : is_digit c = true -> is_space c = false.
Proof.
  unfold is_digit, is_space. intros H. apply andb_true_iff in H.
  destruct H as [H1 H2]. apply Nat.leb_le in H1, H2.
  apply orb_false_iff. split; apply andb_false_iff; right;
    apply Nat.leb_gt; lia.
Qed.

Lemma strip_no_space (l : list ascii) :
  Forall (fun c => is_space c = false) l -> strip l = l.
Proof.
  intros H. unfold strip.
  assert (L : forall l', Forall (fun c => is_space c = false) l' -> lstrip l' = l').
  { intros [|c l'] H'; [reflexivity|]. inversion H'; subst. now apply lstrip_head. }
  rewrite (L l H), L, rev_involutive; [reflexivity|].
  apply Forall_rev. exact H.
Qed.

#[local] Abbreviation digits d :=
  (chars (DecimalString.NilEmpty.string_of_uint d)).

Lemma digits_are_digits (d : Decimal.uint) :
  Forall (fun c => is_digit c = true) (digits d).
Proof. induction d; cbn; constructor; auto. Qed.

Ltac digit_step IH :=
  cbn [DecimalString.NilEmpty.string_of_uint chars list_ascii_of_string
       digits_value Pos.of_uint_acc Pos.of_uint];
  change (is_digit _) with true; cbv iota;
  rewrite <- IH; f_equal; try reflexivity;
  match goal with
  | |- context [digit_val ?c] =>
      let v := eval vm_compute in (digit_val c) in
      change (digit_val c) with v
  end; lia.

Lemma digits_value_acc (d : Decimal.uint) :
  forall a : positive,
    digits_value true (Z.pos a) (digits d) = Some (Z.pos (Pos.of_uint_acc d a)).
Proof.
  induction d; intros a; [reflexivity | digit_step IHd ..].
Qed.

Lemma digits_value_zero (d : Decimal.uint) :
  forall b : bool,
    b = true \/ d <> Decimal.Nil ->
    digits_value b 0 (digits d) = Some (Z.of_N (Pos.of_uint d)).
Proof.
  induction d; intros b Hb;
    [destruct Hb as [->|Hb]; [reflexivity | contradiction] | ..].
  - cbn [DecimalString.NilEmpty.string_of_uint chars list_ascii_of_string
         digits_value Pos.of_uint].
    change (is_digit "0") with true. cbv iota.
    change (10 * 0 + digit_val "0") with 0. apply IHd. now left.
  - cbn [Z.of_N Pos.of_uint]. digit_step digits_value_acc.
  - cbn [Z.of_N Pos.of_uint]. digit_step digits_value_acc.
  - cbn [Z.of_N Pos.of_uint]. digit_step digits_value_acc.
  - cbn [Z.of_N Pos.of_uint]. digit_step digits_value_acc.
  - cbn [Z.of_N Pos.of_uint]. digit_step digits_value_acc.
  - cbn [Z.of_N Pos.of_uint]. digit_step digits_value_acc.
  - cbn [Z.of_N Pos.of_uint]. digit_step digits_value_acc.
  - cbn [Z.of_N Pos.of_uint]. digit_step digits_value_acc.
  - cbn [Z.of_N Pos.of_uint]. digit_step digits_value_acc.
Qed.

Lemma int_of_int (z : Z) : int_str (PyStr.of_int z) = Ok z.
Proof.
  unfold int_str, int_of_chars, PyStr.of_int.
  destruct z as [|p|p]; [reflexivity | |].
  - cbn [Z.to_int DecimalString.NilZero.string_of_int].
    pose proof (DecimalPos.Unsigned.to_uint_nonnil p) as Hn.
    pose proof (DecimalPos.Unsigned.of_to p) as Hp.
    pose proof (digits_are_digits (Pos.to_uint p)) as Hd.
    pose proof (digits_value_zero (Pos.to_uint p) false (or_intror Hn)) as Hv.
    unfold DecimalString.NilZero.string_of_uint.
    destruct (Pos.to_uint p) as [|d|d|d|d|d|d|d|d|d|d] eqn:E;
      [contradiction | ..];
      (rewrite strip_no_space;
       [| eapply Forall_impl; [|exact Hd]; exact digit_not_space]);
      cbn [DecimalString.NilEmpty.string_of_uint chars list_ascii_of_string];
      cbn [DecimalString.NilEmpty.string_of_uint chars list_ascii_of_string] in Hv;
      rewrite Hv, Hp; reflexivity.
  - cbn [Z.to_int DecimalString.NilZero.string_of_int].
    pose proof (DecimalPos.Unsigned.to_uint_nonnil p) as Hn.
    pose proof (DecimalPos.Unsigned.of_to p) as Hp.
    pose proof (digits_are_digits (Pos.to_uint p)) as Hd.
    pose proof (digits_value_zero (Pos.to_uint p) false (or_intror Hn)) as Hv.
    unfold DecimalString.NilZero.string_of_uint.
    destruct (Pos.to_uint p) as [|d|d|d|d|d|d|d|d|d|d] eqn:E;
      [contradiction | ..];
      (cbn [chars list_ascii_of_string]; rewrite strip_no_space;
       [| constructor; [reflexivity|];
          eapply Forall_impl; [|exact Hd]; exact digit_not_space]);
      fold (chars (DecimalString.NilEmpty.string_of_uint
                     ltac:(match goal with H : Pos.to_uint p = ?u |- _ => exact u end)));
      rewrite Hv, Hp; reflexivity.
Qed.

End IntOfInt.

(* ================================================================== *)
(** * Export: the SyncPoints and selections of a transcript *)

Section SyncFacts.

Import RefiExport.

(** The positions for which [get_transcript_syncpoints] makes a SyncPoint
    after the first: start and end of every row, in order. *)
#[local] Abbreviation row_positions results :=
  (flat_map (fun r : coded => [pos0 r; pos1 r]) results).

Lemma media_end_nonempty (tps : list Timepoints.time_point) :
  tps <> [] -> exists ms, media_end tps = Ok ms.
Proof.
  intros H. unfold media_end. destruct (rev tps) as [|t l] eqn:E.
  - exfalso. apply H. apply (f_equal (@rev _)) in E.
    now rewrite rev_involutive in E.
  - eauto.
Qed.

(** The loop over the rows draws two GUIDs for each row, in order. *)
Lemma sync_rows_returns (tps : list Timepoints.time_point) :
  tps <> [] ->
  forall (results : list coded) (sync_list : list sync_entry)
         (s s' : Guid.session) (gs : list string),
    Guid.create_guids (2 * List.length results) s = Some (gs, s') ->
    exists added,
      sync_rows tps results sync_list s = Some (Ok ((sync_list ++ added)%list, s'))
      /\ map sync_guid added = gs
      /\ map sync_position added = row_positions results.
Proof.
  intros Hne. induction results as [|r results IH]; intros sync_list s s' gs.
  - cbn. intros H. injection H as <- <-. exists []. rewrite app_nil_r. auto.
  - replace (2 * List.length (r :: results))%nat
      with (S (S (2 * List.length results))) by (cbn [List.length]; lia).
    cbn [Guid.create_guids sync_rows].
    destruct (Guid.create_guid s) as [[g1 s1]|]; [|discriminate].
    destruct (Guid.create_guid s1) as [[g2 s2]|]; [|discriminate].
    destruct (Guid.create_guids (2 * List.length results) s2)
      as [[gs' s3]|] eqn:E; [|discriminate].
    intros H. injection H as <- <-.
    assert (M : exists ms,
               (if msecs_at tps (pos1 r) =? 0 then media_end tps
                else Ok (msecs_at tps (pos1 r))) = Ok ms).
    { destruct (msecs_at tps (pos1 r) =? 0);
        [apply media_end_nonempty; exact Hne | eauto]. }
    destruct M as [ms ->].
    destruct (IH ((sync_list ++ [sync_point g1 (pos0 r) (msecs_at tps (pos0 r))])
                    ++ [sync_point g2 (pos1 r) ms])%list s2 s3 gs' E)
      as [added [R [G P]]].
    eexists (_ :: _ :: added). split; [|split].
    + rewrite R. rewrite <- !app_assoc. reflexivity.
    + cbn [map sync_guid sync_point]. now rewrite G.
    + cbn [map sync_position sync_point flat_map app]. now rewrite P.
Qed.

Lemma get_transcript_syncpoints_returns (duration : option Z)
    (media : Timepoints.media) (results : list coded) (s s' : Guid.session)
    (tps : list Timepoints.time_point) (gs : list string) :
  Timepoints.get_transcript_timepoints duration media = Ok tps ->
  tps <> [] ->
  Guid.create_guids (1 + 2 * List.length results) s = Some (gs, s') ->
  exists sync_list,
    get_transcript_syncpoints duration media results s
    = Some (Ok (sync_list, s'))
    /\ map sync_guid sync_list = gs
    /\ map sync_position sync_list = 0 :: row_positions results
    /\ NoDup gs.
Proof.
  intros Htps Hne Hg.
  pose proof (create_guids_fresh _ _ _ _ Hg) as [_ [Hnd _]].
  unfold get_transcript_syncpoints. rewrite Htps.
  cbn [Nat.add Guid.create_guids] in Hg.
  destruct (Guid.create_guid s) as [[g0 s0]|]; [|discriminate].
  destruct (Guid.create_guids (2 * List.length results) s0)
    as [[gs' s1]|] eqn:E; [|discriminate].
  injection Hg as <- <-.
  destruct (sync_rows_returns tps Hne results [sync_point g0 0 0] s0 s1 gs' E)
    as [added [R [G P]]].
  eexists. split; [exact R|]. cbn [app map sync_guid sync_position sync_point].
  rewrite G, P. auto.
Qed.

(** X14: with a transcript that has time points and enough fresh draws,
    [get_transcript_syncpoints] returns a list of one SyncPoint at position
    0 and then two for each coding, at its start and at its end, in the
    order of the rows; their GUIDs are those of the calls of [create_guid],
    all different. *)
Theorem X14_sync_list_has_two_points_per_coding (duration : option Z)
    (media : Timepoints.media) (results : list coded) (s s' : Guid.session)
    (tps : list Timepoints.time_point) (gs : list string) :
  Timepoints.get_transcript_timepoints duration media = Ok tps ->
  tps <> [] ->
  Guid.create_guids (1 + 2 * List.length results) s = Some (gs, s') ->
  exists sync_list,
    get_transcript_syncpoints duration media results s
    = Some (Ok (sync_list, s'))
    /\ map sync_guid sync_list = gs
    /\ map sync_position sync_list = 0 :: row_positions results
    /\ NoDup gs.
Proof. exact (get_transcript_syncpoints_returns duration media results s s' tps gs). Qed.

(** X15: a transcript with an empty text has no time points, and then
    [get_transcript_syncpoints] cannot give the end of a coding a time: the
    end falls back on [tps[-1]], and the call raises [IndexError] at the
    first row. *)
Theorem X15_empty_transcript_with_coding_raises (duration : option Z)
    (media : Timepoints.media) (r : coded) (results : list coded)
    (s s' : Guid.session) (gs : list string) :
  Timepoints.fulltext media = Some "" ->
  Guid.create_guids 2 s = Some (gs, s') ->
  get_transcript_syncpoints duration media (r :: results) s
  = Some (Raise IndexError).
Proof.
  intros Htext Hg. unfold get_transcript_syncpoints,
    Timepoints.get_transcript_timepoints. rewrite Htext. cbn [len_opt bind].
  change (len "" =? 0) with true. cbv iota.
  cbn [Guid.create_guids] in Hg.
  destruct (Guid.create_guid s) as [[g0 s0]|]; [|discriminate].
  destruct (Guid.create_guid s0) as [[g1 s1]|] eqn:E1; [|discriminate].
  cbn [sync_rows]. rewrite E1. reflexivity.
Qed.

Lemma X14_sync_list_has_two_points_per_coding_witness :
  exists sync_list s',
    get_transcript_syncpoints None media_example [coded_example] fresh_session
    = Some (Ok (sync_list, s'))
    /\ map sync_position sync_list = [0; 8; 13].
Proof.
  edestruct (X14_sync_list_has_two_points_per_coding None media_example
               [coded_example] fresh_session) as [sl [E [_ [P _]]]].
  - vm_compute. reflexivity.
  - discriminate.
  - vm_compute. reflexivity.
  - exists sl. eexists. split; [exact E | exact P].
Defined.

Lemma X15_empty_transcript_with_coding_raises_witness :
  get_transcript_syncpoints None media_empty [coded_example] fresh_session
  = Some (Raise IndexError).
Proof.
  eapply (X15_empty_transcript_with_coding_raises None media_empty
            coded_example [] fresh_session).
  - reflexivity.
  - vm_compute. reflexivity.
Defined.

End SyncFacts.

Section SelectionExportFacts.

Import RefiExport.

(** A SyncPoint dictionary of the import carries the GUID and the position
    of an entry of the export's [sync_list], the position as [str] writes
    it. *)
#[local] Abbreviation carries :=
  (fun (sp : RefiImport.syncpoint) (e : sync_entry) =>
     RefiImport.sp_guid sp = Some (sync_guid e)
     /\ RefiImport.sp_pos sp = Some (PyStr.of_int (sync_position e))).

Lemma Forall2_In_l {A B} (R : A -> B -> Prop) (l : list A) (l' : list B) :
  Forall2 R l l' -> Forall2 (fun a b => In a l /\ R a b) l l'.
Proof.
  induction 1 as [|a b l l' H F IH]; constructor.
  - split; [now left | exact H].
  - eapply Forall2_impl; [|exact IH]. cbv beta.
    intros x y [Hin Hr]. split; [now right | exact Hr].
Qed.

Lemma sync_guid_at_found (sync_list : list sync_entry) (p : Z) :
  In p (map sync_position sync_list) ->
  exists e, In e sync_list /\ sync_position e = p
            /\ sync_guid_at sync_list p = sync_guid e.
Proof.
  unfold sync_guid_at. induction sync_list as [|x l IH]; cbn [map In find].
  - contradiction.
  - intros H. destruct (sync_position x =? p) eqn:E.
    + exists x. apply Z.eqb_eq in E. auto.
    + destruct H as [H|H]; [apply Z.eqb_neq in E; contradiction|].
      destruct (IH H) as [e [Hin [Hp Hg]]]. exists e. auto.
Qed.

Lemma selection_rows_result (codes : list code_entry)
    (sync_list : list sync_entry) (results : list coded) :
  forall written s out s',
    selection_rows codes sync_list results written s = Some (out, s') ->
    exists added,
      out = (written ++ added)%list
      /\ Forall2 (fun r x =>
                    sel_from x = sync_guid_at sync_list (pos0 r)
                    /\ sel_to x = sync_guid_at sync_list (pos1 r)
                    /\ sel_code x = code_guid codes (cid r))
                 results added.
Proof.
  induction results as [|r results IH]; intros written s out s';
    cbn [selection_rows].
  - intros H. injection H as <- <-. exists []. rewrite app_nil_r. auto.
  - destruct (Guid.create_guid s) as [[g1 s1]|]; [|discriminate].
    destruct (Guid.create_guid s1) as [[g2 s2]|]; [|discriminate].
    intros H. apply IH in H. destruct H as [added [-> F]].
    eexists (_ :: added). split; [now rewrite <- app_assoc|].
    constructor; [cbn; auto | exact F].
Qed.

Lemma carried_others (sps : list RefiImport.syncpoint)
    (sync_list : list sync_entry) (g : string) :
  Forall2 carries sps sync_list ->
  ~ In g (map sync_guid sync_list) ->
  Forall (fun sp => Xml.eq_opt (Some g) (RefiImport.sp_guid sp) = false) sps.
Proof.
  induction 1 as [|sp x sps l [Hg _] F IH]; intros Hn; constructor.
  - rewrite Hg. cbn. apply String.eqb_neq. intros Heq.
    apply Hn. cbn [map]. left. now symmetry.
  - apply IH. intros Hin. apply Hn. cbn [map]. now right.
Qed.

(** In a list of import SyncPoints that carries a [sync_list] with distinct
    GUIDs, the entry for [e] is the only one with the GUID of [e]. *)
Lemma carried_last_match (sps : list RefiImport.syncpoint)
    (sync_list : list sync_entry) (e : sync_entry) :
  Forall2 carries sps sync_list ->
  NoDup (map sync_guid sync_list) ->
  In e sync_list ->
  exists sp,
    RefiImport.last_match (Some (sync_guid e)) sps sp
    /\ int (RefiImport.sp_pos sp) = Ok (sync_position e).
Proof.
  intros F. induction F as [|sp x sps l [Hg Hp] F IH]; cbn [map In].
  - contradiction.
  - intros Hnd Hin. inversion Hnd as [|? ? Hx Hnd']; subst.
    destruct Hin as [->|Hin].
    + exists sp. split.
      * exists [], sps. split; [reflexivity|]. split.
        { rewrite Hg. cbn. apply String.eqb_refl. }
        apply (carried_others sps l _ F Hx).
      * rewrite Hp. cbn [int]. apply int_of_int.
    + destruct (IH Hnd' Hin) as [sp' [[l1 [l2 [E [M N]]]] P]].
      exists sp'. split; [|exact P].
      exists (sp :: l1), l2. split; [now rewrite E|]. auto.
Qed.

Lemma carried_readable (sps : list RefiImport.syncpoint)
    (sync_list : list sync_entry) (g0 g1 : option string) :
  Forall2 carries sps sync_list ->
  Forall (RefiImport.readable g0 g1) sps.
Proof.
  induction 1 as [|sp x sps l [Hg Hp] F IH]; constructor; [|exact IH].
  intros _. rewrite Hp. eexists. cbn [int]. apply int_of_int.
Qed.

(** X16: what the export writes for a transcript, the import reads one
    character further on.  For SyncPoints and selections written by
    [get_transcript_syncpoints] and [get_transcript_selections] from the
    codings [results], the import's resolution of the [fromSyncPoint] and
    [toSyncPoint] of every selection succeeds and gives the start and the
    end of its coding plus one each. *)
Theorem X16_exported_selection_is_read_one_further
    (duration : option Z) (media : Timepoints.media) (results : list coded)
    (codes : list code_entry) (s s1 s2 : Guid.session)
    (sync_list : list sync_entry) (xml : string) (written : list selection)
    (sps : list RefiImport.syncpoint) :
  get_transcript_syncpoints duration media results s
  = Some (Ok (sync_list, s1)) ->
  get_transcript_selections codes media sync_list results s1
  = Some (xml, written, s2) ->
  Forall2 carries sps sync_list ->
  Forall2 (fun r x =>
             RefiImport.resolve_syncpoints sps
               (Some (sel_from x)) (Some (sel_to x))
             = Ok (pos0 r + 1, pos1 r + 1))
          results written.
Proof.
  intros Hsync Hsel Hcar.
  assert (Hshape : map sync_position sync_list = 0 :: flat_map (fun r => [pos0 r; pos1 r]) results
                   /\ NoDup (map sync_guid sync_list)).
  { revert Hsync. unfold get_transcript_syncpoints.
    destruct (Timepoints.get_transcript_timepoints duration media) as [tps|];
      [|discriminate].
    destruct (Guid.create_guid s) as [[g0 s0]|] eqn:E0; [|discriminate].
    intros H.
    assert (G : forall results sync_list0 s0 out s',
               sync_rows tps results sync_list0 s0 = Some (Ok (out, s')) ->
               NoDup (map sync_guid sync_list0) ->
               (forall g, In g (map sync_guid sync_list0) -> In g (Guid.guids s0)) ->
               map sync_position out
               = (map sync_position sync_list0
                  ++ flat_map (fun r => [pos0 r; pos1 r]) results)%list
               /\ NoDup (map sync_guid out)).
    { clear. induction results as [|r results IH];
        intros sync_list0 s0 out s'; cbn [sync_rows].
      - intros H. injection H as <- <-. cbn. rewrite app_nil_r. auto.
      - destruct (Guid.create_guid s0) as [[g1 s1]|] eqn:E1; [|discriminate].
        destruct (if msecs_at tps (pos1 r) =? 0 then media_end tps
                  else Ok (msecs_at tps (pos1 r))) as [ms|]; [|discriminate].
        destruct (Guid.create_guid s1) as [[g2 s2]|] eqn:E2; [|discriminate].
        intros H Hnd Hin.
        apply create_guid_fresh in E1. destruct E1 as [N1 [G1 _]].
        apply create_guid_fresh in E2. destruct E2 as [N2 [G2 _]].
        apply IH in H.
        + destruct H as [P Q]. split; [|exact Q].
          rewrite P, !map_app, <- !app_assoc. reflexivity.
        + rewrite !map_app. cbn [map sync_guid sync_point].
          rewrite <- app_assoc. cbn [app].
          apply NoDup_app; [exact Hnd | |].
          * constructor; [|constructor; [intros []|constructor]].
            intros [Heq|[]]. apply N2. rewrite G1, <- Heq.
            apply in_or_app. right. now left.
          * intros g Hg [<-|[<-|[]]].
            { apply N1. now apply Hin. }
            { apply N2. rewrite G1. apply in_or_app. left. now apply Hin. }
        + intros g. rewrite !map_app, !in_app_iff. cbn [map sync_guid sync_point In].
          rewrite G2, G1, !in_app_iff. cbn [In].
          intros [[Hg|[<-|[]]]|[<-|[]]]; auto. }
    apply G in H.
    - exact H.
    - cbn. constructor; [intros []|constructor].
    - cbn. intros g [<-|[]]. apply create_guid_fresh in E0.
      destruct E0 as [_ [G0 _]]. rewrite G0. apply in_or_app. right. now left. }
  destruct Hshape as [Hpos Hnd].
  unfold get_transcript_selections in Hsel.
  destruct (selection_rows codes sync_list results [] s1) as [[w s3]|] eqn:E;
    [|discriminate].
  injection Hsel as _ <- _.
  apply selection_rows_result in E. destruct E as [added [-> F]].
  cbn [app]. apply Forall2_In_l in F.
  eapply Forall2_impl; [|exact F]. cbv beta.
  intros r x [Hin [Hfrom [Hto _]]].
  assert (H0 : In (pos0 r) (map sync_position sync_list)).
  { rewrite Hpos. right. apply in_flat_map. exists r. split; [exact Hin|now left]. }
  assert (H1 : In (pos1 r) (map sync_position sync_list)).
  { rewrite Hpos. right. apply in_flat_map. exists r.
    split; [exact Hin|right; now left]. }
  destruct (sync_guid_at_found sync_list _ H0) as [e0 [I0 [P0 G0]]].
  destruct (sync_guid_at_found sync_list _ H1) as [e1 [I1 [P1 G1]]].
  destruct (carried_last_match sps sync_list e0 Hcar Hnd I0) as [sp0 [M0 R0]].
  destruct (carried_last_match sps sync_list e1 Hcar Hnd I1) as [sp1 [M1 R1]].
  rewrite Hfrom, Hto, G0, G1, <- P0, <- P1.
  apply (resolve_last sps _ _ sp0 sp1); auto.
  eapply carried_readable. exact Hcar.
Qed.

Lemma X16_exported_selection_is_read_one_further_witness :
  exists sync_list s1 xml written s2,
    get_transcript_syncpoints None media_example [coded_example] fresh_session
    = Some (Ok (sync_list, s1))
    /\ get_transcript_selections export_codes media_example sync_list
         [coded_example] s1
       = Some (xml, written, s2)
    /\ Forall2 (fun r x =>
                  RefiImport.resolve_syncpoints
                    (map (fun e =>
                            {| RefiImport.sp_guid := Some (sync_guid e);
                               RefiImport.sp_pos :=
                                 Some (PyStr.of_int (sync_position e));
                               RefiImport.sp_timestamp := None |})
                         sync_list)
                    (Some (sel_from x)) (Some (sel_to x))
                  = Ok (pos0 r + 1, pos1 r + 1))
               [coded_example] written.
Proof.
  do 5 eexists.
  split; [vm_compute; reflexivity|].
  split; [vm_compute; reflexivity|].
  eapply (X16_exported_selection_is_read_one_further None media_example
            [coded_example] export_codes fresh_session).
  - vm_compute. reflexivity.
  - vm_compute. reflexivity.
  - cbn [map]. repeat constructor.
Defined.

End SelectionExportFacts.

(* ================================================================== *)
(** * Export: the anchors of the time points *)

Section AnchorFacts.

Import Timepoints.

Lemma In_insert_by_key {B} (x y : Z * B) (l : list (Z * B)) :
  In y (insert_by_key x l) <-> y = x \/ In y l.
Proof.
  induction l as [|z l IH]; cbn [insert_by_key In]; [intuition congruence|].
  destruct (fst z <? fst x); cbn [In]; [rewrite IH|]; intuition congruence.
Qed.

Lemma In_sorted_by_key {B} (y : Z * B) (l : list (Z * B)) :
  In y (sorted_by_key l) <-> In y l.
Proof.
  unfold sorted_by_key. induction l as [|x l IH]; cbn [fold_right In];
    [tauto|].
  rewrite In_insert_by_key, IH. intuition congruence.
Qed.

Lemma scan_extends (p : Re.regex) (text : string)
    (msecs_of : string -> result Z) (time_pos out : list time_point) :
  scan p text msecs_of time_pos = Ok out ->
  exists more, out = (time_pos ++ more)%list.
Proof.
  unfold scan. apply (for_each_invariant
           (fun acc => exists more, acc = (time_pos ++ more)%list)).
  - intros acc m acc' _ [more ->] H. unfold except_KeyError_pass in H.
    destruct (msecs_of (snd m)) as [ms|e]; cbn [bind] in H.
    + injection H as <-. eexists. now rewrite <- app_assoc.
    + destruct e; try discriminate. injection H as <-. now exists more.
  - exists []. now rewrite app_nil_r.
Qed.

Lemma scan_hhmmss_sss_extends (text : string) (time_pos out : list time_point) :
  scan_hhmmss_sss text time_pos = Ok out ->
  exists more, out = (time_pos ++ more)%list.
Proof.
  unfold scan_hhmmss_sss. apply (for_each_invariant
           (fun acc => exists more, acc = (time_pos ++ more)%list)).
  - intros acc m acc' _ [more ->]. cbv zeta.
    repeat match goal with
           | |- context [bind ?x _] =>
               destruct x; cbn [bind]; [|discriminate]
           end.
    unfold except_KeyError_pass.
    repeat match goal with
           | |- context [bind ?x _] =>
               destruct x as [?|[]]; cbn [bind]; try discriminate
           end;
      intros H; injection H as <-;
      solve [eexists; now rewrite <- app_assoc | now exists more].
  - exists []. now rewrite app_nil_r.
Qed.

Lemma scan_srt_extends (text : string) (time_pos out : list time_point) :
  scan_srt text time_pos = Ok out ->
  exists more, out = (time_pos ++ more)%list.
Proof.
  unfold scan_srt. apply (for_each_invariant
           (fun acc => exists more, acc = (time_pos ++ more)%list)).
  - intros acc m acc' _ [more ->]. cbv zeta.
    repeat match goal with
           | |- context [bind ?x _] =>
               destruct x; cbn [bind]; [|discriminate]
           end.
    unfold except_KeyError_pass.
    repeat match goal with
           | |- context [bind ?x _] =>
               destruct x as [?|[]]; cbn [bind]; try discriminate
           end;
      intros H; injection H as <-;
      solve [eexists; now rewrite <- app_assoc | now exists more].
  - exists []. now rewrite app_nil_r.
Qed.

(** X17: for a transcript with a text that is not empty, the list that
    [get_transcript_timepoints] returns is in ascending order of position
    and holds the two anchors: position 0 at 0 milliseconds, and the last
    character position at the media length. *)
Theorem X17_time_points_hold_both_anchors (duration : option Z) (m : media)
    (text : string) (out : list time_point) :
  fulltext m = Some text -> text <> "" ->
  get_transcript_timepoints duration m = Ok out ->
  keys_ascending out /\ In (0, 0) out
  /\ In (len text - 1, media_length duration) out.
Proof.
  intros Htext Hne Hout. split.
  { exact (get_transcript_timepoints_ascending duration m out Hout). }
  revert Hout. unfold get_transcript_timepoints. rewrite Htext.
  cbn [len_opt bind].
  destruct (len text =? 0) eqn:E.
  { exfalso. apply Hne. apply Z.eqb_eq in E. unfold len in E.
    destruct text; [reflexivity | discriminate]. }
  destruct (scan Re.mmss1 text _ [(0, 0)]) as [t1|] eqn:S1; cbn [bind];
    [|discriminate].
  destruct (scan Re.hhmmss1 text _ t1) as [t2|] eqn:S2; cbn [bind];
    [|discriminate].
  destruct (scan Re.mmss2 text _ t2) as [t3|] eqn:S3; cbn [bind];
    [|discriminate].
  destruct (scan Re.hhmmss2 text _ t3) as [t4|] eqn:S4; cbn [bind];
    [|discriminate].
  destruct (scan_hhmmss_sss text t4) as [t5|] eqn:S5; cbn [bind];
    [|discriminate].
  destruct (scan_srt text t5) as [t6|] eqn:S6; cbn [bind]; [|discriminate].
  intros H. injection H as <-.
  apply scan_extends in S1, S2, S3, S4.
  apply scan_hhmmss_sss_extends in S5. apply scan_srt_extends in S6.
  destruct S1 as [m1 ->], S2 as [m2 ->], S3 as [m3 ->], S4 as [m4 ->],
           S5 as [m5 ->], S6 as [m6 ->].
  rewrite !In_sorted_by_key. split.
  - rewrite <- !app_assoc. cbn [app]. now left.
  - apply in_or_app. right. now left.
Qed.

Lemma X17_time_points_hold_both_anchors_witness :
  exists out,
    get_transcript_timepoints None media_example = Ok out
    /\ keys_ascending out /\ In (0, 0) out
    /\ In (len transcript_text - 1, media_length None) out.
Proof.
  eexists. split; [vm_compute; reflexivity|].
  apply (X17_time_points_hold_both_anchors None media_example
           transcript_text);
    [reflexivity | discriminate | vm_compute; reflexivity].
Defined.

End AnchorFacts.

(* ================================================================== *)
(** * Import: the flush of the staged file variables *)

Section FlushFacts.

Import RefiImport.

(** The staged values of the source [s]. *)
#[local] Abbreviation staged_for s vars :=
  (filter (fun v => Xml.eq_opt (fv_file_guid v) (source_guid s)) vars).

(** The name under the key ['name'], where the dictionary has the key. *)
#[local] Abbreviation name_of v :=
  (match fv_name v with Some n => n | None => None end).

Lemma with_conn_file_vars {A} (body : importer -> A -> result importer)
    (l : list A) :
  (forall st x st', body st x = Ok st' -> file_vars st' = file_vars st) ->
  forall st st', for_each l body st = Ok st' -> file_vars st' = file_vars st.
Proof.
  intros H st st' E.
  refine (for_each_invariant (fun s => file_vars s = file_vars st) l body
            _ st st' eq_refl E).
  intros acc x acc' _ Ha Eb. rewrite (H _ _ _ Eb). exact Ha.
Qed.

(** The exceptions of a loop are those of its steps. *)
Lemma for_each_exn {A S} (E : exn -> Prop) (l : list A)
    (body : S -> A -> result S) :
  (forall s x e, body s x = Raise e -> E e) ->
  forall s e, for_each l body s = Raise e -> E e.
Proof.
  intros H. induction l as [|x l IH]; intros s e; cbn [for_each];
    [discriminate|].
  destruct (body s x) as [s'|e'] eqn:Eb; cbn [bind].
  - apply IH.
  - intros R. injection R as <-. exact (H _ _ _ Eb).
Qed.

(** The loop [for v in self.file_vars] for the source [s]. *)
Lemma flush_source (now_date : string) (owner : importer) (s : source)
    (vars : list file_var) :
  Forall (fun v => Xml.eq_opt (fv_file_guid v) (source_guid s) = true ->
                   fv_name v <> None) vars ->
  forall st,
    codername st = codername owner ->
    let rows :=
      map (fun v => file_attribute now_date owner s (name_of v) v)
          (staged_for s vars) in
    for_each vars
      (fun st v =>
         if Xml.eq_opt (fv_file_guid v) (source_guid s) then
           name <- name_key v ;;
           c <- or_raise
                  (Db.insert_attribute (conn st)
                     {| Db.at_name := name; Db.at_attr_type := "file";
                        Db.at_value := fv_value v;
                        Db.at_id := Some (source_id s);
                        Db.at_date := now_date;
                        Db.at_owner := codername st |})
                  IntegrityError ;;
           Ok (with_conn st c)
         else Ok st)
      st
    = if Db.clash_free Db.attribute_clash (Db.attribute (conn st)) rows
      then Ok (fold_left
                 (fun st r => with_conn st (Db.append_attribute (conn st) r))
                 rows st)
      else Raise IntegrityError.
Proof.
  intros Hvars st Ho rows. subst rows.
  rewrite (insert_loop (fun s => Db.attribute (conn s)) Db.attribute_clash
             (fun s r => with_conn s (Db.append_attribute (conn s) r))
             (fun v =>
                if Xml.eq_opt (fv_file_guid v) (source_guid s)
                then [file_attribute now_date owner s (name_of v) v] else [])
             _ (fun s => codername s = codername owner));
    [| reflexivity | auto | | exact Ho].
  - rewrite flat_map_filter. reflexivity.
  - intros st0 v Hv Hst0.
    pose proof (proj1 (Forall_forall _ _) Hvars v Hv) as Hn. cbv beta in Hn.
    destruct (Xml.eq_opt (fv_file_guid v) (source_guid s)); [|reflexivity].
    unfold name_key. destruct (fv_name v) as [n|]; [|now elim Hn].
    cbn [bind Db.clash_free fold_left]. unfold Db.insert_attribute.
    rewrite andb_true_r. unfold file_attribute. rewrite Hst0.
    destruct (existsb _ _); reflexivity.
Qed.

Lemma fill_file_attribute_values_result (now_date : string) (st : importer) :
  (forall s v, In s (sources st) -> In v (file_vars st) ->
               Xml.eq_opt (fv_file_guid v) (source_guid s) = true ->
               fv_name v <> None) ->
  let rows :=
    flat_map
      (fun s => map (fun v => file_attribute now_date st s (name_of v) v)
                    (staged_for s (file_vars st)))
      (sources st) in
  fill_file_attribute_values now_date st
  = if Db.clash_free Db.attribute_clash (Db.attribute (conn st)) rows
    then Ok (fold_left
               (fun st r => with_conn st (Db.append_attribute (conn st) r))
               rows st)
    else Raise IntegrityError.
Proof.
  intros H rows. subst rows. unfold fill_file_attribute_values.
  apply (insert_loop (fun s => Db.attribute (conn s)) Db.attribute_clash
           (fun s r => with_conn s (Db.append_attribute (conn s) r))
           (fun s => map (fun v => file_attribute now_date st s (name_of v) v)
                         (staged_for s (file_vars st)))
           _ (fun s => codername s = codername st
                       /\ file_vars s = file_vars st));
    [reflexivity | auto | | auto].
  intros st0 s Hs [Ho Hf]. rewrite Hf.
  apply (flush_source now_date st s (file_vars st)); [|exact Ho].
  apply Forall_forall. intros v Hv. now apply H.
Qed.

(** X18: when every staged value that belongs to a loaded source has its
    ['name'] key, [fill_file_attribute_values] inserts into [attribute],
    source by source in the order of [self.sources], one row for each
    staged value with the GUID of the source: scoped [file], on the id of
    the source, under the staged name and value.  The inserts are not
    guarded: when one of these rows has the name and the id of a stored
    [file] row or of an earlier one (two values of one variable for a
    source), the call raises [IntegrityError]; otherwise all rows are
    stored and nothing else changes. *)
Theorem X18_flush_gives_a_row_per_staged_value (now_date : string)
    (st : importer) :
  (forall s v, In s (sources st) -> In v (file_vars st) ->
               Xml.eq_opt (fv_file_guid v) (source_guid s) = true ->
               fv_name v <> None) ->
  let rows :=
    flat_map
      (fun s => map (fun v => file_attribute now_date st s (name_of v) v)
                    (staged_for s (file_vars st)))
      (sources st) in
  if Db.clash_free Db.attribute_clash (Db.attribute (conn st)) rows then
    exists st',
      fill_file_attribute_values now_date st = Ok st'
      /\ Db.attribute (conn st') = (Db.attribute (conn st) ++ rows)%list
      /\ Db.attribute_type (conn st') = Db.attribute_type (conn st)
      /\ Db.cases (conn st') = Db.cases (conn st)
      /\ file_vars st' = file_vars st /\ sources st' = sources st
  else fill_file_attribute_values now_date st = Raise IntegrityError.
Proof.
  intros H rows. rewrite (fill_file_attribute_values_result now_date st H).
  fold rows.
  destruct (Db.clash_free Db.attribute_clash (Db.attribute (conn st)) rows);
    [|reflexivity].
  eexists. split; [reflexivity|].
  destruct (append_attribute_rows rows st)
    as [A [T [C [_ [_ [S [_ [F _]]]]]]]].
  cbv zeta in *. auto.
Qed.

(** X19: when a staged value that belongs to a loaded source has no
    ['name'] key, [fill_file_attribute_values] does not return: it raises
    [KeyError] at that value, unless an insert before it has raised
    [IntegrityError].  Either way the import stops there. *)
Theorem X19_flush_raises_on_a_nameless_value (now_date : string)
    (st : importer) (s : source) (v : file_var) :
  In s (sources st) -> In v (file_vars st) ->
  Xml.eq_opt (fv_file_guid v) (source_guid s) = true ->
  fv_name v = None ->
  exists e,
    fill_file_attribute_values now_date st = Raise e
    /\ (e = KeyError \/ e = IntegrityError).
Proof.
  intros Hs Hv Hm Hn. unfold fill_file_attribute_values.
  set (inner := fun (s' : source) (st2 : importer) (v0 : file_var) =>
         if Xml.eq_opt (fv_file_guid v0) (source_guid s') then
           name <- name_key v0 ;;
           c <- or_raise
                  (Db.insert_attribute (conn st2)
                     {| Db.at_name := name; Db.at_attr_type := "file";
                        Db.at_value := fv_value v0;
                        Db.at_id := Some (source_id s');
                        Db.at_date := now_date;
                        Db.at_owner := codername st2 |})
                  IntegrityError ;;
           Ok (with_conn st2 c)
         else Ok st2).
  assert (Hexn : forall s' st2 v0 e,
             inner s' st2 v0 = Raise e -> e = KeyError \/ e = IntegrityError).
  { intros s' st2 v0 e. unfold inner.
    destruct (Xml.eq_opt (fv_file_guid v0) (source_guid s')); [|discriminate].
    unfold name_key. destruct (fv_name v0); cbn [bind];
      [|intros R; left; congruence].
    destruct (Db.insert_attribute _ _); cbn [or_raise bind]; [discriminate|].
    intros R. right. congruence. }
  assert (Hkeep : forall s' st2 v0 st3,
             inner s' st2 v0 = Ok st3 -> file_vars st3 = file_vars st2).
  { intros s' st2 v0 st3. unfold inner.
    destruct (Xml.eq_opt (fv_file_guid v0) (source_guid s'));
      [|intros R; injection R as R; now subst].
    unfold name_key. destruct (fv_name v0); cbn [bind]; [|discriminate].
    destruct (Db.insert_attribute _ _); cbn [or_raise bind]; [|discriminate].
    intros R. injection R as R. now subst. }
  change (exists e,
            for_each (sources st)
              (fun st1 s' => for_each (file_vars st1) (inner s') st1) st
            = Raise e /\ (e = KeyError \/ e = IntegrityError)).
  apply (for_each_raises (fun e => e = KeyError \/ e = IntegrityError)
           (fun st1 => file_vars st1 = file_vars st)); [| | |reflexivity].
  - intros st1 s' st2 _ Hf E.
    rewrite (with_conn_file_vars (inner s') _ (Hkeep s') _ _ E). exact Hf.
  - intros st1 s' e _ _ E.
    exact (for_each_exn _ _ _ (Hexn s') _ _ E).
  - exists s. split; [exact Hs|]. intros st1 Hf. rewrite Hf.
    destruct (for_each_raises (fun e => e = KeyError \/ e = IntegrityError)
                (fun _ => True) (file_vars st) (inner s)) with (s := st1)
      as [e [He _]]; [auto | | | exact I | exists e; exact He].
    + intros st2 v0 e _ _. apply Hexn.
    + exists v. split; [exact Hv|]. intros st2 _. exists KeyError.
      unfold inner. rewrite Hm. unfold name_key. rewrite Hn. reflexivity.
Qed.

Lemma X18_flush_gives_a_row_per_staged_value_witness :
  exists st',
    fill_file_attribute_values "2024-01-01 00:00:00"
      (staged_importer (Some (Some "Age")) "34") = Ok st'
    /\ map Db.at_name (Db.attribute (conn st')) = [Some "Age"]
    /\ map Db.at_id (Db.attribute (conn st')) = [Some 5].
Proof.
  assert (Hn : forall s v,
             In s (sources (staged_importer (Some (Some "Age")) "34")) ->
             In v (file_vars (staged_importer (Some (Some "Age")) "34")) ->
             Xml.eq_opt (fv_file_guid v) (source_guid s) = true ->
             fv_name v <> None)
    by (intros s v _ [<-|[]] _; discriminate).
  pose proof (X18_flush_gives_a_row_per_staged_value "2024-01-01 00:00:00"
                (staged_importer (Some (Some "Age")) "34") Hn) as H.
  cbv zeta in H.
  match type of H with
  | if ?c then _ else _ => change c with true in H
  end.
  cbv iota in H. destruct H as [st' [E [A _]]].
  exists st'. rewrite A. repeat split; [exact E | reflexivity..].
Defined.

Lemma X19_flush_raises_on_a_nameless_value_witness :
  exists e,
    fill_file_attribute_values "2024-01-01 00:00:00"
      (staged_importer None "34") = Raise e
    /\ (e = KeyError \/ e = IntegrityError).
Proof.
  eapply (X19_flush_raises_on_a_nameless_value "2024-01-01 00:00:00"
            (staged_importer None "34"));
    [left; reflexivity | left; reflexivity | reflexivity | reflexivity].
Defined.

Lemma flat_map_if {A B} (p : A -> bool) (f : A -> list B) (l : list A) :
  flat_map (fun x => if p x then f x else []) l = flat_map f (filter p l).
Proof.
  induction l as [|x l IH]; cbn; [reflexivity|].
  destruct (p x); cbn; now rewrite IH.
Qed.

(** What C6 says, for a Case whose two VariableRefs name declared
    variables and whose SourceRef names one loaded source: the two values
    are staged, and the flush inserts two rows of scope [file] on the id of
    the source when they are the values of two variables that the source
    has no value of yet; then [parse_cases] makes no case of the element.
    When the two rows have one name, or the source has such a value, the
    flush raises [IntegrityError]. *)
Lemma nameless_case_gives_two_file_attributes
    (now_date : string) (e_case sr vv1 vv2 : Xml.element) (g : string)
    (s : source) (n1 n2 : option string) (st : importer) :
  Xml.get e_case "name" = None ->
  filter is_source_ref (Xml.getchildren e_case) = [sr] ->
  Xml.get sr "targetGUID" = Some g ->
  filter is_variable_value (Xml.getchildren e_case) = [vv1; vv2] ->
  first_variable_name (variables st) (fst (variable_ref_and_value vv1)) = Some n1 ->
  first_variable_name (variables st) (fst (variable_ref_and_value vv2)) = Some n2 ->
  filter (fun s => Xml.eq_opt (Some g) (source_guid s)) (sources st) = [s] ->
  file_vars st = [] ->
  let r1 := file_attribute now_date st s n1 (staged st (Some g) vv1) in
  let r2 := file_attribute now_date st s n2 (staged st (Some g) vv2) in
  (Db.at_attr_type r1 = "file" /\ Db.at_attr_type r2 = "file"
   /\ Db.at_id r1 = Some (source_id s) /\ Db.at_id r2 = Some (source_id s)
   /\ Db.at_name r1 = n1 /\ Db.at_name r2 = n2
   /\ Db.at_value r1 = snd (variable_ref_and_value vv1)
   /\ Db.at_value r2 = snd (variable_ref_and_value vv2))
  /\ if Db.clash_free Db.attribute_clash (Db.attribute (conn st)) [r1; r2]
     then
       exists st',
         fill_file_attribute_values now_date
           (parse_case_for_file_variables e_case st) = Ok st'
         /\ Db.attribute (conn st') = (Db.attribute (conn st) ++ [r1; r2])%list
         /\ Db.cases (conn st') = Db.cases (conn st)
         /\ forall count,
              parse_case now_date (st', count) e_case = Ok (st', count)
     else
       fill_file_attribute_values now_date
         (parse_case_for_file_variables e_case st) = Raise IntegrityError.
Proof.
  intros Hname Hsr Hg Hvv Hn1 Hn2 Hs Hfv r1 r2.
  split; [repeat split|].
  destruct (parse_case_for_file_variables_stages e_case sr g st Hname Hsr Hg)
    as [F [C [S [V [N K]]]]].
  rewrite Hvv, Hfv in F. cbn [map app] in F.
  set (st0 := parse_case_for_file_variables e_case st) in *.
  assert (Hnames : forall s' v, In s' (sources st0) -> In v (file_vars st0) ->
                     Xml.eq_opt (fv_file_guid v) (source_guid s') = true ->
                     fv_name v <> None).
  { intros s' v _ Hv _. rewrite F in Hv.
    destruct Hv as [<-|[<-|[]]]; unfold staged; cbn [fv_name]; congruence. }
  rewrite (fill_file_attribute_values_result now_date st0 Hnames).
  assert (R : flat_map
                (fun s' => map (fun v => file_attribute now_date st0 s' (name_of v) v)
                               (staged_for s' (file_vars st0)))
                (sources st0)
              = [r1; r2]).
  { rewrite F, S.
    rewrite (flat_map_ext _
               (fun s' => if Xml.eq_opt (Some g) (source_guid s')
                          then [file_attribute now_date st0 s' n1
                                  (staged st (Some g) vv1);
                                file_attribute now_date st0 s' n2
                                  (staged st (Some g) vv2)]
                          else [])).
    - rewrite flat_map_if, Hs. cbn [flat_map app]. unfold file_attribute.
      rewrite N. reflexivity.
    - intros s'. cbn [filter staged fv_file_guid fv_name].
      destruct (Xml.eq_opt (Some g) (source_guid s')); [|reflexivity].
      cbn [map fv_name staged]. rewrite Hn1, Hn2. reflexivity. }
  rewrite R, C.
  destruct (Db.clash_free Db.attribute_clash (Db.attribute (conn st)) [r1; r2]);
    [|reflexivity].
  eexists. split; [reflexivity|].
  destruct (append_attribute_rows [r1; r2] st0) as [A [_ [Cs _]]].
  cbv zeta in *. rewrite A, Cs, C. split; [reflexivity|].
  split; [reflexivity|].
  intros count. apply parse_case_nameless. exact Hname.
Qed.

End FlushFacts.

(* ================================================================== *)
(** * Import: the path of a source *)

Section PathFacts.

Import RefiImport.

Lemma starts_with_app (p l : list ascii) : PyStr.starts_with p (p ++ l) = true.
Proof.
  induction p as [|c p IH]; cbn [PyStr.starts_with app]; [reflexivity|].
  now rewrite Ascii.eqb_refl, IH.
Qed.

Lemma split_from_skip (sep q p cur : list ascii) :
  PyStr.split_from sep (List.length q) cur (q ++ p)
  = PyStr.split_from sep 0 cur p.
Proof.
  induction q as [|c q IH]; cbn [List.length app PyStr.split_from];
    [destruct p; reflexivity | exact IH].
Qed.

Lemma find_from_absent (sep : list ascii) :
  forall (l cur : list ascii) (pos : Z),
    0 <= pos -> PyStr.find_from sep pos l = -1 ->
    PyStr.split_from sep 0 cur l = [str (rev cur ++ l)].
Proof.
  induction l as [|c l IH]; intros cur pos Hpos; cbn [PyStr.find_from PyStr.split_from].
  - now rewrite app_nil_r.
  - destruct (PyStr.starts_with sep (c :: l)); [lia|].
    intros H. rewrite (IH (c :: cur) (pos + 1)) by (lia || exact H).
    cbn [rev]. now rewrite <- app_assoc.
Qed.

(** [(sep + p).split(sep)[1]] is [p] when [sep] does not occur in [p]. *)
Lemma after_prefix (sep p : string) :
  sep <> "" -> PyStr.absent sep p ->
  index (PyStr.split (sep ++ p) sep) 1 = Ok p.
Proof.
  intros Hne Habs. unfold PyStr.split. rewrite chars_app.
  destruct (chars sep) as [|c q] eqn:E.
  { exfalso. apply Hne. rewrite <- (str_chars sep), E. reflexivity. }
  cbn [app PyStr.split_from].
  replace (PyStr.starts_with (c :: q) (c :: (q ++ chars p)%list)) with true
    by (symmetry; apply (starts_with_app (c :: q))).
  cbn [List.length Nat.sub]. rewrite Nat.sub_0_r, split_from_skip.
  unfold PyStr.absent, PyStr.find in Habs. rewrite E in Habs.
  rewrite (find_from_absent (c :: q) (chars p) [] 0) by (lia || exact Habs).
  cbn [index nth_error rev app]. now rewrite str_chars.
Qed.

Lemma find_prefix (sep p : string) : PyStr.find (sep ++ p) sep = 0.
Proof.
  unfold PyStr.find. rewrite chars_app.
  destruct (chars sep ++ chars p)%list eqn:E; cbn [PyStr.find_from];
    rewrite <- E, starts_with_app; reflexivity.
Qed.

Lemma find_from_not_here (sub l : list ascii) (pos : Z) :
  PyStr.starts_with sub l = false ->
  PyStr.find_from sub pos l = -1 \/ pos < PyStr.find_from sub pos l.
Proof.
  intros H.
  assert (G : forall l pos, PyStr.find_from sub pos l = -1
                            \/ pos <= PyStr.find_from sub pos l).
  { clear. induction l as [|c l IH]; intros pos; cbn [PyStr.find_from].
    - destruct (PyStr.starts_with sub []); [right; lia | now left].
    - destruct (PyStr.starts_with sub (c :: l)); [right; lia|].
      destruct (IH (pos + 1)) as [E|E]; [now left | right; lia]. }
  destruct l as [|c l]; cbn [PyStr.find_from]; rewrite H; [now left|].
  destruct (G l (pos + 1)) as [E|E]; [now left | right; lia].
Qed.

Lemma find_from_shift (sub l : list ascii) (pos pos' : Z) :
  0 <= pos -> 0 <= pos' ->
  PyStr.find_from sub pos l = -1 -> PyStr.find_from sub pos' l = -1.
Proof.
  revert pos pos'. induction l as [|c l IH]; intros pos pos' H H';
    cbn [PyStr.find_from].
  - destruct (PyStr.starts_with sub []); [lia | reflexivity].
  - destruct (PyStr.starts_with sub (c :: l)); [lia|].
    apply IH; lia.
Qed.

Lemma find_other (p sub : string) :
  PyStr.starts_with (chars sub) (chars p) = false ->
  (PyStr.find p sub =? 0) = false.
Proof.
  intros H. unfold PyStr.find.
  destruct (find_from_not_here (chars sub) (chars p) 0 H) as [E|E];
    apply Z.eqb_neq; lia.
Qed.

(** X20: a source under [absolute://] keeps its path.  When the [path]
    attribute is [absolute://] and a rest in which [absolute://] does not
    occur again, the helper returns the rest as the source path, with the
    path type [absolute]. *)
Theorem X20_absolute_path_is_kept (now_stamp : string)
    (contents : list string) (folder_name : string) (base_path : option string)
    (element : Xml.element) (st : importer) (p : string) :
  Xml.get element "path" = Some ("absolute://" ++ p) ->
  PyStr.absent "absolute://" p ->
  exists name creating_user create_date,
    name_creating_user_create_date_source_path_helper now_stamp contents
      folder_name base_path element st
    = Ok (name, creating_user, create_date, p, "absolute").
Proof.
  intros Hpath Habs.
  unfold name_creating_user_create_date_source_path_helper.
  rewrite Hpath. cbn [bind].
  rewrite (find_other ("absolute://" ++ p) "internal://") by reflexivity.
  cbn [bind].
  rewrite (find_other ("absolute://" ++ p) "relative://") by reflexivity.
  cbn [bind].
  rewrite (find_prefix "absolute://" p). cbn [Z.eqb].
  rewrite (after_prefix "absolute://" p) by (discriminate || exact Habs).
  cbn [bind fst snd]. eauto.
Qed.

(** X21: an internal source is looked for in the sources folder of the
    extracted archive.  When the [path] attribute is [internal://] and a
    rest in which [internal:/] does not occur, the helper returns the
    folder of the archive, the name of its sources folder, a slash and the
    rest, with the path type [internal]; the name of the sources folder is
    [/sources] when the archive lists an entry [sources], else
    [/Sources]. *)
Theorem X21_internal_path_is_in_the_sources_folder (now_stamp : string)
    (contents : list string) (folder_name : string) (base_path : option string)
    (element : Xml.element) (st : importer) (p : string) :
  Xml.get element "path" = Some ("internal://" ++ p) ->
  PyStr.absent "internal:/" p ->
  exists name creating_user create_date,
    name_creating_user_create_date_source_path_helper now_stamp contents
      folder_name base_path element st
    = Ok (name, creating_user, create_date,
          folder_name
          ++ (if existsb (String.eqb "sources") contents
              then "/sources" else "/Sources")
          ++ "/" ++ p,
          "internal").
Proof.
  intros Hpath Habs.
  unfold name_creating_user_create_date_source_path_helper.
  rewrite Hpath. cbn [bind after_first].
  rewrite (find_prefix "internal://" p). cbn [Z.eqb].
  assert (A : PyStr.absent "internal:/" ("/" ++ p)).
  { unfold PyStr.absent, PyStr.find in *.
    change (chars ("/" ++ p)) with ("/"%char :: chars p).
    cbn [PyStr.find_from]. change (PyStr.starts_with _ _) with false. cbv iota.
    apply (find_from_shift _ _ 0); [lia | lia | exact Habs]. }
  change ("internal://" ++ p) with ("internal:/" ++ ("/" ++ p)).
  rewrite (after_prefix "internal:/" ("/" ++ p)) by (discriminate || exact A).
  cbn [bind].
  rewrite (find_other ("/" ++ p) "relative://") by reflexivity.
  cbn [bind].
  rewrite (find_other ("/" ++ p) "absolute://") by reflexivity.
  cbn [bind fst snd]. unfold sources_name_of.
  rewrite <- !append_assoc. eauto.
Qed.

(** X22: a source under [relative://] needs the [basePath] of the Project
    element.  When the [path] attribute is [relative://] and a rest in
    which [relative://] does not occur again, the helper returns the base
    path followed by the rest, with the path type [relative]; when the
    Project element has no [basePath], it raises [TypeError]. *)
Theorem X22_relative_path_needs_the_base_path (now_stamp : string)
    (contents : list string) (folder_name : string) (base_path : option string)
    (element : Xml.element) (st : importer) (p : string) :
  Xml.get element "path" = Some ("relative://" ++ p) ->
  PyStr.absent "relative://" p ->
  match base_path with
  | Some b =>
      exists name creating_user create_date,
        name_creating_user_create_date_source_path_helper now_stamp contents
          folder_name base_path element st
        = Ok (name, creating_user, create_date, b ++ p, "relative")
  | None =>
      name_creating_user_create_date_source_path_helper now_stamp contents
        folder_name base_path element st
      = Raise TypeError
  end.
Proof.
  intros Hpath Habs.
  unfold name_creating_user_create_date_source_path_helper.
  rewrite Hpath. cbn [bind].
  rewrite (find_other ("relative://" ++ p) "internal://") by reflexivity.
  cbn [bind].
  rewrite (find_prefix "relative://" p). cbn [Z.eqb].
  rewrite (after_prefix "relative://" p) by (discriminate || exact Habs).
  cbn [bind]. destruct base_path as [b|]; cbn [concat_opt bind];
    [|reflexivity].
  rewrite (find_other ("relative://" ++ p) "absolute://") by reflexivity.
  cbn [bind fst snd]. eauto.
Qed.

Lemma X20_absolute_path_is_kept_witness :
  exists name creating_user create_date,
    name_creating_user_create_date_source_path_helper "20240101_000000"
      ["project.qde"; "sources"] "/tmp/qdpx" None
      (source_element "absolute:///home/ann/memo.txt") importer_example
    = Ok (name, creating_user, create_date, "/home/ann/memo.txt", "absolute").
Proof.
  apply (X20_absolute_path_is_kept "20240101_000000"
           ["project.qde"; "sources"] "/tmp/qdpx" None
           (source_element "absolute:///home/ann/memo.txt") importer_example
           "/home/ann/memo.txt"); reflexivity.
Defined.

Lemma X21_internal_path_is_in_the_sources_folder_witness :
  exists name creating_user create_date,
    name_creating_user_create_date_source_path_helper "20240101_000000"
      ["project.qde"; "sources"] "/tmp/qdpx" None
      (source_element "internal://memo.txt") importer_example
    = Ok (name, creating_user, create_date, "/tmp/qdpx/sources/memo.txt",
          "internal").
Proof.
  apply (X21_internal_path_is_in_the_sources_folder "20240101_000000"
           ["project.qde"; "sources"] "/tmp/qdpx" None
           (source_element "internal://memo.txt") importer_example
           "memo.txt"); reflexivity.
Defined.

Lemma X22_relative_path_needs_the_base_path_witness :
  (exists name creating_user create_date,
     name_creating_user_create_date_source_path_helper "20240101_000000"
       ["project.qde"; "sources"] "/tmp/qdpx" (Some "/home/ann/")
       (source_element "relative://docs/memo.txt") importer_example
     = Ok (name, creating_user, create_date, "/home/ann/docs/memo.txt",
           "relative"))
  /\ name_creating_user_create_date_source_path_helper "20240101_000000"
       ["project.qde"; "sources"] "/tmp/qdpx" None
       (source_element "relative://docs/memo.txt") importer_example
     = Raise TypeError.
Proof.
  split.
  - apply (X22_relative_path_needs_the_base_path "20240101_000000"
             ["project.qde"; "sources"] "/tmp/qdpx" (Some "/home/ann/")
             (source_element "relative://docs/memo.txt") importer_example
             "docs/memo.txt"); reflexivity.
  - apply (X22_relative_path_needs_the_base_path "20240101_000000"
             ["project.qde"; "sources"] "/tmp/qdpx" None
             (source_element "relative://docs/memo.txt") importer_example
             "docs/memo.txt"); reflexivity.
Defined.

End PathFacts.

(* ================================================================== *)
(** * Import: named cases *)

Section CaseFacts.

Import RefiImport.

(** From [st] to [st'] the cases and the lists of the importer are as they
    were, and of the variables only scopes changed, to [case]. *)
#[local] Abbreviation quiet st st' :=
  (Db.cases (conn st') = Db.cases (conn st) /\ cases st' = cases st
   /\ variables st' = variables st /\ codername st' = codername st
   /\ scopes_kept_or_case (Db.attribute_type (conn st))
                          (Db.attribute_type (conn st'))).

Lemma scopes_kept_refl (rows : list Db.attribute_type_row) :
  scopes_kept_or_case rows rows.
Proof. induction rows; constructor; auto. Qed.

Lemma scopes_kept_trans (r1 r2 r3 : list Db.attribute_type_row) :
  scopes_kept_or_case r1 r2 -> scopes_kept_or_case r2 r3 ->
  scopes_kept_or_case r1 r3.
Proof.
  intros H. revert r3. induction H as [|a b l1 l2 [N [V [M S]]] F IH];
    intros r3 H'; inversion H' as [|b' c l2' l3 [N' [V' [M' S']]] F']; subst;
    constructor; [|now apply IH].
  repeat split; try congruence.
  destruct S' as [S'|S']; [|now right].
  destruct S as [S|S]; [left | right]; congruence.
Qed.

Lemma scoped_case_kept (n : string) (r1 r2 : list Db.attribute_type_row) :
  scopes_kept_or_case r1 r2 -> scoped_case n r1 -> scoped_case n r2.
Proof.
  unfold scoped_case. induction 1 as [|a b l1 l2 [N [_ [_ S]]] F IH];
    intros H; inversion H; subst; constructor; auto.
  intros Hb. destruct S as [S|S]; [|exact S]. rewrite S. apply H2. congruence.
Qed.

Lemma quiet_refl (st : importer) : quiet st st.
Proof. repeat split. apply scopes_kept_refl. Qed.

Lemma quiet_trans (st1 st2 st3 : importer) :
  quiet st1 st2 -> quiet st2 st3 -> quiet st1 st3.
Proof.
  intros [A [B [C [D E]]]] [A' [B' [C' [D' E']]]].
  repeat split; try congruence. eapply scopes_kept_trans; eassumption.
Qed.

Lemma set_case_variable_scopes (c : Db.conn) (name : option string) :
  scopes_kept_or_case (Db.attribute_type c)
    (Db.attribute_type (Db.set_case_variable c name))
  /\ match name with
     | Some n => scoped_case n (Db.attribute_type (Db.set_case_variable c name))
     | None => True
     end.
Proof.
  unfold Db.set_case_variable. cbn [Db.attribute_type]. split.
  - induction (Db.attribute_type c) as [|r l IH]; cbn [map]; constructor;
      [|exact IH].
    destruct name as [n|]; [|auto 6].
    destruct (Xml.eq_opt (Some n) (Db.aty_name r)); cbn; auto 6.
  - destruct name as [n|]; [|exact I]. unfold scoped_case.
    induction (Db.attribute_type c) as [|r l IH]; cbn [map]; constructor;
      [|exact IH].
    destruct (Xml.eq_opt (Some n) (Db.aty_name r)) eqn:E; cbn; [auto|].
    intros H. rewrite H in E. cbn in E. rewrite String.eqb_refl in E.
    discriminate.
Qed.

Lemma distinct_In (g : option string) (l : list (option string)) :
  In g l -> In g (distinct l).
Proof.
  induction l as [|x l IH]; cbn [distinct In]; [auto|].
  intros [->|H].
  - destruct (existsb (Xml.eq_opt g) l) eqn:E; [|now left].
    apply IH. apply existsb_exists in E. destruct E as [y [Hy E]].
    apply eq_opt_true in E. now subst.
  - destruct (existsb (Xml.eq_opt x) l); [|right]; auto.
Qed.

(** The loop [for attr in self.variables] for one GUID of [case_vars]. *)
Lemma flip_variables (g : option string) (vs : list variable) :
  forall st,
    let st' :=
      fold_left
        (fun st attr =>
           if Xml.eq_opt (var_guid attr) g
           then with_conn st (Db.set_case_variable (conn st) (var_name attr))
           else st)
        vs st in
    quiet st st'
    /\ Db.attribute (conn st') = Db.attribute (conn st)
    /\ forall v n, In v vs -> Xml.eq_opt (var_guid v) g = true ->
                   var_name v = Some n ->
                   scoped_case n (Db.attribute_type (conn st')).
Proof.
  induction vs as [|a vs IH]; intros st; cbn [fold_left].
  - split; [apply quiet_refl|]. split; [reflexivity|]. intros v n [].
  - set (st1 := if Xml.eq_opt (var_guid a) g
                then with_conn st (Db.set_case_variable (conn st) (var_name a))
                else st).
    assert (Q1 : quiet st st1
                 /\ Db.attribute (conn st1) = Db.attribute (conn st)
                 /\ (Xml.eq_opt (var_guid a) g = true ->
                     forall n, var_name a = Some n ->
                     scoped_case n (Db.attribute_type (conn st1)))).
    { subst st1. destruct (Xml.eq_opt (var_guid a) g).
      - destruct (set_case_variable_scopes (conn st) (var_name a)) as [K S].
        split; [repeat split; exact K|]. split; [reflexivity|].
        intros _ n Hn. rewrite Hn in S |- *. exact S.
      - split; [apply quiet_refl|]. split; [reflexivity|]. discriminate. }
    destruct Q1 as [Q1 [A1 S1]].
    destruct (IH st1) as [Q2 [A2 S2]]. cbv zeta in *.
    split; [eapply quiet_trans; eassumption|]. split; [congruence|].
    intros v n [->|Hin] Hg Hn.
    + destruct Q2 as [_ [_ [_ [_ K]]]].
      apply (scoped_case_kept n _ _ K). now apply S1.
    + now apply (S2 v n).
Qed.

(** The loop [for case_var_guid in case_vars]. *)
Lemma flip_case_variables (gs : list (option string)) :
  forall st,
    let st' :=
      fold_left
        (fun st case_var_guid =>
           fold_left
             (fun st attr =>
                if Xml.eq_opt (var_guid attr) case_var_guid
                then with_conn st (Db.set_case_variable (conn st) (var_name attr))
                else st)
             (variables st) st)
        gs st in
    quiet st st'
    /\ Db.attribute (conn st') = Db.attribute (conn st)
    /\ forall g v n, In g gs -> In v (variables st) ->
                     Xml.eq_opt (var_guid v) g = true ->
                     var_name v = Some n ->
                     scoped_case n (Db.attribute_type (conn st')).
Proof.
  induction gs as [|g gs IH]; intros st; cbn [fold_left].
  - split; [apply quiet_refl|]. split; [reflexivity|]. intros g v n [].
  - destruct (flip_variables g (variables st) st) as [Q1 [A1 S1]].
    cbv zeta in *.
    set (st1 := fold_left _ (variables st) st) in *.
    destruct (IH st1) as [Q2 [A2 S2]]. cbv zeta in *.
    split; [eapply quiet_trans; eassumption|]. split; [congruence|].
    intros g' v n [->|Hin] Hv Hg Hn.
    + destruct Q2 as [_ [_ [_ [_ K]]]].
      apply (scoped_case_kept n _ _ K). now apply (S1 v n).
    + apply (S2 g' v n); auto.
      destruct Q1 as [_ [_ [V _]]]. now rewrite V.
Qed.

Lemma case_variable_value_vars (vv : Xml.element) (cv : list (option string)) :
  let r := case_variable_value vv cv in
  (forall g, In g cv -> In g (snd r))
  /\ forall vr, In vr (Xml.getchildren vv) -> is_variable_ref vr = true ->
                In (Xml.get vr "targetGUID") (snd r).
Proof.
  unfold case_variable_value.
  assert (G : forall l (acc : option string * option string * list (option string)),
             let r :=
               fold_left
                 (fun acc v_element =>
                    let '(guid, value, case_vars) := acc in
                    let '(guid, case_vars) :=
                      if String.eqb (Xml.tag v_element) (Xml.project "VariableRef")
                      then (Xml.get v_element "targetGUID",
                            (case_vars ++ [Xml.get v_element "targetGUID"])%list)
                      else (guid, case_vars) in
                    let value :=
                      if is_value v_element then Xml.text v_element else value in
                    (guid, value, case_vars))
                 l acc in
             (forall g, In g (snd acc) -> In g (snd r))
             /\ forall vr, In vr l -> is_variable_ref vr = true ->
                           In (Xml.get vr "targetGUID") (snd r)).
  { induction l as [|x l IH]; intros [[g0 v0] cv0]; cbn [fold_left snd].
    - split; [auto | intros vr []].
    - unfold is_variable_ref in *.
      destruct (String.eqb (Xml.tag x) (Xml.project "VariableRef")) eqn:E.
      + match goal with
        | |- context [fold_left _ l ?a] => destruct (IH a) as [K S]
        end.
        cbv zeta in *. cbn [snd] in K. split.
        * intros g Hg. apply K. apply in_or_app. now left.
        * intros vr [->|Hin] Hr; [|now apply S].
          apply K. apply in_or_app. right. now left.
      + match goal with
        | |- context [fold_left _ l ?a] => destruct (IH a) as [K S]
        end.
        cbv zeta in *. cbn [snd] in K. split; [exact K|].
        intros vr [->|Hin] Hr; [congruence | now apply S]. }
  apply (G (Xml.getchildren vv) (None, None, cv)).
Qed.

(** The loop over the children of a Case that inserts the values, when
    it returns. *)
Lemma case_values_inserted (now_date : string) (caseid : option Z)
    (d_elements : list Xml.element) :
  forall st cv r,
    for_each d_elements (case_value_step now_date caseid) (st, cv) = Ok r ->
    quiet st (fst r)
    /\ Db.attribute_type (conn (fst r)) = Db.attribute_type (conn st)
    /\ (forall g, In g cv -> In g (snd r))
    /\ forall vv vr, In vv d_elements -> is_variable_value vv = true ->
                     In vr (Xml.getchildren vv) -> is_variable_ref vr = true ->
                     In (Xml.get vr "targetGUID") (snd r).
Proof.
  induction d_elements as [|vv l IH]; intros st cv r; cbn [for_each].
  - intros E. injection E as <-. cbn [fst snd].
    split; [apply quiet_refl|]. split; [reflexivity|].
    split; [auto | intros vv vr []].
  - unfold case_value_step at 1. unfold is_variable_value at 1.
    destruct (String.eqb (Xml.tag vv) (Xml.project "VariableValue")) eqn:E.
    + pose proof (case_variable_value_vars vv cv) as [K1 S1].
      destruct (case_variable_value vv cv) as [[guid value] cv1].
      cbn [snd] in K1, S1. unfold Db.insert_attribute.
      destruct (existsb _ (Db.attribute (conn st))); cbn [or_raise bind];
        [discriminate|].
      intros Hr. destruct (IH _ _ _ Hr) as [Q [T [K S]]].
      cbn [conn with_conn Db.cases Db.append_attribute cases
             variables codername Db.attribute_type] in Q, T.
      split; [exact Q|]. split; [exact T|]. split; [auto|].
      intros vv' vr [->|Hin] Hv Hvr Hr'; [apply K; now apply S1|].
      now apply (S vv' vr).
    + cbn [bind]. intros Hr. destruct (IH _ _ _ Hr) as [Q [T [K S]]].
      split; [exact Q|]. split; [exact T|]. split; [exact K|].
      intros vv' vr [->|Hin] Hv Hvr Hr'; [|now apply (S vv' vr)].
      unfold is_variable_value in Hv. congruence.
Qed.

(** The values and the scopes of a Case, from the state [st1] after the
    insert of the Case. *)
Lemma case_values_and_scopes (now_date : string) (caseid : option Z)
    (e : Xml.element) (st1 : importer)
    (r : importer * list (option string)) :
  for_each (Xml.getchildren e) (case_value_step now_date caseid) (st1, [])
  = Ok r ->
  let st3 := set_case_variables (snd r) (fst r) in
  quiet st1 st3
  /\ forall vv vr v n,
       In vv (Xml.getchildren e) -> is_variable_value vv = true ->
       In vr (Xml.getchildren vv) -> is_variable_ref vr = true ->
       In v (variables st1) ->
       Xml.eq_opt (var_guid v) (Xml.get vr "targetGUID") = true ->
       var_name v = Some n ->
       scoped_case n (Db.attribute_type (conn st3)).
Proof.
  intros Hr. destruct (case_values_inserted _ _ _ _ _ _ Hr) as [Q1 [_ [_ S1]]].
  destruct r as [st2 case_vars]. cbn [fst snd] in *.
  pose proof (flip_case_variables (distinct case_vars) st2) as H2.
  cbv zeta in H2. fold (set_case_variables case_vars st2) in H2.
  destruct H2 as [Q2 [_ S2]].
  split; [exact (quiet_trans _ _ _ Q1 Q2)|].
  intros vv vr v n Hvv Hv Hvr Hr' Hin Hg Hn.
  apply (S2 (Xml.get vr "targetGUID") v n); auto.
  - apply distinct_In. now apply (S1 vv vr).
  - destruct Q1 as [_ [_ [V1 _]]]. rewrite V1. exact Hin.
Qed.

(** What the body of the loop of [parse_cases] does for a child with a
    name, when it returns.  A name that is in [cases] leaves the table,
    [self.cases] and the count as they are. *)
Lemma parse_case_result (now_date : string) (st : importer) (count : Z)
    (e : Xml.element) (nm : string) (r : importer * Z) :
  Xml.get e "name" = Some nm ->
  parse_case now_date (st, count) e = Ok r ->
  (if Db.name_taken (Some nm) (map Db.ca_name (Db.cases (conn st)))
   then snd r = count /\ Db.cases (conn (fst r)) = Db.cases (conn st)
        /\ cases (fst r) = cases st
   else
     snd r = count + 1
     /\ exists row,
          Db.cases (conn (fst r)) = (Db.cases (conn st) ++ [row])%list
          /\ Db.ca_name row = Some nm
          /\ Db.ca_memo row = case_memo e
          /\ cases (fst r)
             = (cases st
                ++ [{| case_name := Some nm;
                       case_guid := Xml.get e "guid";
                       case_caseid := Some (Db.ca_caseid row) |}])%list)
  /\ variables (fst r) = variables st
  /\ scopes_kept_or_case (Db.attribute_type (conn st))
                         (Db.attribute_type (conn (fst r)))
  /\ forall vv vr v n,
       In vv (Xml.getchildren e) -> is_variable_value vv = true ->
       In vr (Xml.getchildren vv) -> is_variable_ref vr = true ->
       In v (variables st) ->
       Xml.eq_opt (var_guid v) (Xml.get vr "targetGUID") = true ->
       var_name v = Some n ->
       scoped_case n (Db.attribute_type (conn (fst r))).
Proof.
  intros Hname. unfold parse_case. rewrite Hname.
  fold (case_memo e). unfold Db.insert_cases.
  destruct (Db.name_taken (Some nm) (map Db.ca_name (Db.cases (conn st)))).
  - destruct (for_each _ (case_value_step now_date None) (st, []))
      as [r'|] eqn:Hr; cbn [bind]; [|discriminate].
    intros E. injection E as <-. cbn [fst snd].
    destruct (case_values_and_scopes _ _ _ _ _ Hr) as [[C [I [V [_ K]]]] S].
    cbv zeta in *. auto 7.
  - set (caseid := Db.next_rowid (map Db.ca_caseid (Db.cases (conn st)))).
    set (row := {| Db.ca_caseid := caseid; Db.ca_name := Some nm;
                   Db.ca_memo := case_memo e; Db.ca_owner := codername st;
                   Db.ca_date := now_date |}).
    set (st1 := append_case _ _).
    destruct (for_each _ (case_value_step now_date (Some caseid)) (st1, []))
      as [r'|] eqn:Hr; cbn [bind]; [|discriminate].
    intros E. injection E as <-. cbn [fst snd].
    destruct (case_values_and_scopes _ _ _ _ _ Hr) as [[C [I [V [_ K]]]] S].
    cbv zeta in *. split; [|split; [exact V | split; [exact K | exact S]]].
    split; [reflexivity|]. exists row. rewrite C, I. subst st1.
    cbn [conn append_case with_conn Db.cases Db.append_cases cases].
    auto.
Qed.

(** The loop of [parse_cases] over the children [l], when it returns. *)
Lemma parse_cases_loop (now_date : string) (l : list Xml.element) :
  forall acc r,
    for_each l (parse_case now_date) acc = Ok r ->
    let stored :=
      stored_cases (map Db.ca_name (Db.cases (conn (fst acc)))) l in
    snd r = snd acc + Z.of_nat (List.length stored)
    /\ (exists rows,
          Db.cases (conn (fst r)) = (Db.cases (conn (fst acc)) ++ rows)%list
          /\ map Db.ca_name rows = map (fun e => Xml.get e "name") stored
          /\ Forall2 (fun e row => Db.ca_memo row = case_memo e) stored rows
          /\ cases (fst r)
             = (cases (fst acc)
                ++ map (fun p : Xml.element * Db.cases_row =>
                          {| case_name := Xml.get (fst p) "name";
                             case_guid := Xml.get (fst p) "guid";
                             case_caseid := Some (Db.ca_caseid (snd p)) |})
                       (combine stored rows))%list)
    /\ variables (fst r) = variables (fst acc)
    /\ scopes_kept_or_case (Db.attribute_type (conn (fst acc)))
                           (Db.attribute_type (conn (fst r)))
    /\ forall e vv vr v n,
         In e l -> is_named e = true ->
         In vv (Xml.getchildren e) -> is_variable_value vv = true ->
         In vr (Xml.getchildren vv) -> is_variable_ref vr = true ->
         In v (variables (fst acc)) ->
         Xml.eq_opt (var_guid v) (Xml.get vr "targetGUID") = true ->
         var_name v = Some n ->
         scoped_case n (Db.attribute_type (conn (fst r))).
Proof.
  induction l as [|e l IH]; intros acc r; cbn [for_each stored_cases].
  - intros E. injection E as <-. cbn [List.length]. split; [lia|]. split.
    { exists []. cbn. rewrite !app_nil_r. auto. }
    split; [reflexivity|]. split; [apply scopes_kept_refl|].
    intros e vv vr v n [].
  - destruct (parse_case now_date acc e) as [acc1|] eqn:H1; cbn [bind];
      [|discriminate].
    intros Hr. destruct (IH acc1 r Hr) as [N [[rows [C [Nm [Mm I]]]] [V [K S]]]].
    cbv zeta in *. destruct acc as [st count]. cbn [fst snd] in *.
    destruct (Xml.get e "name") as [nm|] eqn:Hname.
    + pose proof (parse_case_result now_date st count e nm acc1 Hname H1)
        as [H2 [V1 [K1 S1]]].
      destruct (Db.name_taken (Some nm) (map Db.ca_name (Db.cases (conn st)))).
      * destruct H2 as [N1 [C1 I1]]. rewrite C1 in *. rewrite I1 in *.
        split; [rewrite N, N1; reflexivity|].
        split; [exists rows; auto|].
        split; [congruence|]. split; [eapply scopes_kept_trans; eassumption|].
        intros e' vv vr v n [->|Hin] He Hvv Hv Hvr Hr' Hv0 Hg Hn.
        -- apply (scoped_case_kept n _ _ K). now apply (S1 vv vr v n).
        -- apply (S e' vv vr v n); auto. now rewrite V1.
      * destruct H2 as [N1 [row [C1 [Nm1 [Mm1 I1]]]]].
        rewrite C1, map_app in *. cbn [map] in *. rewrite Nm1 in *.
        split; [rewrite N, N1; cbn [List.length]; lia|]. split.
        { exists (row :: rows). rewrite C, I, I1, <- !app_assoc.
          cbn [map combine app fst snd]. rewrite Nm, Nm1, Hname.
          repeat split; try congruence. constructor; assumption. }
        split; [congruence|]. split; [eapply scopes_kept_trans; eassumption|].
        intros e' vv vr v n [->|Hin] He Hvv Hv Hvr Hr' Hv0 Hg Hn.
        -- apply (scoped_case_kept n _ _ K). now apply (S1 vv vr v n).
        -- apply (S e' vv vr v n); auto. now rewrite V1.
    + rewrite (parse_case_nameless now_date (st, count) e Hname) in H1.
      injection H1 as <-. cbn [fst snd] in *.
      split; [exact N|]. split; [exists rows; auto|].
      split; [exact V|]. split; [exact K|].
      intros e' vv vr v n [->|Hin] He; [|now apply S].
      unfold is_named in He. rewrite Hname in He. discriminate.
Qed.

(** X23: when [parse_cases] returns, it has stored the children of the
    Cases element that have a name which is not in [cases] and not the
    name of an earlier child, in order, and no other: the count it returns
    is their number, [cases] gets one row for each under its name, and
    [self.cases] one entry for each with its GUID and the id of its row.
    A child whose name is taken is neither stored nor counted.  The
    variables the importer knows stay as they are. *)
Theorem X23_parse_cases_stores_the_named_cases (now_date : string)
    (element : Xml.element) (st : importer) (r : importer * Z) :
  parse_cases now_date element st = Ok r ->
  let stored :=
    stored_cases (map Db.ca_name (Db.cases (conn st)))
      (Xml.getchildren element) in
  snd r = Z.of_nat (List.length stored)
  /\ exists rows,
       Db.cases (conn (fst r)) = (Db.cases (conn st) ++ rows)%list
       /\ map Db.ca_name rows = map (fun e => Xml.get e "name") stored
       /\ cases (fst r)
          = (cases st
             ++ map (fun p : Xml.element * Db.cases_row =>
                       {| case_name := Xml.get (fst p) "name";
                          case_guid := Xml.get (fst p) "guid";
                          case_caseid := Some (Db.ca_caseid (snd p)) |})
                    (combine stored rows))%list
       /\ variables (fst r) = variables st.
Proof.
  unfold parse_cases. intros Hr.
  destruct (parse_cases_loop now_date (Xml.getchildren element) (st, 0) r Hr)
    as [N [[rows [C [Nm [_ I]]]] [V _]]]. cbv zeta in *. cbn [fst snd] in *.
  split; [rewrite N; lia|]. exists rows. auto.
Qed.

(** X24: a variable that a named Case gives a value becomes a case
    variable.  When [parse_cases] returns, for every VariableRef in a
    VariableValue of a child with a name, and every variable known under
    its GUID, all rows of [attribute_type] with the name of that variable
    have the scope [case], also when the name of the Case was taken and
    the Case was not stored; the other rows keep their scope or have the
    scope [case]. *)
Theorem X24_observed_variables_get_case_scope (now_date : string)
    (element e vv vr : Xml.element) (st : importer) (v : variable) (n : string)
    (r : importer * Z) :
  parse_cases now_date element st = Ok r ->
  In e (Xml.getchildren element) -> is_named e = true ->
  In vv (Xml.getchildren e) -> is_variable_value vv = true ->
  In vr (Xml.getchildren vv) -> is_variable_ref vr = true ->
  In v (variables st) ->
  Xml.eq_opt (var_guid v) (Xml.get vr "targetGUID") = true ->
  var_name v = Some n ->
  scoped_case n (Db.attribute_type (conn (fst r)))
  /\ scopes_kept_or_case (Db.attribute_type (conn st))
       (Db.attribute_type (conn (fst r))).
Proof.
  unfold parse_cases. intros Hres He Hn Hvv Hv Hvr Hr Hin Hg Hname.
  destruct (parse_cases_loop now_date (Xml.getchildren element) (st, 0) r Hres)
    as [_ [_ [_ [K S]]]]. cbv zeta in *. cbn [fst snd] in *.
  split; [|exact K]. now apply (S e vv vr v n).
Qed.

(** X25: [parse_cases] reads the Description of a Case under the tag
    [{urn:QDA-XML:project:1:0}Description].  In a project file the
    children of a Case are in the name space [urn:QDA-XML:project:1.0]:
    then, when [parse_cases] returns, every case it has stored has the
    empty memo, whatever its Description holds. *)
Theorem X25_case_descriptions_are_not_read (now_date : string)
    (element : Xml.element) (st : importer) (r : importer * Z) :
  parse_cases now_date element st = Ok r ->
  (forall e d, In e (Xml.getchildren element) -> In d (Xml.getchildren e) ->
               exists local, Xml.tag d = Xml.project local) ->
  exists rows,
    Db.cases (conn (fst r)) = (Db.cases (conn st) ++ rows)%list
    /\ List.length rows
       = List.length (stored_cases (map Db.ca_name (Db.cases (conn st)))
                        (Xml.getchildren element))
    /\ Forall (fun row => Db.ca_memo row = Some "") rows.
Proof.
  unfold parse_cases. intros Hres Hns.
  destruct (parse_cases_loop now_date (Xml.getchildren element) (st, 0) r Hres)
    as [_ [[rows [C [Nm [M _]]]] _]]. cbv zeta in *. cbn [fst snd] in *.
  exists rows. split; [exact C|]. split.
  { rewrite <- (length_map Db.ca_name), Nm. apply length_map. }
  assert (E : forall e, In e (Xml.getchildren element) -> case_memo e = Some "").
  { intros e He. unfold case_memo. pose proof (fun d => Hns e d He) as Hd.
    generalize (Some "") as m0.
    induction (Xml.getchildren e) as [|d l IH]; intros m0; cbn [fold_left];
      [reflexivity|].
    destruct (Hd d (or_introl eq_refl)) as [local Ht]. rewrite Ht.
    change (String.eqb (Xml.project local) _) with false. cbv iota.
    apply IH. intros d' Hd'. apply Hd. now right. }
  assert (Sub : forall l taken e, In e (stored_cases taken l) -> In e l).
  { induction l as [|x l IH]; intros taken e; cbn [stored_cases]; [auto|].
    destruct (Xml.get x "name"); [|intros H; right; eapply IH; exact H].
    destruct (Db.name_taken _ taken); [intros H; right; eapply IH; exact H|].
    intros [->|H]; [now left | right; eapply IH; exact H]. }
  assert (G : forall named rows0,
             Forall2 (fun e row => Db.ca_memo row = case_memo e) named rows0 ->
             (forall e, In e named -> case_memo e = Some "") ->
             Forall (fun row => Db.ca_memo row = Some "") rows0).
  { induction 1 as [|e row named rows0 Hm F IH]; intros Hall; constructor.
    - rewrite Hm. apply Hall. now left.
    - apply IH. intros e' He'. apply Hall. now right. }
  apply (G _ _ M). intros e He. apply E. eapply Sub. exact He.
Qed.

Lemma X23_parse_cases_stores_the_named_cases_witness :
  exists r rows,
    parse_cases "2024-01-01 00:00:00" named_cases importer_with_types = Ok r
    /\ snd r = 1
    /\ Db.cases (conn (fst r)) = rows
    /\ map Db.ca_name rows = [Some "Ann"].
Proof.
  eexists. eexists.
  split; [vm_compute; reflexivity|].
  edestruct (X23_parse_cases_stores_the_named_cases "2024-01-01 00:00:00"
               named_cases importer_with_types) as [N [rows [C [Nm _]]]].
  - vm_compute. reflexivity.
  - split; [exact N|]. split; [reflexivity|]. reflexivity.
Defined.

Lemma X24_observed_variables_get_case_scope_witness :
  exists r,
    parse_cases "2024-01-01 00:00:00" named_cases importer_with_types = Ok r
    /\ scoped_case "Age" (Db.attribute_type (conn (fst r)))
    /\ scopes_kept_or_case (Db.attribute_type (conn importer_with_types))
         (Db.attribute_type (conn (fst r))).
Proof.
  eexists. split; [vm_compute; reflexivity|].
  eapply (X24_observed_variables_get_case_scope "2024-01-01 00:00:00"
            named_cases named_case (variable_value "v1" "34") _
            importer_with_types
            {| var_guid := Some "v1"; var_name := Some "Age" |} "Age").
  - vm_compute. reflexivity.
  - left. reflexivity.
  - reflexivity.
  - right. left. reflexivity.
  - reflexivity.
  - left. reflexivity.
  - reflexivity.
  - left. reflexivity.
  - reflexivity.
  - reflexivity.
Defined.

Lemma X25_case_descriptions_are_not_read_witness :
  exists r rows,
    parse_cases "2024-01-01 00:00:00" named_cases importer_example = Ok r
    /\ Db.cases (conn (fst r))
       = (Db.cases (conn importer_example) ++ rows)%list
    /\ List.length rows = 1%nat
    /\ Forall (fun row => Db.ca_memo row = Some "") rows.
Proof.
  eexists.
  edestruct (X25_case_descriptions_are_not_read "2024-01-01 00:00:00"
               named_cases importer_example) as [rows [C [L M]]].
  - vm_compute. reflexivity.
  - intros e d [<-|[]] [<-|[<-|[<-|[]]]]; eexists; reflexivity.
  - exists rows. split; [vm_compute; reflexivity|].
    split; [exact C|]. split; [exact L | exact M].
Defined.

End CaseFacts.

Section StagingFacts.

Import RefiImport.

Lemma source_refs_counted (srs : list Xml.element) :
  forall (k : Z) (g : option string),
    fst (fold_left (fun acc el => (fst acc + 1, Xml.get el "targetGUID"))
                   srs (k, g))
    = k + Z.of_nat (List.length srs).
Proof.
  induction srs as [|x srs IH]; intros k g; cbn [fold_left List.length fst].
  - lia.
  - rewrite IH. lia.
Qed.

(** X26: the pre-pass stages the values of a Case only when the Case has no
    name and exactly one SourceRef child.  A Case with a name, without a
    SourceRef, or with two or more, leaves [self.file_vars] and everything
    else as it is. *)
Theorem X26_only_single_source_cases_are_staged (e_case : Xml.element)
    (st : importer) :
  Xml.get e_case "name" <> None
  \/ List.length (filter is_source_ref (Xml.getchildren e_case)) <> 1%nat ->
  parse_case_for_file_variables e_case st = st.
Proof.
  intros H. unfold parse_case_for_file_variables.
  destruct (Xml.get e_case "name") as [n|]; [reflexivity|].
  destruct H as [H|H]; [contradiction|].
  rewrite (fold_left_filter is_source_ref
             (fun acc el => (fst acc + 1, Xml.get el "targetGUID"))).
  pose proof (source_refs_counted
                (filter is_source_ref (Xml.getchildren e_case)) 0 None) as Hc.
  destruct (fold_left _ (filter is_source_ref (Xml.getchildren e_case)) (0, None))
    as [count file_guid]. cbn [fst] in Hc.
  destruct file_guid as [g|]; [|reflexivity].
  destruct (count =? 1) eqn:E; [|reflexivity].
  apply Z.eqb_eq in E. lia.
Qed.

Lemma X26_only_single_source_cases_are_staged_witness :
  parse_case_for_file_variables named_case importer_example = importer_example.
Proof.
  apply (X26_only_single_source_cases_are_staged named_case importer_example).
  left. discriminate.
Defined.

End StagingFacts.

(* ================================================================== *)
(** * Export: the time stamps that the patterns match can be read *)

Section RegexFacts.

Import Re.

Lemma run_length_bound (p : ascii -> bool) (limit : nat) (s : list ascii) :
  (run_length p limit s <= limit)%nat
  /\ (run_length p limit s <= List.length s)%nat
  /\ Forall (fun c => p c = true) (firstn (run_length p limit s) s).
Proof.
  revert s. induction limit as [|limit IH]; intros s; cbn [run_length].
  - cbn. repeat split; try lia. constructor.
  - destruct s as [|c s]; [cbn; repeat split; try lia; constructor|].
    destruct (p c) eqn:E; [|cbn; repeat split; try lia; constructor].
    destruct (IH s) as [A [B C]]. cbn [List.length firstn].
    repeat split; try lia. constructor; assumption.
Qed.

Lemma Forall_firstn_le {A} (P : A -> Prop) (k n : nat) (l : list A) :
  (k <= n)%nat -> Forall P (firstn n l) -> Forall P (firstn k l).
Proof.
  revert n l. induction k as [|k IH]; intros n l Hk H; [constructor|].
  destruct n as [|n]; [lia|]. destruct l as [|x l]; [constructor|].
  cbn [firstn] in *. inversion H; subst. constructor; [assumption|].
  apply (IH n); [lia | assumption].
Qed.

Lemma firstn_plus {A} (k m : nat) (l : list A) :
  firstn (k + m) l = (firstn k l ++ firstn m (skipn k l))%list.
Proof.
  revert l. induction k as [|k IH]; intros l; [reflexivity|].
  destruct l as [|x l]; cbn [Nat.add firstn skipn app].
  - now rewrite firstn_nil.
  - now rewrite IH.
Qed.

(** The backtracking loop of [match_here] for the atom [a]: a result comes
    from a repetition count within the bounds after which the rest of the
    pattern matches. *)
Lemma back_sound (a : atom) (r' : regex) (s : list ascii) :
  forall n m,
    (fix back (n : nat) : option nat :=
       let attempt :=
         if (lo a <=? n)%nat
         then option_map (Nat.add n) (match_here r' (skipn n s))
         else None in
       match attempt with
       | Some m => Some m
       | None => match n with
                 | O => None
                 | S n' => back n'
                 end
       end) n = Some m ->
    exists k m', (k <= n)%nat /\ (lo a <= k)%nat
                 /\ match_here r' (skipn k s) = Some m' /\ m = (k + m')%nat.
Proof.
  induction n as [|n IH]; intros m.
  - destruct (lo a <=? 0)%nat eqn:E.
    + destruct (match_here r' (skipn 0 s)) as [m'|] eqn:M; cbn [option_map];
        [|discriminate].
      intros H. injection H as <-. exists 0%nat, m'.
      apply Nat.leb_le in E. auto.
    + discriminate.
  - destruct (lo a <=? S n)%nat eqn:E.
    + destruct (match_here r' (skipn (S n) s)) as [m'|] eqn:M;
        cbn [option_map].
      * intros H. injection H as <-. exists (S n), m'.
        apply Nat.leb_le in E. auto.
      * intros H. apply IH in H. destruct H as [k [m' [Hk H]]].
        exists k, m'. split; [lia | exact H].
    + intros H. apply IH in H. destruct H as [k [m' [Hk H]]].
      exists k, m'. split; [lia | exact H].
Qed.

(** What [match_here] matches has the shape of the pattern. *)
Lemma match_here_shaped (r : regex) :
  forall s n, match_here r s = Some n ->
              (n <= List.length s)%nat /\ shaped r (firstn n s).
Proof.
  induction r as [|a r' IH]; intros s n.
  - cbn. intros H. injection H as <-. split; [lia | reflexivity].
  - cbn [match_here]. intros H. apply back_sound in H.
    destruct H as [k [m' [Hk [Hlo [M ->]]]]].
    destruct (run_length_bound (in_class (cls a)) (hi a) s) as [B1 [B2 B3]].
    apply IH in M. destruct M as [Hm Hs]. rewrite length_skipn in Hm.
    split; [lia|]. cbn [shaped].
    exists (firstn k s), (firstn m' (skipn k s)). split.
    { apply firstn_plus. }
    split. { apply (Forall_firstn_le _ k _ s Hk B3). }
    split; [|exact Hs]. rewrite length_firstn. lia.
Qed.

(** Every match of [finditer] is the text of a match of the pattern. *)
Lemma finditer_from_shaped (r : regex) (s : list ascii) :
  forall skip pos x,
    In x (finditer_from r skip pos s) ->
    exists l, snd x = str l /\ shaped r l.
Proof.
  induction s as [|c s IH]; intros skip pos x; cbn [finditer_from];
    [intros []|].
  destruct skip as [|k]; [|apply IH].
  destruct (match_here r (c :: s)) as [[|l]|] eqn:M; [apply IH | | apply IH].
  intros [<-|H]; [|now apply IH in H].
  apply match_here_shaped in M. destruct M as [_ Hs].
  eexists. split; [reflexivity | exact Hs].
Qed.

End RegexFacts.

Section StampFacts.

Import Re.
Import Timepoints.

#[local] Abbreviation digits l := (Forall (fun c => is_digit c = true) l).

Lemma digit_eqb (c x : ascii) :
  is_digit c = true -> is_digit x = false -> Ascii.eqb c x = false.
Proof.
  intros Hc Hx. destruct (Ascii.eqb_spec c x) as [->|]; [congruence | reflexivity].
Qed.

Lemma digits_not (x : ascii) (l : list ascii) :
  is_digit x = false -> digits l -> Forall (fun c => Ascii.eqb c x = false) l.
Proof.
  intros Hx H. eapply Forall_impl; [|exact H]. cbv beta.
  intros c Hc. now apply digit_eqb.
Qed.

Lemma split_chars_plain (sep : ascii) (l cur : list ascii) :
  Forall (fun c => Ascii.eqb c sep = false) l ->
  split_chars sep cur l = [str (rev cur ++ l)].
Proof.
  intros H. revert cur. induction H as [|c l Hc Hl IH]; intros cur;
    cbn [split_chars].
  - now rewrite app_nil_r.
  - rewrite Hc, IH. cbn [rev]. now rewrite <- app_assoc.
Qed.

Lemma split_chars_cut (sep : ascii) (l1 l2 cur : list ascii) :
  Forall (fun c => Ascii.eqb c sep = false) l1 ->
  split_chars sep cur (l1 ++ sep :: l2)
  = str (rev cur ++ l1) :: split_chars sep [] l2.
Proof.
  intros H. revert cur. induction H as [|c l Hc Hl IH]; intros cur;
    cbn [split_chars app].
  - rewrite Ascii.eqb_refl, app_nil_r. reflexivity.
  - rewrite Hc, IH. cbn [rev]. now rewrite <- app_assoc.
Qed.

Lemma digit_cases (c : ascii) :
  is_digit c = true ->
  In c ["0"; "1"; "2"; "3"; "4"; "5"; "6"; "7"; "8"; "9"]%char.
Proof.
  unfold is_digit. intros H. apply andb_true_iff in H. destruct H as [H1 H2].
  apply Nat.leb_le in H1, H2. rewrite <- (ascii_nat_embedding c).
  remember (nat_of_ascii c) as n eqn:E. clear E c.
  do 48 (destruct n as [|n]; [lia|]).
  do 10 (destruct n as [|n]; [cbn; tauto|]). lia.
Qed.

Lemma digits_value_digits (l : list ascii) :
  digits l ->
  forall (b : bool) (acc : Z),
    b = true \/ l <> [] -> exists v, digits_value b acc l = Some v.
Proof.
  induction 1 as [|c l Hc Hl IH]; intros b acc Hb; cbn [digits_value].
  - destruct Hb as [->|Hb]; [eauto | contradiction].
  - rewrite Hc. apply IH. now left.
Qed.

(** [int()] reads every string of one digit or more. *)
Lemma int_str_digits (l : list ascii) :
  l <> [] -> digits l -> exists z, int_str (str l) = Ok z.
Proof.
  intros Hne Hd. unfold int_str, int_of_chars. rewrite chars_str.
  rewrite strip_no_space
    by (eapply Forall_impl; [|exact Hd]; exact digit_not_space).
  destruct l as [|c l]; [contradiction|].
  destruct (digits_value_digits (c :: l) Hd false 0 (or_intror Hne)) as [v Hv].
  inversion Hd as [|? ? Hc _]; subst.
  apply digit_cases in Hc. cbn [In] in Hc.
  destruct Hc as [<-|[<-|[<-|[<-|[<-|[<-|[<-|[<-|[<-|[<-|[]]]]]]]]]]];
    rewrite Hv; eauto.
Qed.

(** [s[1:-1]] drops the first and the last character. *)
Lemma inner_middle (a b : ascii) (mid : list ascii) :
  inner (str (a :: mid ++ [b])) = str mid.
Proof.
  unfold inner, slice, slice_list. rewrite chars_str.
  assert (Hn : List.length (a :: mid ++ [b]) = S (S (List.length mid)))
    by (cbn [List.length]; rewrite length_app; cbn [List.length]; lia).
  rewrite Hn. rewrite (clamp_inside _ 1) by lia.
  replace (clamp (Z.of_nat (S (S (List.length mid)))) (-1))
    with (S (List.length mid))
    by (unfold clamp; change (-1 <? 0) with true; cbv iota; lia).
  change (Z.to_nat 1) with 1%nat.
  replace (S (List.length mid) - 1)%nat with (List.length mid) by lia.
  cbn [skipn].
  rewrite firstn_app, firstn_all, Nat.sub_diag. cbn [firstn].
  now rewrite app_nil_r.
Qed.

Lemma msecs_ms_reads (sep : ascii) (d1 d2 : list ascii) :
  is_digit sep = false -> digits d1 -> d1 <> [] -> digits d2 -> d2 <> [] ->
  exists z, msecs_ms (str (d1 ++ sep :: d2)) sep = Ok z.
Proof.
  intros Hs H1 N1 H2 N2. unfold msecs_ms, split. rewrite chars_str.
  rewrite split_chars_cut by (now apply digits_not).
  rewrite split_chars_plain by (now apply digits_not).
  cbn [rev app index nth_error bind].
  destruct (int_str_digits d1 N1 H1) as [z1 ->].
  destruct (int_str_digits d2 N2 H2) as [z2 ->]. cbn [bind]. eauto.
Qed.

Lemma msecs_hms_reads (sep : ascii) (d1 d2 d3 : list ascii) :
  is_digit sep = false ->
  digits d1 -> d1 <> [] -> digits d2 -> d2 <> [] -> digits d3 -> d3 <> [] ->
  exists z, msecs_hms (str (d1 ++ sep :: d2 ++ sep :: d3)) sep = Ok z.
Proof.
  intros Hs H1 N1 H2 N2 H3 N3. unfold msecs_hms, split. rewrite chars_str.
  rewrite split_chars_cut by (now apply digits_not).
  rewrite split_chars_cut by (now apply digits_not).
  rewrite split_chars_plain by (now apply digits_not).
  cbn [rev app index nth_error bind].
  destruct (int_str_digits d1 N1 H1) as [z1 ->].
  destruct (int_str_digits d2 N2 H2) as [z2 ->].
  destruct (int_str_digits d3 N3 H3) as [z3 ->]. cbn [bind]. eauto.
Qed.

(** The run of an atom [lit x] is the character [x]. *)
Lemma run_lit (x : ascii) (run : list ascii) :
  Forall (fun c => in_class (Lit x) c = true) run ->
  (1 <= List.length run <= 1)%nat -> run = [x].
Proof.
  intros H L. destruct run as [|c [|c' run]]; cbn [List.length] in L; try lia.
  inversion H as [|? ? Hc _]; subst. cbn [in_class] in Hc.
  apply Ascii.eqb_eq in Hc. now subst.
Qed.

Lemma run_nonempty (run : list ascii) (hi : nat) :
  (1 <= List.length run <= hi)%nat -> run <> [].
Proof. intros L ->. cbn in L. lia. Qed.

Lemma app_nonempty_r {A} (l1 l2 : list A) : l2 <> [] -> (l1 ++ l2)%list <> [].
Proof. intros H E. apply app_eq_nil in E. tauto. Qed.

Ltac open_shape H :=
  cbn [shaped] in H;
  repeat match type of H with
         | exists run rest, _ =>
             let run := fresh "run" in
             let rest := fresh "rest" in
             let F := fresh "F" in
             let L := fresh "L" in
             destruct H as [run [rest [-> [F [L H]]]]];
             cbn [cls lo hi one opt rep d lit] in F, L
         end;
  subst;
  repeat match goal with
         | F : Forall (fun c => in_class (Lit ?x) c = true) ?run,
           L : (1 <= List.length ?run <= 1)%nat |- _ =>
             pose proof (run_lit x run F L); subst run; clear F L
         end;
  cbn [in_class] in *.

Ltac digit_runs :=
  repeat first
    [ assumption
    | reflexivity
    | apply Forall_app; split
    | apply app_nonempty_r
    | match goal with
      | L : (1 <= List.length ?run <= _)%nat |- ?run <> [] =>
          exact (run_nonempty run _ L)
      end ].

(** A stamp of minutes and seconds between brackets. *)
Lemma ms_stamp_reads (sep : ascii) (r1 r2 r3 r4 : list ascii) :
  is_digit sep = false ->
  digits r1 -> digits r2 -> (1 <= List.length r2 <= 1)%nat ->
  digits r3 -> digits r4 -> (1 <= List.length r4 <= 1)%nat ->
  exists z,
    msecs_ms
      (inner (str (["["%char] ++ r1 ++ r2 ++ [sep] ++ r3 ++ r4
                   ++ ["]"%char] ++ [])))
      sep = Ok z.
Proof.
  intros Hs F1 F2 L2 F3 F4 L4. cbn [app].
  replace (r1 ++ r2 ++ sep :: r3 ++ r4 ++ ["]"%char])%list
    with (((r1 ++ r2) ++ sep :: r3 ++ r4) ++ ["]"%char])%list
    by (rewrite <- !app_assoc; cbn [app]; now rewrite <- !app_assoc).
  rewrite inner_middle. apply msecs_ms_reads; digit_runs.
Qed.

(** A stamp of hours, minutes and seconds between brackets. *)
Lemma hms_stamp_reads (sep : ascii) (r1 r2 r3 r4 r5 r6 : list ascii) :
  is_digit sep = false ->
  digits r1 -> (1 <= List.length r1 <= 1)%nat ->
  digits r2 -> (1 <= List.length r2 <= 1)%nat ->
  digits r3 -> (1 <= List.length r3 <= 1)%nat ->
  digits r4 -> (1 <= List.length r4 <= 1)%nat ->
  digits r5 -> (1 <= List.length r5 <= 1)%nat ->
  digits r6 -> (1 <= List.length r6 <= 1)%nat ->
  exists z,
    msecs_hms
      (inner (str (["["%char] ++ r1 ++ r2 ++ [sep] ++ r3 ++ r4 ++ [sep]
                   ++ r5 ++ r6 ++ ["]"%char] ++ [])))
      sep = Ok z.
Proof.
  intros Hs F1 L1 F2 L2 F3 L3 F4 L4 F5 L5 F6 L6. cbn [app].
  replace (r1 ++ r2 ++ sep :: r3 ++ r4 ++ sep :: r5 ++ r6 ++ ["]"%char])%list
    with (((r1 ++ r2) ++ sep :: (r3 ++ r4) ++ sep :: r5 ++ r6)
            ++ ["]"%char])%list
    by (rewrite <- !app_assoc; cbn [app]; rewrite <- !app_assoc; cbn [app];
        now rewrite <- !app_assoc).
  rewrite inner_middle. apply msecs_hms_reads; digit_runs.
Qed.

Lemma mmss1_reads (l : list ascii) :
  shaped mmss1 l -> exists z, msecs_ms (inner (str l)) ":" = Ok z.
Proof.
  intros H. unfold mmss1 in H. open_shape H. now apply ms_stamp_reads.
Qed.

Lemma mmss2_reads (l : list ascii) :
  shaped mmss2 l -> exists z, msecs_ms (inner (str l)) "." = Ok z.
Proof.
  intros H. unfold mmss2 in H. open_shape H. now apply ms_stamp_reads.
Qed.

Lemma hhmmss1_reads (l : list ascii) :
  shaped hhmmss1 l -> exists z, msecs_hms (inner (str l)) ":" = Ok z.
Proof.
  intros H. unfold hhmmss1 in H. open_shape H. now apply hms_stamp_reads.
Qed.

Lemma hhmmss2_reads (l : list ascii) :
  shaped hhmmss2 l -> exists z, msecs_hms (inner (str l)) "." = Ok z.
Proof.
  intros H. unfold hhmmss2 in H. open_shape H. now apply hms_stamp_reads.
Qed.

Lemma one_length (run : list ascii) :
  (1 <= List.length run <= 1)%nat -> List.length run = 1%nat.
Proof. lia. Qed.

Lemma app_nonempty_l {A} (l1 l2 : list A) : l1 <> [] -> (l1 ++ l2)%list <> [].
Proof. intros H E. apply app_eq_nil in E. tauto. Qed.

(** The milliseconds of a [#hh:mm:ss.sss#] stamp after the padding. *)
Lemma padded_reads (d4 : list ascii) :
  digits d4 -> d4 <> [] ->
  exists z,
    int_str
      (let text_msecs := str d4 in
       let text_msecs :=
         if len text_msecs =? 1 then text_msecs ++ "00" else text_msecs in
       if len text_msecs =? 2 then text_msecs ++ "0" else text_msecs)
    = Ok z.
Proof.
  intros H N. cbv zeta.
  assert (P : forall k, digits (chars k) ->
                        exists z, int_str (str d4 ++ k) = Ok z).
  { intros k Hk. rewrite <- (str_chars k), <- str_app.
    apply int_str_digits; [now apply app_nonempty_l | now apply Forall_app]. }
  assert (P0 : exists z, int_str (str d4) = Ok z)
    by (now apply int_str_digits).
  destruct (len (str d4) =? 1).
  - destruct (len (str d4 ++ "00") =? 2).
    + rewrite append_assoc. apply (P "000"). repeat constructor.
    + apply (P "00"). repeat constructor.
  - destruct (len (str d4) =? 2); [|exact P0].
    apply (P "0"). repeat constructor.
Qed.

Lemma hhmmss_sss_reads (l : list ascii) (acc : list time_point) (pos : Z) :
  shaped hhmmss_sss l ->
  exists acc',
    (let m := (pos, str l) in
     let stamp := slice (snd m) (Some 1) (Some (-1)) in
     let text_hms := split stamp ":" in
     hms2 <- index text_hms 2 ;;
     text_secs <- index (split hms2 ".") 0 ;;
     text_msecs <- index (split hms2 ".") 1 ;;
     let text_msecs :=
       if len text_msecs =? 1 then text_msecs ++ "00" else text_msecs in
     let text_msecs :=
       if len text_msecs =? 2 then text_msecs ++ "0" else text_msecs in
     except_KeyError_pass acc
       (h0 <- index text_hms 0 ;; h <- int_str h0 ;;
        m1 <- index text_hms 1 ;; mi <- int_str m1 ;;
        sec <- int_str text_secs ;;
        ms <- int_str text_msecs ;;
        Ok (acc ++ [(fst m, (h * 3600 + mi * 60 + sec) * 1000 + ms)])%list))
    = Ok acc'.
Proof.
  intros H. unfold hhmmss_sss in H. open_shape H. cbv zeta. cbn [fst snd app].
  match goal with
  | |- context [str ("#"%char :: ?r1 ++ ?r2 ++ ":"%char :: ?r3 ++ ?r4
                     ++ ":"%char :: ?r5 ++ ?r6 ++ "."%char :: ?r7 ++ ["#"%char])] =>
      replace ("#"%char :: r1 ++ r2 ++ ":"%char :: r3 ++ r4
               ++ ":"%char :: r5 ++ r6 ++ "."%char :: r7 ++ ["#"%char])
        with ("#"%char ::
              ((r1 ++ r2) ++ ":"%char :: (r3 ++ r4)
               ++ ":"%char :: ((r5 ++ r6) ++ "."%char :: r7)) ++ ["#"%char])
        by (repeat first [rewrite <- app_assoc | progress cbn [app]];
            reflexivity);
      assert (D1 : digits (r1 ++ r2)) by digit_runs;
      assert (N1 : (r1 ++ r2)%list <> []) by digit_runs;
      assert (D2 : digits (r3 ++ r4)) by digit_runs;
      assert (N2 : (r3 ++ r4)%list <> []) by digit_runs;
      assert (D3 : digits (r5 ++ r6)) by digit_runs;
      assert (N3 : (r5 ++ r6)%list <> []) by digit_runs;
      assert (D4 : digits r7) by digit_runs;
      assert (N4 : r7 <> []) by digit_runs;
      generalize dependent (r1 ++ r2)%list;
      generalize dependent (r3 ++ r4)%list;
      generalize dependent (r5 ++ r6)%list
  end.
  intros d3 D3 N3 d2 D2 N2 d1 D1 N1.
  fold (inner (str ("#"%char :: (d1 ++ ":"%char :: d2 ++ ":"%char :: d3
                                   ++ "."%char :: run10) ++ ["#"%char]))).
  rewrite inner_middle. unfold split. rewrite chars_str.
  rewrite split_chars_cut by (now apply digits_not).
  rewrite split_chars_cut by (now apply digits_not).
  rewrite split_chars_plain
    by (apply Forall_app; split;
        [now apply digits_not
        | constructor; [reflexivity | now apply digits_not]]).
  cbn [rev app index nth_error bind]. rewrite chars_str.
  rewrite split_chars_cut by (now apply digits_not).
  rewrite split_chars_plain by (now apply digits_not).
  cbn [rev app index nth_error bind].
  destruct (int_str_digits d1 N1 D1) as [z1 ->].
  destruct (int_str_digits d2 N2 D2) as [z2 ->].
  destruct (int_str_digits d3 N3 D3) as [z3 ->].
  destruct (padded_reads run10 D4 N4) as [z4 E4]. cbv zeta in E4.
  rewrite E4. cbn [bind except_KeyError_pass]. eauto.
Qed.

Lemma srt_stamp_reads (d1 d2 d3 d4 tail : list ascii)
    (acc : list time_point) (pos : Z) :
  digits d1 -> d1 <> [] -> digits d2 -> d2 <> [] ->
  digits d3 -> d3 <> [] -> digits d4 -> d4 <> [] ->
  List.length (d1 ++ ":"%char :: d2 ++ ":"%char :: d3 ++ ","%char :: d4)
  = 12%nat ->
  exists acc',
    (let m :=
       (pos, str ((d1 ++ ":"%char :: d2 ++ ":"%char :: d3 ++ ","%char :: d4)
                  ++ tail)) in
     let stamp := slice (snd m) (Some 0) (Some 12) in
     let s := split stamp ":" in
     s2_ <- index s 2 ;;
     let s2 := split s2_ "," in
     except_KeyError_pass acc
       (h0 <- index s 0 ;; h <- int_str h0 ;;
        m1 <- index s 1 ;; mi <- int_str m1 ;;
        s20 <- index s2 0 ;; sec <- int_str s20 ;;
        s21 <- index s2 1 ;; ms <- int_str s21 ;;
        Ok (acc ++ [(fst m, (h * 3600 + mi * 60 + sec) * 1000 + ms)])%list))
    = Ok acc'.
Proof.
  intros D1 N1 D2 N2 D3 N3 D4 N4 L. cbv zeta. cbn [fst snd].
  rewrite str_app, slice_prefix
    by (unfold len; rewrite <- length_chars, chars_str, L; reflexivity).
  unfold split. rewrite chars_str.
  rewrite split_chars_cut by (now apply digits_not).
  rewrite split_chars_cut by (now apply digits_not).
  rewrite split_chars_plain
    by (apply Forall_app; split;
        [now apply digits_not
        | constructor; [reflexivity | now apply digits_not]]).
  cbn [rev app index nth_error bind]. rewrite chars_str.
  rewrite split_chars_cut by (now apply digits_not).
  rewrite split_chars_plain by (now apply digits_not).
  cbn [rev app index nth_error bind].
  destruct (int_str_digits d1 N1 D1) as [z1 ->].
  destruct (int_str_digits d2 N2 D2) as [z2 ->].
  destruct (int_str_digits d3 N3 D3) as [z3 ->].
  destruct (int_str_digits d4 N4 D4) as [z4 ->].
  cbn [bind except_KeyError_pass]. eauto.
Qed.

Lemma srt_reads (l : list ascii) (acc : list time_point) (pos : Z) :
  shaped srt l ->
  exists acc',
    (let m := (pos, str l) in
     let stamp := slice (snd m) (Some 0) (Some 12) in
     let s := split stamp ":" in
     s2_ <- index s 2 ;;
     let s2 := split s2_ "," in
     except_KeyError_pass acc
       (h0 <- index s 0 ;; h <- int_str h0 ;;
        m1 <- index s 1 ;; mi <- int_str m1 ;;
        s20 <- index s2 0 ;; sec <- int_str s20 ;;
        s21 <- index s2 1 ;; ms <- int_str s21 ;;
        Ok (acc ++ [(fst m, (h * 3600 + mi * 60 + sec) * 1000 + ms)])%list))
    = Ok acc'.
Proof.
  intros H. unfold srt, hms_comma_ms in H. cbn [app] in H. open_shape H.
  match goal with
  | |- context [str (?r0 ++ ?r1 ++ [":"%char] ++ ?r3 ++ ?r4 ++ [":"%char]
                     ++ ?r6 ++ ?r7 ++ [","%char] ++ ?r9 ++ ?r10 ++ ?r11
                     ++ ?tail)] =>
      replace (r0 ++ r1 ++ [":"%char] ++ r3 ++ r4 ++ [":"%char]
               ++ r6 ++ r7 ++ [","%char] ++ r9 ++ r10 ++ r11 ++ tail)%list
        with (((r0 ++ r1) ++ ":"%char :: (r3 ++ r4) ++ ":"%char
               :: (r6 ++ r7) ++ ","%char :: (r9 ++ r10 ++ r11)) ++ tail)%list
        by (repeat first [rewrite <- app_assoc | progress cbn [app]];
            reflexivity);
      apply srt_stamp_reads; try solve [digit_runs]
  end.
  repeat first [rewrite length_app | progress cbn [List.length]]. lia.
Qed.

Lemma scan_returns (p : regex) (text : string)
    (msecs_of : string -> result Z) (time_pos : list time_point) :
  (forall l, shaped p l -> exists z, msecs_of (str l) = Ok z) ->
  exists r, scan p text msecs_of time_pos = Ok r.
Proof.
  intros H. unfold scan. apply for_each_returns. intros acc x Hx.
  apply finditer_from_shaped in Hx. destruct Hx as [l [E S]].
  destruct (H l S) as [z Hz]. rewrite E, Hz. cbn. eauto.
Qed.

Lemma scan_hhmmss_sss_returns (text : string) (time_pos : list time_point) :
  exists r, scan_hhmmss_sss text time_pos = Ok r.
Proof.
  unfold scan_hhmmss_sss. apply for_each_returns. intros acc [pos g] Hx.
  apply finditer_from_shaped in Hx. destruct Hx as [l [E S]].
  cbn [snd] in E. subst g. exact (hhmmss_sss_reads l acc pos S).
Qed.

Lemma scan_srt_returns (text : string) (time_pos : list time_point) :
  exists r, scan_srt text time_pos = Ok r.
Proof.
  unfold scan_srt. apply for_each_returns. intros acc [pos g] Hx.
  apply finditer_from_shaped in Hx. destruct Hx as [l [E S]].
  cbn [snd] in E. subst g. exact (srt_reads l acc pos S).
Qed.

(** X27: [get_transcript_timepoints] never raises on a transcript that has
    a text: whatever the patterns match is made of digits and separators
    in the places the loops read, so every [split], index and [int]
    succeeds and a sorted list of time points is returned. *)
Theorem X27_time_points_of_a_text_never_raise
    (duration : option Z) (m : media) (text : string) :
  fulltext m = Some text ->
  exists out, get_transcript_timepoints duration m = Ok out.
Proof.
  intros E. unfold get_transcript_timepoints. rewrite E. cbn [len_opt bind].
  destruct (len text =? 0); [eauto|].
  destruct (scan_returns mmss1 text (fun g => msecs_ms (inner g) ":")
              [(0, 0)] mmss1_reads) as [t1 ->]. cbn [bind].
  destruct (scan_returns hhmmss1 text (fun g => msecs_hms (inner g) ":")
              t1 hhmmss1_reads) as [t2 ->]. cbn [bind].
  destruct (scan_returns mmss2 text (fun g => msecs_ms (inner g) ".")
              t2 mmss2_reads) as [t3 ->]. cbn [bind].
  destruct (scan_returns hhmmss2 text (fun g => msecs_hms (inner g) ".")
              t3 hhmmss2_reads) as [t4 ->]. cbn [bind].
  destruct (scan_hhmmss_sss_returns text t4) as [t5 ->]. cbn [bind].
  destruct (scan_srt_returns text t5) as [t6 ->]. cbn [bind].
  eauto.
Qed.

Lemma X27_time_points_of_a_text_never_raise_witness :
  exists out, get_transcript_timepoints (Some 60000) media_example = Ok out.
Proof.
  exact (X27_time_points_of_a_text_never_raise (Some 60000) media_example
           transcript_text eq_refl).
Defined.

End StampFacts.
